(* ===== verification/_CoqProject ===== *)
-Q . S2P
Prelude.v
Version.v
Coords.v
VersionSpec.v
Pom.v
Xml.v
PomXml.v
Settings.v
Effective.v
Profile.v
Source.v
MetadataXml.v
Skipper.v
Oreq.v
Walker.v
WalkerFacts.v
WalkerGraph.v
Strict.v
StrictFacts.v
StrictRuns.v
Cas.v
Journal.v
JournalFacts.v
Index.v
IndexFacts.v
Gc.v
Fetch.v
CacheSource.v
CacheSourceFacts.v
Locks.v
LocksFacts.v
ActionGraph.v
Reactor.v
ReactorFacts.v
ReactorRun.v
Config.v
Loader.v
LoaderFacts.v
Project.v
M2.v
SortBy.v
StrictFormat.v
Lockfile.v
LockStore.v
Pull.v
PullFacts.v
Pour.v
LockfileFacts.v
PullRuns.v
LockDiff.v
LockDiffFacts.v
Mux.v
MuxFacts.v
MuxStream.v
MuxRuns.v
Request.v
CiRepro.v
Workers.v
Launcher.v
LauncherFacts.v
Respawn.v
Dispatch.v
NoDaemon.v
Verify.v
VerifyFacts.v
Shot.v
DaemonRuns.v
RoasteryStore.v
RoasteryAuth.v
RoasteryHttp.v
RoasteryGrpc.v
RoasteryClient.v
RoasteryFacts.v
RoasteryRuns.v
