(* ===== verification/Prelude.v ===== *)
(** * Barista: a verification library for the Rust workspace under src/

    Barista is a build tool for Maven projects.  It parses POM files and
    merges them along their parent chain, walks the dependency graph to pick
    one version of each artifact, keeps artifacts in a content-addressed
    cache with a journalled index, records the outcome in a lockfile, and
    runs a multi-module build by sending actions to a daemon over one
    multiplexed connection.  This library models those parts and states what
    each of them guarantees to the next.

    ** Conventions

    A pure function is a Rocq function of the same name.  [Result] is
    [result], [Option] is [option], a panic is an [Err] or an extra outcome
    written out where it can happen.  A [&mut self] method takes the state and
    returns it, and keeps the changes made before an error.  A [String] is its
    UTF-8 bytes.  Machine integers are [Z] or [N]; their wrap-around or
    saturation is written out where it can be reached.  An [IndexMap] is an
    insertion-ordered association list, a [HashMap] or [BTreeMap] is a [gmap]
    listed in key order where the code iterates.  Concurrent code (the
    reactor's dispatch, the multiplexer) is a step relation whose steps are
    what a task does between two suspension points.  What lies outside the
    workspace is a class or a parameter with the documented law used:
    [Environment] and [FileSystem] (std), [Digest] (SHA-256), [Codec]
    (bincode and CRC-32), [ModuleTree] (the POM of a directory),
    [QuickXml], [PlainXml] and [XmlErrors] (the event stream and entity
    decoding of quick-xml), [ConfigReader] (the TOML reader), [Http], [Sha1]
    and [ErrorText] (the HTTP client and the texts of its errors), [Ranges]
    and [PubGrub] (the version sets and the solver of pubgrub), [Rustls] (the
    TLS handshake, which refuses a client without a certificate when there is
    a verifier), the transport.

    ** Files

    - [Prelude]: results, bytes and strings, generic lemmas, tactics, hints.
    - [Version], [Coords], [VersionSpec]: crates/barista-version/src/lib.rs,
      barista-coords/src/lib.rs and barista-resolver/src/version_spec.rs.
    - [Xml]: the event loops shared by the readers of XML documents.
    - [Pom], [PomXml], [Effective], [Profile]: raw.rs (data, then readers),
      effective.rs and profile.rs of barista-pom.  [PomXml.parse_pom] reads a
      document; [Effective.build_effective] merges the parent chain and
      interpolates; [Profile.resolve_pom] adds BOM imports, profiles and
      managed dependencies.
    - [Settings], [Config], [Loader]: settings_xml.rs, schema.rs with
      barista_toml.rs, and sources.rs of barista-config, with [LoaderFacts].
    - [Source], [MetadataXml], [Skipper], [Oreq], [Walker]: source.rs with
      snapshot.rs, skipper.rs, oreq.rs and walker.rs of barista-resolver.  [Walker.walk]
      calls [resolve_pom] for each artifact and reaches the cache through the
      [MetadataSource] class of [Source].  [WalkerFacts] and [WalkerGraph]
      hold its theorems.
    - [Strict], [StrictFormat]: strict.rs and strict_format.rs of
      barista-resolver.  [Strict.resolve_strict] reads the universe through
      the same [MetadataSource] class and hands it to the solver;
      [StrictFacts] holds its theorems, [StrictRuns] concrete solvers.
    - [Cas], [Journal], [Index], [Gc]: cas.rs, journal.rs, index.rs, gc.rs and
      recovery.rs of barista-cache, with [JournalFacts] and [IndexFacts].
    - [Fetch], [CacheSource]: fetch.rs with checksum.rs, and source.rs of
      barista-cache, with [CacheSourceFacts].  [CacheSource] implements the
      operations of [MetadataSource] over the store and the index, and
      recovers a missing blob from a remote cache or from the repository.
      [Locks] is lock.rs with the order in which source.rs takes the two
      locks, as a system of processes and tasks; [LocksFacts] holds its
      theorems.
    - [ActionGraph], [Reactor]: action_graph/mod.rs, cmd/maven_vocab.rs and
      cmd/reactor.rs of barista-cli, with [ReactorFacts] and [ReactorRun].
    - [SortBy], [Lockfile], [LockStore], [LockDiff]: schema.rs with mode.rs
      and signature.rs, its file on disk, and diff.rs of barista-lockfile,
      with [LockfileFacts] and [LockDiffFacts].
    - [Project], [M2], [Pull], [Pour]: project.rs of barista-cli, m2.rs of
      barista-cache, cmd/pull.rs and cmd/pour.rs of barista-cli.  [Pull]
      composes the loader, the readers, [resolve_pom], [walk], the cache, the
      mirror and the lockfile; [PullFacts] holds its theorems and [PullRuns]
      a concrete machine.
    - [Mux]: mux/mod.rs, mux/handle.rs and mux/cancel.rs of barista-ipc, with
      [MuxFacts], [MuxStream] and [MuxRuns].
    - [Workers], [Launcher], [Respawn]: daemon/workers.rs, launcher.rs with
      maven_home.rs, and respawn.rs of barista-cli, with [LauncherFacts].  The
      machine (processes, clock, files, sockets) is the class [Os], a session
      with the daemon the class [Daemon]; [Respawn.attempt_faithful] joins the
      latter to [Mux].
    - [Request], [CiRepro], [Dispatch], [NoDaemon], [Verify], [Shot]: the
      request of an action (action_graph/mod.rs and the messages it fills),
      cmd/ci_repro.rs, the loop over the actions that verify.rs and shot.rs
      share, cmd/no_daemon.rs, cmd/verify.rs and cmd/shot.rs of barista-cli.
      [Verify] composes the project root, the loader, [Pour], [Reactor], the
      launcher and [Respawn]; the modules of a level run in every
      interleaving of their attempts and restarts.  [VerifyFacts] holds its
      theorems, [DaemonRuns] a concrete machine and its runs.
    - [RoasteryStore], [RoasteryAuth], [RoasteryHttp], [RoasteryGrpc]: the
      server of the remote cache, roastery/src: storage/ with error.rs,
      config.rs with auth/ and server.rs, proto/barista.rs with upstream/, and
      proto/reapi.rs with reapi/resource.rs.  Between two calls of the file
      system a list of turns lets other requests act and calls fail.
      [RoasteryClient] is barista-roastery-client, whose HTTP client is the
      class [Exchange]; the server is one instance of it.  [RoasteryFacts]
      holds the theorems, [RoasteryRuns] a concrete server.

    ** What the theorems show

    - Versions: the order on numeric versions is the numeric order, [cmp] is
      antisymmetric but not transitive, normalization reaches a normal form,
      a requirement with brackets admits a version exactly when one of its
      pieces does, a bracket with its bound and a parenthesis without, and
      printed requirements and coordinates parse back.
    - POMs: the parent chain and the merge are characterised exactly,
      interpolation replaces every placeholder it can, BOM expansion leaves no
      import behind, and a resolved POM has concrete, managed dependencies.
    - XML readers: the event loops of POMs, snapshot metadata and settings
      compute, on the events of any element tree, a function defined by
      recursion on the tree.
    - Configuration: each field of the loaded configuration comes from the
      first source that sets it, in the documented order, and the search for
      a project file ends.
    - Resolution: the walk ends on a finite universe of coordinates; its graph
      is a tree of nearest winners in which every declared dependency that the
      rules do not drop is accounted for; the request optimiser changes no
      result and the skipper no graph.  The version texts of a strict
      resolution satisfy the requirements that were declared (for a spec
      whose bounds are in order, and over the part of the version order that
      is one), the solver asks only for what was read before and sees only
      declared edges, and the reading ends.
    - Cache: a stored object is read back and never altered; the journal
      replays exactly what was appended; the index reopens to the state it
      had; a crash after any prefix of an operation's file writes, its last
      append torn anywhere, leaves an index that reopens to the state before
      or after the operation, but for a torn header; recovery is idempotent
      and always ends; collection evicts the least recently used rows down to
      the watermark; the recovery scan removes exactly the dangling rows that
      can be removed and the orphaned blobs.  What the cache source returns has the digest it is
      stored under, a coordinate keeps its answer, and a remote cache changes
      no answer as long as the sizes it announces can be allocated.  At most one task over all processes fetches an artifact, a
      lock is never left behind, a timeout is truthful, and the locks cannot
      deadlock.
    - Reactor: the level sort is exact and its cycle report is a cycle; in
      every interleaving the dispatch respects budget and dependencies, ends,
      and returns the result of the level-by-level fold.
    - Lockfile: timestamps are the proleptic Gregorian calendar, a frozen
      lockfile is accepted exactly when its signature matches, and the diff of
      two lockfiles pairs their entries and reports each pair that differs as
      the change that it is.
    - Commands: a successful pull records exactly the resolved graph, with
      every artifact in the store, the index and the mirror; a failed or a
      frozen one keeps the lockfile; a second one changes nothing; a pour
      after it places the pinned bytes.  Wherever the write of the lockfile
      stops, the file has its old or its new text.  Links of the mirror are
      counted, and linked artifacts survive the collector.
    - Multiplexer: each client receives exactly the stream its peer sent for
      its correlation id, up to its terminal event or a crash report, in every
      interleaving in which its own writes succeed; queues stay within their
      bounds.
    - Daemon and lifecycle: finding or starting a daemon ends and gives a
      socket that accepted a connection; an attempt reports what the daemon
      sent or a crash; an exit code of 0 means that every phase ran for every
      module, in the order of discovery, with exit code 0, unless a task was
      lost; the daemon receives the requests of the phases in order, each once,
      or twice after a crash; the credentials are those of the named servers
      of the loaded settings, they go to the deploy action only, and an
      encrypted one is refused;
      a shot is warm exactly when what the last one saw is unchanged; all
      parts of a reproducibility seed name one instant.
    - Remote cache: under any requests, interference and failures every file
      of the store hashes to its name and nothing is lost; a blob that is
      served has the digest asked for, and a digest that is confirmed is
      stored; an upload over either protocol can be
      read over both; the client's batch query is exact; a server that can be
      reached from outside admits nobody without a token or a certificate,
      and both protocols admit the same requests.

    Theorems whose name states a defect ([cmp_not_transitive],
    [eq_cmp_mismatch], [interp_mangles_non_ascii], [depmgt_parent_wins],
    [profile_bom_not_expanded], [strip_snapshot_panics],
    [skipper_masks_errors], [straddling_put_lost],
    [concurrent_compact_loses_put], [torn_header_fatal],
    [gc_dangles_shared_blob], [panicked_module_passes],
    [release_reported_as_downgrade], [diff_order_matters],
    [event_after_crash_report], [server_entry_leaks],
    [entity_reference_dropped], [configured_settings_path_ignored],
    [strict_ignores_management], [range_text_garbled], [recheck_idle],
    [m2_path_escapes], [frozen_writes], [scope_ignored], [strict_ignored],
    [no_fetch_writes_nothing], [no_fetch_panics], [deploy_submitted_twice],
    [respawn_keeps_pid_file], [respawn_waits_forever], [two_daemons],
    [arguments_ignored], [workers_round_up], [coords_name_a_host],
    [reupload_not_verified], [batch_read_unlimited], [token_not_enough],
    [announced_size_panics], [lost_task_passes]) are proved behaviours of the
    code that depart from its comments or purpose.

    ** Fuel

    Recursion that is not structural takes fuel, and running out is a value
    ([None]) distinct from every result of the code.  The parsers
    ([Version.parse_loop], [VersionSpec.parse_hard_loop],
    [Effective.pass_loop]) consume a byte per round and get one unit per byte;
    [parse_terminates] and [parse_hard_total] show that this is enough.
    [Effective.interp] keeps the code's own limit on passes.  The journal
    readers get one unit per byte of the file, enough by [open_terminates].
    [Reactor.kahn_loop] gets one unit per module and [cycle_walk] two more
    than the modules; [reactor_exact] shows that neither runs out.
    [Reactor.discover_at] follows the directory tree, which the code itself
    does not bound.  [Walker.walk] takes its fuel as an argument;
    [walk_terminates] gives an amount that is enough whenever the coordinates
    reachable from the root are finite; [Strict.bfs] is bounded in the same
    way by [prefetch_terminates].  The XML loops get one unit per event,
    enough by [parse_pom_total] and [parse_settings_ends];
    [Loader.find_loop] gets one per byte of the path, enough by
    [find_project_config_exact] and [load_total], and so does
    [Project.walk_up], by [project_root_exact]; [Pull.attr_loop] moves past an
    occurrence each round ([declares_total]), and [pull_total] shows that a
    pull returns whenever its walk does; the byte rewriters of
    [Fetch] and [CacheSource] get one per byte.  The loops of [Launcher] sleep
    25 and 50 milliseconds a round and get one unit per such step of
    their timeout, enough by [wait_for_ready_exact]; [Respawn] makes two
    attempts, which is all the code makes, and ends by [submit_total].
    [RoasteryGrpc.chunks] gets one unit for each byte and
    [RoasteryClient.missing_loop] one for each digest, enough by
    [chunks_concat] and [missing_exact].

    ** Not modelled

    The tokenizer of quick-xml, the HTTP and TLS client, the pubgrub solver
    and the codecs, which are third-party and enter as classes; the
    memory-mapped POM blobs; sockets and peer credentials; the taps file and
    the .mvn directory; of the
    remote cache the stubs for S3 and GCS, the matching of routes,
    metrics, and responses cut off while they are streamed; traffic capture and analysis, telemetry, benchmarks
    and test fixtures; argument parsing and output of the command line.  Of
    the daemon's launcher, the text of error messages and the paths of
    Windows.  The worker budget of the lifecycle commands is not imposed, so
    that what is shown of every interleaving holds of those within it; a
    session with the daemon is one step of a module, and a thread panics
    between two steps only.  An attempt on a lock file and the poll that takes
    its answer are one step.  barback, the Java daemon. *)

From stdpp Require Export base gmap strings list numbers.
From Stdlib Require Export Ascii String.

Open Scope string_scope.
Open Scope list_scope.
Open Scope nat_scope.

(** [length] is that of lists; strings have [String.length]. *)
Abbreviation length := List.length.

#[global] Arguments String.append !_ _ : simpl nomatch.

Declare Scope barista_scope.
Delimit Scope barista_scope with barista.

(** ** Results

    Rust's [Result<A, E>]; [?] is the bind of the monad. *)

Inductive result (E A : Type) : Type :=
  | Ok (a : A)
  | Err (e : E).
Arguments Ok {E A} a.
Arguments Err {E A} e.

#[global] Instance result_mret E : MRet (result E) := fun A a => Ok a.
#[global] Instance result_mbind E : MBind (result E) :=
  fun A B k m => match m with Ok a => k a | Err e => Err e end.
#[global] Instance result_fmap E : FMap (result E) :=
  fun A B f m => match m with Ok a => Ok (f a) | Err e => Err e end.

(** [map_err] of the standard library. *)
Definition map_err {E F A} (f : E -> F) (r : result E A) : result F A :=
  match r with Ok a => Ok a | Err e => Err (f e) end.

(** [Option::ok_or]. *)
Definition ok_or {E A} (o : option A) (e : E) : result E A :=
  match o with Some a => Ok a | None => Err e end.

Definition is_ok {E A} (r : result E A) : bool :=
  match r with Ok _ => true | Err _ => false end.

Lemma bind_ok_inv {E A B} (m : result E A) (k : A -> result E B) b :
  m ≫= k = Ok b -> exists a, m = Ok a /\ k a = Ok b.
Proof. destruct m; cbn; intros H; [eauto | discriminate]. Qed.

(** ** Bytes of a string

    A Rust [String] is its UTF-8 byte sequence; so is a Stdlib [string]. *)

Definition code (a : ascii) : N := N_of_ascii a.

Definition is_ascii_digit (a : ascii) : bool :=
  (48 <=? code a)%N && (code a <=? 57)%N.

Definition is_ascii_upper (a : ascii) : bool :=
  (65 <=? code a)%N && (code a <=? 90)%N.

Definition is_ascii (a : ascii) : bool := (code a <? 128)%N.

(** A byte [10xxxxxx]: inside a multi-byte character. *)
Definition is_continuation (a : ascii) : bool :=
  (128 <=? code a)%N && (code a <? 192)%N.

(** [u8::to_ascii_lowercase]. *)
Definition ascii_lower (a : ascii) : ascii :=
  if is_ascii_upper a then ascii_of_N (code a + 32) else a.

Fixpoint str_map (f : ascii -> ascii) (s : string) : string :=
  match s with
  | EmptyString => EmptyString
  | String a s' => String (f a) (str_map f s')
  end.

Fixpoint str_forallb (f : ascii -> bool) (s : string) : bool :=
  match s with
  | EmptyString => true
  | String a s' => f a && str_forallb f s'
  end.

Fixpoint str_filter (f : ascii -> bool) (s : string) : string :=
  match s with
  | EmptyString => EmptyString
  | String a s' => if f a then String a (str_filter f s') else str_filter f s'
  end.

(** [str::to_ascii_lowercase]. *)
Definition to_ascii_lowercase : string -> string := str_map ascii_lower.

(** [str::eq_ignore_ascii_case]. *)
Definition eq_ignore_ascii_case (a b : string) : bool :=
  String.eqb (to_ascii_lowercase a) (to_ascii_lowercase b).

(** [str.chars().count()]: the bytes that start a character. *)
Definition char_count (s : string) : nat :=
  String.length (str_filter (fun a => negb (is_continuation a)) s).

Definition is_empty (s : string) : bool := String.eqb s "".

(** [str::contains(char)] for an ASCII character. *)
Definition str_contains (c : ascii) (s : string) : bool :=
  negb (str_forallb (fun a => negb (Ascii.eqb a c)) s).

(** [&s[n..]] and [&s[..n]]. *)
Fixpoint str_drop (n : nat) (s : string) : string :=
  match n, s with
  | O, _ => s
  | S n', String _ s' => str_drop n' s'
  | S _, EmptyString => EmptyString
  end.

Fixpoint str_take (n : nat) (s : string) : string :=
  match n, s with
  | O, _ => EmptyString
  | S n', String a s' => String a (str_take n' s')
  | S _, EmptyString => EmptyString
  end.

(** [&s[i..j]]. *)
Definition slice (s : string) (i j : nat) : string := str_take (j - i) (str_drop i s).

(** [s.split(c)] for a one-byte separator: never the empty list. *)
Fixpoint str_split (c : ascii) (s : string) : list string :=
  match s with
  | EmptyString => [EmptyString]
  | String a s' =>
      if Ascii.eqb a c then EmptyString :: str_split c s'
      else match str_split c s' with
           | [] => [String a EmptyString]
           | p :: ps => String a p :: ps
           end
  end.

(** [parts.join(sep)]. *)
Fixpoint str_join (sep : string) (l : list string) : string :=
  match l with
  | [] => ""
  | [x] => x
  | x :: xs => x +:+ sep +:+ str_join sep xs
  end.

(** [s.split_once(c)]. *)
Fixpoint str_split_once (c : ascii) (s : string) : option (string * string) :=
  match s with
  | EmptyString => None
  | String a s' =>
      if Ascii.eqb a c then Some (EmptyString, s')
      else match str_split_once c s' with
           | Some (x, y) => Some (String a x, y)
           | None => None
           end
  end.

(** [str::trim] strips the characters with the Unicode [White_Space]
    property. [ws_len l] is the length in bytes of a white-space character
    at the head of [l] (0 when there is none); [ws_len_rev] is the same for
    a reversed byte list, i.e. for the last character of the string. *)
Definition ws1 (x : N) : bool := ((9 <=? x) && (x <=? 13) || (x =? 32))%N.
Definition ws2 (x y : N) : bool := ((x =? 194) && ((y =? 133) || (y =? 160)))%N.
Definition ws3 (x y z : N) : bool :=
  (  ((x =? 225) && (y =? 154) && (z =? 128))
  || ((x =? 226) && (y =? 128) && ((128 <=? z) && (z <=? 138) || (z =? 168) || (z =? 169) || (z =? 175)))
  || ((x =? 226) && (y =? 129) && (z =? 159))
  || ((x =? 227) && (y =? 128) && (z =? 128)))%N.

Definition ws_len (l : list ascii) : nat :=
  match l with
  | a :: l1 =>
      if ws1 (code a) then 1 else
      match l1 with
      | b :: l2 =>
          if ws2 (code a) (code b) then 2 else
          match l2 with
          | c :: _ => if ws3 (code a) (code b) (code c) then 3 else 0
          | [] => 0
          end
      | [] => 0
      end
  | [] => 0
  end.

Definition ws_len_rev (l : list ascii) : nat :=
  match l with
  | c :: l1 =>
      if ws1 (code c) then 1 else
      match l1 with
      | b :: l2 =>
          if ws2 (code b) (code c) then 2 else
          match l2 with
          | a :: _ => if ws3 (code a) (code b) (code c) then 3 else 0
          | [] => 0
          end
      | [] => 0
      end
  | [] => 0
  end.

Fixpoint strip_ws (len : list ascii -> nat) (fuel : nat) (l : list ascii) : list ascii :=
  match fuel with
  | O => l
  | S fuel' => match len l with
               | O => l
               | S k => strip_ws len fuel' (drop (S k) l)
               end
  end.

Definition trim_bytes (l : list ascii) : list ascii :=
  let l1 := strip_ws ws_len (List.length l) l in
  rev (strip_ws ws_len_rev (List.length l1) (rev l1)).

Definition trim (s : string) : string :=
  string_of_list_ascii (trim_bytes (list_ascii_of_string s)).

(** ** Machine integers *)

Definition U32_MAX : Z := 4294967295.
Definition U64_MAX : Z := 18446744073709551615.

(** [u32::saturating_add], [u64::saturating_add], [u64::saturating_sub]. *)
Definition u32_sat_add (a b : Z) : Z := Z.min (a + b) U32_MAX.
Definition u64_sat_add (a b : Z) : Z := Z.min (a + b) U64_MAX.
Definition u64_sat_sub (a b : Z) : Z := Z.max (a - b) 0.

(** Wrap-around addition of an [AtomicU64::fetch_add]. *)
Definition u64_wrap_add (a b : Z) : Z := (a + b) mod (U64_MAX + 1).

(** ** Text and numbers *)

(** [s.split(pred)] for one-byte separators. *)
Fixpoint str_split_on (sep : ascii -> bool) (s : string) : list string :=
  match s with
  | EmptyString => [EmptyString]
  | String a s' =>
      if sep a then EmptyString :: str_split_on sep s'
      else match str_split_on sep s' with
           | [] => [String a EmptyString]
           | p :: ps => String a p :: ps
           end
  end.

(** [s.chars().take_while(p).collect()] for a predicate of ASCII characters. *)
Fixpoint str_take_while (p : ascii -> bool) (s : string) : string :=
  match s with
  | EmptyString => EmptyString
  | String a s' => if p a then String a (str_take_while p s') else EmptyString
  end.

(** The decimal value of a string of digits. *)
Fixpoint decimal (acc : Z) (s : string) : Z :=
  match s with
  | EmptyString => acc
  | String a s' => decimal (acc * 10 + (Z.of_N (code a) - 48)) s'
  end.

(** [s.parse::<uN>().ok()]: an optional [+], then digits, within the type. *)
Definition parse_uint (max : Z) (s : string) : option Z :=
  let digits := match s with String a s' => if Ascii.eqb a "+" then s' else s | _ => s end in
  if is_empty digits || negb (str_forallb is_ascii_digit digits) then None
  else if (decimal 0 digits <=? max)%Z then Some (decimal 0 digits) else None.

(** [s.strip_prefix(p)]. *)
Fixpoint str_strip_prefix (p s : string) : option string :=
  match p, s with
  | EmptyString, _ => Some s
  | String a p', String b s' => if Ascii.eqb a b then str_strip_prefix p' s' else None
  | String _ _, EmptyString => None
  end.

(** [s.starts_with(c)] for a one-byte character. *)
Definition str_starts (c : ascii) (s : string) : bool :=
  match s with String a _ => Ascii.eqb a c | EmptyString => false end.

(** ** Automation *)

(** Case analysis on the scrutinee of some [match] or [if] of the goal. *)
Ltac case_goal :=
  match goal with
  | |- context [match ?x with _ => _ end] => destruct x eqn:?
  end.

Ltac case_hyp H :=
  match type of H with
  | context [match ?x with _ => _ end] => destruct x eqn:?
  end.

(** Undo a successful bind in a hypothesis. *)
Ltac inv_bind H :=
  let a := fresh "a" in let E := fresh "E" in
  apply bind_ok_inv in H; destruct H as (a & E & H).

Create HintDb barista.

(** ** Lemmas on lists *)

Lemma nodup_fmap_filter {A B} (f : A -> B) (P : A -> Prop) `{!forall x, Decision (P x)} l :
  NoDup (f <$> l) -> NoDup (f <$> filter P l).
Proof.
  induction l as [|x l IH]; [done |]. rewrite list.filter_cons. cbn. intros [Hn Hd]%list.NoDup_cons.
  destruct (decide (P x)); [| by apply IH]. cbn. apply list.NoDup_cons. split; [| by apply IH].
  intros (y & E & [_ Hy]%list_elem_of_filter)%list_elem_of_fmap. apply Hn. rewrite E.
  by apply list_elem_of_fmap_2.
Qed.

Lemma lookup_snoc {A} (L : list A) x t y :
  (L ++ [x]) !! t = Some y -> L !! t = Some y \/ (t = length L /\ y = x).
Proof.
  intros H. apply lookup_app_Some in H as [|[Hge H]]; [by left | right].
  apply list_lookup_singleton_Some in H as [? ?]. split; [lia | done].
Qed.

(** ** Lemmas on strings *)

Section StringLemmas.

Lemma str_length_app (s t : string) :
  String.length (s +:+ t) = String.length s + String.length t.
Proof. induction s; cbn; congruence. Qed.

Lemma str_app_nil_r (s : string) : s +:+ "" = s.
Proof. induction s; cbn; congruence. Qed.

Lemma str_app_assoc (a b c : string) : (a +:+ b) +:+ c = a +:+ (b +:+ c).
Proof. induction a; cbn; congruence. Qed.

Lemma list_ascii_app (s t : string) :
  list_ascii_of_string (s +:+ t) = list_ascii_of_string s ++ list_ascii_of_string t.
Proof. induction s; cbn; congruence. Qed.

Lemma string_of_list_app (l k : list ascii) :
  string_of_list_ascii (l ++ k) = string_of_list_ascii l +:+ string_of_list_ascii k.
Proof. induction l; cbn; congruence. Qed.

Lemma list_ascii_length (s : string) :
  List.length (list_ascii_of_string s) = String.length s.
Proof. induction s; cbn; congruence. Qed.

Lemma str_drop_app (s t : string) : str_drop (String.length s) (s +:+ t) = t.
Proof. induction s; cbn; auto. Qed.

Lemma str_take_app (s t : string) : str_take (String.length s) (s +:+ t) = s.
Proof. induction s; cbn; [by destruct t | congruence]. Qed.

Lemma str_take_all (s : string) : str_take (String.length s) s = s.
Proof. rewrite <- (str_app_nil_r s) at 2. apply str_take_app. Qed.

Lemma str_drop_length (n : nat) (s : string) :
  String.length (str_drop n s) = String.length s - n.
Proof. revert s; induction n; destruct s; cbn; auto. Qed.

Lemma str_forallb_app f (s t : string) :
  str_forallb f (s +:+ t) = str_forallb f s && str_forallb f t.
Proof. induction s; cbn; [done | by rewrite IHs, andb_assoc]. Qed.

Lemma str_compare_refl (s : string) : String.compare s s = Eq.
Proof.
  induction s as [|a s IH]; cbn; [done |].
  unfold Ascii.compare. by rewrite N.compare_refl.
Qed.

Lemma str_compare_eq (s t : string) : String.compare s t = Eq <-> s = t.
Proof.
  split; [apply String.compare_eq_iff | intros ->; apply str_compare_refl].
Qed.

(** The separator does not occur in [s]. *)
Definition sep_free (c : ascii) (s : string) : bool :=
  str_forallb (fun a => negb (Ascii.eqb a c)) s.

Lemma str_contains_free c s : str_contains c s = negb (sep_free c s).
Proof. done. Qed.

Lemma str_split_nonempty c s : str_split c s <> [].
Proof. destruct s; cbn; repeat case_match; done. Qed.

Lemma str_split_free c s : sep_free c s = true -> str_split c s = [s].
Proof.
  unfold sep_free. induction s as [|a s IH]; cbn; [done |].
  destruct (Ascii.eqb a c); cbn; [done |]. intros H. by rewrite IH.
Qed.

Lemma str_split_app c s t :
  sep_free c s = true ->
  str_split c (s +:+ String c t) = s :: str_split c t.
Proof.
  unfold sep_free. induction s as [|a s IH]; cbn.
  - by rewrite Ascii.eqb_refl.
  - destruct (Ascii.eqb a c); cbn; [done |]. intros H. by rewrite IH.
Qed.

Lemma str_join_cons sep x y l :
  str_join sep (x :: y :: l) = x +:+ (sep +:+ str_join sep (y :: l)).
Proof. done. Qed.

(** Splitting a joined list of separator-free parts gives it back. *)
Lemma str_split_join c l :
  l <> [] -> Forall (fun p => sep_free c p = true) l ->
  str_split c (str_join (String c "") l) = l.
Proof.
  intros Hne HF. induction HF as [|x l Hx HF IH]; [done |].
  destruct l as [|y l]; [by apply str_split_free |].
  rewrite str_join_cons. change (String c "" +:+ ?t) with (String c t).
  rewrite str_split_app by done. by rewrite IH.
Qed.

Lemma str_split_parts_free c s : Forall (fun p => sep_free c p = true) (str_split c s).
Proof.
  unfold sep_free. induction s as [|a s IH]; cbn; [repeat constructor |].
  destruct (Ascii.eqb a c) eqn:Ha; [by constructor |].
  destruct (str_split c s) as [|p ps]; inversion IH; subst; constructor; cbn;
    rewrite ?Ha; auto.
Qed.

Lemma split_once_free c k t :
  sep_free c k = true -> str_split_once c (k +:+ String c t) = Some (k, t).
Proof.
  induction k as [|a k IH]; cbn; [by rewrite Ascii.eqb_refl |].
  intros [H1 H2]%andb_true_iff. apply negb_true_iff in H1. rewrite H1.
  unfold sep_free in IH. by rewrite IH.
Qed.

Lemma split_once_sep_free c s x y : str_split_once c s = Some (x, y) -> sep_free c x = true.
Proof.
  revert x. induction s as [|a s IH]; intros x; cbn [str_split_once]; [done |].
  destruct (Ascii.eqb a c) eqn:E; [by intros [= <- <-] |].
  destruct (str_split_once c s) as [[x' y']|]; [| done]. intros [= <- <-].
  unfold sep_free in *. cbn. rewrite E. by rewrite (IH x' eq_refl).
Qed.

Lemma str_join_split c s : str_join (String c "") (str_split c s) = s.
Proof.
  induction s as [|a s IH]; cbn; [done |].
  destruct (Ascii.eqb a c) eqn:Ha.
  - apply Ascii.eqb_eq in Ha as ->. cbn.
    destruct (str_split c s) as [|p ps] eqn:E; [by apply str_split_nonempty in E |].
    cbn in *. congruence.
  - destruct (str_split c s) as [|p ps] eqn:E; [by apply str_split_nonempty in E |].
    destruct ps; cbn in *; congruence.
Qed.

End StringLemmas.

(** ** Lemmas on numbers *)

Lemma decimal_nonneg s : forall acc, str_forallb is_ascii_digit s = true -> (0 <= acc)%Z -> (0 <= decimal acc s)%Z.
Proof.
  induction s as [|a s IH]; cbn; intros acc Hd Hacc; [done |]. apply andb_true_iff in Hd as [Ha Hs].
  unfold is_ascii_digit in Ha. apply andb_true_iff in Ha as [H1%N.leb_le _]. apply IH; [done | lia].
Qed.

Lemma parse_uint_range max s n : parse_uint max s = Some n -> (0 <= n <= max)%Z.
Proof.
  unfold parse_uint. cbn zeta. set (ds := match s with String a s' => if Ascii.eqb a "+" then s' else s | _ => s end).
  destruct (is_empty ds || negb (str_forallb is_ascii_digit ds)) eqn:E; [done |].
  apply orb_false_iff in E as [_ E%negb_false_iff]. destruct (Z.leb_spec (decimal 0 ds) max); [| done].
  intros [= <-]. split; [by apply decimal_nonneg | done].
Qed.

(** ** Trimming *)

Section TrimLemmas.

(** Neither end of [s] is white space. *)
Definition trimmed_bytes (l : list ascii) : Prop := ws_len l = 0 /\ ws_len_rev (rev l) = 0.
Definition trimmed (s : string) : Prop := trimmed_bytes (list_ascii_of_string s).

Lemma strip_ws_0 len n l : len l = 0 -> strip_ws len n l = l.
Proof. destruct n; cbn; [done |]. by intros ->. Qed.

Lemma strip_ws_suffix len n l : exists p, l = p ++ strip_ws len n l.
Proof.
  revert l. induction n as [|n IH]; intros l; cbn; [by exists [] |].
  destruct (len l) as [|k]; [by exists [] |].
  destruct (IH (drop (S k) l)) as [p Hp]. exists (take (S k) l ++ p).
  rewrite <- app_assoc, <- Hp. symmetry. apply take_drop.
Qed.

Lemma strip_ws_done len n l : length l <= n -> len [] = 0 -> len (strip_ws len n l) = 0.
Proof.
  intros Hn H0. revert l Hn. induction n as [|n IH]; intros l Hn; cbn.
  - destruct l; [done | cbn in Hn; lia].
  - destruct (len l) eqn:E; [done |]. apply IH. rewrite length_drop.
    destruct l; cbn in *; lia.
Qed.

Lemma ws_len_prefix l p : ws_len (l ++ p) = 0 -> ws_len l = 0.
Proof.
  destruct l as [|a [|b [|c l]]]; cbn; try done; destruct (ws1 (code a)); try done.
  by destruct (ws2 (code a) (code b)).
Qed.

Lemma trim_bytes_trimmed l : trimmed_bytes (trim_bytes l).
Proof.
  unfold trim_bytes, trimmed_bytes. set (l1 := strip_ws ws_len _ l).
  assert (ws_len l1 = 0) as H1 by (apply strip_ws_done; auto).
  destruct (strip_ws_suffix ws_len_rev (length l1) (rev l1)) as [p Hp].
  rewrite rev_involutive. split.
  - apply (ws_len_prefix _ (rev p)). rewrite <- rev_app_distr, <- Hp. by rewrite rev_involutive.
  - apply strip_ws_done; [by rewrite length_rev | done].
Qed.

Lemma trim_bytes_id l : trimmed_bytes l -> trim_bytes l = l.
Proof.
  intros [H1 H2]. unfold trim_bytes. cbn zeta. rewrite (strip_ws_0 ws_len _ l) by done.
  rewrite (strip_ws_0 ws_len_rev) by done. apply rev_involutive.
Qed.

Lemma trim_trimmed s : trimmed (trim s).
Proof.
  unfold trimmed, trim. rewrite list_ascii_of_string_of_list_ascii. apply trim_bytes_trimmed.
Qed.

Lemma trim_id s : trimmed s -> trim s = s.
Proof.
  unfold trimmed, trim. intros H. by rewrite trim_bytes_id, string_of_list_ascii_of_string.
Qed.

Lemma trim_bytes_incl l a : In a (trim_bytes l) -> In a l.
Proof.
  unfold trim_bytes. intros H%in_rev.
  destruct (strip_ws_suffix ws_len (length l) l) as [p Hp].
  set (l1 := strip_ws ws_len _ l) in *.
  destruct (strip_ws_suffix ws_len_rev (length l1) (rev l1)) as [q Hq].
  rewrite Hp. apply in_or_app. right. apply in_rev. rewrite Hq. apply in_or_app. by right.
Qed.

Lemma str_forallb_list f s :
  str_forallb f s = true <-> (forall a, In a (list_ascii_of_string s) -> f a = true).
Proof.
  induction s as [|c s IH]; cbn; [by split |].
  rewrite andb_true_iff, IH. split; [intros [Hc Hs] a [->|]; auto | auto].
Qed.

(** Trimming keeps the bytes it does not drop. *)
Lemma trim_forallb f s : str_forallb f s = true -> str_forallb f (trim s) = true.
Proof.
  rewrite !str_forallb_list. unfold trim.
  rewrite list_ascii_of_string_of_list_ascii. eauto using trim_bytes_incl.
Qed.

(** A byte that is part of no white-space character. *)
Definition solid (a : ascii) : bool := (33 <=? code a)%N && (code a <=? 127)%N.

Lemma solid_ws a : solid a = true ->
  ws1 (code a) = false
  /\ (forall x, ws2 x (code a) = false /\ ws2 (code a) x = false)
  /\ (forall x y, ws3 x (code a) y = false /\ ws3 x y (code a) = false /\ ws3 (code a) x y = false).
Proof.
  unfold solid, ws1, ws2, ws3. intros [H1 H2]%andb_prop.
  apply N.leb_le in H1, H2.
  repeat match goal with
    | |- context [(?x =? ?y)%N] =>
        match x with code _ => idtac end; destruct (N.eqb_spec x y); [exfalso; lia |]
    | |- context [(?x <=? ?y)%N] =>
        match x with code _ => idtac | _ => match y with code _ => idtac end end;
        destruct (N.leb_spec x y); try (exfalso; lia)
    end.
  all: split_and!; intros; rewrite ?andb_false_r, ?orb_false_r; cbn; rewrite ?andb_false_r; try done.
  all: split_and!; rewrite ?andb_false_r; done.
Qed.

(** A solid byte after (or before) a trimmed text keeps that end trimmed. *)
Lemma ws_len_solid l c k : ws_len l = 0 -> solid c = true -> ws_len (l ++ c :: k) = 0.
Proof.
  intros HL (H1 & H2 & H3)%solid_ws.
  destruct l as [|a [|b [|d l]]]; cbn in *.
  - rewrite H1. destruct k as [|x k]; [done |]. rewrite (proj2 (H2 _)).
    destruct k as [|y k]; [done |]. by rewrite (proj2 (proj2 (H3 _ _))).
  - destruct (ws1 (code a)); [done |]. rewrite (proj1 (H2 _)).
    destruct k as [|y k]; [done |]. by rewrite (proj1 (H3 _ _)).
  - destruct (ws1 (code a)); [done |]. destruct (ws2 (code a) (code b)); [done |].
    by rewrite (proj1 (proj2 (H3 _ _))).
  - done.
Qed.

Lemma ws_len_rev_solid l c k : ws_len_rev l = 0 -> solid c = true -> ws_len_rev (l ++ c :: k) = 0.
Proof.
  intros HL (H1 & H2 & H3)%solid_ws.
  destruct l as [|a [|b [|d l]]]; cbn in *.
  - rewrite H1. destruct k as [|x k]; [done |]. rewrite (proj1 (H2 _)).
    destruct k as [|y k]; [done |]. by rewrite (proj1 (proj2 (H3 _ _))).
  - destruct (ws1 (code a)); [done |]. rewrite (proj2 (H2 _)).
    destruct k as [|y k]; [done |]. by rewrite (proj1 (H3 _ _)).
  - destruct (ws1 (code a)); [done |]. destruct (ws2 (code b) (code a)); [done |].
    by rewrite (proj2 (proj2 (H3 _ _))).
  - done.
Qed.

(** Two trimmed texts around a solid byte are a trimmed text. *)
Lemma trimmed_around s c t :
  trimmed s -> trimmed t -> solid c = true -> trimmed (s +:+ String c t).
Proof.
  unfold trimmed, trimmed_bytes. rewrite list_ascii_app. cbn. intros [H1 H2] [H3 H4] Hc. split.
  - by apply ws_len_solid.
  - rewrite rev_app_distr. cbn. rewrite <- app_assoc. by apply ws_len_rev_solid.
Qed.

(** A text that starts and ends with solid bytes is trimmed. *)
Lemma trimmed_ends o x c :
  solid o = true -> solid c = true -> trimmed (String o (x +:+ String c "")).
Proof.
  intros Ho Hc. unfold trimmed, trimmed_bytes. cbn [list_ascii_of_string].
  rewrite list_ascii_app. split; [by apply (ws_len_solid []) |].
  change (o :: list_ascii_of_string x ++ list_ascii_of_string (String c ""))
    with ((o :: list_ascii_of_string x) ++ [c]).
  rewrite rev_app_distr. by apply (ws_len_rev_solid []).
Qed.

Lemma trimmed_empty : trimmed "".
Proof. done. Qed.

End TrimLemmas.
