(* ===== verification/Version.v ===== *)
(** * barista-version: Maven version comparison

    Models crates/barista-version/src/lib.rs: the qualifier table, the
    [Item] tree, [compare_to]/[compare_lists], [normalize], the tokenizer
    [parse], the canonical printer and the [Version] type with its [Ord],
    [Eq] and SNAPSHOT test. *)

From S2P Require Import Prelude.

(** ** The standard library's case folding

    [str::to_lowercase] is Unicode-aware.  Every instance agrees with the
    byte-wise folding on ASCII strings, which is all the theorems that
    evaluate it use. *)
Class CaseFolding := {
  to_lowercase : string -> string;
  to_lowercase_ascii : forall s,
    str_forallb is_ascii s = true -> to_lowercase s = to_ascii_lowercase s
}.

(** The byte-wise folding itself, used to evaluate concrete inputs. *)
#[export] Instance ascii_case_folding : CaseFolding | 100 :=
  {| to_lowercase := to_ascii_lowercase; to_lowercase_ascii := fun s _ => eq_refl |}.

Module Version.

(** ** Qualifier ordering table *)

Definition QUALIFIERS : list string :=
  ["alpha"; "beta"; "milestone"; "rc"; "snapshot"; ""; "sp"].

Definition RELEASE_QUALIFIERS : list string := ["ga"; "final"; "release"].

Definition RELEASE_INDEX : string := "5".

Definition alias (q : string) : string := if String.eqb q "cr" then "rc" else q.

(** [QUALIFIERS.iter().position(|q| *q == qualifier)]. *)
Fixpoint position (q : string) (l : list string) : option nat :=
  match l with
  | [] => None
  | x :: xs => if String.eqb x q then Some 0 else S <$> position q xs
  end.

(** [idx.to_string()] for the single-digit indices of the table. *)
Definition digit_string (n : nat) : string :=
  String (ascii_of_nat (48 + n)) "".

Definition comparable_qualifier (qualifier : string) : string :=
  if existsb (String.eqb qualifier) RELEASE_QUALIFIERS then RELEASE_INDEX
  else match position qualifier QUALIFIERS with
       | Some idx => digit_string idx
       | None => digit_string (length QUALIFIERS) +:+ "-" +:+ qualifier
       end.

(** ** Items *)

Inductive Item : Type :=
  | Integer (s : string)
  | Str (s : string)
  | Combination (string_part digit_part : Item)
  | List (v : list Item).

(** Induction that reaches the elements of a [List]. *)
Fixpoint Item_ind' (P : Item -> Prop)
    (HI : forall s, P (Integer s)) (HS : forall s, P (Str s))
    (HC : forall a b, P a -> P b -> P (Combination a b))
    (HL : forall v, Forall P v -> P (List v)) (it : Item) : P it :=
  match it with
  | Integer s => HI s
  | Str s => HS s
  | Combination a b =>
      HC a b (Item_ind' P HI HS HC HL a) (Item_ind' P HI HS HC HL b)
  | List v =>
      HL v ((fix go (l : list Item) : Forall P l :=
               match l with
               | [] => Forall_nil_2 P
               | x :: xs => Forall_cons_2 P x xs (Item_ind' P HI HS HC HL x) (go xs)
               end) v)
  end.

Definition is_null (it : Item) : bool :=
  match it with
  | Integer s => String.eqb s "0"
  | Str s => String.eqb s ""
  | Combination _ _ => false
  | List v => match v with [] => true | _ => false end
  end.

(** [buf.trim_start_matches('0')]. *)
Fixpoint trim_zeros (s : string) : string :=
  match s with
  | String a s' => if Ascii.eqb a "0" then trim_zeros s' else s
  | EmptyString => EmptyString
  end.

Definition strip_leading_zeros (buf : string) : string :=
  if String.eqb buf "" then "0"
  else let trimmed := trim_zeros buf in
       if String.eqb trimmed "" then "0" else trimmed.

(** [Item::integer]. *)
Definition integer (buf : string) : Item := Integer (strip_leading_zeros buf).

(** [Item::string]. *)
Definition string_item (value : string) (followed_by_digit : bool) : Item :=
  let v :=
    if followed_by_digit && (char_count value =? 1) then
      if String.eqb value "a" then "alpha"
      else if String.eqb value "b" then "beta"
      else if String.eqb value "m" then "milestone"
      else value
    else value in
  Str (alias v).

(** Byte index of the first ASCII digit, or the length. *)
Fixpoint first_digit (s : string) : nat :=
  match s with
  | EmptyString => 0
  | String a s' => if is_ascii_digit a then 0 else S (first_digit s')
  end.

(** [Item::combination]; its [parse_item(false, true, _)] call is
    [Item::integer]. *)
Definition combination (value : string) : Item :=
  let cleaned := str_filter (fun c => negb (Ascii.eqb c "-")) value in
  let split := first_digit cleaned in
  Combination (string_item (str_take split cleaned) true)
              (integer (str_drop split cleaned)).

Definition parse_item (is_combination is_digit : bool) (buf : string) : Item :=
  if is_combination then combination (str_filter (fun c => negb (Ascii.eqb c "-")) buf)
  else if is_digit then integer buf
  else string_item buf false.

(** ** Comparison *)

(** [a.len().cmp(&b.len()).then_with(|| a.cmp(b))]. *)
Definition cmp_numeric (a b : string) : comparison :=
  match Nat.compare (String.length a) (String.length b) with
  | Eq => String.compare a b
  | c => c
  end.

(** [compare_to] with [other = None]: against padding. *)
Fixpoint compare_none (it : Item) : comparison :=
  match it with
  | Integer s => if String.eqb s "0" then Eq else Gt
  | Str s => String.compare (comparable_qualifier s) RELEASE_INDEX
  | Combination string_part _ => compare_none string_part
  | List v =>
      (fix go (l : list Item) : comparison :=
         match l with
         | [] => Eq
         | x :: xs => match compare_none x with Eq => go xs | r => r end
         end) v
  end.

(** The [Item::Str(a)] row of [compare_to]. *)
Fixpoint compare_str (a : string) (other : Item) : comparison :=
  match other with
  | Integer _ => Lt
  | Str b => String.compare (comparable_qualifier a) (comparable_qualifier b)
  | Combination other_str _ =>
      match compare_str a other_str with Eq => Lt | result => result end
  | List _ => Lt
  end.

(** [compare_to] with [other = Some(other)]. *)
Fixpoint compare_some (self other : Item) {struct self} : comparison :=
  match self with
  | Integer a =>
      match other with
      | Integer b => cmp_numeric a b
      | Str _ | Combination _ _ | List _ => Gt
      end
  | Str a => compare_str a other
  | Combination string_part digit_part =>
      match other with
      | Integer _ => Lt
      | Str _ => match compare_some string_part other with Eq => Gt | result => result end
      | List _ => Lt
      | Combination other_str other_digit =>
          match compare_some string_part other_str with
          | Eq => compare_some digit_part other_digit
          | result => result
          end
      end
  | List items =>
      match other with
      | Integer _ => Lt
      | Str _ | Combination _ _ => Gt
      | List other_items =>
          (fix go (l r : list Item) {struct l} : comparison :=
             match l with
             | li :: l' =>
                 let (res, r') := match r with
                                  | [] => (compare_none li, [])
                                  | ri :: r' => (compare_some li ri, r')
                                  end in
                 match res with Eq => go l' r' | c => c end
             | [] =>
                 (fix pad (r : list Item) : comparison :=
                    match r with
                    | [] => Eq
                    | ri :: r' => match CompOpp (compare_none ri) with Eq => pad r' | c => c end
                    end) r
             end) items other_items
      end
  end.

Definition compare_to (self : Item) (other : option Item) : comparison :=
  match other with None => compare_none self | Some o => compare_some self o end.

(** [compare_lists]: the parallel walk over [0..max(len, len)]. *)
Fixpoint compare_lists (left right : list Item) : comparison :=
  match left, right with
  | [], [] => Eq
  | li :: l', r => match compare_to li (head r) with Eq => compare_lists l' (tail r) | c => c end
  | [], r =>
      (fix pad (r : list Item) : comparison :=
         match r with
         | [] => Eq
         | ri :: r' => match CompOpp (compare_to ri None) with Eq => pad r' | c => c end
         end) r
  end.

(** ** Normalization *)

(** Whether the back-to-front loop removes [x], given the already processed
    items after it. *)
Definition drops (x : Item) (rest : list Item) : bool :=
  is_null x &&
  match rest with
  | [] => true
  | Str _ :: _ => true
  | List inner :: _ =>
      match inner with
      | Combination _ _ :: _ | Str _ :: _ => true
      | _ => false
      end
  | _ => false
  end.

Definition strip_nulls (items : list Item) : list Item :=
  foldr (fun x rest => if drops x rest then rest else x :: rest) [] items.

Fixpoint normalize_item (it : Item) : Item :=
  match it with
  | List inner => List (strip_nulls (map normalize_item inner))
  | _ => it
  end.

Definition normalize (items : list Item) : list Item :=
  strip_nulls (map normalize_item items).

(** ** Tokenizer *)

(** The local variables of [parse]; the stack of partially built lists has
    its top (the deepest list) first. *)
Record PState := mkPState {
  stack : list (list Item);
  is_digit : bool;
  is_combination : bool;
  start : nat;
  pos : nat
}.

Definition top_list (stack : list (list Item)) : list Item :=
  match stack with top :: _ => top | [] => [] end.

Definition push_item (stack : list (list Item)) (item : Item) : list (list Item) :=
  match stack with top :: rest => (top ++ [item]) :: rest | [] => [] end.

(** Open a nested list when the current one has items. *)
Definition open_list (stack : list (list Item)) : list (list Item) :=
  match top_list stack with [] => stack | _ => [] :: stack end.

(** Number of bytes of the UTF-8 sequence that starts with [b]. *)
Definition utf8_step (b : ascii) : nat :=
  if (code b <? 128)%N then 1
  else if (code b <? 192)%N then 1
  else if (code b <? 224)%N then 2
  else if (code b <? 240)%N then 3
  else 4.

(** The byte at [i] is an ASCII digit. *)
Definition digit_at (version : string) (i : nat) : bool :=
  match String.get i version with Some c => is_ascii_digit c | None => false end.

(** One iteration of the tokenizer's loop at the byte [c]. *)
Definition parse_step (version : string) (c : ascii) (st : PState) : PState :=
  let i := pos st in
  if Ascii.eqb c "." then
    {| stack := push_item (stack st)
         (if i =? start st then Integer "0"
          else parse_item (is_combination st) (is_digit st) (slice version (start st) i));
       is_digit := is_digit st; is_combination := false; start := i + 1; pos := i + 1 |}
  else if Ascii.eqb c "-" then
    if i =? start st then
      {| stack := open_list (push_item (stack st) (Integer "0"));
         is_digit := is_digit st; is_combination := false; start := i + 1; pos := i + 1 |}
    else if negb (is_digit st) && negb (i =? String.length version - 1)
            && digit_at version (i + 1) then
      (* X-1 is treated as X1 *)
      {| stack := stack st; is_digit := is_digit st; is_combination := true;
         start := start st; pos := i + 1 |}
    else
      {| stack := open_list (push_item (stack st)
           (parse_item (is_combination st) (is_digit st) (slice version (start st) i)));
         is_digit := is_digit st; is_combination := false; start := i + 1; pos := i + 1 |}
  else if is_ascii_digit c then
    if negb (is_digit st) && (start st <? i) then
      {| stack := open_list (stack st); is_digit := true; is_combination := true;
         start := start st; pos := i + 1 |}
    else
      {| stack := stack st; is_digit := true; is_combination := is_combination st;
         start := start st; pos := i + 1 |}
  else if is_digit st && (start st <? i) then
    {| stack := [] :: push_item (stack st)
         (parse_item (is_combination st) true (slice version (start st) i));
       is_digit := false; is_combination := false; start := i; pos := i + utf8_step c |}
  else
    {| stack := stack st; is_digit := false; is_combination := is_combination st;
       start := start st; pos := i + utf8_step c |}.

(** The loop; [None] when the fuel runs out first. *)
Fixpoint parse_loop (version : string) (fuel : nat) (st : PState) : option PState :=
  match String.get (pos st) version with
  | None => Some st
  | Some c => match fuel with
              | O => None
              | S fuel' => parse_loop version fuel' (parse_step version c st)
              end
  end.

(** Collapse the stack into nested lists, normalizing each level. *)
Fixpoint collapse (top : list Item) (rest : list (list Item)) : list Item :=
  match rest with
  | [] => normalize top
  | parent :: rest' => collapse (parent ++ [List (normalize top)]) rest'
  end.

Definition parse_init : PState :=
  {| stack := [[]]; is_digit := false; is_combination := false; start := 0; pos := 0 |}.

(** The token after the last separator, then the collapse. *)
Definition parse_finish (version : string) (st : PState) : list Item :=
  let stk :=
    if start st <? String.length version then
      let stk := if negb (is_digit st) then open_list (stack st) else stack st in
      push_item stk (parse_item (is_combination st) (is_digit st) (str_drop (start st) version))
    else stack st in
  match stk with
  | top :: rest => collapse top rest
  | [] => []
  end.

Section Parse.
Context `{CaseFolding}.

(** [parse] on the folded string; [parse_fuel_enough] below shows that the
    [None] branch is never taken. *)
Definition parse_items (version_in : string) : list Item :=
  let version := to_lowercase version_in in
  match parse_loop version (String.length version) parse_init with
  | Some st => parse_finish version st
  | None => []
  end.
End Parse.

(** ** Canonical form *)

Fixpoint item_display (it : Item) : string :=
  match it with
  | Integer s | Str s => s
  | Combination s d => item_display s +:+ item_display d
  | List v =>
      (fix go (first : bool) (l : list Item) : string :=
         match l with
         | [] => ""
         | x :: xs =>
             (if first then "" else match x with List _ => "-" | _ => "." end)
               +:+ item_display x +:+ go false xs
         end) true v
  end.

Definition list_display (items : list Item) : string := item_display (List items).

(** ** Version *)

Record Version := mkVersion {
  original : string;
  canonical : string;
  items : list Item
}.

Inductive ParseError := Empty.

Section Api.
Context `{CaseFolding}.

Definition parse (s : string) : Version :=
  let its := parse_items s in
  {| original := s; canonical := list_display its; items := its |}.

Definition parse_strict (s : string) : result ParseError Version :=
  if String.eqb s "" then Err Empty else Ok (parse s).
End Api.

(** [impl PartialEq] and [impl Ord]. *)
Definition eq (a b : Version) : bool := String.eqb (canonical a) (canonical b).
Definition cmp (a b : Version) : comparison := compare_lists (items a) (items b).

(** The derived comparison operators. *)
Definition lt (a b : Version) : bool := match cmp a b with Lt => true | _ => false end.
Definition le (a b : Version) : bool := match cmp a b with Gt => false | _ => true end.
Definition gt (a b : Version) : bool := match cmp a b with Gt => true | _ => false end.
Definition ge (a b : Version) : bool := match cmp a b with Lt => false | _ => true end.

Definition SNAPSHOT_SUFFIX : string := "-SNAPSHOT".

Definition is_snapshot (v : Version) : bool :=
  let s := original v in
  if String.length s <? String.length SNAPSHOT_SUFFIX then false
  else eq_ignore_ascii_case (str_drop (String.length s - String.length SNAPSHOT_SUFFIX) s)
                            SNAPSHOT_SUFFIX.

Lemma strip_nulls_cons x l :
  strip_nulls (x :: l) = if drops x (strip_nulls l) then strip_nulls l else x :: strip_nulls l.
Proof. done. Qed.

(** ** Structure of the comparison *)

(** The nested walk of [compare_some] is [compare_lists]. *)
Lemma compare_some_list (a b : list Item) :
  compare_some (List a) (List b) = compare_lists a b.
Proof.
  revert b. cbn. induction a as [|x a IH]; intros b.
  - destruct b; [done |]. reflexivity.
  - destruct b as [|y b]; cbn; case_match; auto.
Qed.

Lemma compare_none_list_cons x l :
  compare_none (List (x :: l)) =
  match compare_none x with Eq => compare_none (List l) | r => r end.
Proof. done. Qed.

Lemma compare_lists_nil_l (r : list Item) :
  compare_lists [] r = CompOpp (compare_none (List r)).
Proof.
  induction r as [|x r IH]; [done |].
  rewrite compare_none_list_cons.
  replace (compare_lists [] (x :: r))
    with (match CompOpp (compare_none x) with Eq => compare_lists [] r | c => c end)
    by (by destruct r).
  rewrite IH. by destruct (compare_none x).
Qed.

Lemma compare_lists_nil_r (l : list Item) :
  compare_lists l [] = compare_none (List l).
Proof. induction l as [|x l IH]; cbn in *; [done | by rewrite IH]. Qed.

Lemma compare_lists_cons x l y r :
  compare_lists (x :: l) (y :: r) =
  match compare_some x y with Eq => compare_lists l r | c => c end.
Proof. done. Qed.

Lemma compare_str_some a other : compare_some (Str a) other = compare_str a other.
Proof. done. Qed.

Lemma cmp_numeric_antisym a b : cmp_numeric b a = CompOpp (cmp_numeric a b).
Proof.
  unfold cmp_numeric. rewrite Nat.compare_antisym, (String.compare_antisym b a).
  by destruct (_ ?= _).
Qed.

Lemma cmp_numeric_refl a : cmp_numeric a a = Eq.
Proof. unfold cmp_numeric. by rewrite Nat.compare_refl, str_compare_refl. Qed.

(** Comparing a string item from the left or from the right agrees. *)
Lemma compare_str_antisym a other :
  compare_some other (Str a) = CompOpp (compare_str a other).
Proof.
  induction other as [s|s|x y IHx IHy|v IH] using Item_ind'; cbn; try done.
  - apply String.compare_antisym.
  - rewrite IHx. by destruct (compare_str a x).
Qed.

Lemma compare_lists_antisym_aux (l r : list Item) :
  Forall (fun x => forall y, compare_some y x = CompOpp (compare_some x y)) l ->
  compare_lists r l = CompOpp (compare_lists l r).
Proof.
  intros HF. revert r. induction HF as [|x l Hx HF IH]; intros r.
  - by rewrite compare_lists_nil_l, compare_lists_nil_r, CompOpp_involutive.
  - destruct r as [|y r].
    + rewrite compare_lists_nil_l, compare_lists_nil_r. done.
    + rewrite !compare_lists_cons, Hx, IH. by destruct (compare_some x y).
Qed.

Lemma compare_some_antisym (x y : Item) :
  compare_some y x = CompOpp (compare_some x y).
Proof.
  revert y. induction x as [s|s|a b IHa IHb|v IH] using Item_ind'; intros y.
  - destruct y; cbn; try done. apply cmp_numeric_antisym.
  - rewrite compare_str_some. apply compare_str_antisym.
  - destruct y as [t|t|c d|w]; cbn; try done.
    + change (compare_str t a) with (compare_some (Str t) a). rewrite IHa.
      by destruct (compare_some a (Str t)).
    + rewrite IHa, IHb. by destruct (compare_some a c).
  - destruct y as [t|t|c d|w]; cbn [compare_some]; try done.
    change (compare_some (List w) (List v) = CompOpp (compare_some (List v) (List w))).
    rewrite !compare_some_list. by apply compare_lists_antisym_aux.
Qed.

Lemma compare_lists_refl_aux l :
  Forall (fun x => compare_some x x = Eq) l -> compare_lists l l = Eq.
Proof.
  induction 1 as [|x l Hx HF IH]; [done |]. by rewrite compare_lists_cons, Hx.
Qed.

Lemma compare_some_refl (x : Item) : compare_some x x = Eq.
Proof.
  induction x as [s|s|a b IHa IHb|v IH] using Item_ind'.
  - apply cmp_numeric_refl.
  - apply str_compare_refl.
  - cbn. by rewrite IHa.
  - rewrite compare_some_list. by apply compare_lists_refl_aux.
Qed.

(** [Version::cmp] is antisymmetric for all versions, whatever their
    token trees: swapping the operands reverses the answer. *)
Theorem cmp_antisym (a b : Version) : cmp b a = CompOpp (cmp a b).
Proof.
  apply compare_lists_antisym_aux, Forall_forall.
  intros x _ y. apply compare_some_antisym.
Qed.

(** ** Numbers *)

Definition digit_value (c : ascii) : N := (code c - 48)%N.

(** The number a digit string denotes. *)
Fixpoint num_value (s : string) : N :=
  match s with
  | EmptyString => 0
  | String c s' => digit_value c * 10 ^ N.of_nat (String.length s') + num_value s'
  end%N.

Definition digits (s : string) : bool := str_forallb is_ascii_digit s.

Lemma is_ascii_digit_bound c : is_ascii_digit c = true -> (48 <= code c <= 57)%N.
Proof.
  unfold is_ascii_digit. intros [H1 H2]%andb_prop.
  apply N.leb_le in H1, H2. lia.
Qed.

Lemma num_value_bound s : digits s = true -> (num_value s < 10 ^ N.of_nat (String.length s))%N.
Proof.
  unfold digits. induction s as [|c s IH]; cbn [str_forallb num_value String.length]; [lia |].
  intros [Hc Hs]%andb_prop. apply is_ascii_digit_bound in Hc. specialize (IH Hs).
  rewrite Nat2N.inj_succ, N.pow_succ_r'. unfold digit_value. nia.
Qed.

Lemma num_value_trim_zeros s : num_value (trim_zeros s) = num_value s.
Proof.
  induction s as [|c s IH]; cbn [trim_zeros num_value]; [done |].
  destruct (Ascii.eqb_spec c "0") as [->|]; [|done].
  rewrite IH. change (digit_value "0") with 0%N. by rewrite N.mul_0_l, N.add_0_l.
Qed.

Lemma num_value_strip s : num_value (strip_leading_zeros s) = num_value s.
Proof.
  unfold strip_leading_zeros. destruct (String.eqb_spec s "") as [->|]; [done |].
  destruct (String.eqb_spec (trim_zeros s) "") as [E|]; [|apply num_value_trim_zeros].
  by rewrite <- (num_value_trim_zeros s), E.
Qed.

Lemma compare_shift a b c d k :
  (c < k -> d < k -> (a * k + c ?= b * k + d) =
   match a ?= b with Eq => c ?= d | r => r end)%N.
Proof.
  intros Hc Hd. destruct (N.compare_spec a b) as [->|H|H].
  - destruct (N.compare_spec c d); subst;
      [apply N.compare_refl | apply N.compare_lt_iff; lia | apply N.compare_gt_iff; lia].
  - apply N.compare_lt_iff. nia.
  - apply N.compare_gt_iff. nia.
Qed.

Lemma ascii_compare_digits c d :
  is_ascii_digit c = true -> is_ascii_digit d = true ->
  Ascii.compare c d = (digit_value c ?= digit_value d)%N.
Proof.
  intros Hc%is_ascii_digit_bound Hd%is_ascii_digit_bound.
  unfold Ascii.compare, digit_value, code in *.
  destruct (N.compare_spec (N_of_ascii c) (N_of_ascii d)); symmetry;
    [apply N.compare_eq_iff | apply N.compare_lt_iff | apply N.compare_gt_iff]; lia.
Qed.

(** Same-length digit strings compare lexically as their numbers. *)
Lemma compare_same_length s t :
  digits s = true -> digits t = true -> String.length s = String.length t ->
  String.compare s t = (num_value s ?= num_value t)%N.
Proof.
  unfold digits. revert t. induction s as [|c s IH]; intros [|d t]; try done.
  cbn [str_forallb String.length]. intros [Hc Hs]%andb_prop [Hd Ht]%andb_prop [= HL].
  cbn [num_value String.compare]. rewrite HL, compare_shift, <- IH by
    (done || (rewrite <- ?HL; by apply num_value_bound) || by apply num_value_bound).
  by rewrite ascii_compare_digits.
Qed.

(** A stripped digit string: ["0"], or no leading zero. *)
Definition stripped (s : string) : Prop :=
  s = "0" \/ exists c s', s = String c s' /\ c <> "0"%char.

Lemma trim_zeros_stripped s : trim_zeros s = "" \/ exists c s', trim_zeros s = String c s' /\ c <> "0"%char.
Proof.
  induction s as [|c s IH]; cbn; [auto |].
  destruct (Ascii.eqb_spec c "0"); eauto.
Qed.

Lemma strip_stripped s : stripped (strip_leading_zeros s).
Proof.
  unfold strip_leading_zeros, stripped. destruct (String.eqb s ""); [auto |].
  destruct (String.eqb_spec (trim_zeros s) ""); [auto |].
  destruct (trim_zeros_stripped s); [done | auto].
Qed.

Lemma trim_zeros_digits s : digits s = true -> digits (trim_zeros s) = true.
Proof.
  unfold digits. induction s as [|c s IH]; cbn; [done |].
  intros [Hc Hs]%andb_prop. destruct (Ascii.eqb c "0"); [auto |]. cbn. by rewrite Hc.
Qed.

Lemma strip_digits s : digits s = true -> digits (strip_leading_zeros s) = true.
Proof.
  intros H. unfold strip_leading_zeros. destruct (String.eqb s ""); [done |].
  case_match; [done | by apply trim_zeros_digits].
Qed.

Lemma stripped_lower s :
  digits s = true -> stripped s -> s <> "0" ->
  (10 ^ N.of_nat (String.length s - 1) <= num_value s)%N.
Proof.
  unfold digits. intros HD [->|(c & s' & -> & Hc)] Hne; [done |].
  cbn in *. apply andb_prop in HD as [HD _]. apply is_ascii_digit_bound in HD.
  assert (digit_value c <> 0)%N.
  { unfold digit_value. intros E. apply Hc.
    assert (code c = 48)%N as E' by lia. unfold code in E'.
    by rewrite <- (ascii_N_embedding c), E'. }
  rewrite Nat.sub_0_r. nia.
Qed.

Lemma stripped_shorter s t :
  digits s = true -> digits t = true -> stripped t ->
  String.length s < String.length t -> s <> "" -> (num_value s < num_value t)%N.
Proof.
  intros Hs Ht HSt HL Hne.
  assert (t <> "0") by (intros ->; destruct s; cbn in *; [done | lia]).
  pose proof (num_value_bound s Hs). pose proof (stripped_lower t Ht HSt ltac:(done)).
  assert (10 ^ N.of_nat (String.length s) <= 10 ^ N.of_nat (String.length t - 1))%N
    by (apply N.pow_le_mono_r; lia). lia.
Qed.

Lemma stripped_nonempty s : stripped s -> s <> "".
Proof. by intros [->|(?&?&->&_)]. Qed.

Lemma cmp_numeric_stripped s t :
  digits s = true -> digits t = true -> stripped s -> stripped t ->
  cmp_numeric s t = (num_value s ?= num_value t)%N.
Proof.
  intros Hs Ht HSs HSt. unfold cmp_numeric.
  destruct (Nat.compare_spec (String.length s) (String.length t)) as [E|E|E].
  - by apply compare_same_length.
  - symmetry. apply N.compare_lt_iff, stripped_shorter; auto using stripped_nonempty.
  - symmetry. apply N.compare_gt_iff, stripped_shorter; auto using stripped_nonempty.
Qed.

Lemma cmp_numeric_stripped_int a b :
  digits a = true -> digits b = true ->
  compare_some (integer a) (integer b) = (num_value a ?= num_value b)%N.
Proof.
  intros Ha Hb. cbn. rewrite cmp_numeric_stripped
    by auto using strip_digits, strip_stripped. by rewrite !num_value_strip.
Qed.

(** numeric tokens compare as numbers of any size.  For two digit
    strings, however many leading zeros they carry, comparing the items
    [Item::integer] builds from them is comparing the numbers they denote. *)
Theorem integer_order (a b : string) :
  digits a = true -> digits b = true ->
  compare_to (integer a) (Some (integer b)) = (num_value a ?= num_value b)%N.
Proof.
  apply cmp_numeric_stripped_int.
Qed.

Lemma integer_order_witness :
  compare_to (integer "007") (Some (integer "12345678901234567890123")) = Lt.
Proof.
  rewrite (integer_order "007" "12345678901234567890123"); [reflexivity | reflexivity | reflexivity].
Defined.

(** ** The tokenizer terminates *)

Lemma get_lt n s c : String.get n s = Some c -> n < String.length s.
Proof.
  revert n. induction s as [|a s IH]; intros [|n]; cbn; try done; try lia.
  intros H. apply IH in H. lia.
Qed.

Lemma utf8_step_pos c : 1 <= utf8_step c.
Proof. unfold utf8_step. repeat case_match; lia. Qed.

(** Every iteration consumes at least one byte. *)
Lemma parse_step_progress version c st : pos st < pos (parse_step version c st).
Proof.
  pose proof (utf8_step_pos c). unfold parse_step.
  repeat case_match; cbn; lia.
Qed.

Lemma parse_loop_fuel version fuel st :
  String.length version <= pos st + fuel -> is_Some (parse_loop version fuel st).
Proof.
  revert st. induction fuel as [|fuel IH]; intros st Hf; cbn;
    destruct (String.get (pos st) version) as [c|] eqn:E; eauto.
  - apply get_lt in E. lia.
  - apply IH. pose proof (parse_step_progress version c st). lia.
Qed.

(** the tokenizer's loop always runs to the end of its input: the fuel
    [parse_items] gives it, one unit per byte, is never exhausted. *)
Theorem parse_terminates (version : string) :
  exists st, parse_loop version (String.length version) parse_init = Some st
             /\ String.get (pos st) version = None.
Proof.
  destruct (parse_loop_fuel version (String.length version) parse_init) as [st Hst].
  { cbn. lia. }
  exists st. split; [done |]. clear -Hst. revert Hst.
  generalize (String.length version), parse_init.
  induction n as [|n IH]; intros st0; cbn;
    destruct (String.get (pos st0) version) eqn:E; try done; try (by intros [= <-]); eauto.
Qed.

(** ** Dotted numeric versions *)

Lemma get_app_r p s n : String.get (String.length p + n) (p +:+ s) = String.get n s.
Proof. induction p; cbn; auto. Qed.

Lemma get_app_mid p c s : String.get (String.length p) (p +:+ String c s) = Some c.
Proof. rewrite <- (Nat.add_0_r (String.length p)). by rewrite get_app_r. Qed.

Lemma digit_not_sep c : is_ascii_digit c = true ->
  Ascii.eqb c "." = false /\ Ascii.eqb c "-" = false.
Proof.
  intros H%is_ascii_digit_bound. unfold code in H.
  split; apply Ascii.eqb_neq; intros ->; cbn in H; lia.
Qed.

(** Running the loop over a digit string only moves [pos]. *)
Lemma parse_loop_digits d p r stk dg st0 fuel :
  digits d = true -> dg = true \/ st0 = String.length p ->
  parse_loop (p +:+ (d +:+ r)) (String.length d + fuel)
    (mkPState stk dg false st0 (String.length p)) =
  parse_loop (p +:+ (d +:+ r)) fuel
    (mkPState stk (dg || negb (String.eqb d "")) false st0 (String.length p + String.length d)).
Proof.
  unfold digits. revert p dg. induction d as [|c d IH]; intros p dg.
  { cbn. by rewrite Nat.add_0_r, orb_false_r. }
  cbn [str_forallb String.length]. intros [Hc Hd]%andb_prop Hdg.
  destruct (digit_not_sep c Hc) as [E1 E2].
  replace (S (String.length d) + fuel) with (S (String.length d + fuel)) by lia.
  cbn [parse_loop pos]. change (String c d +:+ r) with (String c (d +:+ r)).
  rewrite get_app_mid. unfold parse_step. rewrite E1, E2, Hc. cbn [is_digit start pos].
  assert (negb dg && (st0 <? String.length p) = false) as ->.
  { destruct Hdg as [->| ->]; [done |]. rewrite Nat.ltb_irrefl. apply andb_false_r. }
  specialize (IH (p +:+ String c "") true Hd (or_introl eq_refl)).
  rewrite str_length_app in IH. cbn [String.length] in IH.
  rewrite str_app_assoc in IH. change (String c "" +:+ (d +:+ r)) with (String c (d +:+ r)) in IH.
  cbn [is_combination stack]. rewrite IH. cbn [String.eqb orb negb]. rewrite orb_true_r.
  f_equal. f_equal. lia.
Qed.

(** The state after the tokens [xs] of [str_join "." (xs ++ [x])]. *)
Lemma slice_mid p d r : slice (p +:+ (d +:+ r)) (String.length p) (String.length p + String.length d) = d.
Proof.
  unfold slice. rewrite str_drop_app.
  replace (String.length p + String.length d - String.length p) with (String.length d) by lia.
  apply str_take_app.
Qed.

Lemma parse_loop_dotted x xs p acc dg :
  Forall (fun d => digits d = true /\ d <> "") (x :: xs) ->
  exists last st0 dg',
    parse_loop (p +:+ str_join "." (x :: xs)) (String.length (str_join "." (x :: xs)))
      (mkPState [acc] dg false (String.length p) (String.length p)) =
    Some (mkPState [acc ++ map integer (removelast (x :: xs))] dg' false st0
            (String.length (p +:+ str_join "." (x :: xs))))
    /\ List.last (x :: xs) "" = last /\ dg' = true
    /\ str_drop st0 (p +:+ str_join "." (x :: xs)) = last
    /\ st0 < String.length (p +:+ str_join "." (x :: xs)).
Proof.
  revert x p acc dg. induction xs as [|y xs IH]; intros x p acc dg HF;
    inversion HF as [|?? [Hx Hne] HF']; subst.
  - cbn [str_join removelast List.last map]. rewrite app_nil_r.
    exists x, (String.length p), true. split; [|split_and!; auto].
    + pose proof (parse_loop_digits x p "" [acc] dg (String.length p) 0 Hx (or_intror eq_refl)) as E.
      rewrite str_app_nil_r, Nat.add_0_r in E. rewrite E.
      rewrite (proj2 (String.eqb_neq x "") Hne), orb_true_r. cbn [parse_loop pos].
      rewrite <- str_length_app.
      destruct (String.get _ _) eqn:G; [apply get_lt in G; lia |]. done.
    + apply str_drop_app.
    + rewrite str_length_app. destruct x; [done |]. cbn. lia.
  - rewrite str_join_cons.
    set (tl := str_join "." (y :: xs)) in *.
    rewrite str_length_app. rewrite parse_loop_digits by auto.
    rewrite (proj2 (String.eqb_neq x "") Hne), orb_true_r.
    change ("." +:+ tl) with (String "." tl). cbn [String.length parse_loop pos].
    rewrite get_app_r.
    replace (String.get (String.length x) (x +:+ String "." tl)) with (Some "."%char)
      by (by rewrite get_app_mid).
    unfold parse_step. cbn [pos start stack is_digit is_combination Ascii.eqb].
    assert (String.length p + String.length x =? String.length p = false) as E0
      by (apply Nat.eqb_neq; destruct x; [done | cbn; lia]).
    cbn -[tl Nat.add slice]. rewrite E0, slice_mid.
    destruct (IH y (p +:+ (x +:+ ".")) (acc ++ [integer x]) true HF')
      as (last & st0 & dg' & E1 & E2 & E3 & E4 & E5).
    fold tl in E1, E4, E5.
    replace ((p +:+ (x +:+ ".")) +:+ tl) with (p +:+ (x +:+ String "." tl)) in *
      by (rewrite !str_app_assoc; done).
    replace (String.length (p +:+ (x +:+ "."))) with (String.length p + String.length x + 1) in E1
      by (rewrite !str_length_app; cbn; lia).
    rewrite E1. exists last, st0, dg'. split_and!; auto.
    change (removelast (x :: y :: xs)) with (x :: removelast (y :: xs)). cbn [map].
    by rewrite <- app_assoc.
Qed.

(** The reference order on numeric versions: lexicographic on the numbers,
    the shorter one padded with zeros. *)
Fixpoint lex_pad (xs ys : list N) : comparison :=
  match xs, ys with
  | [], [] => Eq
  | x :: xs', ys => match (N.compare x (hd 0%N ys)) with Eq => lex_pad xs' (tl ys) | c => c end
  | [], y :: ys' =>
      (fix pad (l : list N) : comparison :=
         match l with
         | [] => Eq
         | y :: l' => match (0 ?= y)%N with Eq => pad l' | c => c end
         end) (y :: ys')
  end.

Lemma lex_pad_nil_cons y ys :
  lex_pad [] (y :: ys) = match (0 ?= y)%N with Eq => lex_pad [] ys | c => c end.
Proof. by destruct ys. Qed.

Lemma lex_pad_cons_nil x xs :
  lex_pad (x :: xs) [] = match (x ?= 0)%N with Eq => lex_pad xs [] | c => c end.
Proof. done. Qed.

Lemma lex_pad_cons x xs y ys :
  lex_pad (x :: xs) (y :: ys) = match (x ?= y)%N with Eq => lex_pad xs ys | c => c end.
Proof. done. Qed.

Definition dotted (xs : list string) : string := str_join "." xs.

(** A numeric version's components: non-empty digit strings. *)
Definition components (xs : list string) : Prop :=
  xs <> [] /\ Forall (fun d => digits d = true /\ d <> "") xs.

Lemma digit_ascii c : is_ascii_digit c = true -> is_ascii c = true /\ ascii_lower c = c.
Proof.
  intros H%is_ascii_digit_bound. unfold is_ascii, ascii_lower, is_ascii_upper.
  split; [apply N.ltb_lt; lia |].
  rewrite (proj2 (N.leb_gt 65 (code c))) by lia. done.
Qed.

Definition digit_or_dot (c : ascii) : bool := is_ascii_digit c || Ascii.eqb c ".".

Lemma digit_or_dot_fold s :
  str_forallb digit_or_dot s = true ->
  str_forallb is_ascii s = true /\ to_ascii_lowercase s = s.
Proof.
  unfold to_ascii_lowercase. induction s as [|c s IH]; cbn; [done |].
  intros [Hc Hs]%andb_prop. destruct (IH Hs) as [-> ->].
  unfold digit_or_dot in Hc. apply orb_prop in Hc as [Hc|Hc].
  - destruct (digit_ascii c Hc) as [-> ->]. done.
  - apply Ascii.eqb_eq in Hc as ->. done.
Qed.

Lemma dotted_chars xs :
  Forall (fun d => digits d = true /\ d <> "") xs -> str_forallb digit_or_dot (dotted xs) = true.
Proof.
  assert (forall s, digits s = true -> str_forallb digit_or_dot s = true) as HD.
  { unfold digits, digit_or_dot. induction s as [|c s IH]; cbn; [done |].
    intros [-> Hs]%andb_prop. cbn. auto. }
  unfold dotted. induction 1 as [|x xs [Hx _] HF IH]; [done |].
  destruct xs; [by apply HD |].
  rewrite str_join_cons, !str_forallb_app, HD by done. done.
Qed.

Lemma normalize_item_ints xs : map normalize_item (map integer xs) = map integer xs.
Proof. rewrite map_map. done. Qed.

Lemma parse_items_dotted `{CaseFolding} xs :
  components xs -> parse_items (dotted xs) = strip_nulls (map integer xs).
Proof.
  intros [Hne HF]. unfold parse_items.
  destruct (digit_or_dot_fold _ (dotted_chars xs HF)) as [HA HL].
  rewrite to_lowercase_ascii, HL by done. destruct xs as [|x xs]; [done |].
  destruct (parse_loop_dotted x xs "" [] false HF) as (last & st0 & dg & E1 & E2 & E3 & E4 & E5).
  cbn [String.length String.append] in *. unfold parse_init, dotted. rewrite E1.
  unfold parse_finish. cbn [start is_digit is_combination stack].
  rewrite (proj2 (Nat.ltb_lt _ _) E5). subst dg. cbn [negb push_item collapse]. rewrite E4.
  unfold normalize. rewrite <- E2. unfold parse_item.
  change [integer (List.last (x :: xs) "")] with (map integer [List.last (x :: xs) ""]).
  rewrite app_nil_l, <- map_app, <- app_removelast_last by done.
  by rewrite normalize_item_ints.
Qed.

(** Trailing zeros of a list of integers. *)
Lemma integer_null x : digits x = true -> is_null (integer x) = (num_value x =? 0)%N.
Proof.
  intros HD. cbn. rewrite <- num_value_strip.
  pose proof (strip_stripped x) as HS. pose proof (strip_digits x HD) as HD'.
  destruct (String.eqb_spec (strip_leading_zeros x) "0") as [->|Hne]; [done |].
  symmetry. apply N.eqb_neq. pose proof (stripped_lower _ HD' HS Hne).
  assert (10 ^ N.of_nat (String.length (strip_leading_zeros x) - 1) <> 0)%N
    by (apply N.pow_nonzero; done). lia.
Qed.

Lemma strip_ints_head xs :
  match strip_nulls (map integer xs) with [] | Integer _ :: _ => True | _ => False end.
Proof.
  induction xs; [done |]. cbn [map]. rewrite strip_nulls_cons. by destruct (drops _ _).
Qed.

Lemma strip_ints_cons x xs :
  digits x = true ->
  strip_nulls (map integer (x :: xs)) =
  match strip_nulls (map integer xs) with
  | [] => if (num_value x =? 0)%N then [] else [integer x]
  | rest => integer x :: rest
  end.
Proof.
  intros HD. pose proof (strip_ints_head xs) as Hh. cbn [map]. rewrite strip_nulls_cons.
  unfold drops. rewrite integer_null by done.
  destruct (strip_nulls (map integer xs)) as [|[] ?]; try done; rewrite ?andb_false_r, ?andb_true_r; done.
Qed.

Lemma compare_none_integer x : digits x = true ->
  compare_none (integer x) = (num_value x ?= 0)%N.
Proof.
  intros HD. pose proof (integer_null x HD) as HN. cbn in *. rewrite HN.
  destruct (N.eqb_spec (num_value x) 0) as [->|]; [done |].
  symmetry. apply N.compare_gt_iff. lia.
Qed.

Lemma compare_ints_nil xs :
  Forall (fun d => digits d = true /\ d <> "") xs ->
  compare_none (List (strip_nulls (map integer xs))) = lex_pad (map num_value xs) [].
Proof.
  induction 1 as [|x xs [Hx _] HF IH]; [done |].
  rewrite strip_ints_cons by done. cbn [map]. rewrite lex_pad_cons_nil, <- IH.
  destruct (strip_nulls (map integer xs)) as [|z zs].
  - destruct (N.eqb_spec (num_value x) 0) as [->|]; [done |].
    rewrite compare_none_list_cons, compare_none_integer by done. done.
  - by rewrite compare_none_list_cons, compare_none_integer.
Qed.

Lemma lex_pad_nil_opp ys : lex_pad [] ys = CompOpp (lex_pad ys []).
Proof.
  induction ys as [|y ys IH]; [done |].
  rewrite lex_pad_nil_cons, lex_pad_cons_nil, (N.compare_antisym y 0), IH.
  by destruct (y ?= 0)%N.
Qed.

(** Appending padding to one side does not change the answer. *)
Lemma compare_strip_ints xs ys :
  Forall (fun d => digits d = true /\ d <> "") xs ->
  Forall (fun d => digits d = true /\ d <> "") ys ->
  compare_lists (strip_nulls (map integer xs)) (strip_nulls (map integer ys)) =
  lex_pad (map num_value xs) (map num_value ys).
Proof.
  intros HX. revert ys. induction HX as [|x xs [Hx Hx'] HF IH]; intros ys HY.
  { change (strip_nulls (map integer [])) with (@nil Item).
    by rewrite compare_lists_nil_l, compare_ints_nil, <- lex_pad_nil_opp. }
  destruct HY as [|y ys [Hy Hy'] HY].
  { change (strip_nulls (map integer [])) with (@nil Item).
    rewrite compare_lists_nil_r, compare_ints_nil by (constructor; auto). done. }
  specialize (IH ys HY). rewrite !(map_cons num_value), lex_pad_cons, <- IH.
  assert (compare_some (integer x) (integer y) = (num_value x ?= num_value y)%N) as Hxy
    by (by apply (cmp_numeric_stripped_int x y)).
  rewrite !strip_ints_cons by done.
  destruct (strip_nulls (map integer xs)) as [|z zs];
    destruct (strip_nulls (map integer ys)) as [|w ws];
    repeat match goal with
      | |- context [(?n =? 0)%N] => destruct (N.eqb_spec n 0)
      end; rewrite ?compare_lists_cons, ?compare_lists_nil_l, ?compare_lists_nil_r,
        ?compare_none_list_cons, ?compare_none_integer, ?Hxy by done;
    repeat match goal with H : num_value _ = 0%N |- _ => rewrite ?H in *; clear H end;
    try done;
    rewrite ?(N.compare_antisym (num_value y) 0);
    by destruct (_ ?= 0)%N.
Qed.

Lemma cmp_dotted `{CaseFolding} (xs ys : list string) :
  components xs -> components ys ->
  cmp (parse (dotted xs)) (parse (dotted ys)) = lex_pad (map num_value xs) (map num_value ys).
Proof.
  intros HX HY. unfold cmp. cbn [items parse].
  rewrite !parse_items_dotted by done. apply compare_strip_ints; [apply HX | apply HY].
Qed.

(** on dotted numeric versions the parsed order is the intended one.
    [cmp] of two parsed versions ["a.b.c"] is the lexicographic order of
    their numbers, the shorter version padded with zeros, so ["1"], ["1.0"]
    and ["01.0.0"] compare equal and ["1.9"] is below ["1.10"]. *)
Theorem numeric_versions_order `{CaseFolding} (xs ys : list string) :
  components xs -> components ys ->
  cmp (parse (dotted xs)) (parse (dotted ys)) = lex_pad (map num_value xs) (map num_value ys).
Proof. apply cmp_dotted. Qed.

Lemma numeric_versions_order_witness :
  cmp (parse (dotted ["1"; "9"])) (parse (dotted ["01"; "10"; "0"])) = Lt.
Proof.
  rewrite (numeric_versions_order ["1"; "9"] ["01"; "10"; "0"]);
    [reflexivity | split; [done | repeat constructor; done] ..].
Defined.

(** The kept integers: stripped digit strings, the last of them not zero. *)
Definition kept (ss : list string) : Prop :=
  Forall (fun d => digits d = true /\ stripped d) ss /\ List.last ss "1" <> "0".

Lemma strip_ints_kept xs :
  Forall (fun d => digits d = true /\ d <> "") xs ->
  exists ss, strip_nulls (map integer xs) = map Integer ss /\ kept ss.
Proof.
  induction 1 as [|x xs [Hx _] HF (ss & E & HK & HL)]; [by exists [] |].
  rewrite strip_ints_cons, E by done. destruct ss as [|y ss].
  - cbn [map]. destruct (N.eqb_spec (num_value x) 0) as [|Hn]; [by exists [] |].
    exists [strip_leading_zeros x]. split; [done |]. split.
    + constructor; [|done]. split; auto using strip_digits, strip_stripped.
    + cbn. intros E0. apply Hn. by rewrite <- num_value_strip, E0.
  - exists (strip_leading_zeros x :: y :: ss). split; [done |]. split; [|done].
    constructor; auto using strip_digits, strip_stripped.
Qed.

Lemma cmp_numeric_eq a b : cmp_numeric a b = Eq -> a = b.
Proof.
  unfold cmp_numeric. destruct (Nat.compare _ _); try done. apply str_compare_eq.
Qed.

Lemma kept_nil_eq ss : kept ss -> compare_none (List (map Integer ss)) = Eq -> ss = [].
Proof.
  intros [HF HL]. induction HF as [|x ss Hx HF IH]; [done |].
  cbn [map]. rewrite compare_none_list_cons. cbn [compare_none].
  destruct (String.eqb_spec x "0") as [->|]; [|done]. intros E.
  destruct ss; [done |]. by rewrite IH in HL.
Qed.

Lemma kept_tail x ss : kept (x :: ss) -> kept ss.
Proof.
  intros [HF HL]. inversion HF; subst. split; [done |]. by destruct ss.
Qed.

Lemma compare_kept_eq ss ts :
  kept ss -> kept ts -> compare_lists (map Integer ss) (map Integer ts) = Eq -> ss = ts.
Proof.
  revert ts. induction ss as [|x ss IH]; intros ts HS HT.
  - rewrite compare_lists_nil_l. intros E. symmetry. apply kept_nil_eq; [done |].
    by destruct (compare_none (List (map Integer ts))).
  - destruct ts as [|y ts]; [intros E; rewrite compare_lists_nil_r in E; by apply kept_nil_eq |].
    cbn [map]. rewrite compare_lists_cons. cbn [compare_some].
    destruct (cmp_numeric x y) eqn:Exy; try done. apply cmp_numeric_eq in Exy as ->.
    intros E. f_equal. eauto using kept_tail.
Qed.

Lemma list_display_ints ss : list_display (map Integer ss) = str_join "." ss.
Proof.
  destruct ss as [|x ss]; [done |]. cbn. revert x.
  induction ss as [|y ss IH]; intros x; cbn; [apply str_app_nil_r |].
  f_equal. f_equal. apply IH.
Qed.

Lemma digits_sep_free s : digits s = true -> sep_free "." s = true.
Proof.
  unfold digits, sep_free. induction s as [|c s IH]; cbn; [done |].
  intros [Hc Hs]%andb_prop. rewrite (proj1 (digit_not_sep c Hc)). cbn. auto.
Qed.

Lemma join_kept_inj ss ts :
  kept ss -> kept ts -> str_join "." ss = str_join "." ts -> ss = ts.
Proof.
  assert (forall us, kept us -> us <> [] -> str_split "." (str_join "." us) = us) as HI.
  { intros us [HF _] Hne. apply (str_split_join "." us Hne).
    eapply Forall_impl; [|exact HF]. intros d [Hd _]. by apply digits_sep_free. }
  assert (forall us, kept us -> us <> [] -> str_join "." us <> "") as HN.
  { intros us HK Hne E. pose proof (HI us HK Hne) as Hs. rewrite E in Hs. cbn in Hs.
    destruct HK as [HF _]. rewrite <- Hs in HF. inversion HF as [|?? [_ Hst] _].
    by apply stripped_nonempty in Hst. }
  intros HS HT E. destruct ss as [|x ss], ts as [|y ts]; [done | | |].
  - by destruct (HN _ HT).
  - by destruct (HN _ HS).
  - rewrite <- (HI _ HS), <- (HI _ HT) by done. by rewrite E.
Qed.

(** on dotted numeric versions [==] (canonical strings, which [Hash]
    follows) and [cmp] agree: two of them are equal exactly when they
    compare [Equal], so such versions are lawful map keys. *)
Theorem numeric_eq_iff_cmp `{CaseFolding} (xs ys : list string) :
  components xs -> components ys ->
  eq (parse (dotted xs)) (parse (dotted ys)) = true <->
  cmp (parse (dotted xs)) (parse (dotted ys)) = Eq.
Proof.
  intros HX HY. unfold eq, cmp. cbn [items canonical parse].
  rewrite !parse_items_dotted by done.
  destruct (strip_ints_kept xs (proj2 HX)) as (ss & -> & HS).
  destruct (strip_ints_kept ys (proj2 HY)) as (ts & -> & HT).
  rewrite !list_display_ints, String.eqb_eq. split.
  - intros E. rewrite (join_kept_inj ss ts HS HT E).
    apply compare_lists_refl_aux, Forall_forall. intros; apply compare_some_refl.
  - intros E. by rewrite (compare_kept_eq ss ts HS HT E).
Qed.

Lemma numeric_eq_iff_cmp_witness :
  eq (parse (dotted ["1"])) (parse (dotted ["01"; "0"])) = true.
Proof.
  apply (numeric_eq_iff_cmp ["1"] ["01"; "0"]);
    [split; [done | repeat constructor; done] .. | reflexivity].
Defined.

(** ** Where [Ord] breaks its contract *)

Lemma parse_items_ascii `{CaseFolding} s :
  str_forallb is_ascii s = true -> parse_items s = @parse_items ascii_case_folding s.
Proof.
  intros HA. unfold parse_items. by rewrite (to_lowercase_ascii s HA).
Qed.

Lemma parse_ascii `{CaseFolding} s :
  str_forallb is_ascii s = true -> parse s = @parse ascii_case_folding s.
Proof. intros HA. unfold parse. by rewrite (parse_items_ascii s HA). Qed.

(** [cmp] is not transitive, though [impl Ord] promises a total order:
    ["1.sp.1" < "1-alpha" < "1" < "1.sp.1"].  A string token is below every
    list, a list may be below padding, and padding is below ["sp"]. *)
Theorem cmp_not_transitive `{CF : CaseFolding} :
  exists a b c,
    cmp (parse a) (parse b) = Lt /\ cmp (parse b) (parse c) = Lt /\ cmp (parse c) (parse a) = Lt.
Proof.
  exists "1.sp.1", "1-alpha", "1". rewrite !(@parse_ascii CF) by reflexivity.
  vm_compute. auto.
Qed.

(** [==] and [cmp] disagree in both directions: ["0-alpha"] equals
    ["alpha"] (both print as [alpha]) but compares [Greater], because their
    token lists are [[alpha]] and [alpha]; ["1-ga"] compares [Equal] to
    ["1"] but is not equal to it. *)
Theorem eq_cmp_mismatch `{CF : CaseFolding} :
  (eq (parse "0-alpha") (parse "alpha") = true /\ cmp (parse "0-alpha") (parse "alpha") = Gt)
  /\ (eq (parse "1-ga") (parse "1") = false /\ cmp (parse "1-ga") (parse "1") = Eq).
Proof. rewrite !(@parse_ascii CF) by reflexivity. vm_compute. auto. Qed.

(** ** Normal forms *)

(** No position of a normalized list holds a padding item that the loop
    would still remove, at any depth. *)
Fixpoint suffix_kept (l : list Item) : Prop :=
  match l with
  | [] => True
  | x :: rest => drops x rest = false /\ suffix_kept rest
  end.

Lemma strip_nulls_suffix l : suffix_kept (strip_nulls l).
Proof.
  induction l as [|x l IH]; [done |]. rewrite strip_nulls_cons.
  destruct (drops x (strip_nulls l)) eqn:E; cbn; auto.
Qed.

Lemma strip_nulls_id l : suffix_kept l -> strip_nulls l = l.
Proof.
  induction l as [|x l IH]; [done |]. intros [HD HS].
  by rewrite strip_nulls_cons, IH, HD.
Qed.

Lemma strip_nulls_incl l x : In x (strip_nulls l) -> In x l.
Proof.
  induction l as [|y l IH]; [done |]. rewrite strip_nulls_cons.
  destruct (drops y (strip_nulls l)); cbn; intuition.
Qed.

Lemma normalize_item_idem it : normalize_item (normalize_item it) = normalize_item it.
Proof.
  induction it as [s|s|a b _ _|v IH] using Item_ind'; try done.
  cbn. f_equal. rewrite (map_ext_in _ id), map_id.
  - apply strip_nulls_id, strip_nulls_suffix.
  - intros x Hx%strip_nulls_incl. apply in_map_iff in Hx as (y & <- & Hy).
    rewrite List.Forall_forall in IH. by apply IH.
Qed.

(** normalization computes a normal form: a second pass changes nothing,
    and a normalized list never ends in a padding item, so trailing zeros
    are gone at every depth. *)
Theorem normalize_normal_form (l : list Item) :
  normalize (normalize l) = normalize l /\ suffix_kept (normalize l)
  /\ Forall (fun it => normalize_item it = it) (normalize l).
Proof.
  assert (Forall (fun it => normalize_item it = it) (normalize l)) as HF.
  { apply List.Forall_forall. intros x Hx%strip_nulls_incl.
    apply in_map_iff in Hx as (y & <- & _). apply normalize_item_idem. }
  split_and!; [|apply strip_nulls_suffix | exact HF].
  unfold normalize at 1. rewrite (map_ext_in _ id), map_id.
  - apply strip_nulls_id, strip_nulls_suffix.
  - rewrite List.Forall_forall in HF. exact HF.
Qed.

End Version.
