(* ===== verification/Coords.v ===== *)
(** * barista-coords: Maven coordinates

    Models crates/barista-coords/src/lib.rs: [Coords], [GATC] and [GATCV],
    their [FromStr]/[Display] pairs and [ParseError]. *)

From S2P Require Import Prelude.

Module Coords.

Definition DEFAULT_PACKAGING : string := "jar".

Inductive ParseError : Type :=
  | Empty
  | TooFewComponents (n : nat)
  | TooManyComponents (n : nat)
  | EmptyComponent (field : string).

(** ** Coords *)

Record Coords := mkCoords { group : string; artifact : string }.

#[export] Instance Coords_eq_dec : EqDecision Coords.
Proof. solve_decision. Defined.

#[export] Instance Coords_countable : Countable Coords.
Proof.
  refine (inj_countable' (fun c => (group c, artifact c)) (fun p => mkCoords p.1 p.2) _).
  by intros [].
Defined.

(** The derived [Ord]: field by field. *)
Definition Coords_cmp (a b : Coords) : comparison :=
  match String.compare (group a) (group b) with
  | Eq => String.compare (artifact a) (artifact b)
  | c => c
  end.

Definition new (group artifact : string) : result ParseError Coords :=
  if is_empty group then Err (EmptyComponent "group")
  else if is_empty artifact then Err (EmptyComponent "artifact")
  else Ok (mkCoords group artifact).

Definition from_str (s : string) : result ParseError Coords :=
  if is_empty s then Err Empty
  else match str_split ":" s with
       | [g; a] => new g a
       | parts => if length parts <? 2 then Err (TooFewComponents (length parts))
                  else Err (TooManyComponents (length parts))
       end.

Definition display (c : Coords) : string := group c +:+ ":" +:+ artifact c.

(** ** GATC and GATCV *)

Record GATC := mkGATC {
  g_group : string;
  g_artifact : string;
  packaging : string;
  classifier : option string
}.

Record GATCV := mkGATCV { gatc : GATC; version : string }.

Definition coords (g : GATC) : Coords := mkCoords (g_group g) (g_artifact g).
Definition gatcv_coords (g : GATCV) : Coords := coords (gatc g).

Definition is_default (g : GATC) : bool :=
  String.eqb (packaging g) DEFAULT_PACKAGING
  && match classifier g with None => true | Some _ => false end.

Definition check_nonempty (s field : string) : result ParseError unit :=
  if is_empty s then Err (EmptyComponent field) else Ok tt.

Definition gatc_from_str (s : string) : result ParseError GATC :=
  if is_empty s then Err Empty
  else match str_split ":" s with
       | [] => Err (TooFewComponents 0)
       | [_] => Err (TooFewComponents 1)
       | [g; a] =>
           _ ← check_nonempty g "group"; _ ← check_nonempty a "artifact";
           Ok (mkGATC g a DEFAULT_PACKAGING None)
       | [g; a; p] =>
           _ ← check_nonempty g "group"; _ ← check_nonempty a "artifact";
           _ ← check_nonempty p "packaging";
           Ok (mkGATC g a p None)
       | [g; a; p; c] =>
           _ ← check_nonempty g "group"; _ ← check_nonempty a "artifact";
           _ ← check_nonempty p "packaging"; _ ← check_nonempty c "classifier";
           Ok (mkGATC g a p (Some c))
       | parts => Err (TooManyComponents (length parts))
       end.

Definition gatc_display (x : GATC) : string :=
  match classifier x with
  | None =>
      if String.eqb (packaging x) DEFAULT_PACKAGING
      then str_join ":" [g_group x; g_artifact x]
      else str_join ":" [g_group x; g_artifact x; packaging x]
  | Some c => str_join ":" [g_group x; g_artifact x; packaging x; c]
  end.

Definition gatcv_from_str (s : string) : result ParseError GATCV :=
  if is_empty s then Err Empty
  else match str_split ":" s with
       | [] => Err (TooFewComponents 0)
       | [_] => Err (TooFewComponents 1)
       | [_; _] => Err (TooFewComponents 2)
       | [g; a; v] =>
           _ ← check_nonempty g "group"; _ ← check_nonempty a "artifact";
           _ ← check_nonempty v "version";
           Ok (mkGATCV (mkGATC g a DEFAULT_PACKAGING None) v)
       | [g; a; p; v] =>
           _ ← check_nonempty g "group"; _ ← check_nonempty a "artifact";
           _ ← check_nonempty p "packaging"; _ ← check_nonempty v "version";
           Ok (mkGATCV (mkGATC g a p None) v)
       | [g; a; p; c; v] =>
           _ ← check_nonempty g "group"; _ ← check_nonempty a "artifact";
           _ ← check_nonempty p "packaging"; _ ← check_nonempty c "classifier";
           _ ← check_nonempty v "version";
           Ok (mkGATCV (mkGATC g a p (Some c)) v)
       | parts => Err (TooManyComponents (length parts))
       end.

Definition gatcv_display (x : GATCV) : string :=
  let g := gatc x in
  match classifier g with
  | None =>
      if String.eqb (packaging g) DEFAULT_PACKAGING
      then str_join ":" [g_group g; g_artifact g; version x]
      else str_join ":" [g_group g; g_artifact g; packaging g; version x]
  | Some c => str_join ":" [g_group g; g_artifact g; packaging g; c; version x]
  end.

(** ** Well-formed coordinates *)

(** A component the grammar can carry: non-empty and colon-free. *)
Definition component (s : string) : bool := negb (is_empty s) && sep_free ":" s.

Definition coords_wf (c : Coords) : bool := component (group c) && component (artifact c).

Definition gatc_wf (x : GATC) : bool :=
  component (g_group x) && component (g_artifact x) && component (packaging x)
  && match classifier x with None => true | Some c => component c end.

Definition gatcv_wf (x : GATCV) : bool := gatc_wf (gatc x) && component (version x).

Lemma component_free s : component s = true -> sep_free ":" s = true.
Proof. unfold component. by intros [_ ?]%andb_prop. Qed.

Lemma component_nonempty s : component s = true -> is_empty s = false.
Proof. unfold component. by destruct (is_empty s). Qed.

Lemma check_component s f : component s = true -> check_nonempty s f = Ok tt.
Proof. unfold check_nonempty. by intros ->%component_nonempty. Qed.

Lemma join_nonempty p ps : component p = true -> is_empty (str_join ":" (p :: ps)) = false.
Proof.
  intros H%component_nonempty. unfold is_empty in *.
  destruct p as [|c p]; [done |]. by destruct ps.
Qed.

(** The components of a printed coordinate come back from the split. *)
Lemma split_components l :
  l <> [] -> Forall (fun p => component p = true) l ->
  str_split ":" (str_join ":" l) = l.
Proof.
  intros Hne HF. apply str_split_join; [done |].
  eapply Forall_impl; [|exact HF]. apply component_free.
Qed.

Lemma check_ok_inv s f u : check_nonempty s f = Ok u -> is_empty s = false.
Proof. unfold check_nonempty. by destruct (is_empty s). Qed.

Create HintDb coords.
#[export] Hint Resolve component_free check_component : coords.

(** Split a printed coordinate into its components and run the checks. *)
Ltac solve_parse :=
  repeat match goal with
  | H : _ && _ = true |- _ => apply andb_prop in H as [? ?]
  end;
  rewrite join_nonempty by done; rewrite split_components by (done || (repeat constructor; done));
  rewrite ?check_component by done; cbn.

Lemma gatcv_print_parse (x : GATCV) :
  gatcv_wf x = true -> gatcv_from_str (gatcv_display x) = Ok x.
Proof.
  destruct x as [[g a p c] v]. unfold gatcv_wf, gatc_wf, gatcv_from_str, gatcv_display.
  cbn -[component check_nonempty str_split str_join is_empty]. intros H.
  destruct c as [c|]; [solve_parse; done |].
  destruct (String.eqb_spec p DEFAULT_PACKAGING) as [->|]; solve_parse; done.
Qed.

(** printing and parsing a fully qualified coordinate round-trips: for
    every coordinate with non-empty, colon-free components the parser reads
    back exactly what [Display] wrote, in each of its three layouts. *)
Theorem gatcv_roundtrip (x : GATCV) :
  gatcv_wf x = true -> gatcv_from_str (gatcv_display x) = Ok x.
Proof. apply gatcv_print_parse. Qed.

Lemma gatcv_roundtrip_witness :
  gatcv_from_str (gatcv_display (mkGATCV (mkGATC "com.google.guava" "guava" "jar" (Some "sources")) "33.0.0-jre"))
  = Ok (mkGATCV (mkGATC "com.google.guava" "guava" "jar" (Some "sources")) "33.0.0-jre").
Proof. apply gatcv_roundtrip. reflexivity. Defined.

Lemma gatc_roundtrip (x : GATC) :
  gatc_wf x = true -> gatc_from_str (gatc_display x) = Ok x.
Proof.
  destruct x as [g a p c]. unfold gatc_wf, gatc_from_str, gatc_display.
  cbn -[component check_nonempty str_split str_join is_empty]. intros H.
  destruct c as [c|]; [solve_parse; done |].
  destruct (String.eqb_spec p DEFAULT_PACKAGING) as [->|]; solve_parse; done.
Qed.

Lemma coords_roundtrip (c : Coords) :
  coords_wf c = true -> from_str (display c) = Ok c.
Proof.
  destruct c as [g a]. unfold coords_wf, from_str.
  change (display (mkCoords g a)) with (str_join ":" [g; a]). cbn [group artifact].
  intros H. solve_parse. unfold new.
  by rewrite (component_nonempty g), (component_nonempty a).
Qed.

(** *** What the parsers accept *)

Lemma split_free_parts s l : str_split ":" s = l -> Forall (fun p => sep_free ":" p = true) l.
Proof. intros <-. apply str_split_parts_free. Qed.

(** Collect the checks a successful parse has made. *)
Ltac inv_checks H :=
  repeat (let Hc := fresh "Hc" in
          apply bind_ok_inv in H; destruct H as (? & Hc & H); apply check_ok_inv in Hc);
  injection H as <-.

Ltac solve_wf :=
  repeat match goal with HF : Forall _ (_ :: _) |- _ => inversion HF; clear HF; subst end;
  unfold component;
  repeat match goal with
    | H : is_empty ?s = false |- _ => rewrite H; clear H
    | H : sep_free ":" ?s = true |- _ => rewrite H; clear H
  end; done.

Lemma gatcv_from_str_wf s x : gatcv_from_str s = Ok x -> gatcv_wf x = true.
Proof.
  unfold gatcv_from_str. destruct (is_empty s); [done |].
  pose proof (split_free_parts s _ eq_refl) as HF.
  destruct (str_split ":" s) as [|g [|a [|p [|c [|v [|? ?]]]]]]; try done;
    intros H; inv_checks H; unfold gatcv_wf, gatc_wf;
    cbn -[component]; solve_wf.
Qed.

(** everything the coordinate parser accepts is well formed, and
    re-reading its printed form gives the same coordinate: [Display] is a
    canonical form of the accepted strings (["g:a:jar:v"] prints as
    ["g:a:v"]). *)
Theorem gatcv_parse_canonical (s : string) (x : GATCV) :
  gatcv_from_str s = Ok x ->
  gatcv_wf x = true /\ gatcv_from_str (gatcv_display x) = Ok x
  /\ (3 <= length (str_split ":" s) <= 5).
Proof.
  intros H. pose proof (gatcv_from_str_wf s x H) as HW.
  pose proof (gatcv_print_parse x HW).
  split_and!; try done;
    unfold gatcv_from_str in H; destruct (is_empty s); try done;
    destruct (str_split ":" s) as [|? [|? [|? [|? [|? [|? ?]]]]]]; try done; cbn; lia.
Qed.

Lemma gatcv_parse_canonical_witness :
  gatcv_from_str (gatcv_display (mkGATCV (mkGATC "g" "a" "jar" None) "1")) =
  Ok (mkGATCV (mkGATC "g" "a" "jar" None) "1").
Proof. apply (gatcv_parse_canonical "g:a:jar:1"). reflexivity. Defined.

(** the artifact-file identity parser is exact: it accepts a string if
    and only if the string has two to four colon-separated components, all
    non-empty. *)
Theorem gatc_from_str_exact (s : string) :
  (exists x, gatc_from_str s = Ok x) <->
  (2 <= length (str_split ":" s) <= 4 /\
   Forall (fun p => is_empty p = false) (str_split ":" s)).
Proof.
  unfold gatc_from_str. destruct (is_empty s) eqn:E.
  { unfold is_empty in E. apply String.eqb_eq in E as ->. cbn. split; [by intros [] | lia]. }
  destruct (str_split ":" s) as [|g [|a [|p [|c [|? ?]]]]]; cbn [length];
    (split; [intros [x H]; try discriminate H | intros [HL HF]; try lia]).
  all: try (inv_checks H; split; [lia | repeat constructor; done]).
  all: repeat match goal with HF : Forall _ (_ :: _) |- _ => inversion HF; clear HF; subst end;
    unfold check_nonempty; repeat match goal with H : is_empty _ = false |- _ => rewrite H; clear H end;
    cbn; eauto.
Qed.

End Coords.
