(* ===== verification/VersionSpec.v ===== *)
(** * barista-resolver: version requirements

    Models crates/barista-resolver/src/version_spec.rs: the parser of
    [<version>] declarations, interval membership and the canonical
    printer. *)

From S2P Require Import Prelude Version.

Module VersionSpec.

Inductive Bound (T : Type) : Type :=
  | Unbounded
  | Included (v : T)
  | Excluded (v : T).
Arguments Unbounded {T}.
Arguments Included {T} v.
Arguments Excluded {T} v.

Record Interval := mkInterval {
  lower : Bound Version.Version;
  upper : Bound Version.Version
}.

Inductive VersionSpec : Type :=
  | Soft (s : string)
  | Hard (intervals : list Interval)
  | Latest
  | Release.

(** The [detail] text of [InvalidBound], as the value it is formatted from. *)
Inductive Detail : Type :=
  | ExpectedOpenAt (position : nat)
  | NoIntervalsFound
  | EmptyExactMatch
  | InvalidVersion (tok : string) (e : Version.ParseError).

Inductive ParseError : Type :=
  | Empty
  | UnmatchedBracket (input : string)
  | MissingComma (input : string)
  | InvalidBound (input : string) (detail : Detail).

(** Warnings the resolver reports. *)
Inductive SpecWarning : Type :=
  | LatestUsed (coords resolved_to : string)
  | ReleaseUsed (coords resolved_to : string)
  | SoftRangeNarrowing (coords declared resolved_to : string).

(** ** Membership *)

Definition contains (i : Interval) (v : Version.Version) : bool :=
  let lower_ok := match lower i with
                  | Unbounded => true
                  | Included b => Version.ge v b
                  | Excluded b => Version.gt v b
                  end in
  let upper_ok := match upper i with
                  | Unbounded => true
                  | Included b => Version.le v b
                  | Excluded b => Version.lt v b
                  end in
  lower_ok && upper_ok.

Definition satisfies (spec : VersionSpec) (v : Version.Version) : bool :=
  match spec with
  | Soft _ | Latest | Release => true
  | Hard intervals => existsb (fun i => contains i v) intervals
  end.

(** ** Printing *)

Definition bound_text (b : Bound Version.Version) : string :=
  match b with
  | Unbounded => ""
  | Included v | Excluded v => Version.original v
  end.

Definition interval_to_string (i : Interval) : string :=
  let general :=
    match lower i with Included _ => "[" | Excluded _ | Unbounded => "(" end
    +:+ bound_text (lower i) +:+ "," +:+ bound_text (upper i)
    +:+ match upper i with Included _ => "]" | Excluded _ | Unbounded => ")" end in
  match lower i, upper i with
  | Included lo, Included hi =>
      if Version.eq lo hi then "[" +:+ Version.original lo +:+ "]" else general
  | _, _ => general
  end.

Definition to_string_canonical (spec : VersionSpec) : string :=
  match spec with
  | Soft s => s
  | Latest => "LATEST"
  | Release => "RELEASE"
  | Hard intervals => str_join "," (map interval_to_string intervals)
  end.

(** ** Parsing *)

Section Parse.
Context `{CF : CaseFolding}.

Definition parse_version_token (full tok : string) : result ParseError Version.Version :=
  map_err (fun e => InvalidBound full (InvalidVersion tok e)) (Version.parse_strict tok).

(** [open] is ['['] or ['('] and [close] is [']'] or [')'] here, so the
    [unreachable!] arms have no counterpart. *)
Definition parse_interval (full inner : string) (open close : ascii) : result ParseError Interval :=
  let inner := trim inner in
  match str_split_once "," inner with
  | None =>
      if negb (Ascii.eqb open "[") || negb (Ascii.eqb close "]") then Err (MissingComma full)
      else if is_empty inner then Err (InvalidBound full EmptyExactMatch)
      else v ← parse_version_token full inner;
           Ok (mkInterval (Included v) (Included v))
  | Some (lo, hi) =>
      let lo_str := trim lo in
      let hi_str := trim hi in
      lower ← (if is_empty lo_str then Ok Unbounded
               else v ← parse_version_token full lo_str;
                    Ok (if Ascii.eqb open "[" then Included v else Excluded v));
      upper ← (if is_empty hi_str then Ok Unbounded
               else v ← parse_version_token full hi_str;
                    Ok (if Ascii.eqb close "]" then Included v else Excluded v));
      Ok (mkInterval lower upper)
  end.

(** [u8::is_ascii_whitespace]: space, tab, line feed, form feed, return. *)
Definition is_ascii_whitespace (a : ascii) : bool :=
  let x := code a in ((x =? 32) || (x =? 9) || (x =? 10) || (x =? 12) || (x =? 13))%N.

(** Skip white space and commas; also counts the bytes skipped. *)
Fixpoint skip_separators (s : string) : nat * string :=
  match s with
  | String a s' =>
      if is_ascii_whitespace a || Ascii.eqb a "," then
        let (n, r) := skip_separators s' in (S n, r)
      else (0, s)
  | EmptyString => (0, s)
  end.

(** The text up to the first closing bracket, that bracket and the rest. *)
Fixpoint find_close (s : string) : option (string * ascii * string) :=
  match s with
  | EmptyString => None
  | String a s' =>
      if Ascii.eqb a "]" || Ascii.eqb a ")" then Some (EmptyString, a, s')
      else match find_close s' with
           | Some (inner, close, rest) => Some (String a inner, close, rest)
           | None => None
           end
  end.

(** The loop of [parse_hard] at byte [i], [rest] being [&s[i..]].  The outer
    [None] is fuel exhaustion. *)
Fixpoint parse_hard_loop (full : string) (fuel i : nat) (rest : string)
    (intervals : list Interval) : option (result ParseError (list Interval)) :=
  let (skipped, rest) := skip_separators rest in
  let i := i + skipped in
  match rest with
  | EmptyString => Some (Ok intervals)
  | String open body =>
      if negb (Ascii.eqb open "[") && negb (Ascii.eqb open "(") then
        Some (Err (InvalidBound full (ExpectedOpenAt i)))
      else match find_close body with
           | None => Some (Err (UnmatchedBracket full))
           | Some (inner, close, rest') =>
               match parse_interval full inner open close with
               | Err e => Some (Err e)
               | Ok iv =>
                   match fuel with
                   | O => None
                   | S fuel' =>
                       parse_hard_loop full fuel' (i + 1 + String.length inner + 1) rest'
                         (intervals ++ [iv])
                   end
               end
           end
  end.

Definition parse_hard (s : string) : result ParseError (list Interval) :=
  match parse_hard_loop s (String.length s) 0 s [] with
  | Some (Ok []) => Err (InvalidBound s NoIntervalsFound)
  | Some r => r
  | None => Err Empty (* unreachable: parse_hard_total *)
  end.

Definition starts_with (c : ascii) (s : string) : bool :=
  match s with String a _ => Ascii.eqb a c | EmptyString => false end.

Definition parse (raw : string) : result ParseError VersionSpec :=
  let trimmed := trim raw in
  if is_empty trimmed then Err Empty
  else if eq_ignore_ascii_case trimmed "LATEST" then Ok Latest
  else if eq_ignore_ascii_case trimmed "RELEASE" then Ok Release
  else if starts_with "[" trimmed || starts_with "(" trimmed then Hard <$> parse_hard trimmed
  else Ok (Soft trimmed).

(** ** The loop terminates *)

Lemma skip_separators_length s n r :
  skip_separators s = (n, r) -> String.length s = n + String.length r.
Proof.
  revert n r. induction s as [|a s IH]; intros n r; cbn.
  - by intros [= <- <-].
  - destruct (_ || _); [|by intros [= <- <-]].
    destruct (skip_separators s) as [m r'] eqn:E. intros [= <- <-].
    rewrite (IH m r' eq_refl). lia.
Qed.

Lemma find_close_length s inner close rest :
  find_close s = Some (inner, close, rest) ->
  String.length s = String.length inner + 1 + String.length rest.
Proof.
  revert inner close rest. induction s as [|a s IH]; intros inner close rest; cbn; [done |].
  destruct (_ || _); [intros [= <- <- <-]; cbn; lia |].
  destruct (find_close s) as [[[x y] z]|] eqn:E; [|done]. intros [= <- <- <-].
  rewrite (IH x y z eq_refl). cbn. lia.
Qed.

Lemma parse_hard_loop_total full fuel i rest acc :
  String.length rest <= fuel -> is_Some (parse_hard_loop full fuel i rest acc).
Proof.
  revert i rest acc. induction fuel as [|fuel IH]; intros i rest acc HL; cbn;
    destruct (skip_separators rest) as [n r] eqn:E; apply skip_separators_length in E;
    (destruct r as [|open body]; [eauto |]); cbn in E.
  - lia.
  - destruct (_ && _); [eauto |].
    destruct (find_close body) as [[[x y] z]|] eqn:F; [|eauto].
    apply find_close_length in F. destruct (parse_interval full x open y); [|eauto].
    apply IH. lia.
Qed.

(** the range parser always finishes: with one unit of fuel per byte
    the loop reaches a verdict, so [parse_hard] is total and its fuel
    branch is dead. *)
Theorem parse_hard_total (s : string) :
  exists r, parse_hard_loop s (String.length s) 0 s [] = Some r
            /\ parse_hard s = match r with Ok [] => Err (InvalidBound s NoIntervalsFound) | _ => r end.
Proof.
  destruct (parse_hard_loop_total s (String.length s) 0 s []) as [r Hr]; [lia |].
  exists r. split; [done |]. unfold parse_hard. rewrite Hr. by destruct r as [[]|].
Qed.

(** ** Printing is canonical *)

(** The derived [PartialEq]: bounds compare with [Version]'s [==]. *)
Definition bound_eq (a b : Bound Version.Version) : bool :=
  match a, b with
  | Unbounded, Unbounded => true
  | Included x, Included y | Excluded x, Excluded y => Version.eq x y
  | _, _ => false
  end.

Definition interval_eq (a b : Interval) : bool :=
  bound_eq (lower a) (lower b) && bound_eq (upper a) (upper b).

Fixpoint intervals_eq (l k : list Interval) : bool :=
  match l, k with
  | [], [] => true
  | x :: l', y :: k' => interval_eq x y && intervals_eq l' k'
  | _, _ => false
  end.

Definition spec_eq (a b : VersionSpec) : bool :=
  match a, b with
  | Soft x, Soft y => String.eqb x y
  | Hard l, Hard k => intervals_eq l k
  | Latest, Latest | Release, Release => true
  | _, _ => false
  end.

Definition not_close (a : ascii) : bool := negb (Ascii.eqb a "]" || Ascii.eqb a ")").

(** What a bound's text looks like after a parse. *)
Definition token (t : string) : Prop :=
  is_empty t = false /\ trimmed t /\ str_forallb not_close t = true.

Definition bound_ok (b : Bound Version.Version) : Prop :=
  match b with
  | Unbounded => True
  | Included v | Excluded v => exists t, v = Version.parse t /\ token t
  end.

Definition interval_ok (i : Interval) : Prop :=
  bound_ok (lower i) /\ bound_ok (upper i) /\ sep_free "," (bound_text (lower i)) = true.

Lemma token_parse full t : is_empty t = false -> parse_version_token full t = Ok (Version.parse t).
Proof.
  intros H. unfold parse_version_token, Version.parse_strict. unfold is_empty in H. by rewrite H.
Qed.

Lemma split_once_parts c s x y :
  str_split_once c s = Some (x, y) -> s = x +:+ String c y /\ sep_free c x = true.
Proof.
  unfold sep_free. revert x y. induction s as [|a s IH]; intros x y; cbn; [done |].
  destruct (Ascii.eqb_spec a c) as [->|Ha]; [by intros [= <- <-] |].
  destruct (str_split_once c s) as [[u v]|] eqn:E; [|done]. intros [= <- <-].
  destruct (IH u v eq_refl) as [-> HF]. cbn. rewrite HF, andb_true_r.
  split; [done |]. by apply negb_true_iff, Ascii.eqb_neq.
Qed.

Lemma split_once_none c s : str_split_once c s = None -> sep_free c s = true.
Proof.
  unfold sep_free. induction s as [|a s IH]; cbn; [done |].
  destruct (Ascii.eqb a c); [done |]. destruct (str_split_once c s) as [[]|]; [done | auto].
Qed.

Lemma split_once_app c x y : sep_free c x = true -> str_split_once c (x +:+ String c y) = Some (x, y).
Proof.
  unfold sep_free. induction x as [|a x IH]; cbn; [by rewrite Ascii.eqb_refl |].
  intros [Ha Hx]%andb_prop. apply negb_true_iff in Ha. by rewrite Ha, IH.
Qed.

Lemma split_once_absent c s : sep_free c s = true -> str_split_once c s = None.
Proof.
  unfold sep_free. induction s as [|a s IH]; cbn; [done |].
  intros [Ha Hx]%andb_prop. apply negb_true_iff in Ha. by rewrite Ha, IH.
Qed.

Lemma find_close_inner s inner close rest :
  find_close s = Some (inner, close, rest) -> str_forallb not_close inner = true.
Proof.
  revert inner close rest. induction s as [|a s IH]; intros inner close rest; cbn; [done |].
  destruct (Ascii.eqb a "]" || Ascii.eqb a ")") eqn:E; [by intros [= <- <- <-] |].
  destruct (find_close s) as [[[x y] z]|]; [|done]. intros [= <- <- <-].
  cbn. rewrite (IH x y z eq_refl). unfold not_close. by rewrite E.
Qed.

Lemma find_close_app inner close rest :
  str_forallb not_close inner = true -> not_close close = false ->
  find_close (inner +:+ String close rest) = Some (inner, close, rest).
Proof.
  intros HF Hc. unfold not_close in Hc. apply negb_false_iff in Hc.
  induction inner as [|a inner IH]; cbn in *; [by rewrite Hc |].
  apply andb_prop in HF as [Ha HF]. unfold not_close in Ha. apply negb_true_iff in Ha.
  by rewrite Ha, IH.
Qed.

Lemma token_trim inner : str_forallb not_close inner = true ->
  is_empty (trim inner) = false -> token (trim inner).
Proof. intros. unfold token. auto using trim_trimmed, trim_forallb. Qed.

(** What a successful parse of one interval has established. *)
Lemma parse_interval_ok full inner open close i :
  str_forallb not_close inner = true ->
  parse_interval full inner open close = Ok i -> interval_ok i.
Proof.
  intros HF. unfold parse_interval.
  destruct (str_split_once "," (trim inner)) as [[lo hi]|] eqn:ES.
  - apply split_once_parts in ES as [EI HS].
    pose proof (trim_forallb _ _ HF) as HF'. rewrite EI, str_forallb_app in HF'.
    apply andb_prop in HF' as [Hlo Hhi]. cbn in Hhi. intros H.
    inv_bind H. inv_bind H. injection H as <-. unfold interval_ok. cbn [lower upper].
    split_and!.
    + destruct (is_empty (trim lo)) eqn:El; [by injection E as <- |].
      rewrite token_parse in E by done. cbn in E. injection E as <-.
      destruct (Ascii.eqb open "["); cbn; eauto using token_trim.
    + destruct (is_empty (trim hi)) eqn:El; [by injection E0 as <- |].
      rewrite token_parse in E0 by done. cbn in E0. injection E0 as <-.
      destruct (Ascii.eqb close "]"); cbn; eauto using token_trim.
    + destruct (is_empty (trim lo)) eqn:El; [by injection E as <- |].
      rewrite token_parse in E by done. cbn in E. injection E as <-.
      assert (sep_free "," (trim lo) = true) by (by apply trim_forallb).
      destruct (Ascii.eqb open "["); done.
  - apply split_once_none in ES. destruct (_ || _); [done |].
    destruct (is_empty (trim inner)) eqn:El; [done |].
    rewrite token_parse by done. cbn. intros [= <-]. unfold interval_ok. cbn.
    split_and!; eauto using token_trim.
Qed.

Lemma parse_hard_loop_ok full fuel i rest acc r :
  Forall interval_ok acc ->
  parse_hard_loop full fuel i rest acc = Some (Ok r) -> Forall interval_ok r.
Proof.
  revert i rest acc. induction fuel as [|fuel IH]; intros i rest acc HA; cbn;
    destruct (skip_separators rest) as [n s]; destruct s as [|open body];
    try (by intros [= <-]); destruct (_ && _); try done;
    destruct (find_close body) as [[[x y] z]|] eqn:F; try done;
    destruct (parse_interval full x open y) eqn:P; try done.
  apply IH, Forall_app_2; [done |]. constructor; [|done].
  eapply parse_interval_ok, P. by eapply find_close_inner.
Qed.

Lemma token_text b : bound_ok b -> trimmed (bound_text b) /\ str_forallb not_close (bound_text b) = true.
Proof. destruct b; cbn; [done | |]; intros (t & -> & HT); unfold token in HT; naive_solver. Qed.

Lemma version_eq_refl v : Version.eq v v = true.
Proof. apply String.eqb_refl. Qed.

Lemma bound_eq_refl b : bound_eq b b = true.
Proof. destruct b; [done | apply version_eq_refl ..]. Qed.

(** Re-reading the text of a bound. *)
Lemma reparse_bound full b (incl : bool) :
  bound_ok b -> match b with Included _ => incl = true | Excluded _ => incl = false | Unbounded => True end ->
  (if is_empty (bound_text b) then Ok Unbounded
   else v ← parse_version_token full (bound_text b);
        Ok (if incl then Included v else Excluded v)) = Ok b.
Proof.
  destruct b as [|v|v]; [done | |]; intros (t & -> & HE & _) ->; cbn [bound_text];
    change (Version.original (Version.parse t)) with t; rewrite HE, token_parse by done; done.
Qed.

Definition open_of (b : Bound Version.Version) : ascii :=
  match b with Included _ => "["%char | _ => "("%char end.
Definition close_of (b : Bound Version.Version) : ascii :=
  match b with Included _ => "]"%char | _ => ")"%char end.

(** The general form [lo,hi] reads back as the interval itself. *)
Lemma reparse_general full i :
  interval_ok i ->
  parse_interval full (bound_text (lower i) +:+ String "," (bound_text (upper i)))
    (open_of (lower i)) (close_of (upper i)) = Ok i.
Proof.
  intros (Hl & Hu & HS). destruct i as [lo up]. cbn [lower upper] in *. unfold parse_interval.
  destruct (token_text lo Hl) as [Tl _], (token_text up Hu) as [Tu _].
  rewrite (trim_id (bound_text lo +:+ _)) by (apply trimmed_around; done).
  rewrite split_once_app by done. rewrite !trim_id by done.
  rewrite (reparse_bound full lo (Ascii.eqb (open_of lo) "[")) by (destruct lo; done).
  cbn [mbind result_mbind].
  rewrite (reparse_bound full up (Ascii.eqb (close_of up) "]")) by (destruct up; done). done.
Qed.

(** Every printed interval is a bracketed text that reads back as an equal
    interval. *)
Lemma reparse_interval i :
  interval_ok i ->
  exists o x c i', interval_to_string i = String o (x +:+ String c "")
    /\ (o = "[" \/ o = "(")%char /\ not_close c = false /\ solid c = true
    /\ str_forallb not_close x = true
    /\ (forall full, parse_interval full x o c = Ok i') /\ interval_eq i' i = true.
Proof.
  intros Hi. pose proof Hi as (Hl & Hu & HS).
  destruct (token_text _ Hl) as [_ Nl], (token_text _ Hu) as [_ Nu].
  assert (str_forallb not_close (bound_text (lower i) +:+ String "," (bound_text (upper i))) = true) as HN
    by (rewrite str_forallb_app, Nl; done).
  assert (exists o x c i', String (open_of (lower i)) (bound_text (lower i) +:+
             String "," (bound_text (upper i)) +:+ String (close_of (upper i)) "") = String o (x +:+ String c "")
    /\ (o = "[" \/ o = "(")%char /\ not_close c = false /\ solid c = true
    /\ str_forallb not_close x = true
    /\ (forall full, parse_interval full x o c = Ok i') /\ interval_eq i' i = true) as HG.
  { exists (open_of (lower i)), (bound_text (lower i) +:+ String "," (bound_text (upper i))),
      (close_of (upper i)), i. split_and!; auto.
    - by rewrite str_app_assoc.
    - destruct (lower i); auto.
    - by destruct (upper i).
    - by destruct (upper i).
    - intros full. by apply reparse_general.
    - unfold interval_eq. by rewrite !bound_eq_refl. }
  destruct i as [[|lo|lo] [|hi|hi]]; unfold interval_to_string; cbn [lower upper] in *; try exact HG.
  destruct (Version.eq lo hi) eqn:E; [|exact HG]. clear HG.
  destruct Hl as (t & -> & HE & HT & HN'). cbn [bound_text] in *.
  exists "["%char, t, "]"%char, (mkInterval (Included (Version.parse t)) (Included (Version.parse t))).
  split_and!; auto; [|unfold interval_eq; cbn [lower upper bound_eq]; rewrite version_eq_refl; exact E].
  intros full. unfold parse_interval. rewrite trim_id, split_once_absent, HE, token_parse by done. done.
Qed.

(** A printed union starts with a bracket, so no separator is skipped. *)
Lemma skip_join l :
  Forall interval_ok l ->
  skip_separators (str_join "," (map interval_to_string l)) =
  (0, str_join "," (map interval_to_string l)).
Proof.
  destruct 1 as [|y l Hy _]; [done |].
  destruct (reparse_interval y Hy) as (o & t & c & y' & ES & Ho & _).
  cbn [map]. rewrite ES. destruct Ho as [->| ->]; by destruct l.
Qed.

(** The loop reads a printed union back, interval by interval. *)
Lemma reparse_loop full l fuel i rest k acc :
  Forall interval_ok l -> length l <= fuel ->
  skip_separators rest = (k, str_join "," (map interval_to_string l)) ->
  exists l', intervals_eq l' l = true
    /\ parse_hard_loop full fuel i rest acc = Some (Ok (acc ++ l')).
Proof.
  intros HF. revert fuel i rest k acc. induction HF as [|x l Hx HF IH]; intros fuel i rest k acc HL EK.
  { exists []. split; [done |]. rewrite app_nil_r. destruct fuel; cbn; by rewrite EK. }
  destruct (reparse_interval x Hx) as (o & t & c & x' & ES & Ho & Hc & _ & HN & HP & HE).
  destruct fuel as [|fuel]; [cbn in HL; lia |]. cbn [length] in HL.
  assert (exists rest', str_join "," (map interval_to_string (x :: l)) = String o (t +:+ String c rest')
    /\ exists k', skip_separators rest' = (k', str_join "," (map interval_to_string l)))
    as (rest' & EJ & k' & EK').
  { pose proof (skip_join l HF) as E0. destruct l as [|y l].
    - exists "". split; [exact ES | by exists 0].
    - exists ("," +:+ str_join "," (map interval_to_string (y :: l))). split.
      + cbn [map]. rewrite str_join_cons, ES. cbn. by rewrite str_app_assoc.
      + exists 1. change ("," +:+ ?s) with (String "," s). cbn [skip_separators].
        change (is_ascii_whitespace "," || Ascii.eqb "," ",") with true. cbn iota. by rewrite E0. }
  destruct (IH fuel (i + k + 1 + String.length t + 1) rest' k' (acc ++ [x']) ltac:(lia) EK')
    as (l' & HE' & HP').
  exists (x' :: l'). split; [cbn; by rewrite HE, HE' |].
  cbn [parse_hard_loop]. rewrite EK, EJ.
  assert (negb (Ascii.eqb o "[") && negb (Ascii.eqb o "(") = false) as ->
    by (destruct Ho as [->| ->]; done).
  rewrite find_close_app, HP by done.
  rewrite HP', <- app_assoc. done.
Qed.

Lemma join_length l : length l <= String.length (str_join "," (map interval_to_string l)) \/ Exists (fun i => interval_to_string i = "") l.
Proof.
  induction l as [|x l IH]; [by left |].
  destruct (String.eqb_spec (interval_to_string x) "") as [|Hx]; [right; by left |].
  destruct IH as [IH|IH]; [left | right; by right].
  assert (1 <= String.length (interval_to_string x)) by (destruct (interval_to_string x); cbn; [done | lia]).
  destruct l as [|y l]; [cbn in *; lia |]. cbn [map] in *.
  rewrite str_join_cons, !str_length_app. cbn [length String.length] in *. lia.
Qed.

Lemma canonical_long_enough l :
  Forall interval_ok l -> length l <= String.length (str_join "," (map interval_to_string l)).
Proof.
  intros HF. destruct (join_length l) as [|HE]; [done |]. exfalso.
  apply Exists_exists in HE as (x & Hx & E). rewrite Forall_forall in HF.
  destruct (reparse_interval x (HF x Hx)) as (o & t & c & x' & ES & _). congruence.
Qed.

(** The printed union starts and ends with a bracket. *)
Lemma join_brackets l : l <> [] -> Forall interval_ok l ->
  exists o s c, str_join "," (map interval_to_string l) = String o (s +:+ String c "")
    /\ (o = "[" \/ o = "(")%char /\ solid c = true.
Proof.
  intros Hne HF. destruct HF as [|x l Hx HF]; [done |]. clear Hne. revert x Hx.
  induction HF as [|y l Hy HF IH]; intros x Hx;
    destruct (reparse_interval x Hx) as (o & t & c & x' & ES & Ho & _ & Hc & _).
  - exists o, t, c. split_and!; [exact ES | done | done].
  - destruct (IH y Hy) as (o' & s & c' & EJ & _ & Hc').
    exists o, (t +:+ String c "" +:+ "," +:+ String o' s), c'. split_and!; [|done|done].
    cbn [map] in *. rewrite str_join_cons, EJ, ES. cbn. by rewrite !str_app_assoc.
Qed.

Lemma soft_reparse t :
  trimmed t -> is_empty t = false -> starts_with "[" t || starts_with "(" t = false ->
  eq_ignore_ascii_case t "LATEST" = false -> eq_ignore_ascii_case t "RELEASE" = false ->
  parse t = Ok (Soft t).
Proof. intros HT H1 H2 H3 H4. unfold parse. by rewrite trim_id, H1, H3, H4, H2. Qed.

Lemma hard_reparse l :
  l <> [] -> Forall interval_ok l ->
  exists l', parse (str_join "," (map interval_to_string l)) = Ok (Hard l') /\ intervals_eq l' l = true.
Proof.
  intros Hne HF. destruct (join_brackets l Hne HF) as (o & s & c & EJ & Ho & Hc).
  destruct (reparse_loop (str_join "," (map interval_to_string l)) l
              (String.length (str_join "," (map interval_to_string l))) 0 _ 0 []
              HF (canonical_long_enough l HF) (skip_join l HF)) as (l' & HE & HP).
  exists l'. split; [|done]. unfold parse, parse_hard.
  assert (trimmed (str_join "," (map interval_to_string l))) as HT
    by (rewrite EJ; apply trimmed_ends; destruct Ho as [->| ->]; done).
  rewrite trim_id by done.
  assert (is_empty (str_join "," (map interval_to_string l)) = false
    /\ eq_ignore_ascii_case (str_join "," (map interval_to_string l)) "LATEST" = false
    /\ eq_ignore_ascii_case (str_join "," (map interval_to_string l)) "RELEASE" = false
    /\ starts_with "[" (str_join "," (map interval_to_string l))
       || starts_with "(" (str_join "," (map interval_to_string l)) = true) as (-> & -> & -> & ->)
    by (rewrite EJ; destruct Ho as [->| ->]; done).
  rewrite HP. cbn. destruct l' as [|z l']; [by destruct l | done].
Qed.

Lemma parse_hard_ok s l : parse_hard s = Ok l -> l <> [] /\ Forall interval_ok l.
Proof.
  unfold parse_hard. destruct (parse_hard_loop _ _ _ _ _) as [[r|e]|] eqn:E; try done.
  pose proof (parse_hard_loop_ok _ _ _ _ _ r (Forall_nil_2 _) E).
  destruct r; [done |]. by intros [= <-].
Qed.

(** the canonical form of a requirement is stable.  Whatever declaration
    was read, printing it and reading the text again gives an equal
    requirement (by the derived [PartialEq]). *)
Theorem spec_print_parse (raw : string) (spec : VersionSpec) :
  parse raw = Ok spec ->
  exists spec', parse (to_string_canonical spec) = Ok spec' /\ spec_eq spec' spec = true.
Proof.
  unfold parse at 1. pose proof (trim_trimmed raw) as HT.
  destruct (is_empty (trim raw)) eqn:H1; [done |].
  destruct (eq_ignore_ascii_case (trim raw) "LATEST") eqn:H2.
  { intros [= <-]. by exists Latest. }
  destruct (eq_ignore_ascii_case (trim raw) "RELEASE") eqn:H3.
  { intros [= <-]. by exists Release. }
  destruct (starts_with "[" (trim raw) || starts_with "(" (trim raw)) eqn:H4.
  - destruct (parse_hard (trim raw)) as [l|] eqn:E; cbn; [|done]. intros [= <-].
    apply parse_hard_ok in E as [Hne HF].
    destruct (hard_reparse l Hne HF) as (l' & HP & HE). by exists (Hard l').
  - intros [= <-]. exists (Soft (trim raw)). cbn. rewrite String.eqb_refl.
    split; [by apply soft_reparse | done].
Qed.

(** ** What the brackets mean *)

(** A bracketed piece of a declaration: its brackets and the text between. *)
Record Piece := mkPiece { p_open : ascii; p_text : string; p_close : ascii }.

Definition separator (a : ascii) : bool := is_ascii_whitespace a || Ascii.eqb a ",".

(** The text is a sequence of pieces, with white space and commas between. *)
Inductive pieces : string -> list Piece -> Prop :=
  | pieces_nil s : str_forallb separator s = true -> pieces s []
  | pieces_cons seps o x c rest ps :
      str_forallb separator seps = true -> (o = "[" \/ o = "(")%char -> (c = "]" \/ c = ")")%char ->
      str_forallb not_close x = true -> pieces rest ps ->
      pieces (seps +:+ String o (x +:+ String c rest)) (mkPiece o x c :: ps).

(** The versions a lower and an upper limit admit; an empty one admits all. *)
Definition above (o : ascii) (t : string) (v : Version.Version) : Prop :=
  t = "" \/ (o = "["%char /\ Version.cmp v (Version.parse t) <> Lt)
  \/ (o = "("%char /\ Version.cmp v (Version.parse t) = Gt).

Definition below (c : ascii) (t : string) (v : Version.Version) : Prop :=
  t = "" \/ (c = "]"%char /\ Version.cmp v (Version.parse t) <> Gt)
  \/ (c = ")"%char /\ Version.cmp v (Version.parse t) = Lt).

(** A piece with a comma is a range, split at the first; one without is an
    exact version, in square brackets. *)
Definition exact (p : Piece) : Prop :=
  sep_free "," (trim (p_text p)) = true /\ p_open p = "["%char /\ p_close p = "]"%char
  /\ trim (p_text p) <> "".

Definition range (p : Piece) (lo hi : string) : Prop :=
  trim (p_text p) = lo +:+ String "," hi /\ sep_free "," lo = true.

Definition well_formed (p : Piece) : Prop := exact p \/ exists lo hi, range p lo hi.

Definition admits (p : Piece) (v : Version.Version) : Prop :=
  (exact p /\ Version.cmp v (Version.parse (trim (p_text p))) = Eq)
  \/ exists lo hi, range p lo hi /\ above (p_open p) (trim lo) v /\ below (p_close p) (trim hi) v.

Definition reads (full : string) (iv : Interval) (p : Piece) : Prop :=
  parse_interval full (p_text p) (p_open p) (p_close p) = Ok iv.

Lemma skip_separators_spec s n r : skip_separators s = (n, r) ->
  exists seps, s = seps +:+ r /\ str_forallb separator seps = true
    /\ match r with String a _ => separator a = false | EmptyString => True end.
Proof.
  revert n r. induction s as [|a s IH]; intros n r; cbn; [by intros [= <- <-]; exists "" |].
  fold (separator a). destruct (separator a) eqn:Ha; [| intros [= <- <-]; by exists ""].
  destruct (skip_separators s) as [m r'] eqn:E. intros [= <- <-].
  destruct (IH m r' eq_refl) as (seps & -> & Hs & Hr). exists (String a seps). cbn. by rewrite Ha, Hs.
Qed.

Lemma skip_separators_app seps r :
  str_forallb separator seps = true -> match r with String a _ => separator a = false | EmptyString => True end ->
  skip_separators (seps +:+ r) = (String.length seps, r).
Proof.
  intros Hs Hr. induction seps as [|a seps IH]; cbn in *.
  - destruct r as [|a r]; [done |]. cbn. fold (separator a). by rewrite Hr.
  - apply andb_prop in Hs as [Ha Hs]. fold (separator a). rewrite Ha, (IH Hs). done.
Qed.

Lemma find_close_spec s inner close rest : find_close s = Some (inner, close, rest) ->
  s = inner +:+ String close rest /\ (close = "]" \/ close = ")")%char.
Proof.
  revert inner close rest. induction s as [|a s IH]; intros inner close rest; cbn; [done |].
  destruct (Ascii.eqb a "]" || Ascii.eqb a ")") eqn:E.
  - intros [= <- <- <-]. split; [done |]. apply orb_true_iff in E. by rewrite !Ascii.eqb_eq in E.
  - destruct (find_close s) as [[[x y] z]|]; [|done]. intros [= <- <- <-].
    destruct (IH x y z eq_refl) as [-> H]. done.
Qed.

Lemma open_bracket o : negb (Ascii.eqb o "[") && negb (Ascii.eqb o "(") = false <-> (o = "[" \/ o = "(")%char.
Proof. rewrite andb_false_iff, !negb_false_iff. by rewrite !Ascii.eqb_eq. Qed.

(** The loop reads the pieces in order. *)
Lemma parse_hard_loop_pieces full fuel i rest acc r :
  parse_hard_loop full fuel i rest acc = Some (Ok r) ->
  exists ps l, pieces rest ps /\ r = acc ++ l /\ Forall2 (reads full) l ps.
Proof.
  revert i rest acc. induction fuel as [|fuel IH]; intros i rest acc; cbn;
    destruct (skip_separators rest) as [n s] eqn:E;
    apply skip_separators_spec in E as (seps & -> & Hseps & _);
    (destruct s as [|o body];
      [intros [= <-]; exists [], []; rewrite !app_nil_r; split_and!; [by constructor; rewrite str_app_nil_r | done | constructor] |]);
    destruct (negb (Ascii.eqb o "[") && _) eqn:Ho; try done;
    destruct (find_close body) as [[[x c] z]|] eqn:F; try done;
    destruct (parse_interval full x o c) as [iv|] eqn:P; try done.
  intros H. pose proof (find_close_inner _ _ _ _ F). apply find_close_spec in F as [-> Hc].
  destruct (IH _ _ _ H) as (ps & l & Hps & -> & HF). exists (mkPiece o x c :: ps), (iv :: l).
  split_and!; [constructor; try done; by apply open_bracket | by rewrite <- app_assoc | by constructor].
Qed.

(** A piece that parses is well formed, and admits what its interval contains. *)
Lemma reads_spec full iv p :
  (p_open p = "[" \/ p_open p = "(")%char -> (p_close p = "]" \/ p_close p = ")")%char ->
  reads full iv p -> well_formed p /\ forall v, contains iv v = true <-> admits p v.
Proof.
  destruct p as [o x c]. unfold reads, parse_interval, well_formed, admits, exact, range.
  cbn [p_open p_text p_close]. intros Ho Hc.
  destruct (str_split_once "," (trim x)) as [[lo hi]|] eqn:ES.
  - pose proof (split_once_parts _ _ _ _ ES) as [EI HS]. intros H. inv_bind H. inv_bind H. injection H as <-.
    split; [right; by exists lo, hi |]. intros v. unfold contains. cbn [lower upper]. rewrite andb_true_iff.
    assert (HA : match a with Unbounded => true | Included b => Version.ge v b | Excluded b => Version.gt v b end = true
                 <-> above o (trim lo) v).
    { unfold above. destruct (is_empty (trim lo)) eqn:El.
      - injection E as <-. apply String.eqb_eq in El. rewrite El. naive_solver.
      - apply String.eqb_neq in El as El'. rewrite token_parse in E by done. cbn in E. injection E as <-.
        destruct Ho as [-> | ->]; cbn; unfold Version.ge, Version.gt;
          destruct (Version.cmp v (Version.parse (trim lo))); naive_solver. }
    assert (HB : match a0 with Unbounded => true | Included b => Version.le v b | Excluded b => Version.lt v b end = true
                 <-> below c (trim hi) v).
    { unfold below. destruct (is_empty (trim hi)) eqn:El.
      - injection E0 as <-. apply String.eqb_eq in El. rewrite El. naive_solver.
      - apply String.eqb_neq in El as El'. rewrite token_parse in E0 by done. cbn in E0. injection E0 as <-.
        destruct Hc as [-> | ->]; cbn; unfold Version.le, Version.lt;
          destruct (Version.cmp v (Version.parse (trim hi))); naive_solver. }
    rewrite HA, HB. split; [intros []; right; by exists lo, hi |].
    intros [[(Hfree & _) _]|(lo' & hi' & [E1 E2] & H)].
    + exfalso. apply split_once_absent in Hfree. congruence.
    + rewrite E1, split_once_app in ES by done. by injection ES as -> ->.
  - pose proof (split_once_none _ _ ES) as HS. destruct (_ || _) eqn:Hb; [done |].
    apply orb_false_iff in Hb as [->%negb_false_iff%Ascii.eqb_eq ->%negb_false_iff%Ascii.eqb_eq].
    destruct (is_empty (trim x)) eqn:El; [done |]. rewrite token_parse by done. cbn. intros [= <-].
    apply String.eqb_neq in El. split; [by left |]. intros v.
    unfold contains, Version.ge, Version.le. cbn. rewrite andb_true_iff. split.
    + intros H. left. split; [done |]. by destruct (Version.cmp _ _); destruct H.
    + intros [[_ E]|(lo & hi & [E1 E2] & _)]; [by rewrite E |].
      exfalso. rewrite E1, split_once_app in ES by done. done.
Qed.

Lemma well_formed_reads full p : well_formed p -> exists iv, reads full iv p.
Proof.
  destruct p as [o x c]. unfold well_formed, exact, range, reads, parse_interval.
  cbn [p_open p_text p_close]. intros [(HS & -> & -> & Hne)|(lo & hi & -> & HS)].
  - rewrite split_once_absent by done. cbn. apply String.eqb_neq in Hne. unfold is_empty.
    rewrite Hne, token_parse by done. eauto.
  - rewrite split_once_app by done.
    destruct (is_empty (trim lo)) eqn:El, (is_empty (trim hi)) eqn:Eh; rewrite ?token_parse by done; cbn; eauto.
Qed.

Lemma pieces_brackets s ps : pieces s ps -> Forall (fun p => (p_open p = "[" \/ p_open p = "(")%char
  /\ (p_close p = "]" \/ p_close p = ")")%char) ps.
Proof. induction 1; constructor; eauto. Qed.

(** The pieces of a requirement give its meaning. *)
Lemma reads_all full l ps :
  Forall (fun p => (p_open p = "[" \/ p_open p = "(")%char /\ (p_close p = "]" \/ p_close p = ")")%char) ps ->
  Forall2 (reads full) l ps ->
  Forall well_formed ps /\ forall v, satisfies (Hard l) v = true <-> exists p, p ∈ ps /\ admits p v.
Proof.
  intros Hbr HF. induction HF as [|iv p l ps Hr HF IH]; cbn [satisfies existsb].
  { split; [constructor |]. intros v. split; [done |]. by intros (p & ?%elem_of_nil & _). }
  apply list.Forall_cons in Hbr as [[Ho Hc] Hbr]. destruct (IH Hbr) as [Hwf Hsem].
  destruct (reads_spec full iv p Ho Hc Hr) as [Hp Hv]. split; [by constructor |]. intros v.
  rewrite orb_true_iff, Hv. cbn in Hsem. rewrite Hsem. setoid_rewrite elem_of_cons. naive_solver.
Qed.

Lemma starts_bracket s :
  starts_with "[" s || starts_with "(" s = true <-> exists rest, s = String "[" rest \/ s = String "(" rest.
Proof.
  destruct s as [|a s]; cbn; [split; [done | by intros (? & [|])] |].
  rewrite orb_true_iff, !Ascii.eqb_eq. naive_solver.
Qed.

(** Well-formed pieces are read without an error. *)
Lemma pieces_parse full rest ps : pieces rest ps -> Forall well_formed ps -> forall fuel i acc,
  String.length rest <= fuel ->
  exists l, parse_hard_loop full fuel i rest acc = Some (Ok (acc ++ l)) /\ length l = length ps.
Proof.
  induction 1 as [s Hs|seps o x c rest ps Hs Ho Hc Hx Hp IH]; intros HF fuel i acc Hl.
  - exists []. rewrite app_nil_r. split; [|done].
    assert (E : skip_separators s = (String.length s, "")).
    { rewrite <- (str_app_nil_r s) at 1. by apply skip_separators_app. }
    destruct fuel; cbn; by rewrite E.
  - apply list.Forall_cons in HF as [Hwf HF]. destruct (well_formed_reads full _ Hwf) as [iv Hiv].
    rewrite str_length_app in Hl. cbn in Hl. rewrite str_length_app in Hl. cbn in Hl.
    destruct fuel as [|fuel]; [lia |]. cbn [parse_hard_loop].
    rewrite skip_separators_app by (done || (destruct Ho as [-> | ->]; done)).
    apply open_bracket in Ho as ->.
    rewrite find_close_app by (done || (destruct Hc as [-> | ->]; done)).
    unfold reads in Hiv. cbn [p_open p_text p_close] in Hiv. rewrite Hiv.
    destruct (IH HF fuel (i + String.length seps + 1 + String.length x + 1) (acc ++ [iv]) ltac:(lia)) as (l & -> & Hlen).
    exists (iv :: l). rewrite <- app_assoc. split; [done | cbn; by rewrite Hlen].
Qed.

Lemma pieces_not_empty s : pieces s [] -> ~ (starts_with "[" s || starts_with "(" s = true).
Proof.
  inversion 1 as [s' Hs|]; subst. intros (rest & [-> | ->])%starts_bracket; cbn in Hs; done.
Qed.

(** The loop of a declaration that begins with a bracket. *)
Lemma parse_hard_iff raw l :
  parse raw = Ok (Hard l) <->
  (starts_with "[" (trim raw) || starts_with "(" (trim raw) = true) /\ parse_hard (trim raw) = Ok l.
Proof.
  unfold parse. destruct (starts_with "[" (trim raw) || starts_with "(" (trim raw)) eqn:Hb.
  - assert (is_empty (trim raw) = false /\ eq_ignore_ascii_case (trim raw) "LATEST" = false
      /\ eq_ignore_ascii_case (trim raw) "RELEASE" = false) as (-> & -> & ->).
    { destruct (trim raw) as [|a t]; [done |]. cbn in Hb. apply orb_true_iff in Hb.
      rewrite !Ascii.eqb_eq in Hb. by destruct Hb as [-> | ->]. }
    destruct (parse_hard (trim raw)); cbn; naive_solver.
  - split; [|naive_solver]. destruct (is_empty _); [done |].
    destruct (eq_ignore_ascii_case _ "LATEST"); [done |]. by destruct (eq_ignore_ascii_case _ "RELEASE").
Qed.

(** A bracketed declaration. *)
Definition bracketed (raw : string) (ps : list Piece) : Prop :=
  (exists rest, trim raw = String "[" rest \/ trim raw = String "(" rest)
  /\ pieces (trim raw) ps /\ Forall well_formed ps.

(** C14. Hard requirements mean what their brackets say.  A declaration is
    read as a hard requirement exactly when, trimmed, it begins with an opening
    bracket and is a sequence of bracketed pieces (white space and commas
    between), each either a range with a comma or an exact version in square
    brackets; and a version satisfies the requirement exactly when some piece
    admits it: it equals the exact version, or it lies between the two limits
    of the range, where a square bracket includes its limit, a round one
    excludes it and an empty limit admits everything, all in [Version::cmp]. *)
Theorem hard_spec_semantics (raw : string) :
  ((exists l, parse raw = Ok (Hard l)) <-> exists ps, bracketed raw ps)
  /\ forall l, parse raw = Ok (Hard l) -> exists ps, bracketed raw ps /\
       forall v, satisfies (Hard l) v = true <-> exists p, p ∈ ps /\ admits p v.
Proof.
  assert (Hparse : forall l, parse raw = Ok (Hard l) -> exists ps, bracketed raw ps /\
       forall v, satisfies (Hard l) v = true <-> exists p, p ∈ ps /\ admits p v).
  { intros l [Hb Hl]%parse_hard_iff. unfold parse_hard in Hl.
    destruct (parse_hard_loop _ _ _ _ _) as [[r|]|] eqn:E; try done.
    apply parse_hard_loop_pieces in E as (ps & l' & Hps & -> & HF). cbn in Hl.
    assert (l' = l) as -> by (destruct l'; congruence). exists ps.
    pose proof (pieces_brackets _ _ Hps) as Hbr. destruct (reads_all _ _ _ Hbr HF) as [Hwf Hsem].
    split; [|exact Hsem]. split_and!; [by apply starts_bracket | done | done]. }
  split; [split; [intros [l Hl]; destruct (Hparse l Hl) as (ps & H & _); by exists ps |] | exact Hparse].
  intros (ps & Hst & Hps & Hwf). destruct (pieces_parse (trim raw) _ _ Hps Hwf (String.length (trim raw)) 0 [] ltac:(lia))
    as (l & E & Hlen). apply starts_bracket in Hst. exists l. apply parse_hard_iff. split; [done |].
  unfold parse_hard. rewrite E. cbn. destruct l as [|iv l]; [|done]. exfalso.
  destruct ps; [|done]. by apply (pieces_not_empty _ Hps).
Qed.
End Parse.

Lemma spec_print_parse_witness :
  exists spec', parse (to_string_canonical
      (Hard [mkInterval (Included (Version.parse "1.0")) (Excluded (Version.parse "2.0"));
             mkInterval (Excluded (Version.parse "3")) Unbounded])) = Ok spec'
    /\ spec_eq spec' (Hard [mkInterval (Included (Version.parse "1.0")) (Excluded (Version.parse "2.0"));
             mkInterval (Excluded (Version.parse "3")) Unbounded]) = true.
Proof. apply (spec_print_parse " [1.0, 2.0) (3,]"). vm_compute. reflexivity. Defined.

Lemma hard_spec_semantics_witness :
  exists l ps, parse "[1,2) ,(3,]" = Ok (Hard l) /\ bracketed "[1,2) ,(3,]" ps
    /\ (forall v, satisfies (Hard l) v = true <-> exists p, p ∈ ps /\ admits p v)
    /\ satisfies (Hard l) (Version.parse "1") = true /\ satisfies (Hard l) (Version.parse "3") = false.
Proof.
  destruct (parse "[1,2) ,(3,]") as [spec|e] eqn:E; [|exfalso; vm_compute in E; discriminate E].
  destruct spec as [t|l| |]; try (exfalso; vm_compute in E; discriminate E).
  destruct (proj2 (hard_spec_semantics "[1,2) ,(3,]") l E) as (ps & Hps & Hsem).
  exists l, ps. vm_compute in E. injection E as <-.
  split; [reflexivity |]. split; [exact Hps |]. split; [exact Hsem |]. split; vm_compute; reflexivity.
Defined.

End VersionSpec.
