(* ===== verification/Pom.v ===== *)
(** * barista-pom: the raw POM data model

    Models the data types of crates/barista-pom/src/raw.rs.  Field names carry
    a prefix per struct, since Rocq projections share one name space.  An
    [IndexMap] is an insertion-ordered association list. *)

From S2P Require Import Prelude.

(** ** Insertion-ordered maps

    [IndexMap::get], [insert] (a present key keeps its position) and
    [entry(k).or_insert]. *)
Module IndexMap.
Section Defs.
Context {K V : Type} `{EqDecision K}.

Definition imap := list (K * V).

Fixpoint get (k : K) (m : imap) : option V :=
  match m with
  | [] => None
  | (k', v) :: m' => if decide (k = k') then Some v else get k m'
  end.

Fixpoint insert (k : K) (v : V) (m : imap) : imap :=
  match m with
  | [] => [(k, v)]
  | (k', v') :: m' => if decide (k = k') then (k', v) :: m' else (k', v') :: insert k v m'
  end.

Definition or_insert (k : K) (v : V) (m : imap) : imap :=
  match get k m with Some _ => m | None => insert k v m end.

Lemma get_insert k k' v m :
  get k (insert k' v m) = if decide (k = k') then Some v else get k m.
Proof.
  induction m as [|[k1 v1] m IH]; cbn; [done |].
  repeat (case_decide; subst; cbn; try done).
Qed.

Lemma get_or_insert k k' v m :
  get k (or_insert k' v m)
  = match get k m with
    | Some x => Some x
    | None => if decide (k = k') then Some v else None
    end.
Proof.
  unfold or_insert. destruct (get k' m) as [x|] eqn:E.
  - case_decide; subst; [by rewrite E|]. by destruct (get k m).
  - rewrite get_insert. case_decide; subst; [by rewrite E|]. by destruct (get k m).
Qed.

(** Inserting the entries of one map into another: the last binding wins. *)
Definition extend (m m' : imap) : imap := fold_left (fun acc '(k, v) => insert k v acc) m' m.

Lemma get_app k m1 m2 :
  get k (m1 ++ m2) = match get k m1 with Some v => Some v | None => get k m2 end.
Proof. induction m1 as [|[k1 v1] m1 IH]; cbn; [done |]. by case_decide. Qed.

Lemma get_extend k m m' :
  get k (extend m m') = match get k (rev m') with Some v => Some v | None => get k m end.
Proof.
  revert m. induction m' as [|[k1 v1] m' IH]; intros m; cbn; [done |].
  unfold extend in IH. rewrite IH, get_app, get_insert. cbn.
  destruct (get k (rev m')); [done |]. by case_decide.
Qed.

Lemma get_not_in k m : k ∉ m.*1 -> get k m = None.
Proof.
  induction m as [|[k1 v1] m IH]; cbn; [done |].
  rewrite not_elem_of_cons. intros [Hne Hni]. rewrite decide_False by done. by apply IH.
Qed.

Lemma get_none k m : get k m = None -> k ∉ m.*1.
Proof.
  induction m as [|[k1 v1] m IH]; cbn; [intros _ H; inversion H |].
  case_decide; [done |]. rewrite not_elem_of_cons. auto.
Qed.

Lemma get_in k v m : get k m = Some v -> (k, v) ∈ m.
Proof.
  induction m as [|[k1 v1] m IH]; cbn; [done |].
  case_decide; [intros [= <-]; subst; left |].
  intros H1. right. auto.
Qed.

(** With distinct keys, the order of the entries does not matter for [get]. *)
Lemma get_rev k m : NoDup m.*1 -> get k (rev m) = get k m.
Proof.
  induction m as [|[k1 v1] m IH]; cbn; [done |].
  intros [Hni Hnd]%list.NoDup_cons. rewrite get_app, IH by done. cbn.
  case_decide; subst; [by rewrite get_not_in|]. by destruct (get k m).
Qed.

Lemma insert_keys k v m : (insert k v m).*1 = if decide (k ∈ m.*1) then m.*1 else m.*1 ++ [k].
Proof.
  induction m as [|[k1 v1] m IH]; [done |]. cbn -[decide].
  destruct (decide (k = k1)) as [->|Hne].
  - rewrite decide_True; [done | left].
  - cbn -[decide]. rewrite IH. destruct (decide (k ∈ m.*1)).
    + rewrite decide_True; [done | by right].
    + rewrite decide_False; [done |]. by rewrite not_elem_of_cons.
Qed.

Lemma insert_nodup k v m : NoDup m.*1 -> NoDup (insert k v m).*1.
Proof.
  intros H. rewrite insert_keys. case_decide; [done |].
  apply list.NoDup_app. split_and!; [done | | apply NoDup_singleton].
  intros x Hx Hk. apply list_elem_of_singleton in Hk. by subst.
Qed.

Lemma extend_nodup m m' : NoDup m.*1 -> NoDup (extend m m').*1.
Proof.
  revert m. induction m' as [|[k v] m' IH]; intros m H; cbn; [done |].
  apply IH. by apply insert_nodup.
Qed.

End Defs.
Arguments imap K V : clear implicits.
End IndexMap.
Notation imap := IndexMap.imap.

Module Pom.

Definition Gav : Type := string * string * string.

Record RawParent := mkParent {
  par_group_id : string;
  par_artifact_id : string;
  par_version : string;
  par_relative_path : option string
}.

Definition Properties := imap string string.

Record RawExclusion := mkExclusion { x_group_id : string; x_artifact_id : string }.

Record RawDependency := mkDependency {
  d_group_id : string;
  d_artifact_id : string;
  d_version : option string;
  d_scope : option string;
  d_classifier : option string;
  d_type : option string;
  d_system_path : option string;
  d_optional : option string;
  d_exclusions : list RawExclusion
}.

(** [DependencyManagement] has one field, its [dependencies]. *)
Record DependencyManagement := mkDepMgt { dm_dependencies : list RawDependency }.

Inductive XmlValue : Type := mkXml {
  xml_attributes : list (string * string);
  xml_text : option string;
  xml_children : list (string * list XmlValue)
}.

Record RawPluginExecution := mkExecution {
  e_id : option string;
  e_phase : option string;
  e_inherited : option string;
  e_goals : list string;
  e_configuration : option XmlValue
}.

Record RawPlugin := mkPlugin {
  pl_group_id : string;
  pl_artifact_id : string;
  pl_version : option string;
  pl_inherited : option string;
  pl_extensions : option string;
  pl_configuration : option XmlValue;
  pl_dependencies : list RawDependency;
  pl_executions : list RawPluginExecution
}.

Record RawPluginManagement := mkPluginMgt { pm_plugins : list RawPlugin }.

Record RawResource := mkResource {
  rs_directory : option string;
  rs_target_path : option string;
  rs_filtering : option string;
  rs_includes : list string;
  rs_excludes : list string
}.

Record RawBuild := mkBuild {
  b_source_directory : option string;
  b_script_source_directory : option string;
  b_test_source_directory : option string;
  b_output_directory : option string;
  b_test_output_directory : option string;
  b_final_name : option string;
  b_default_goal : option string;
  b_directory : option string;
  b_filters : list string;
  b_resources : list RawResource;
  b_test_resources : list RawResource;
  b_plugins : list RawPlugin;
  b_plugin_management : option RawPluginManagement
}.

Definition RawBuild_default : RawBuild :=
  mkBuild None None None None None None None None [] [] [] [] None.

Record RawActivationProperty := mkActProperty {
  ap_name : option string;
  ap_value : option string
}.

Record RawActivationFile := mkActFile {
  af_exists : option string;
  af_missing : option string
}.

Record RawActivation := mkActivation {
  a_active_by_default : option string;
  a_jdk : option string;
  a_os : option XmlValue;
  a_property : option RawActivationProperty;
  a_file : option RawActivationFile
}.

Record RawRepositoryPolicy := mkPolicy {
  rp_enabled : option string;
  rp_update_policy : option string;
  rp_checksum_policy : option string
}.

Record RawRepository := mkRepository {
  r_id : option string;
  r_name : option string;
  r_url : option string;
  r_layout : option string;
  r_releases : option RawRepositoryPolicy;
  r_snapshots : option RawRepositoryPolicy
}.

Record RawProfile := mkProfile {
  pr_id : option string;
  pr_activation : option RawActivation;
  pr_properties : Properties;
  pr_dependencies : list RawDependency;
  pr_dependency_management : option DependencyManagement;
  pr_modules : list string;
  pr_build : option RawBuild;
  pr_repositories : list RawRepository;
  pr_plugin_repositories : list RawRepository
}.

Record RawPom := mkPom {
  model_version : string;
  parent : option RawParent;
  group_id : option string;
  artifact_id : string;
  version : option string;
  packaging : string;
  name : option string;
  description : option string;
  url : option string;
  inception_year : option string;
  properties : Properties;
  dependency_management : option DependencyManagement;
  dependencies : list RawDependency;
  modules : list string;
  build : option RawBuild;
  profiles : list RawProfile;
  repositories : list RawRepository;
  plugin_repositories : list RawRepository
}.

Definition RawPom_default : RawPom :=
  mkPom "" None None "" None "" None None None None [] None [] [] None [] [] [].

(** [format!("{}:{}:{}", g, a, v)]. *)
Definition gav_text (k : Gav) : string :=
  let '(g, a, v) := k in g +:+ ":" +:+ a +:+ ":" +:+ v.

Definition parent_gav (p : RawParent) : Gav := (par_group_id p, par_artifact_id p, par_version p).

End Pom.
