(* ===== verification/Xml.v ===== *)
(** * Reading XML documents

    The element readers that crates/barista-pom/src/raw.rs and
    crates/barista-config/src/settings_xml.rs share in shape: text, skipped
    elements, loops over the children of an element.  quick-xml is the class
    [QuickXml]: its lexer gives the sequence of events of a document, after
    which every read gives [Eof]. *)

From S2P Require Import Prelude Pom.

Module Xml.

(** ** Events *)

(** The events with content or none that do not open or close an element. *)
Inductive Leaf : Type :=
  | Text (raw : string)
  | CData (raw : string)
  | Comment
  | Decl
  | PI
  | DocType
  | GeneralRef (raw : string).

Inductive Event : Type :=
  | Start (name : string) (attributes : list (string * string))
  | Empty (name : string)
  | End (name : string)
  | Other (l : Leaf)
  | Eof.

#[export] Instance leaf_eq_dec : EqDecision Leaf.
Proof. solve_decision. Defined.
#[export] Instance event_eq_dec : EqDecision Event.
Proof. solve_decision. Defined.

(** [quick_xml::Error], by its message. *)
Definition XmlError := string.

Definition Stream := list (result XmlError Event).

(** quick-xml: the events of a document, read with [trim_text] and
    [expand_empty_elements]; [BytesText::decode]; [escape::unescape]. *)
Class QuickXml := {
  tokens : string -> Stream;
  decode : string -> result string string;
  unescape : string -> result string string
}.

(** [read_event_into]. *)
Definition read_event (s : Stream) : result XmlError Event * Stream :=
  match s with
  | [] => (Ok Eof, [])
  | ev :: s' => (ev, s')
  end.

(** ** Text of the standard library *)

(** The check of [str::from_utf8]. *)
Fixpoint utf8_valid (s : string) : bool :=
  let between lo hi a := ((lo <=? code a) && (code a <=? hi))%N in
  match s with
  | EmptyString => true
  | String a s1 =>
      if is_ascii a then utf8_valid s1
      else match s1 with
      | EmptyString => false
      | String b s2 =>
          if between 194%N 223%N a then is_continuation b && utf8_valid s2
          else match s2 with
          | EmptyString => false
          | String c s3 =>
              if between 224%N 239%N a then
                (if (code a =? 224)%N then between 160%N 191%N b
                 else if (code a =? 237)%N then between 128%N 159%N b
                 else is_continuation b) && is_continuation c && utf8_valid s3
              else match s3 with
              | EmptyString => false
              | String d s4 =>
                  between 240%N 244%N a &&
                  (if (code a =? 240)%N then between 144%N 191%N b
                   else if (code a =? 244)%N then between 128%N 143%N b
                   else is_continuation b) &&
                  is_continuation c && is_continuation d && utf8_valid s4
              end
          end
      end
  end.

Definition from_utf8 (s : string) : option string := if utf8_valid s then Some s else None.

(** [rsplit_once(c).map_or(s, |(_, l)| l)]: what follows the last [c]. *)
Fixpoint after_last (c : ascii) (s : string) : string :=
  match s with
  | EmptyString => EmptyString
  | String a s' => if str_contains c s' then after_last c s' else if Ascii.eqb a c then s' else s
  end.

Definition local_name (name : string) : string :=
  after_last ":" (default "" (from_utf8 name)).

(** ** Parsers

    A reader of the stream; the outer [None] is fuel exhaustion. *)

Definition Parser (E A : Type) : Type := Stream -> option (result E A * Stream).

#[export] Instance parser_mret E : MRet (Parser E) := fun A a s => Some (Ok a, s).
#[export] Instance parser_mbind E : MBind (Parser E) := fun A B k p s =>
  match p s with
  | Some (Ok a, s') => k a s'
  | Some (Err e, s') => Some (Err e, s')
  | None => None
  end.

Definition fail {E A} (e : E) : Parser E A := fun s => Some (Err e, s).

(** How a module turns the failures of the low-level readers into its own
    error type. *)
Class XmlErrors (E : Type) := {
  from_xml : XmlError -> E;
  from_encoding : string -> E;
  from_escape : string -> E;
  from_utf8_error : E;
  eof_in_text : E;
  eof_in_skip : E
}.

Section Readers.
Context `{Q : QuickXml} {E : Type} `{XE : XmlErrors E}.

Definition next : Parser E Event := fun s =>
  let '(r, s') := read_event s in Some (map_err from_xml r, s').

Definition decode_text (raw : string) : result E string :=
  match decode raw with
  | Err e => Err (from_encoding e)
  | Ok t => map_err from_escape (unescape t)
  end.

Definition cdata_text (raw : string) : result E string := ok_or (from_utf8 raw) from_utf8_error.

Definition lift {A} (r : result E A) : Parser E A := fun s => Some (r, s).

(** [skip_element]: to the end tag of the element just opened. *)
Fixpoint skip_loop (fuel depth : nat) : Parser E unit :=
  match depth with
  | O => mret tt
  | S depth' =>
      match fuel with
      | O => fun _ => None
      | S fuel' =>
          ev ← next;
          match ev with
          | Start _ _ => skip_loop fuel' (S depth)
          | End _ => skip_loop fuel' depth'
          | Eof => fail eof_in_skip
          | _ => skip_loop fuel' depth
          end
      end
  end.

Definition skip_element : Parser E unit := fun s => skip_loop (S (length s)) 1 s.

(** [read_text]: the direct text of the element just opened. *)
Fixpoint text_loop (fuel : nat) (out : string) : Parser E string :=
  match fuel with
  | O => fun _ => None
  | S fuel' =>
      ev ← next;
      match ev with
      | Other (Text t) => s ← lift (decode_text t); text_loop fuel' (out +:+ s)
      | Other (CData c) => s ← lift (cdata_text c); text_loop fuel' (out +:+ s)
      | Start _ _ => _ ← skip_element; text_loop fuel' out
      | End _ => mret out
      | Eof => fail eof_in_text
      | _ => text_loop fuel' out
      end
  end.

Definition read_text : Parser E string := fun s => text_loop (S (length s)) "" s.

(** The loop of the [parse_*] functions: [handle] reads a child element by
    its local name, the end tag closes the loop, other events are dropped. *)
Fixpoint element_loop {S} (eof : E) (handle : string -> S -> Parser E S) (fuel : nat) (st : S)
    : Parser E S :=
  match fuel with
  | O => fun _ => None
  | Datatypes.S fuel' =>
      ev ← next;
      match ev with
      | Start name _ => st' ← handle (local_name name) st; element_loop eof handle fuel' st'
      | End _ => mret st
      | Eof => fail eof
      | _ => element_loop eof handle fuel' st
      end
  end.

Definition element {S} (eof : E) (handle : string -> S -> Parser E S) (st : S) : Parser E S :=
  fun s => element_loop eof handle (Datatypes.S (length s)) st s.

(** The [match name.as_str()] of a reader: known children by name, the others
    skipped. *)
Definition table S : Type := list (string * (S -> Parser E S)).

Definition by_name {S} (t : table S) (name : string) (st : S) : Parser E S :=
  match IndexMap.get name t with
  | Some h => h st
  | None => _ ← skip_element; mret st
  end.

(** A child whose value is stored in a field. *)
Definition field {S A} (p : Parser E A) (set : A -> S -> S) : S -> Parser E S :=
  fun st => a ← p; mret (set a st).

(** A container: the children called [item], in order. *)
Definition items {A} (eof : E) (item : string) (p : Parser E A) : Parser E (list A) :=
  element eof (by_name [(item, fun out => a ← p; mret (out ++ [a]))]) [].

(** [parse_string_list]. *)
Definition parse_string_list (eof : E) (item : string) : Parser E (list string) :=
  items eof item read_text.

(** [parse_properties]: every child is an entry of the map. *)
Definition parse_properties {M} (eof : E) (insert : string -> string -> M -> M) (empty : M)
    : Parser E M :=
  element eof (fun name m => t ← read_text; mret (insert name t m)) empty.

End Readers.

(** ** Documents as trees *)

Inductive Node : Type :=
  | Elem (name : string) (attributes : list (string * string)) (children : list Node)
  | Content (l : Leaf).

Fixpoint flatten (n : Node) : Stream :=
  match n with
  | Elem name attrs kids => Ok (Start name attrs) :: flat_map flatten kids ++ [Ok (End name)]
  | Content l => [Ok (Other l)]
  end.

Definition events (kids : list Node) : Stream := flat_map flatten kids.

Section Trees.
Context `{Q : QuickXml}.

(** The text of a leaf, when it has one and it can be decoded. *)
Definition leaf_text (l : Leaf) : option string :=
  match l with
  | Text raw => match decode raw with
                | Ok t => match unescape t with Ok u => Some u | Err _ => None end
                | Err _ => None
                end
  | CData raw => from_utf8 raw
  | _ => None
  end.

(** The texts of the document can be decoded. *)
Fixpoint decodable (n : Node) : bool :=
  match n with
  | Elem _ _ kids => forallb decodable kids
  | Content (Text raw) => bool_decide (is_Some (leaf_text (Text raw)))
  | Content (CData raw) => utf8_valid raw
  | Content _ => true
  end.

Definition node_text (n : Node) : string :=
  match n with
  | Elem _ _ _ => ""
  | Content l => default "" (leaf_text l)
  end.

(** The direct text of an element. *)
Definition text_of (kids : list Node) : string := foldr (fun n t => node_text n +:+ t) "" kids.

End Trees.

(** The content of the children called [m], in order, and of the last one. *)
Definition child (m : string) (n : Node) : option (list Node) :=
  match n with
  | Elem name _ kids => if decide (local_name name = m) then Some kids else None
  | Content _ => None
  end.

Definition children (m : string) (kids : list Node) : list (list Node) := omap (child m) kids.

Definition last_child (m : string) (kids : list Node) : option (list Node) :=
  list.last (children m kids).

(** A field read from the last child of a name, with or without a default. *)
Definition opt {A} (m : string) (f : list Node -> A) (kids : list Node) : option A :=
  f <$> last_child m kids.

Definition req {A} (m : string) (f : list Node -> A) (d : A) (kids : list Node) : A :=
  default d (opt m f kids).

(** The children of all elements called [m]. *)
Definition inside (m : string) (kids : list Node) : list Node := List.concat (children m kids).

Definition list_of {A} (item : string) (f : list Node -> A) (kids : list Node) : list A :=
  f <$> children item kids.

(** ** Facts *)

Section NodeInd.
Variable P : Node -> Prop.
Hypothesis Helem : forall name attrs kids, Forall P kids -> P (Elem name attrs kids).
Hypothesis Hcontent : forall l, P (Content l).

Fixpoint node_tree_ind (n : Node) : P n :=
  match n with
  | Elem name attrs kids =>
      Helem name attrs kids
        ((fix go (l : list Node) : Forall P l :=
            match l with
            | [] => @List.Forall_nil _ P
            | k :: l' => @List.Forall_cons _ P k l' (node_tree_ind k) (go l')
            end) kids)
  | Content l => Hcontent l
  end.

End NodeInd.

Lemma length_flatten n : 1 <= length (flatten n).
Proof. destruct n; cbn; lia. Qed.

Lemma length_events kids : length kids <= length (events kids).
Proof.
  induction kids as [|n kids IH]; cbn; [lia |].
  rewrite length_app. pose proof (length_flatten n). unfold events in IH. lia.
Qed.

Lemma last_child_app m l1 l2 :
  last_child m (l1 ++ l2)
  = match last_child m l2 with Some k => Some k | None => last_child m l1 end.
Proof. unfold last_child, children. by rewrite omap_app, last_app. Qed.

Lemma last_child_snoc m kids n :
  last_child m (kids ++ [n]) = match child m n with Some k => Some k | None => last_child m kids end.
Proof. rewrite last_child_app. unfold last_child, children. cbn. by destruct (child m n). Qed.

Lemma children_snoc m kids n :
  children m (kids ++ [n]) = children m kids ++ match child m n with Some k => [k] | None => [] end.
Proof. unfold children. rewrite omap_app. cbn. by destruct (child m n). Qed.

Lemma opt_snoc {A} m (f : list Node -> A) kids n :
  opt m f (kids ++ [n]) = match child m n with Some k => Some (f k) | None => opt m f kids end.
Proof. unfold opt. rewrite last_child_snoc. by destruct (child m n). Qed.

Lemma req_snoc {A} m (f : list Node -> A) d kids n :
  req m f d (kids ++ [n]) = match child m n with Some k => f k | None => req m f d kids end.
Proof. unfold req. rewrite opt_snoc. by destruct (child m n). Qed.

Lemma opt_app {A} m (f : list Node -> A) l1 l2 :
  opt m f (l1 ++ l2) = match opt m f l2 with Some v => Some v | None => opt m f l1 end.
Proof. unfold opt. rewrite last_child_app. by destruct (last_child m l2). Qed.

Lemma inside_snoc m kids n : inside m (kids ++ [n]) = inside m kids ++ default [] (child m n).
Proof.
  unfold inside. rewrite children_snoc, List.concat_app. f_equal.
  destruct (child m n); cbn; by rewrite ?app_nil_r.
Qed.

(** *** Readers end on every stream *)

Section Totality.
Context `{Q : QuickXml} {E : Type} `{XE : XmlErrors E}.

Definition total {A} (p : Parser E A) : Prop :=
  forall s, exists r s', p s = Some (r, s') /\ length s' <= length s.

(** With fuel for every event left. *)
Definition total_with {A} (fuel : nat) (p : Parser E A) : Prop :=
  forall s, length s < fuel -> exists r s', p s = Some (r, s') /\ length s' <= length s.

Lemma total_ret {A} (a : A) : total (mret a).
Proof. intros s. eauto. Qed.

Lemma total_fail {A} (e : E) : total (fail (A := A) e).
Proof. intros s. eexists _, _. by split. Qed.

Lemma total_lift {A} (r : result E A) : total (lift r).
Proof. intros s. eexists _, _. by split. Qed.

Lemma total_bind {A B} (p : Parser E A) (k : A -> Parser E B) :
  total p -> (forall a, total (k a)) -> total (p ≫= k).
Proof.
  intros Hp Hk s. destruct (Hp s) as (r & s1 & H1 & L1). unfold mbind, parser_mbind.
  rewrite H1. destruct r as [a|e]; [| by eauto].
  destruct (Hk a s1) as (r & s2 & H2 & L2). exists r, s2. split; [done | lia].
Qed.

Lemma total_with_bind {A B} fuel (p : Parser E A) (k : A -> Parser E B) :
  total_with fuel p -> (forall a, total_with fuel (k a)) -> total_with fuel (p ≫= k).
Proof.
  intros Hp Hk s Hs. destruct (Hp s Hs) as (r & s1 & H1 & L1). unfold mbind, parser_mbind.
  rewrite H1. destruct r as [a|e]; [| by eauto].
  destruct (Hk a s1) as (r & s2 & H2 & L2); [lia |]. exists r, s2. split; [done | lia].
Qed.

Lemma total_weaken {A} fuel (p : Parser E A) : total p -> total_with fuel p.
Proof. intros H s _. apply H. Qed.

(** A loop that reads an event before it goes on. *)
Lemma total_next {A} fuel (k : Event -> Parser E A) :
  (forall ev, ev <> Eof -> total_with fuel (k ev)) -> total (k Eof) ->
  total_with (S fuel) (next ≫= k).
Proof.
  intros Hk He s Hs. unfold mbind, parser_mbind, next. destruct s as [|[ev|e] s]; cbn in *.
  - apply He.
  - destruct (decide (ev = Eof)) as [->|Hne].
    + destruct (He s) as (r & s' & H1 & L1). exists r, s'. split; [done | lia].
    + destruct (Hk ev Hne s) as (r & s' & H1 & L1); [lia |]. exists r, s'. split; [done | lia].
  - eexists _, _. split; [done | lia].
Qed.

Lemma total_fuel {A} (p : nat -> Parser E A) :
  (forall fuel, total_with fuel (p fuel)) -> total (fun s => p (S (length s)) s).
Proof. intros H s. apply H. lia. Qed.

Lemma total_skip_loop fuel depth : total_with fuel (skip_loop fuel depth).
Proof.
  revert depth. induction fuel as [|fuel IH]; intros [|depth]; [| intros s Hs; lia | |].
  1, 2: by apply total_weaken, total_ret.
  apply total_next; [| apply total_fail].
  intros [] Hev; try apply IH. by destruct Hev.
Qed.

Lemma total_skip : total skip_element.
Proof. apply (total_fuel (fun fuel => skip_loop fuel 1)). intros fuel. apply total_skip_loop. Qed.

Lemma total_read_text : total read_text.
Proof.
  apply (total_fuel (fun fuel => text_loop fuel "")). intros fuel. generalize "".
  induction fuel as [|fuel IH]; intros out; [intros s Hs; lia |].
  apply total_next; [| apply total_fail].
  intros [| | |[]|] Hev; try apply IH; try done;
    try (apply total_with_bind; [apply total_weaken; apply total_lift || apply total_skip | intros; apply IH]).
  by apply total_weaken, total_ret.
Qed.

Lemma total_element {St} eof (handle : string -> St -> Parser E St) st :
  (forall name st, total (handle name st)) -> total (element eof handle st).
Proof.
  intros Hh. apply (total_fuel (fun fuel => element_loop eof handle fuel st)). intros fuel.
  revert st. induction fuel as [|fuel IH]; intros st; [intros s Hs; lia |].
  apply total_next; [| apply total_fail].
  intros [] Hev; try apply IH; try done.
  - apply total_with_bind; [apply total_weaken, Hh | intros; apply IH].
  - by apply total_weaken, total_ret.
Qed.

Lemma total_by_name {St} (t : table St) name st :
  Forall (fun '(_, h) => forall st, total (h st)) t -> total (by_name t name st).
Proof.
  intros Ht. unfold by_name. destruct (IndexMap.get name t) as [h|] eqn:Hg.
  - apply IndexMap.get_in in Hg. rewrite list.Forall_forall in Ht. apply (Ht _ Hg).
  - apply total_bind; [apply total_skip | intros; apply total_ret].
Qed.

Lemma total_field {S A} (p : Parser E A) (set : A -> S -> S) st : total p -> total (field p set st).
Proof. intros Hp. apply total_bind; [done | intros; apply total_ret]. Qed.

Lemma total_items {A} eof item (p : Parser E A) : total p -> total (items eof item p).
Proof.
  intros Hp. apply total_element. intros name st. apply total_by_name.
  constructor; [| constructor]. intros. apply total_bind; [done | intros; apply total_ret].
Qed.

Lemma total_string_list eof item : total (parse_string_list eof item).
Proof. apply total_items, total_read_text. Qed.

Lemma total_properties {M} eof insert (m : M) : total (parse_properties eof insert m).
Proof.
  apply total_element. intros name st.
  apply total_bind; [apply total_read_text | intros; apply total_ret].
Qed.

End Totality.

(** *** What readers give on a document

    [reads p f]: after its start tag, an element with decodable children is
    read by [p] up to its end tag, with the value [f] gives its children. *)

Section Reading.
Context `{Q : QuickXml} {E : Type} `{XE : XmlErrors E}.

Definition reads {A} (p : Parser E A) (f : list Node -> A) : Prop :=
  forall kids nm rest, forallb decodable kids ->
  p (events kids ++ Ok (End nm) :: rest) = Some (Ok (f kids), rest).

Lemma events_cons n kids rest : events (n :: kids) ++ rest = flatten n ++ events kids ++ rest.
Proof. cbn. by rewrite <- app_assoc. Qed.

Lemma events_cons_nil n kids : events (n :: kids) = flatten n ++ events kids.
Proof. done. Qed.

Lemma flatten_elem name attrs kids rest :
  flatten (Elem name attrs kids) ++ rest = Ok (Start name attrs) :: events kids ++ Ok (End name) :: rest.
Proof. cbn. by rewrite <- app_assoc. Qed.

Lemma skip_node n : forall fuel depth rest,
  skip_loop (length (flatten n) + fuel) (S depth) (flatten n ++ rest)
  = skip_loop fuel (S depth) rest.
Proof.
  induction n as [name attrs kids IH|[]] using node_tree_ind; intros fuel depth rest;
    [| done ..].
  rewrite flatten_elem. cbn -[skip_loop]. rewrite length_app. cbn [skip_loop].
  replace (length (flat_map flatten kids) + length [Ok (End name)] + fuel)
    with (length (events kids) + S fuel) by (unfold events; cbn; lia).
  change (skip_loop (length (events kids) + S fuel) (S (S depth))
            (events kids ++ Ok (End name) :: rest) = skip_loop fuel (S depth) rest).
  induction IH as [|k kids Hk _ IHkids]; [done |].
  rewrite events_cons. cbn [events flat_map]. rewrite length_app, <- Nat.add_assoc.
  by rewrite Hk.
Qed.

Lemma skip_reads : reads skip_element (fun _ => tt).
Proof.
  intros kids nm rest _. unfold skip_element. rewrite length_app. cbn [length].
  replace (S (length (events kids) + S (length rest)))
    with (length (events kids) + S (S (length rest))) by lia.
  generalize (S (length rest)) as fuel. intros fuel.
  induction kids as [|k kids IH]; [by destruct fuel |].
  rewrite events_cons. cbn [events flat_map]. rewrite length_app, <- Nat.add_assoc.
  by rewrite skip_node.
Qed.

(** One child read by [skip_element] or a reader, and the loop goes on. *)
Lemma decodable_cons n kids :
  forallb decodable (n :: kids) <-> decodable n /\ forallb decodable kids.
Proof. cbn. by rewrite andb_True. Qed.

Lemma decode_text_ok raw t :
  leaf_text (Text raw) = Some t -> decode_text raw = Ok t :> result E string.
Proof.
  unfold leaf_text, decode_text. destruct (decode raw); [| done].
  destruct (unescape _); cbn; [by intros [= ->] | done].
Qed.

(** Reading the next node of a document. *)
Lemma next_elem {A} (k : Event -> Parser E A) name attrs kids rest :
  (next ≫= k) (flatten (Elem name attrs kids) ++ rest)
  = k (Start name attrs) (events kids ++ Ok (End name) :: rest).
Proof. by rewrite flatten_elem. Qed.

Lemma next_content {A} (k : Event -> Parser E A) l rest :
  (next ≫= k) (flatten (Content l) ++ rest) = k (Other l) rest.
Proof. done. Qed.

Lemma next_close {A} (k : Event -> Parser E A) nm rest :
  (next ≫= k) (Ok (End nm) :: rest) = k (End nm) rest.
Proof. done. Qed.

Lemma bind_reads {A B} (p : Parser E A) f (k : A -> Parser E B) kids nm rest :
  reads p f -> forallb decodable kids ->
  (p ≫= k) (events kids ++ Ok (End nm) :: rest) = k (f kids) rest.
Proof. intros Hp Hk. unfold mbind, parser_mbind. by rewrite Hp. Qed.

Lemma bind_lift {A B} (a : A) (k : A -> Parser E B) s : (lift (Ok a) ≫= k) s = k a s.
Proof. done. Qed.

Lemma text_loop_reads kids : forall fuel out nm rest,
  forallb decodable kids -> length kids < fuel ->
  text_loop fuel out (events kids ++ Ok (End nm) :: rest) = Some (Ok (out +:+ text_of kids), rest).
Proof.
  induction kids as [|k kids IH]; intros [|fuel] out nm rest; rewrite ?decodable_cons; try (cbn; lia).
  { intros _ _. cbn. by rewrite str_app_nil_r. }
  intros [Hk Hkids] Hf. rewrite events_cons. cbn [length] in Hf. cbn [text_loop].
  assert (text_of (k :: kids) = node_text k +:+ text_of kids) as -> by done.
  rewrite <- str_app_assoc.
  destruct k as [name attrs ks|l].
  - rewrite next_elem, (bind_reads _ _ _ _ _ _ skip_reads) by done. cbn [node_text].
    rewrite str_app_nil_r. apply IH; [done | lia].
  - rewrite next_content. destruct l as [raw|raw| | | | |]; cbn [node_text leaf_text];
      try (cbn [default]; rewrite str_app_nil_r; apply IH; [done | lia]).
    + cbn [decodable] in Hk. apply bool_decide_unpack in Hk as [t Ht].
      rewrite (decode_text_ok _ _ Ht), bind_lift. cbn [leaf_text] in Ht. rewrite Ht.
      apply IH; [done | lia].
    + cbn [decodable] in Hk. unfold cdata_text, from_utf8.
      rewrite (Is_true_true_1 _ Hk). cbn [ok_or]. rewrite bind_lift. apply IH; [done | lia].
Qed.

Lemma reads_text : reads read_text text_of.
Proof.
  intros kids nm rest Hk. unfold read_text. rewrite text_loop_reads; [done | done |].
  rewrite length_app. pose proof (length_events kids). cbn. lia.
Qed.

(** A loop whose state always is [f] of the children read so far. *)
Lemma reads_element {St} eof handle (f : list Node -> St) st0 :
  f [] = st0 ->
  (forall done l, f (done ++ [Content l]) = f done) ->
  (forall done name attrs ks nm rest, forallb decodable ks ->
   handle (local_name name) (f done) (events ks ++ Ok (End nm) :: rest)
   = Some (Ok (f (done ++ [Elem name attrs ks])), rest)) ->
  reads (element eof handle st0) f.
Proof.
  intros <- Hleaf Hstep kids nm rest. unfold element.
  assert (length kids < S (length (events kids ++ Ok (End nm) :: rest))) as Hf.
  { rewrite length_app. pose proof (length_events kids). cbn. lia. }
  revert Hf. generalize (S (length (events kids ++ Ok (End nm) :: rest))) as fuel. intros fuel Hf.
  assert (f kids = f ([] ++ kids)) as -> by done. revert fuel Hf. generalize (@nil Node) as done.
  induction kids as [|k kids IH]; intros read [|fuel] Hf; cbn [length] in Hf; try lia.
  { intros _. by rewrite app_nil_r. }
  rewrite decodable_cons. intros [Hk Hkids]. rewrite events_cons. cbn [element_loop].
  replace (read ++ k :: kids) with ((read ++ [k]) ++ kids) by by rewrite <- app_assoc.
  destruct k as [name attrs ks|l].
  - rewrite next_elem. cbn. unfold mbind, parser_mbind. rewrite (Hstep read name attrs) by done.
    apply IH; [lia | done].
  - rewrite next_content. rewrite <- (Hleaf read l). apply IH; [lia | done].
Qed.

(** The same with a table: children outside it are skipped, so [f] must not
    depend on them, and each entry must store what [f] says. *)
Lemma reads_table {St} eof (t : table St) (f : list Node -> St) st0 :
  f [] = st0 ->
  (forall done l, f (done ++ [Content l]) = f done) ->
  (forall done name attrs ks, local_name name ∉ t.*1 ->
   f (done ++ [Elem name attrs ks]) = f done) ->
  Forall (fun '(m, h) => forall done name attrs ks nm rest,
    local_name name = m -> forallb decodable ks ->
    h (f done) (events ks ++ Ok (End nm) :: rest)
    = Some (Ok (f (done ++ [Elem name attrs ks])), rest)) t ->
  reads (element eof (by_name t) st0) f.
Proof.
  intros Hnil Hleaf Hother Ht. apply reads_element; [done | done |].
  intros read name attrs ks nm rest Hks. unfold by_name.
  destruct (IndexMap.get (local_name name) t) as [h|] eqn:Hg.
  - apply IndexMap.get_in in Hg. rewrite list.Forall_forall in Ht.
    by apply (Ht _ Hg).
  - rewrite (bind_reads _ _ _ _ _ _ skip_reads), Hother by (done || by apply IndexMap.get_none).
    done.
Qed.

Lemma field_reads {St A} (p : Parser E A) g (set : A -> St -> St) st kids nm rest :
  reads p g -> forallb decodable kids ->
  field p set st (events kids ++ Ok (End nm) :: rest) = Some (Ok (set (g kids) st), rest).
Proof. intros Hp Hk. unfold field. by rewrite (bind_reads _ _ _ _ _ _ Hp). Qed.

Lemma reads_items {A} eof item (p : Parser E A) g :
  reads p g -> reads (items eof item p) (list_of item g).
Proof.
  intros Hp. unfold items. apply (reads_table eof _ (list_of item g)); [done | | |].
  - intros. unfold list_of. rewrite children_snoc. cbn. by rewrite app_nil_r.
  - intros read name attrs ks Hn. cbn in Hn. unfold list_of. rewrite children_snoc. cbn.
    rewrite decide_False by (intros Heq; apply Hn; rewrite Heq; left). by rewrite app_nil_r.
  - constructor; [| constructor]. intros read name attrs ks nm rest Hn Hk. unfold list_of.
    rewrite (bind_reads _ _ _ _ _ _ Hp), children_snoc by done. cbn.
    by rewrite decide_True, fmap_app by done.
Qed.

Lemma reads_string_list eof item :
  reads (parse_string_list eof item) (list_of item text_of).
Proof. apply reads_items, reads_text. Qed.

(** The entries of a map, in document order. *)
Definition entry_of (n : Node) : option (string * string) :=
  match n with
  | Elem name _ kids => Some (local_name name, text_of kids)
  | Content _ => None
  end.

Definition entries_of {M} (insert : string -> string -> M -> M) (empty : M) (kids : list Node) : M :=
  foldl (fun m '(k, v) => insert k v m) empty (omap entry_of kids).

Lemma reads_properties {M} eof insert (empty : M) :
  reads (parse_properties eof insert empty) (entries_of insert empty).
Proof.
  unfold parse_properties. apply (reads_element eof _ (entries_of insert empty)); [done | |].
  - intros. unfold entries_of. rewrite omap_app, foldl_app. done.
  - intros read name attrs ks nm rest Hk. rewrite (bind_reads _ _ _ _ _ _ reads_text) by done.
    unfold entries_of. by rewrite omap_app, foldl_app.
Qed.

End Reading.

(** The children of an element as the fields of a record: [read_record spec]
    proves that a table reader gives the record [spec] of the last child of
    each name. *)

Create HintDb xml.
#[export] Hint Resolve reads_text reads_string_list reads_properties reads_items : xml.
#[export] Hint Resolve total_read_text total_string_list total_items total_properties total_ret total_skip : xml.

Ltac snoc_fields := rewrite ?opt_snoc, ?req_snoc, ?inside_snoc, ?opt_app; cbn [child].

(** One entry: its reader, then the record it leaves. *)
Ltac record_entry spec :=
  let Hn := fresh in
  intros ? ? ? ? ? ? Hn ?;
  first [ erewrite field_reads by eauto with xml
        | match goal with |- ?h ?st _ = _ =>
            let Hr := fresh in
            eassert (reads (h st) _) as Hr by eauto with xml; rewrite Hr by done; clear Hr
          end ];
  unfold spec; snoc_fields; rewrite Hn; reflexivity.

Ltac read_record_at f spec :=
  apply (reads_table _ _ f);
  [ first [reflexivity | match goal with |- _ ?a _ = ?a => destruct a; reflexivity end]
  | intros; unfold spec; snoc_fields; reflexivity
  | let read := fresh in let name := fresh in let attrs := fresh in let ks := fresh in
    let Hn := fresh in
    intros read name attrs ks Hn; unfold spec; snoc_fields;
    cbn [fmap list_fmap fst] in Hn;
    repeat (apply not_elem_of_cons in Hn as [? Hn]); rewrite ?decide_False by assumption;
    reflexivity
  | repeat (constructor; [record_entry spec |]); constructor ].

Ltac read_record spec := read_record_at spec spec.

(** Every reader of a table ends on every stream. *)
Ltac total_record :=
  apply total_element; intros; apply total_by_name;
  repeat (apply List.Forall_cons; [intros; auto with xml; apply total_field; auto with xml |]);
  try apply List.Forall_nil.

End Xml.
