(* ===== verification/PomXml.v ===== *)
(** * barista-pom: the POM reader

    Models the readers of crates/barista-pom/src/raw.rs: one per element,
    each a loop over its children.  An element's children are read by name;
    unknown ones are skipped. *)

From S2P Require Import Prelude Pom Xml.
From coqutil Require Import Datatypes.RecordSetters.
Import DoubleBraceUpdate.

Module PomXml.
Import Pom Xml.

Inductive ParseError : Type :=
  | XmlE (e : XmlError)
  | Escape (e : string)
  | Encoding (e : string)
  | Io
  | MissingElement (element : string)
  | UnexpectedRoot (found : string)
  | UnsupportedModelVersion (found : string).

#[export] Instance parse_errors : XmlErrors ParseError := {
  from_xml := XmlE;
  from_encoding := Encoding;
  from_escape := Escape;
  from_utf8_error := Io;
  eof_in_text := MissingElement "text";
  eof_in_skip := MissingElement "end"
}.

(** The [Default] instances of the records. *)
Definition RawParent_default : RawParent := mkParent "" "" "" None.
Definition RawExclusion_default : RawExclusion := mkExclusion "" "".
Definition RawDependency_default : RawDependency :=
  mkDependency "" "" None None None None None None [].
Definition RawPluginExecution_default : RawPluginExecution := mkExecution None None None [] None.
Definition RawPlugin_default : RawPlugin := mkPlugin "" "" None None None None [] [].
Definition RawResource_default : RawResource := mkResource None None None [] [].
Definition RawActivation_default : RawActivation := mkActivation None None None None None.
Definition RawRepositoryPolicy_default : RawRepositoryPolicy := mkPolicy None None None.
Definition RawRepository_default : RawRepository := mkRepository None None None None None None.
Definition RawProfile_default : RawProfile := mkProfile None None [] [] None [] None [] [].

Section Parsers.
Context `{Q : QuickXml}.

Abbreviation P := (Parser ParseError).

(** ** Free-form values *)

(** [read_attributes]. *)
Definition read_attribute (a : string * string) : string * string :=
  let raw := default "" (from_utf8 a.2) in
  (after_last ":" (default "" (from_utf8 a.1)),
   match unescape raw with Ok v => v | Err _ => raw end).

Definition read_attributes (attrs : list (string * string)) : list (string * string) :=
  read_attribute <$> attrs.

(** [children.entry(name).or_default().push(child)]. *)
Definition push_child (name : string) (c : XmlValue) (m : imap string (list XmlValue))
    : imap string (list XmlValue) :=
  IndexMap.insert name (default [] (IndexMap.get name m) ++ [c]) m.

(** The accumulation of a [Text] event. *)
Definition push_text (acc s : string) : string :=
  let s := trim s in
  if is_empty s then acc
  else (if is_empty acc then acc else acc +:+ " ") +:+ s.

Fixpoint xml_value_loop (fuel : nat) (value : XmlValue) (text_acc : string) : P XmlValue :=
  match fuel with
  | O => fun _ => None
  | S fuel' =>
      ev ← next;
      match ev with
      | Start name attrs =>
          c ← xml_value_loop fuel' (mkXml (read_attributes attrs) None []) "";
          xml_value_loop fuel'
            (mkXml (xml_attributes value) (xml_text value)
               (push_child (local_name name) c (xml_children value))) text_acc
      | Other (Text t) =>
          s ← lift (decode_text t); xml_value_loop fuel' value (push_text text_acc s)
      | Other (CData c) => s ← lift (cdata_text c); xml_value_loop fuel' value (text_acc +:+ s)
      | End _ =>
          mret (if is_empty text_acc then value
                else mkXml (xml_attributes value) (Some text_acc) (xml_children value))
      | Eof => fail (MissingElement "element")
      | _ => xml_value_loop fuel' value text_acc
      end
  end.

Definition parse_xml_value (attrs : list (string * string)) : P XmlValue :=
  fun s => xml_value_loop (S (length s)) (mkXml attrs None []) "" s.

(** ** Elements *)

Definition parse_parent : P RawParent :=
  element (MissingElement "parent") (by_name [
    ("groupId", field read_text (fun v p => p {{ par_group_id := v }}));
    ("artifactId", field read_text (fun v p => p {{ par_artifact_id := v }}));
    ("version", field read_text (fun v p => p {{ par_version := v }}));
    ("relativePath", field read_text (fun v p => p {{ par_relative_path := Some v }}))
  ]) RawParent_default.

Definition parse_pom_properties : P Properties :=
  parse_properties (MissingElement "properties") IndexMap.insert [].

Definition parse_exclusion : P RawExclusion :=
  element (MissingElement "exclusion") (by_name [
    ("groupId", field read_text (fun v x => x {{ x_group_id := v }}));
    ("artifactId", field read_text (fun v x => x {{ x_artifact_id := v }}))
  ]) RawExclusion_default.

Definition parse_exclusions : P (list RawExclusion) :=
  items (MissingElement "exclusions") "exclusion" parse_exclusion.

Definition parse_dependency : P RawDependency :=
  element (MissingElement "dependency") (by_name [
    ("groupId", field read_text (fun v d => d {{ d_group_id := v }}));
    ("artifactId", field read_text (fun v d => d {{ d_artifact_id := v }}));
    ("version", field read_text (fun v d => d {{ d_version := Some v }}));
    ("scope", field read_text (fun v d => d {{ d_scope := Some v }}));
    ("classifier", field read_text (fun v d => d {{ d_classifier := Some v }}));
    ("type", field read_text (fun v d => d {{ d_type := Some v }}));
    ("systemPath", field read_text (fun v d => d {{ d_system_path := Some v }}));
    ("optional", field read_text (fun v d => d {{ d_optional := Some v }}));
    ("exclusions", field parse_exclusions (fun v d => d {{ d_exclusions := v }}))
  ]) RawDependency_default.

Definition parse_dependencies : P (list RawDependency) :=
  items (MissingElement "dependencies") "dependency" parse_dependency.

Definition parse_dependency_management : P DependencyManagement :=
  element (MissingElement "dependencyManagement") (by_name [
    ("dependencies", field parse_dependencies (fun v dm => dm {{ dm_dependencies := v }}))
  ]) (mkDepMgt []).

Definition parse_resource : P RawResource :=
  element (MissingElement "resource") (by_name [
    ("directory", field read_text (fun v r => r {{ rs_directory := Some v }}));
    ("targetPath", field read_text (fun v r => r {{ rs_target_path := Some v }}));
    ("filtering", field read_text (fun v r => r {{ rs_filtering := Some v }}));
    ("includes", field (parse_string_list (MissingElement "include") "include")
       (fun v r => r {{ rs_includes := v }}));
    ("excludes", field (parse_string_list (MissingElement "exclude") "exclude")
       (fun v r => r {{ rs_excludes := v }}))
  ]) RawResource_default.

Definition parse_resources (item : string) : P (list RawResource) :=
  items (MissingElement item) item parse_resource.

Definition parse_plugin_execution : P RawPluginExecution :=
  element (MissingElement "execution") (by_name [
    ("id", field read_text (fun v e => e {{ e_id := Some v }}));
    ("phase", field read_text (fun v e => e {{ e_phase := Some v }}));
    ("inherited", field read_text (fun v e => e {{ e_inherited := Some v }}));
    ("goals", field (parse_string_list (MissingElement "goal") "goal")
       (fun v e => e {{ e_goals := v }}));
    ("configuration", field (parse_xml_value []) (fun v e => e {{ e_configuration := Some v }}))
  ]) RawPluginExecution_default.

Definition parse_plugin_executions : P (list RawPluginExecution) :=
  items (MissingElement "executions") "execution" parse_plugin_execution.

Definition parse_plugin : P RawPlugin :=
  element (MissingElement "plugin") (by_name [
    ("groupId", field read_text (fun v p => p {{ pl_group_id := v }}));
    ("artifactId", field read_text (fun v p => p {{ pl_artifact_id := v }}));
    ("version", field read_text (fun v p => p {{ pl_version := Some v }}));
    ("inherited", field read_text (fun v p => p {{ pl_inherited := Some v }}));
    ("extensions", field read_text (fun v p => p {{ pl_extensions := Some v }}));
    ("configuration", field (parse_xml_value []) (fun v p => p {{ pl_configuration := Some v }}));
    ("dependencies", field parse_dependencies (fun v p => p {{ pl_dependencies := v }}));
    ("executions", field parse_plugin_executions (fun v p => p {{ pl_executions := v }}))
  ]) RawPlugin_default.

Definition parse_plugins : P (list RawPlugin) :=
  items (MissingElement "plugins") "plugin" parse_plugin.

Definition parse_plugin_management : P RawPluginManagement :=
  element (MissingElement "pluginManagement") (by_name [
    ("plugins", field parse_plugins (fun v pm => pm {{ pm_plugins := v }}))
  ]) (mkPluginMgt []).

Definition parse_build : P RawBuild :=
  element (MissingElement "build") (by_name [
    ("sourceDirectory", field read_text (fun v b => b {{ b_source_directory := Some v }}));
    ("scriptSourceDirectory",
       field read_text (fun v b => b {{ b_script_source_directory := Some v }}));
    ("testSourceDirectory", field read_text (fun v b => b {{ b_test_source_directory := Some v }}));
    ("outputDirectory", field read_text (fun v b => b {{ b_output_directory := Some v }}));
    ("testOutputDirectory", field read_text (fun v b => b {{ b_test_output_directory := Some v }}));
    ("finalName", field read_text (fun v b => b {{ b_final_name := Some v }}));
    ("defaultGoal", field read_text (fun v b => b {{ b_default_goal := Some v }}));
    ("directory", field read_text (fun v b => b {{ b_directory := Some v }}));
    ("filters", field (parse_string_list (MissingElement "filter") "filter")
       (fun v b => b {{ b_filters := v }}));
    ("resources", field (parse_resources "resource") (fun v b => b {{ b_resources := v }}));
    ("testResources",
       field (parse_resources "testResource") (fun v b => b {{ b_test_resources := v }}));
    ("plugins", field parse_plugins (fun v b => b {{ b_plugins := v }}));
    ("pluginManagement",
       field parse_plugin_management (fun v b => b {{ b_plugin_management := Some v }}))
  ]) RawBuild_default.

(** The loops inside [parse_activation]. *)
Definition parse_activation_property : P RawActivationProperty :=
  element (MissingElement "property") (by_name [
    ("name", field read_text (fun v p => p {{ ap_name := Some v }}));
    ("value", field read_text (fun v p => p {{ ap_value := Some v }}))
  ]) (mkActProperty None None).

Definition parse_activation_file : P RawActivationFile :=
  element (MissingElement "file") (by_name [
    ("exists", field read_text (fun v f => f {{ af_exists := Some v }}));
    ("missing", field read_text (fun v f => f {{ af_missing := Some v }}))
  ]) (mkActFile None None).

Definition parse_activation : P RawActivation :=
  element (MissingElement "activation") (by_name [
    ("activeByDefault", field read_text (fun v a => a {{ a_active_by_default := Some v }}));
    ("jdk", field read_text (fun v a => a {{ a_jdk := Some v }}));
    ("os", field (parse_xml_value []) (fun v a => a {{ a_os := Some v }}));
    ("property", field parse_activation_property (fun v a => a {{ a_property := Some v }}));
    ("file", field parse_activation_file (fun v a => a {{ a_file := Some v }}))
  ]) RawActivation_default.

Definition parse_repo_policy : P RawRepositoryPolicy :=
  element (MissingElement "repositoryPolicy") (by_name [
    ("enabled", field read_text (fun v p => p {{ rp_enabled := Some v }}));
    ("updatePolicy", field read_text (fun v p => p {{ rp_update_policy := Some v }}));
    ("checksumPolicy", field read_text (fun v p => p {{ rp_checksum_policy := Some v }}))
  ]) RawRepositoryPolicy_default.

Definition parse_repository : P RawRepository :=
  element (MissingElement "repository") (by_name [
    ("id", field read_text (fun v r => r {{ r_id := Some v }}));
    ("name", field read_text (fun v r => r {{ r_name := Some v }}));
    ("url", field read_text (fun v r => r {{ r_url := Some v }}));
    ("layout", field read_text (fun v r => r {{ r_layout := Some v }}));
    ("releases", field parse_repo_policy (fun v r => r {{ r_releases := Some v }}));
    ("snapshots", field parse_repo_policy (fun v r => r {{ r_snapshots := Some v }}))
  ]) RawRepository_default.

Definition parse_repositories (item : string) : P (list RawRepository) :=
  items (MissingElement item) item parse_repository.

Definition parse_profile : P RawProfile :=
  element (MissingElement "profile") (by_name [
    ("id", field read_text (fun v p => p {{ pr_id := Some v }}));
    ("activation", field parse_activation (fun v p => p {{ pr_activation := Some v }}));
    ("properties", field parse_pom_properties (fun v p => p {{ pr_properties := v }}));
    ("dependencies", field parse_dependencies (fun v p => p {{ pr_dependencies := v }}));
    ("dependencyManagement", field parse_dependency_management
       (fun v p => p {{ pr_dependency_management := Some v }}));
    ("modules", field (parse_string_list (MissingElement "module") "module")
       (fun v p => p {{ pr_modules := v }}));
    ("build", field parse_build (fun v p => p {{ pr_build := Some v }}));
    ("repositories", field (parse_repositories "repository")
       (fun v p => p {{ pr_repositories := v }}));
    ("pluginRepositories", field (parse_repositories "pluginRepository")
       (fun v p => p {{ pr_plugin_repositories := v }}))
  ]) RawProfile_default.

Definition parse_profiles : P (list RawProfile) :=
  items (MissingElement "profiles") "profile" parse_profile.

(** The loop of [parse_project], and its check at the end tag. *)
Definition project_fields : P RawPom :=
  element (MissingElement "project") (by_name [
    ("modelVersion", field read_text (fun v p => p {{ model_version := v }}));
    ("parent", field parse_parent (fun v p => p {{ parent := Some v }}));
    ("groupId", field read_text (fun v p => p {{ group_id := Some v }}));
    ("artifactId", field read_text (fun v p => p {{ artifact_id := v }}));
    ("version", field read_text (fun v p => p {{ version := Some v }}));
    ("packaging", field read_text (fun v p => p {{ packaging := v }}));
    ("name", field read_text (fun v p => p {{ name := Some v }}));
    ("description", field read_text (fun v p => p {{ description := Some v }}));
    ("url", field read_text (fun v p => p {{ url := Some v }}));
    ("inceptionYear", field read_text (fun v p => p {{ inception_year := Some v }}));
    ("properties", field parse_pom_properties (fun v p => p {{ properties := v }}));
    ("dependencies", field parse_dependencies (fun v p => p {{ dependencies := v }}));
    ("dependencyManagement", field parse_dependency_management
       (fun v p => p {{ dependency_management := Some v }}));
    ("modules", field (parse_string_list (MissingElement "module") "module")
       (fun v p => p {{ modules := v }}));
    ("build", field parse_build (fun v p => p {{ build := Some v }}));
    ("profiles", field parse_profiles (fun v p => p {{ profiles := v }}));
    ("repositories", field (parse_repositories "repository")
       (fun v p => p {{ repositories := v }}));
    ("pluginRepositories", field (parse_repositories "pluginRepository")
       (fun v p => p {{ plugin_repositories := v }}))
  ]) (RawPom_default {{ packaging := "jar"; model_version := "4.0.0" }}).

Definition parse_project : P RawPom :=
  pom ← project_fields;
  if is_empty (artifact_id pom) then fail (MissingElement "artifactId") else mret pom.

Definition validate_model_version (mv : string) : result ParseError unit :=
  if bool_decide (mv ∈ ["4.0.0"; "4.1.0"]) then Ok tt else Err (UnsupportedModelVersion mv).

(** [parse_inner]: to the root element. *)
Fixpoint inner_loop (fuel : nat) : P RawPom :=
  match fuel with
  | O => fun _ => None
  | S fuel' =>
      ev ← next;
      match ev with
      | Empty _ | Eof => fail (MissingElement "project")
      | Start root _ =>
          if decide (local_name root = "project") then
            pom ← parse_project;
            _ ← lift (validate_model_version (model_version pom));
            mret pom
          else fail (UnexpectedRoot (local_name root))
      | _ => inner_loop fuel'
      end
  end.

Definition parse_inner : P RawPom := fun s => inner_loop (S (length s)) s.

(** [parse_pom], and [parse_pom_reader] on the same text. *)
Definition parse_pom (xml : string) : option (result ParseError RawPom) :=
  fst <$> parse_inner (tokens xml).

End Parsers.

(** ** The tree a document describes

    A field is the last child of its name, a list the children of the last
    container. *)

Section Trees.
Context `{Q : QuickXml}.

(** The direct text of a free-form element: texts are trimmed and separated,
    CDATA sections are kept as they are. *)
Definition accumulate (acc : string) (n : Node) : string :=
  match n with
  | Content (Text raw) => push_text acc (node_text n)
  | _ => acc +:+ node_text n
  end.

Definition value_text (kids : list Node) : option string :=
  let t := foldl accumulate "" kids in if is_empty t then None else Some t.

Fixpoint node_value (n : Node) : XmlValue :=
  match n with
  | Elem _ attrs kids =>
      mkXml (read_attributes attrs) (value_text kids)
        (foldl (fun m k => match k with
                           | Elem name _ _ => push_child (local_name name) (node_value k) m
                           | Content _ => m
                           end) [] kids)
  | Content _ => mkXml [] None []
  end.

Definition add_child (m : imap string (list XmlValue)) (k : Node) : imap string (list XmlValue) :=
  match k with
  | Elem name _ _ => push_child (local_name name) (node_value k) m
  | Content _ => m
  end.

(** A value whose own attributes are given. *)
Definition tree_value (attrs : list (string * string)) (kids : list Node) : XmlValue :=
  mkXml attrs (value_text kids) (foldl add_child [] kids).

Definition tree_parent (kids : list Node) : RawParent :=
  mkParent (req "groupId" text_of "" kids) (req "artifactId" text_of "" kids)
    (req "version" text_of "" kids) (opt "relativePath" text_of kids).

Definition tree_properties : list Node -> Properties := entries_of IndexMap.insert [].

Definition tree_exclusion (kids : list Node) : RawExclusion :=
  mkExclusion (req "groupId" text_of "" kids) (req "artifactId" text_of "" kids).

Definition tree_dependency (kids : list Node) : RawDependency :=
  mkDependency (req "groupId" text_of "" kids) (req "artifactId" text_of "" kids)
    (opt "version" text_of kids) (opt "scope" text_of kids) (opt "classifier" text_of kids)
    (opt "type" text_of kids) (opt "systemPath" text_of kids) (opt "optional" text_of kids)
    (req "exclusions" (list_of "exclusion" tree_exclusion) [] kids).

Definition tree_dependencies : list Node -> list RawDependency := list_of "dependency" tree_dependency.

Definition tree_dependency_management (kids : list Node) : DependencyManagement :=
  mkDepMgt (req "dependencies" tree_dependencies [] kids).

Definition tree_resource (kids : list Node) : RawResource :=
  mkResource (opt "directory" text_of kids) (opt "targetPath" text_of kids)
    (opt "filtering" text_of kids) (req "includes" (list_of "include" text_of) [] kids)
    (req "excludes" (list_of "exclude" text_of) [] kids).

Definition tree_execution (kids : list Node) : RawPluginExecution :=
  mkExecution (opt "id" text_of kids) (opt "phase" text_of kids) (opt "inherited" text_of kids)
    (req "goals" (list_of "goal" text_of) [] kids) (opt "configuration" (tree_value []) kids).

Definition tree_plugin (kids : list Node) : RawPlugin :=
  mkPlugin (req "groupId" text_of "" kids) (req "artifactId" text_of "" kids)
    (opt "version" text_of kids) (opt "inherited" text_of kids) (opt "extensions" text_of kids)
    (opt "configuration" (tree_value []) kids) (req "dependencies" tree_dependencies [] kids)
    (req "executions" (list_of "execution" tree_execution) [] kids).

Definition tree_plugins : list Node -> list RawPlugin := list_of "plugin" tree_plugin.

Definition tree_plugin_management (kids : list Node) : RawPluginManagement :=
  mkPluginMgt (req "plugins" tree_plugins [] kids).

Definition tree_build (kids : list Node) : RawBuild :=
  mkBuild (opt "sourceDirectory" text_of kids) (opt "scriptSourceDirectory" text_of kids)
    (opt "testSourceDirectory" text_of kids) (opt "outputDirectory" text_of kids)
    (opt "testOutputDirectory" text_of kids) (opt "finalName" text_of kids)
    (opt "defaultGoal" text_of kids) (opt "directory" text_of kids)
    (req "filters" (list_of "filter" text_of) [] kids)
    (req "resources" (list_of "resource" tree_resource) [] kids)
    (req "testResources" (list_of "testResource" tree_resource) [] kids)
    (req "plugins" tree_plugins [] kids) (opt "pluginManagement" tree_plugin_management kids).

Definition tree_activation_property (kids : list Node) : RawActivationProperty :=
  mkActProperty (opt "name" text_of kids) (opt "value" text_of kids).

Definition tree_activation_file (kids : list Node) : RawActivationFile :=
  mkActFile (opt "exists" text_of kids) (opt "missing" text_of kids).

Definition tree_activation (kids : list Node) : RawActivation :=
  mkActivation (opt "activeByDefault" text_of kids) (opt "jdk" text_of kids)
    (opt "os" (tree_value []) kids) (opt "property" tree_activation_property kids)
    (opt "file" tree_activation_file kids).

Definition tree_policy (kids : list Node) : RawRepositoryPolicy :=
  mkPolicy (opt "enabled" text_of kids) (opt "updatePolicy" text_of kids)
    (opt "checksumPolicy" text_of kids).

Definition tree_repository (kids : list Node) : RawRepository :=
  mkRepository (opt "id" text_of kids) (opt "name" text_of kids) (opt "url" text_of kids)
    (opt "layout" text_of kids) (opt "releases" tree_policy kids) (opt "snapshots" tree_policy kids).

Definition tree_profile (kids : list Node) : RawProfile :=
  mkProfile (opt "id" text_of kids) (opt "activation" tree_activation kids)
    (req "properties" tree_properties [] kids) (req "dependencies" tree_dependencies [] kids)
    (opt "dependencyManagement" tree_dependency_management kids)
    (req "modules" (list_of "module" text_of) [] kids) (opt "build" tree_build kids)
    (req "repositories" (list_of "repository" tree_repository) [] kids)
    (req "pluginRepositories" (list_of "pluginRepository" tree_repository) [] kids).

Definition tree_project (kids : list Node) : RawPom :=
  mkPom (req "modelVersion" text_of "4.0.0" kids) (opt "parent" tree_parent kids)
    (opt "groupId" text_of kids) (req "artifactId" text_of "" kids) (opt "version" text_of kids)
    (req "packaging" text_of "jar" kids) (opt "name" text_of kids)
    (opt "description" text_of kids) (opt "url" text_of kids) (opt "inceptionYear" text_of kids)
    (req "properties" tree_properties [] kids)
    (opt "dependencyManagement" tree_dependency_management kids)
    (req "dependencies" tree_dependencies [] kids) (req "modules" (list_of "module" text_of) [] kids)
    (opt "build" tree_build kids) (req "profiles" (list_of "profile" tree_profile) [] kids)
    (req "repositories" (list_of "repository" tree_repository) [] kids)
    (req "pluginRepositories" (list_of "pluginRepository" tree_repository) [] kids).

(** What a document with the root element [name] stands for. *)
Definition tree_pom (name : string) (kids : list Node) : result ParseError RawPom :=
  if decide (local_name name = "project") then
    let pom := tree_project kids in
    if is_empty (artifact_id pom) then Err (MissingElement "artifactId")
    else if bool_decide (model_version pom ∈ ["4.0.0"; "4.1.0"]) then Ok pom
    else Err (UnsupportedModelVersion (model_version pom))
  else Err (UnexpectedRoot (local_name name)).

(** ** The readers give the tree *)

Definition finish (acc : string) (v : XmlValue) : XmlValue :=
  if is_empty acc then v else mkXml (xml_attributes v) (Some acc) (xml_children v).

Lemma finish_value attrs kids :
  finish (foldl accumulate "" kids) (mkXml attrs None (foldl add_child [] kids))
  = tree_value attrs kids.
Proof. unfold finish, tree_value, value_text. by destruct (is_empty _). Qed.

Lemma node_value_elem name attrs kids :
  node_value (Elem name attrs kids) = tree_value (read_attributes attrs) kids.
Proof. done. Qed.

Lemma xml_value_reads fuel : forall kids attrs text cs acc nm rest,
  forallb decodable kids -> length (events kids) < fuel ->
  xml_value_loop fuel (mkXml attrs text cs) acc (events kids ++ Ok (End nm) :: rest)
  = Some (Ok (finish (foldl accumulate acc kids) (mkXml attrs text (foldl add_child cs kids))), rest).
Proof.
  induction fuel as [|fuel IH]; intros kids attrs text cs acc nm rest Hk Hf; [lia |].
  destruct kids as [|k kids]; [done |].
  apply decodable_cons in Hk as [Hk Hkids]. rewrite events_cons. cbn [xml_value_loop].
  cbn [events flat_map] in Hf. fold (events kids) in Hf. rewrite length_app in Hf.
  destruct k as [name a ks|l].
  - rewrite next_elem. cbn [flatten length] in Hf. fold (events ks) in Hf.
    rewrite length_app in Hf. unfold mbind at 1, parser_mbind at 1.
    rewrite (IH ks), finish_value by (done || lia). rewrite IH by (done || lia).
    cbn [foldl accumulate node_text add_child]. by rewrite str_app_nil_r, (node_value_elem name).
  - rewrite next_content. cbn [flatten length] in Hf. cbn [foldl add_child].
    destruct l as [raw|raw| | | | |]; cbn [accumulate node_text leaf_text default];
      rewrite ?str_app_nil_r; try (apply IH; [done | lia]).
    + cbn [decodable] in Hk. apply bool_decide_unpack in Hk as [t Ht].
      rewrite (decode_text_ok _ _ Ht), bind_lift. cbn [leaf_text] in Ht. rewrite Ht.
      apply IH; [done | lia].
    + cbn [decodable] in Hk. unfold cdata_text, from_utf8.
      rewrite (Is_true_true_1 _ Hk). cbn [ok_or]. rewrite bind_lift. apply IH; [done | lia].
Qed.

Lemma reads_value attrs : reads (parse_xml_value attrs) (tree_value attrs).
Proof.
  intros kids nm rest Hk. unfold parse_xml_value. rewrite xml_value_reads; [| done |].
  - by rewrite finish_value.
  - rewrite length_app. lia.
Qed.
#[local] Hint Resolve reads_value : xml.

Lemma reads_parent : reads parse_parent tree_parent.
Proof. unfold parse_parent. read_record tree_parent. Qed.

Lemma reads_pom_properties : reads parse_pom_properties tree_properties.
Proof. apply reads_properties. Qed.

Lemma reads_exclusion : reads parse_exclusion tree_exclusion.
Proof. unfold parse_exclusion. read_record tree_exclusion. Qed.

Lemma reads_exclusions : reads parse_exclusions (list_of "exclusion" tree_exclusion).
Proof. apply reads_items, reads_exclusion. Qed.
#[local] Hint Resolve reads_parent reads_pom_properties reads_exclusions : xml.

Lemma reads_dependency : reads parse_dependency tree_dependency.
Proof. unfold parse_dependency. read_record tree_dependency. Qed.

Lemma reads_dependencies : reads parse_dependencies tree_dependencies.
Proof. apply reads_items, reads_dependency. Qed.
#[local] Hint Resolve reads_dependencies : xml.

Lemma reads_dependency_management :
  reads parse_dependency_management tree_dependency_management.
Proof. unfold parse_dependency_management. read_record tree_dependency_management. Qed.

Lemma reads_resource : reads parse_resource tree_resource.
Proof. unfold parse_resource. read_record tree_resource. Qed.

Lemma reads_resources item : reads (parse_resources item) (list_of item tree_resource).
Proof. apply reads_items, reads_resource. Qed.

Lemma reads_execution : reads parse_plugin_execution tree_execution.
Proof. unfold parse_plugin_execution. read_record tree_execution. Qed.

Lemma reads_executions : reads parse_plugin_executions (list_of "execution" tree_execution).
Proof. apply reads_items, reads_execution. Qed.
#[local] Hint Resolve reads_dependency_management reads_resources reads_executions : xml.

Lemma reads_plugin : reads parse_plugin tree_plugin.
Proof. unfold parse_plugin. read_record tree_plugin. Qed.

Lemma reads_plugins : reads parse_plugins tree_plugins.
Proof. apply reads_items, reads_plugin. Qed.
#[local] Hint Resolve reads_plugins : xml.

Lemma reads_plugin_management : reads parse_plugin_management tree_plugin_management.
Proof. unfold parse_plugin_management. read_record tree_plugin_management. Qed.
#[local] Hint Resolve reads_plugin_management : xml.

Lemma reads_build : reads parse_build tree_build.
Proof. unfold parse_build. read_record tree_build. Qed.

Lemma reads_activation_property : reads parse_activation_property tree_activation_property.
Proof. unfold parse_activation_property. read_record tree_activation_property. Qed.

Lemma reads_activation_file : reads parse_activation_file tree_activation_file.
Proof. unfold parse_activation_file. read_record tree_activation_file. Qed.
#[local] Hint Resolve reads_build reads_activation_property reads_activation_file : xml.

Lemma reads_activation : reads parse_activation tree_activation.
Proof. unfold parse_activation. read_record tree_activation. Qed.

Lemma reads_policy : reads parse_repo_policy tree_policy.
Proof. unfold parse_repo_policy. read_record tree_policy. Qed.
#[local] Hint Resolve reads_activation reads_policy : xml.

Lemma reads_repository : reads parse_repository tree_repository.
Proof. unfold parse_repository. read_record tree_repository. Qed.

Lemma reads_repositories item : reads (parse_repositories item) (list_of item tree_repository).
Proof. apply reads_items, reads_repository. Qed.
#[local] Hint Resolve reads_repositories : xml.

Lemma reads_profile : reads parse_profile tree_profile.
Proof. unfold parse_profile. read_record tree_profile. Qed.

Lemma reads_profiles : reads parse_profiles (list_of "profile" tree_profile).
Proof. apply reads_items, reads_profile. Qed.
#[local] Hint Resolve reads_profiles : xml.

Lemma reads_project_fields : reads project_fields tree_project.
Proof. unfold project_fields. read_record tree_project. Qed.

(** ** The readers end on every stream *)

Lemma total_value_loop fuel : forall v acc, total_with fuel (xml_value_loop fuel v acc).
Proof.
  induction fuel as [|fuel IH]; intros v acc; [intros s Hs; lia |].
  apply total_next; [| apply total_fail].
  intros [name attrs| | |[]|] Hev; try apply IH; try done;
    try (apply total_with_bind; [apply total_weaken, total_lift | intros; apply IH]);
    try (by apply total_weaken, total_ret).
  apply total_with_bind; [apply IH | intros; apply IH].
Qed.

Lemma total_value attrs : total (parse_xml_value attrs).
Proof.
  apply (total_fuel (fun fuel => xml_value_loop fuel (mkXml attrs None []) "")).
  intros fuel. apply total_value_loop.
Qed.
#[local] Hint Resolve total_value : xml.

Lemma total_dependencies : total parse_dependencies.
Proof.
  apply total_items. unfold parse_dependency. total_record.
  apply total_items. unfold parse_exclusion. total_record.
Qed.
#[local] Hint Resolve total_dependencies : xml.

Lemma total_dependency_management : total parse_dependency_management.
Proof. unfold parse_dependency_management. total_record. Qed.

Lemma total_resources item : total (parse_resources item).
Proof. apply total_items. unfold parse_resource. total_record. Qed.

Lemma total_plugins : total parse_plugins.
Proof.
  apply total_items. unfold parse_plugin. total_record.
  apply total_items. unfold parse_plugin_execution. total_record.
Qed.
#[local] Hint Resolve total_dependency_management total_resources total_plugins : xml.

Lemma total_build : total parse_build.
Proof. unfold parse_build. total_record. unfold parse_plugin_management. total_record. Qed.

Lemma total_activation : total parse_activation.
Proof.
  unfold parse_activation. total_record.
  - unfold parse_activation_property. total_record.
  - unfold parse_activation_file. total_record.
Qed.

Lemma total_repositories item : total (parse_repositories item).
Proof.
  apply total_items. unfold parse_repository.
  assert (total parse_repo_policy) by (unfold parse_repo_policy; total_record). total_record.
Qed.
#[local] Hint Resolve total_build total_activation total_repositories : xml.

Lemma total_pom_properties : total parse_pom_properties.
Proof. apply total_properties. Qed.
#[local] Hint Resolve total_pom_properties : xml.

Lemma total_profiles : total parse_profiles.
Proof. apply total_items. unfold parse_profile. total_record. Qed.

Lemma total_parent : total parse_parent.
Proof. unfold parse_parent. total_record. Qed.
#[local] Hint Resolve total_profiles total_parent : xml.

Lemma total_project : total parse_project.
Proof.
  apply total_bind; [unfold project_fields; total_record |].
  intros pom. destruct (is_empty _); [apply total_fail | apply total_ret].
Qed.

Lemma total_inner : total parse_inner.
Proof.
  unfold parse_inner. apply (total_fuel inner_loop). intros fuel.
  induction fuel as [|fuel IH]; [intros s Hs; lia |].
  apply total_next; [| apply total_fail].
  intros [root attrs| | | |] Hev; try apply IH; try (apply total_weaken, total_fail).
  apply total_weaken. case_decide; [| apply total_fail].
  apply total_bind; [apply total_project |]. intros pom.
  apply total_bind; [apply total_lift | intros; apply total_ret].
Qed.

Lemma inner_loop_prolog prolog fuel rest :
  length prolog < fuel ->
  exists fuel', inner_loop fuel ((Ok ∘ Other <$> prolog) ++ rest) = inner_loop (S fuel') rest.
Proof.
  revert fuel. induction prolog as [|l prolog IH]; intros [|fuel] Hf; cbn [length] in Hf; try lia.
  - by exists fuel.
  - apply IH. lia.
Qed.

Lemma inner_loop_root fuel name attrs kids rest :
  forallb decodable kids ->
  fst <$> inner_loop (S fuel) (flatten (Elem name attrs kids) ++ rest) = Some (tree_pom name kids).
Proof.
  intros Hk. cbn [inner_loop]. rewrite next_elem. unfold tree_pom. case_decide; [| done].
  unfold parse_project. unfold mbind at 1, parser_mbind at 1.
  rewrite (bind_reads _ _ _ _ _ _ reads_project_fields) by done.
  destruct (is_empty _) eqn:He; [done |]. cbn. unfold mbind, parser_mbind, lift.
  unfold validate_model_version. by destruct (bool_decide _).
Qed.

(** C12: the streaming POM reader implements the tree reading of a document.
    On the events of any document whose texts decode - comments, processing
    instructions and other leaves before the root, a root element with
    arbitrary children, anything after it - the result is that of [tree_pom]:
    each field of a record is the last child of its name, each list the
    children of the last container, unknown elements are ignored at every
    level, and the errors are exactly a root other than [project], a missing
    artifactId and an unsupported model version. *)
Theorem parse_pom_tree xml prolog name attrs kids epilog :
  tokens xml = (Ok ∘ Other <$> prolog) ++ flatten (Elem name attrs kids) ++ epilog ->
  forallb decodable kids ->
  parse_pom xml = Some (tree_pom name kids).
Proof.
  intros Ht Hk. unfold parse_pom, parse_inner. rewrite Ht.
  destruct (inner_loop_prolog prolog
    (S (length ((Ok ∘ Other <$> prolog) ++ flatten (Elem name attrs kids) ++ epilog)))
    (flatten (Elem name attrs kids) ++ epilog)) as [fuel' ->].
  - rewrite length_app, length_fmap. lia.
  - by apply inner_loop_root.
Qed.

(** reading ends on every sequence of events, well-formed or not: with one
    unit of fuel per event, no loop of the reader runs out. *)
Theorem parse_pom_total xml : is_Some (parse_pom xml).
Proof.
  unfold parse_pom. destruct (total_inner (tokens xml)) as (r & s' & -> & _). by eexists.
Qed.

End Trees.

(** ** Runs *)

Module Example.

(** A reader whose texts decode to themselves. *)
Definition plain (doc : Stream) : QuickXml := {| tokens _ := doc; decode := Ok; unescape := Ok |}.

Definition leaf (name text : string) : Node := Elem name [] [Content (Text text)].

Definition kids : list Node :=
  [ leaf "modelVersion" "4.0.0"; Content Comment; leaf "artifactId" "first";
    Elem "unknown" [] [leaf "artifactId" "nested"];
    Elem "m:dependencies" [] [
      Elem "dependency" [] [leaf "groupId" "g"; leaf "artifactId" "a"; leaf "version" "1"]];
    leaf "artifactId" "app" ].

Definition doc : Stream := [Ok (Other Decl)] ++ flatten (Elem "project" [] kids) ++ [].

Lemma parse_pom_tree_witness :
  exists pom, @parse_pom (plain doc) "" = Some (Ok pom) /\
    artifact_id pom = "app" /\ length (dependencies pom) = 1.
Proof.
  exists (@tree_project (plain doc) kids). split; [| split; reflexivity].
  exact (@parse_pom_tree (plain doc) "" [Decl] "project" [] kids [] eq_refl I).
Defined.

(** quick-xml reports an entity or character reference in text as an event of
    its own, [GeneralRef]; the readers drop it, so [a&amp;b] is read as
    [ab]. *)
Theorem entity_reference_dropped :
  let amp := Elem "artifactId" []
    [Content (Text "a"); Content (GeneralRef "amp"); Content (Text "b")] in
  exists pom, @parse_pom (plain (flatten (Elem "project" [] [amp]))) "" = Some (Ok pom) /\
    artifact_id pom = "ab".
Proof. eexists. split; vm_compute; reflexivity. Qed.

End Example.
End PomXml.
