(* ===== verification/Settings.v ===== *)
(** * barista-config: Maven's settings.xml

    Models crates/barista-config/src/settings_xml.rs: the records, the
    readers of each element and the recognition of encrypted passwords. *)

From S2P Require Import Prelude Pom Xml.
From coqutil Require Import Datatypes.RecordSetters.
Import DoubleBraceUpdate.

Module Settings.
Import Xml.

Record Server := mkServer {
  sv_id : string;
  sv_username : option string;
  sv_password : option string;
  sv_private_key : option string;
  sv_passphrase : option string;
  sv_file_permissions : option string;
  sv_directory_permissions : option string
}.

Record Mirror := mkMirror {
  mi_id : string;
  mi_name : option string;
  mi_url : string;
  mi_mirror_of : string;
  mi_blocked : bool
}.

Record RepositoryPolicy := mkRepositoryPolicy {
  rp_enabled : bool;
  rp_update_policy : option string;
  rp_checksum_policy : option string
}.

Record Repository := mkRepository {
  re_id : string;
  re_name : option string;
  re_url : string;
  re_releases : RepositoryPolicy;
  re_snapshots : RepositoryPolicy;
  re_layout : option string
}.

Record Activation := mkActivation {
  ac_active_by_default : bool;
  ac_jdk : option string;
  ac_os_name : option string;
  ac_os_family : option string;
  ac_os_arch : option string;
  ac_os_version : option string;
  ac_property_name : option string;
  ac_property_value : option string;
  ac_file_exists : option string;
  ac_file_missing : option string
}.

Record XmlProfile := mkXmlProfile {
  xp_id : string;
  xp_properties : gmap string string;
  xp_repositories : list Repository;
  xp_plugin_repositories : list Repository;
  xp_activation : option Activation
}.

Record Proxy := mkProxy {
  px_id : string;
  px_active : bool;
  px_protocol : string;
  px_host : string;
  px_port : option Z;
  px_username : option string;
  px_password : option string;
  px_non_proxy_hosts : option string
}.

Record SettingsXml := mkSettings {
  servers : list Server;
  mirrors : list Mirror;
  profiles : list XmlProfile;
  active_profile_ids : list string;
  proxies : list Proxy;
  plugin_groups : list string;
  local_repository : option string;
  interactive_mode : bool;
  offline : bool
}.

(** The [Default] instances. *)
Definition Server_default : Server := mkServer "" None None None None None None.
Definition Mirror_default : Mirror := mkMirror "" None "" "" false.
Definition RepositoryPolicy_default : RepositoryPolicy := mkRepositoryPolicy false None None.
Definition Repository_default : Repository :=
  mkRepository "" None "" RepositoryPolicy_default RepositoryPolicy_default None.
Definition Activation_default : Activation :=
  mkActivation false None None None None None None None None None.
Definition XmlProfile_default : XmlProfile := mkXmlProfile "" ∅ [] [] None.
Definition Proxy_default : Proxy := mkProxy "" false "" "" None None None None.
Definition SettingsXml_default : SettingsXml := mkSettings [] [] [] [] [] [] None true false.

(** The text of an error, as the case it reports. *)
Inductive Detail : Type :=
  | XmlDetail (e : XmlError)
  | DecodeDetail (e : string)
  | Utf8Detail
  | UnexpectedEof (inside : string).

#[export] Instance settings_errors : XmlErrors Detail := {
  from_xml := XmlDetail;
  from_encoding := DecodeDetail;
  from_escape := DecodeDetail;
  from_utf8_error := Utf8Detail;
  eof_in_text := UnexpectedEof "text";
  eof_in_skip := UnexpectedEof "skipped element"
}.

Definition parse_bool_str (raw : string) (dflt : bool) : bool :=
  let t := to_ascii_lowercase (trim raw) in
  if bool_decide (t ∈ ["true"; "1"; "yes"]) then true
  else if bool_decide (t ∈ ["false"; "0"; "no"]) then false
  else dflt.

(** [t.trim().parse::<u16>().ok()]. *)
Definition parse_port (t : string) : option Z := parse_uint 65535 (trim t).

(** ** Readers *)

Section Parsers.
Context `{Q : QuickXml}.

Abbreviation P := (Parser Detail).

Definition read_bool (dflt : bool) : P bool := t ← read_text; mret (parse_bool_str t dflt).

Definition parse_list {A} (item : string) (p : P A) : P (list A) :=
  items (UnexpectedEof item) item p.

Definition strings (item : string) : P (list string) :=
  parse_string_list (UnexpectedEof item) item.

Definition parse_server : P Server :=
  element (UnexpectedEof "server") (by_name [
    ("id", field read_text (fun v s => s {{ sv_id := v }}));
    ("username", field read_text (fun v s => s {{ sv_username := Some v }}));
    ("password", field read_text (fun v s => s {{ sv_password := Some v }}));
    ("privateKey", field read_text (fun v s => s {{ sv_private_key := Some v }}));
    ("passphrase", field read_text (fun v s => s {{ sv_passphrase := Some v }}));
    ("filePermissions", field read_text (fun v s => s {{ sv_file_permissions := Some v }}));
    ("directoryPermissions",
       field read_text (fun v s => s {{ sv_directory_permissions := Some v }}))
  ]) Server_default.

Definition parse_mirror : P Mirror :=
  element (UnexpectedEof "mirror") (by_name [
    ("id", field read_text (fun v m => m {{ mi_id := v }}));
    ("name", field read_text (fun v m => m {{ mi_name := Some v }}));
    ("url", field read_text (fun v m => m {{ mi_url := v }}));
    ("mirrorOf", field read_text (fun v m => m {{ mi_mirror_of := v }}));
    ("blocked", field (read_bool false) (fun v m => m {{ mi_blocked := v }}))
  ]) Mirror_default.

Definition parse_repo_policy : P RepositoryPolicy :=
  element (UnexpectedEof "repo policy") (by_name [
    ("enabled", field (read_bool true) (fun v p => p {{ rp_enabled := v }}));
    ("updatePolicy", field read_text (fun v p => p {{ rp_update_policy := Some v }}));
    ("checksumPolicy", field read_text (fun v p => p {{ rp_checksum_policy := Some v }}))
  ]) (RepositoryPolicy_default {{ rp_enabled := true }}).

Definition parse_repository : P Repository :=
  element (UnexpectedEof "repository") (by_name [
    ("id", field read_text (fun v r => r {{ re_id := v }}));
    ("name", field read_text (fun v r => r {{ re_name := Some v }}));
    ("url", field read_text (fun v r => r {{ re_url := v }}));
    ("layout", field read_text (fun v r => r {{ re_layout := Some v }}));
    ("releases", field parse_repo_policy (fun v r => r {{ re_releases := v }}));
    ("snapshots", field parse_repo_policy (fun v r => r {{ re_snapshots := v }}))
  ]) Repository_default.

(** These three update the activation they are given. *)
Definition parse_activation_os (a : Activation) : P Activation :=
  element (UnexpectedEof "os") (by_name [
    ("name", field read_text (fun v a => a {{ ac_os_name := Some v }}));
    ("family", field read_text (fun v a => a {{ ac_os_family := Some v }}));
    ("arch", field read_text (fun v a => a {{ ac_os_arch := Some v }}));
    ("version", field read_text (fun v a => a {{ ac_os_version := Some v }}))
  ]) a.

Definition parse_activation_property (a : Activation) : P Activation :=
  element (UnexpectedEof "property") (by_name [
    ("name", field read_text (fun v a => a {{ ac_property_name := Some v }}));
    ("value", field read_text (fun v a => a {{ ac_property_value := Some v }}))
  ]) a.

Definition parse_activation_file (a : Activation) : P Activation :=
  element (UnexpectedEof "file") (by_name [
    ("exists", field read_text (fun v a => a {{ ac_file_exists := Some v }}));
    ("missing", field read_text (fun v a => a {{ ac_file_missing := Some v }}))
  ]) a.

Definition parse_activation : P Activation :=
  element (UnexpectedEof "activation") (by_name [
    ("activeByDefault", field (read_bool false) (fun v a => a {{ ac_active_by_default := v }}));
    ("jdk", field read_text (fun v a => a {{ ac_jdk := Some v }}));
    ("os", parse_activation_os);
    ("property", parse_activation_property);
    ("file", parse_activation_file)
  ]) Activation_default.

(** [parse_properties], into a [BTreeMap]. *)
Definition parse_map : P (gmap string string) :=
  parse_properties (UnexpectedEof "properties") (fun k v m => <[k := v]> m) ∅.

Definition parse_profile : P XmlProfile :=
  element (UnexpectedEof "profile") (by_name [
    ("id", field read_text (fun v p => p {{ xp_id := v }}));
    ("properties", field parse_map (fun v p => p {{ xp_properties := v }}));
    ("activation", field parse_activation (fun v p => p {{ xp_activation := Some v }}));
    ("repositories", field (parse_list "repository" parse_repository)
       (fun v p => p {{ xp_repositories := v }}));
    ("pluginRepositories", field (parse_list "pluginRepository" parse_repository)
       (fun v p => p {{ xp_plugin_repositories := v }}))
  ]) XmlProfile_default.

Definition read_port : P (option Z) := t ← read_text; mret (parse_port t).

Definition parse_proxy : P Proxy :=
  element (UnexpectedEof "proxy") (by_name [
    ("id", field read_text (fun v p => p {{ px_id := v }}));
    ("active", field (read_bool false) (fun v p => p {{ px_active := v }}));
    ("protocol", field read_text (fun v p => p {{ px_protocol := v }}));
    ("host", field read_text (fun v p => p {{ px_host := v }}));
    ("port", field read_port (fun v p => p {{ px_port := v }}));
    ("username", field read_text (fun v p => p {{ px_username := Some v }}));
    ("password", field read_text (fun v p => p {{ px_password := Some v }}));
    ("nonProxyHosts", field read_text (fun v p => p {{ px_non_proxy_hosts := Some v }}))
  ]) Proxy_default.

Definition parse_settings : P SettingsXml :=
  element (UnexpectedEof "settings") (by_name [
    ("localRepository", field read_text (fun v s => s {{ local_repository := Some v }}));
    ("interactiveMode", field (read_bool true) (fun v s => s {{ interactive_mode := v }}));
    ("offline", field (read_bool false) (fun v s => s {{ offline := v }}));
    ("servers", field (parse_list "server" parse_server) (fun v s => s {{ servers := v }}));
    ("mirrors", field (parse_list "mirror" parse_mirror) (fun v s => s {{ mirrors := v }}));
    ("profiles", field (parse_list "profile" parse_profile) (fun v s => s {{ profiles := v }}));
    ("activeProfiles", field (strings "activeProfile") (fun v s => s {{ active_profile_ids := v }}));
    ("proxies", field (parse_list "proxy" parse_proxy) (fun v s => s {{ proxies := v }}));
    ("pluginGroups", field (strings "pluginGroup") (fun v s => s {{ plugin_groups := v }}))
  ]) SettingsXml_default.

(** [parse_inner]: elements before [settings] are skipped, and a document
    without one gives the defaults. *)
Fixpoint inner_loop (fuel : nat) : P SettingsXml :=
  match fuel with
  | O => fun _ => None
  | S fuel' =>
      ev ← next;
      match ev with
      | Start name _ =>
          if decide (local_name name = "settings") then parse_settings
          else _ ← skip_element; inner_loop fuel'
      | Eof => mret SettingsXml_default
      | _ => inner_loop fuel'
      end
  end.

Definition parse_inner : P SettingsXml := fun s => inner_loop (S (length s)) s.

Definition parse_settings_str (xml : string) : option (result Detail SettingsXml) :=
  fst <$> parse_inner (tokens xml).

End Parsers.

(** ** Passwords *)

Definition ends_with (c : ascii) (s : string) : bool :=
  bool_decide (list.last (list_ascii_of_string s) = Some c).

Definition is_encrypted_blob (s : string) : bool :=
  str_starts "{" s && ends_with "}" s && (2 <=? String.length s).

(** [decrypt_password]; [None] is the decryption error. *)
Definition decrypt_password (raw : string) : option string :=
  if is_encrypted_blob (trim raw) then None else Some raw.

(** ** The settings a document describes *)

Section Trees.
Context `{Q : QuickXml}.

Definition flag (dflt : bool) (kids : list Node) : bool := parse_bool_str (text_of kids) dflt.

Definition tree_server (kids : list Node) : Server :=
  mkServer (req "id" text_of "" kids) (opt "username" text_of kids) (opt "password" text_of kids)
    (opt "privateKey" text_of kids) (opt "passphrase" text_of kids)
    (opt "filePermissions" text_of kids) (opt "directoryPermissions" text_of kids).

Definition tree_mirror (kids : list Node) : Mirror :=
  mkMirror (req "id" text_of "" kids) (opt "name" text_of kids) (req "url" text_of "" kids)
    (req "mirrorOf" text_of "" kids) (req "blocked" (flag false) false kids).

(** A policy element that says nothing enables its repository; a missing one
    does not. *)
Definition tree_policy (kids : list Node) : RepositoryPolicy :=
  mkRepositoryPolicy (req "enabled" (flag true) true kids) (opt "updatePolicy" text_of kids)
    (opt "checksumPolicy" text_of kids).

Definition tree_repository (kids : list Node) : Repository :=
  mkRepository (req "id" text_of "" kids) (opt "name" text_of kids) (req "url" text_of "" kids)
    (req "releases" tree_policy RepositoryPolicy_default kids)
    (req "snapshots" tree_policy RepositoryPolicy_default kids) (opt "layout" text_of kids).

(** The conditions of all [os], [property] and [file] elements together. *)
Definition tree_activation (kids : list Node) : Activation :=
  mkActivation (req "activeByDefault" (flag false) false kids) (opt "jdk" text_of kids)
    (opt "name" text_of (inside "os" kids)) (opt "family" text_of (inside "os" kids))
    (opt "arch" text_of (inside "os" kids)) (opt "version" text_of (inside "os" kids))
    (opt "name" text_of (inside "property" kids)) (opt "value" text_of (inside "property" kids))
    (opt "exists" text_of (inside "file" kids)) (opt "missing" text_of (inside "file" kids)).

Definition tree_map : list Node -> gmap string string := entries_of (fun k v m => <[k := v]> m) ∅.

Definition tree_profile (kids : list Node) : XmlProfile :=
  mkXmlProfile (req "id" text_of "" kids) (req "properties" tree_map ∅ kids)
    (req "repositories" (list_of "repository" tree_repository) [] kids)
    (req "pluginRepositories" (list_of "pluginRepository" tree_repository) [] kids)
    (opt "activation" tree_activation kids).

Definition tree_proxy (kids : list Node) : Proxy :=
  mkProxy (req "id" text_of "" kids) (req "active" (flag false) false kids)
    (req "protocol" text_of "" kids) (req "host" text_of "" kids)
    (req "port" (fun ks => parse_port (text_of ks)) None kids) (opt "username" text_of kids)
    (opt "password" text_of kids) (opt "nonProxyHosts" text_of kids).

Definition tree_settings (kids : list Node) : SettingsXml :=
  mkSettings (req "servers" (list_of "server" tree_server) [] kids)
    (req "mirrors" (list_of "mirror" tree_mirror) [] kids)
    (req "profiles" (list_of "profile" tree_profile) [] kids)
    (req "activeProfiles" (list_of "activeProfile" text_of) [] kids)
    (req "proxies" (list_of "proxy" tree_proxy) [] kids)
    (req "pluginGroups" (list_of "pluginGroup" text_of) [] kids)
    (opt "localRepository" text_of kids) (req "interactiveMode" (flag true) true kids)
    (req "offline" (flag false) false kids).

(** The first [settings] element at the top of the document. *)
Definition tree_document (top : list Node) : SettingsXml :=
  default SettingsXml_default (tree_settings <$> head (children "settings" top)).

Lemma reads_bool dflt : reads (read_bool dflt) (flag dflt).
Proof. intros kids nm rest Hk. unfold read_bool. by rewrite (bind_reads _ _ _ _ _ _ reads_text). Qed.

Lemma reads_port : reads read_port (fun ks => parse_port (text_of ks)).
Proof. intros kids nm rest Hk. unfold read_port. by rewrite (bind_reads _ _ _ _ _ _ reads_text). Qed.
#[local] Hint Resolve reads_bool reads_port : xml.

Lemma reads_strings item : reads (strings item) (list_of item text_of).
Proof. apply reads_string_list. Qed.

Lemma reads_list {A} item (p : Parser Detail A) g :
  reads p g -> reads (parse_list item p) (list_of item g).
Proof. apply reads_items. Qed.
#[local] Hint Resolve reads_strings reads_list : xml.

Lemma reads_server : reads parse_server tree_server.
Proof. unfold parse_server. read_record tree_server. Qed.

Lemma reads_mirror : reads parse_mirror tree_mirror.
Proof. unfold parse_mirror. read_record tree_mirror. Qed.

Lemma settings_reads_policy : reads parse_repo_policy tree_policy.
Proof. unfold parse_repo_policy. read_record tree_policy. Qed.
#[local] Hint Resolve reads_server reads_mirror settings_reads_policy : xml.

Lemma settings_reads_repository : reads parse_repository tree_repository.
Proof. unfold parse_repository. read_record tree_repository. Qed.

Lemma reads_map : reads parse_map tree_map.
Proof. apply reads_properties. Qed.
#[local] Hint Resolve settings_reads_repository reads_map : xml.

(** A later value, or the one already there. *)
Definition newer {A} (o old : option A) : option A := match o with Some v => Some v | None => old end.

Definition with_os (a : Activation) (ks : list Node) : Activation :=
  a {{ ac_os_name := newer (opt "name" text_of ks) (ac_os_name a);
       ac_os_family := newer (opt "family" text_of ks) (ac_os_family a);
       ac_os_arch := newer (opt "arch" text_of ks) (ac_os_arch a);
       ac_os_version := newer (opt "version" text_of ks) (ac_os_version a) }}.

Definition with_property (a : Activation) (ks : list Node) : Activation :=
  a {{ ac_property_name := newer (opt "name" text_of ks) (ac_property_name a);
       ac_property_value := newer (opt "value" text_of ks) (ac_property_value a) }}.

Definition with_file (a : Activation) (ks : list Node) : Activation :=
  a {{ ac_file_exists := newer (opt "exists" text_of ks) (ac_file_exists a);
       ac_file_missing := newer (opt "missing" text_of ks) (ac_file_missing a) }}.

Lemma reads_os a : reads (parse_activation_os a) (with_os a).
Proof. unfold parse_activation_os. read_record_at (with_os a) with_os. Qed.

Lemma reads_property a : reads (parse_activation_property a) (with_property a).
Proof. unfold parse_activation_property. read_record_at (with_property a) with_property. Qed.

Lemma reads_file a : reads (parse_activation_file a) (with_file a).
Proof. unfold parse_activation_file. read_record_at (with_file a) with_file. Qed.

#[local] Hint Resolve reads_os reads_property reads_file : xml.

Lemma settings_reads_activation : reads parse_activation tree_activation.
Proof. unfold parse_activation. read_record tree_activation. Qed.
#[local] Hint Resolve settings_reads_activation : xml.

Lemma settings_reads_profile : reads parse_profile tree_profile.
Proof. unfold parse_profile. read_record tree_profile. Qed.

Lemma reads_proxy : reads parse_proxy tree_proxy.
Proof. unfold parse_proxy. read_record tree_proxy. Qed.
#[local] Hint Resolve settings_reads_profile reads_proxy : xml.

Lemma reads_settings : reads parse_settings tree_settings.
Proof. unfold parse_settings. read_record tree_settings. Qed.

Lemma inner_reads top : forall fuel,
  forallb decodable top -> length top < fuel ->
  fst <$> inner_loop fuel (events top) = Some (Ok (tree_document top)).
Proof.
  induction top as [|n top IH]; intros [|fuel]; rewrite ?decodable_cons; cbn [length]; try lia;
    [done |]. intros [Hn Htop] Hf. cbn [inner_loop]. rewrite events_cons_nil.
  destruct n as [name attrs ks|[]]; try (apply IH; [done | lia]).
  rewrite next_elem. unfold tree_document, children. cbn [omap list_omap child].
  case_decide; cbn [head].
  - by rewrite reads_settings.
  - rewrite (bind_reads _ _ _ _ _ _ skip_reads) by done. apply IH; [done | lia].
Qed.

(** the streaming reader of settings.xml implements the tree reading of the
    document.  For every document whose texts decode, reading succeeds and
    gives the settings of the first [settings] element at its top, or the
    defaults without one: fields are the last child of their name, lists the
    children of the last container, conditions of several [os], [property] or
    [file] elements of one activation accumulate, malformed booleans and ports
    fall back, and unknown elements are ignored. *)
Theorem parse_settings_tree xml top :
  tokens xml = events top -> forallb decodable top ->
  parse_settings_str xml = Some (Ok (tree_document top)).
Proof.
  intros Ht Hd. unfold parse_settings_str, parse_inner. rewrite Ht. apply inner_reads; [done |].
  pose proof (length_events top). lia.
Qed.

Lemma total_bool dflt : total (read_bool dflt).
Proof. apply total_bind; [apply total_read_text | intros; apply total_ret]. Qed.

Lemma total_port : total read_port.
Proof. apply total_bind; [apply total_read_text | intros; apply total_ret]. Qed.

Lemma total_list {A} item (p : Parser Detail A) : total p -> total (parse_list item p).
Proof. apply total_items. Qed.

Lemma total_strings item : total (strings item).
Proof. apply total_string_list. Qed.

Lemma total_map : total parse_map.
Proof. apply total_properties. Qed.
#[local] Hint Resolve total_bool total_port total_list total_strings total_map : xml.

Lemma total_server : total parse_server.
Proof. unfold parse_server. total_record. Qed.

Lemma total_mirror : total parse_mirror.
Proof. unfold parse_mirror. total_record. Qed.

Lemma total_proxy : total parse_proxy.
Proof. unfold parse_proxy. total_record. Qed.

Lemma total_policy : total parse_repo_policy.
Proof. unfold parse_repo_policy. total_record. Qed.
#[local] Hint Resolve total_server total_mirror total_proxy total_policy : xml.

Lemma total_repository : total parse_repository.
Proof. unfold parse_repository. total_record. Qed.

Lemma total_os a : total (parse_activation_os a).
Proof. unfold parse_activation_os. total_record. Qed.

Lemma total_property a : total (parse_activation_property a).
Proof. unfold parse_activation_property. total_record. Qed.

Lemma total_file a : total (parse_activation_file a).
Proof. unfold parse_activation_file. total_record. Qed.
#[local] Hint Resolve total_repository total_os total_property total_file : xml.

Lemma settings_total_activation : total parse_activation.
Proof. unfold parse_activation. total_record. Qed.
#[local] Hint Resolve settings_total_activation : xml.

Lemma total_profile : total parse_profile.
Proof. unfold parse_profile. total_record. Qed.
#[local] Hint Resolve total_profile : xml.

Lemma total_settings : total parse_settings.
Proof. unfold parse_settings. total_record. Qed.

Lemma total_settings_inner : total parse_inner.
Proof.
  unfold parse_inner. apply (total_fuel inner_loop). intros fuel.
  induction fuel as [|fuel IH]; [intros s Hs; lia |].
  apply total_next; [| apply total_ret].
  intros [name attrs| | | |] Hev; try apply IH; [| done]. case_decide.
  - apply total_weaken, total_settings.
  - apply total_with_bind; [apply total_weaken, total_skip | intros; apply IH].
Qed.

(** Reading ends on every sequence of events. *)
Lemma parse_settings_ends xml : is_Some (parse_settings_str xml).
Proof.
  unfold parse_settings_str. destruct (total_settings_inner (tokens xml)) as (r & s' & -> & _).
  by eexists.
Qed.

End Trees.

(** *** An instance *)

Definition sample : list Node :=
  let leaf name text := Elem name [] [Content (Text text)] in
  [ Content Decl;
    Elem "settings" [] [
      leaf "offline" " TRUE ";
      Elem "mirrors" [] [Elem "mirror" [] [leaf "id" "m"; leaf "mirrorOf" "*"; leaf "url" "u"]];
      Elem "proxies" [] [Elem "proxy" [] [leaf "host" "h"; leaf "port" "70000"]] ] ].

Definition sample_xml : QuickXml :=
  {| tokens _ := events sample; decode := Ok; unescape := Ok |}.

Lemma parse_settings_tree_witness :
  exists s, @parse_settings_str sample_xml "" = Some (Ok s) /\
    offline s = true /\ mi_mirror_of <$> mirrors s = ["*"] /\ px_port <$> proxies s = [None].
Proof.
  exists (@tree_document sample_xml sample). split; [| split_and!; reflexivity].
  exact (@parse_settings_tree sample_xml "" sample eq_refl I).
Defined.

End Settings.
