(* ===== verification/Effective.v ===== *)
(** * barista-pom: parent-chain merge and interpolation

    Models crates/barista-pom/src/effective.rs.  The environment variables
    ([std::env::var]) are the class [Environment]; a [ParentResolver] is a
    function, as for the walker's [MapParentResolver], whose [resolve] does
    not change it. *)

From S2P Require Import Prelude Pom.

(** [std::env::var(name).ok()]. *)
Class Environment := env_var : string -> option string.

(** An environment without variables. *)
#[export] Instance empty_environment : Environment | 100 := fun _ => None.

Module Effective.
Import Pom.

Definition MAX_CHAIN_DEPTH : nat := 10.
Definition MAX_INTERPOLATION_DEPTH : nat := 10.

Inductive InterpolationLocation : Type :=
  | Property (key : string)
  | DependencyVersion (group artifact : string)
  | PluginVersion (group artifact : string)
  | PomField (field : string)
  | PluginConfiguration (group artifact : string)
  | RepositoryUrl (id : string)
  | Other (hint : string).

Record Interpolation := mkInterpolation {
  placeholder : string;
  resolved_to : string;
  location : InterpolationLocation
}.

Definition is_strict (loc : InterpolationLocation) : bool :=
  match loc with
  | Property _ | PluginConfiguration _ _ => false
  | DependencyVersion _ _ | PluginVersion _ _ | PomField _ | RepositoryUrl _ | Other _ => true
  end.

(** The [location] text of [UnresolvedPlaceholder] is the location it prints. *)
Inductive EffectiveError : Type :=
  | ParentResolution (coords reason : string)
  | ChainTooDeep (max : nat)
  | CircularParent (coords : string)
  | UnresolvedPlaceholder (placeholder : string) (location : InterpolationLocation).

Record EffectivePom := mkEffective {
  pom : RawPom;
  interpolations : list Interpolation;
  parent_chain : list RawPom
}.

Definition ParentResolver : Type := RawParent -> result string RawPom.

(** ** The parent chain *)

Definition or_else {A} (o o' : option A) : option A :=
  match o with Some a => Some a | None => o' end.

Definition pom_coords (p : RawPom) : Gav :=
  let g := default "" (or_else (group_id p) (par_group_id <$> parent p)) in
  let v := default "" (or_else (version p) (par_version <$> parent p)) in
  (g, artifact_id p, v).

(** The [while let] of [collect_parent_chain]; [room] is
    [MAX_CHAIN_DEPTH - chain.len()]. *)
Fixpoint collect_loop (resolve : ParentResolver) (room : nat) (seen : gset Gav)
    (current : option RawParent) (chain : list RawPom) : result EffectiveError (list RawPom) :=
  match current with
  | None => Ok chain
  | Some p =>
      match room with
      | O => Err (ChainTooDeep MAX_CHAIN_DEPTH)
      | S room' =>
          let coords := parent_gav p in
          if decide (coords ∈ seen) then Err (CircularParent (gav_text coords))
          else
            parent_pom ← map_err (ParentResolution (gav_text coords)) (resolve p);
            collect_loop resolve room' ({[coords]} ∪ seen) (parent parent_pom)
              (chain ++ [parent_pom])
      end
  end.

Definition collect_parent_chain (root : RawPom) (resolve : ParentResolver)
    : result EffectiveError (list RawPom) :=
  collect_loop resolve MAX_CHAIN_DEPTH {[pom_coords root]} (parent root) [].

(** ** Merge *)

Definition merge_properties (parent child : Properties) : Properties :=
  IndexMap.extend (IndexMap.extend [] parent) child.

Definition merge_dependency_management (parent child : option DependencyManagement)
    : option DependencyManagement :=
  match parent, child with
  | None, None => None
  | Some p, None => Some p
  | None, Some c => Some c
  | Some p, Some c => Some (mkDepMgt (dm_dependencies p ++ dm_dependencies c))
  end.

Definition is_plugin_inheritable (p : RawPlugin) : bool :=
  negb (match pl_inherited p with Some s => String.eqb s "false" | None => false end).

Definition retain_inheritable (l : list RawPlugin) : list RawPlugin :=
  List.filter is_plugin_inheritable l.

Definition merge_plugin_management (parent child : option RawPluginManagement)
    : option RawPluginManagement :=
  match parent, child with
  | None, None => None
  | Some p, None => Some (mkPluginMgt (retain_inheritable (pm_plugins p)))
  | None, Some c => Some c
  | Some p, Some c => Some (mkPluginMgt (retain_inheritable (pm_plugins p) ++ pm_plugins c))
  end.

Definition merge_build (parent child : option RawBuild) : option RawBuild :=
  match parent, child with
  | None, None => None
  | Some p, None =>
      Some (mkBuild (b_source_directory p) (b_script_source_directory p)
              (b_test_source_directory p) (b_output_directory p) (b_test_output_directory p)
              (b_final_name p) (b_default_goal p) (b_directory p) (b_filters p) (b_resources p)
              (b_test_resources p) (retain_inheritable (b_plugins p))
              ((fun pm => mkPluginMgt (retain_inheritable (pm_plugins pm)))
                 <$> b_plugin_management p))
  | None, Some c => Some c
  | Some p, Some c =>
      Some (mkBuild
              (or_else (b_source_directory c) (b_source_directory p))
              (or_else (b_script_source_directory c) (b_script_source_directory p))
              (or_else (b_test_source_directory c) (b_test_source_directory p))
              (or_else (b_output_directory c) (b_output_directory p))
              (or_else (b_test_output_directory c) (b_test_output_directory p))
              (or_else (b_final_name c) (b_final_name p))
              (or_else (b_default_goal c) (b_default_goal p))
              (or_else (b_directory c) (b_directory p))
              (b_filters p ++ b_filters c)
              (b_resources p ++ b_resources c)
              (b_test_resources p ++ b_test_resources c)
              (retain_inheritable (b_plugins p) ++ b_plugins c)
              (merge_plugin_management (b_plugin_management p) (b_plugin_management c)))
  end.

Definition repo_ids (l : list RawRepository) : gset string := list_to_set (omap r_id l).

(** The loop over the parent's (or the existing) repositories. *)
Fixpoint keep_parent_repos (child_ids : gset string) (l : list RawRepository)
    (out : list RawRepository) (seen : gset string) : list RawRepository * gset string :=
  match l with
  | [] => (out, seen)
  | r :: l' =>
      match r_id r with
      | Some id =>
          if decide (id ∈ child_ids) then keep_parent_repos child_ids l' out seen
          else keep_parent_repos child_ids l' (out ++ [r]) ({[id]} ∪ seen)
      | None => keep_parent_repos child_ids l' (out ++ [r]) seen
      end
  end.

(** The loop over the child's (or the incoming) repositories. *)
Fixpoint push_child_repos (l : list RawRepository) (out : list RawRepository)
    (seen : gset string) : list RawRepository :=
  match l with
  | [] => out
  | r :: l' =>
      match r_id r with
      | Some id =>
          if decide (id ∈ seen) then push_child_repos l' out seen
          else push_child_repos l' (out ++ [r]) ({[id]} ∪ seen)
      | None => push_child_repos l' (out ++ [r]) seen
      end
  end.

Definition merge_repositories (parent child : list RawRepository) : list RawRepository :=
  let '(out, seen_ids) := keep_parent_repos (repo_ids child) parent [] ∅ in
  push_child_repos child out seen_ids.

Definition merge (par child : RawPom) : RawPom :=
  mkPom (model_version child)
    (parent child)
    (or_else (group_id child) (group_id par))
    (artifact_id child)
    (or_else (version child) (version par))
    (if String.eqb (packaging child) "jar" && negb (String.eqb (packaging par) "jar")
     then packaging par else packaging child)
    (or_else (name child) (name par))
    (or_else (description child) (description par))
    (or_else (url child) (url par))
    (or_else (inception_year child) (inception_year par))
    (merge_properties (properties par) (properties child))
    (merge_dependency_management (dependency_management par) (dependency_management child))
    (dependencies par ++ dependencies child)
    (modules child)
    (merge_build (build par) (build child))
    (profiles par ++ profiles child)
    (merge_repositories (repositories par) (repositories child))
    (merge_repositories (plugin_repositories par) (plugin_repositories child)).

(** The fold of [build_effective]; [chain] runs from the direct parent to
    the root ancestor. *)
Definition merge_chain (chain : list RawPom) (root : RawPom) : RawPom :=
  match rev chain with
  | [] => root
  | top :: rest => merge (fold_left merge rest top) root
  end.

(** ** Interpolation

    The functions of this part share the error type and append to the log
    of substitutions; on an error the log is dropped with the POM. *)

Definition interp_m (A : Type) : Type :=
  list Interpolation -> result EffectiveError (A * list Interpolation).

#[export] Instance interp_mret : MRet interp_m := fun A a log => Ok (a, log).
#[export] Instance interp_mbind : MBind interp_m := fun A B k m log =>
  match m log with Ok (a, log') => k a log' | Err e => Err e end.

(** [for x in &mut list { *x = f(x)? }]. *)
Definition traverse {A B} (f : A -> interp_m B) : list A -> interp_m (list B) :=
  fix go l := match l with
              | [] => mret []
              | x :: l' => y ← f x; ys ← go l'; mret (y :: ys)
              end.

(** [if let Some(x) = target.as_mut() { *x = f(x)? }]. *)
Definition traverse_opt {A B} (f : A -> interp_m B) (o : option A) : interp_m (option B) :=
  match o with None => mret None | Some x => y ← f x; mret (Some y) end.

Record ProjectContext := mkContext {
  c_group_id : option string;
  c_artifact_id : string;
  c_version : option string;
  c_parent_group_id : option string;
  c_parent_artifact_id : option string;
  c_parent_version : option string
}.

Definition from_pom (p : RawPom) : ProjectContext :=
  mkContext (or_else (group_id p) (par_group_id <$> parent p))
    (artifact_id p)
    (or_else (version p) (par_version <$> parent p))
    (par_group_id <$> parent p) (par_artifact_id <$> parent p) (par_version <$> parent p).

(** [input.contains("${")]. *)
Fixpoint has_open (s : string) : bool :=
  match s with
  | String a s' =>
      (Ascii.eqb a "$" && match s' with String b _ => Ascii.eqb b "{" | EmptyString => false end)
      || has_open s'
  | EmptyString => false
  end.

(** [first_placeholder]: from the first [${] to the next [}], if any. *)
Fixpoint first_placeholder (s : string) : option string :=
  match s with
  | String a s' =>
      match s' with
      | String b rest =>
          if Ascii.eqb a "$" && Ascii.eqb b "{"
          then (fun p => "${" +:+ p.1 +:+ "}") <$> str_split_once "}" rest
          else first_placeholder s'
      | EmptyString => None
      end
  | EmptyString => None
  end.

(** [out.push(byte as char)]: the UTF-8 encoding of the code point with the
    byte's value, two bytes from 128 on. *)
Definition push_byte (a : ascii) : string :=
  if is_ascii a then String a EmptyString
  else String (ascii_of_N (N.lor 192 (N.shiftr (code a) 6)))
         (String (ascii_of_N (N.lor 128 (N.land (code a) 63))) EmptyString).

Record Resolver := mkResolver { ctx : ProjectContext; props : Properties }.

Definition lookup_project (r : Resolver) (rest : string) : option string :=
  if String.eqb rest "groupId" then c_group_id (ctx r)
  else if String.eqb rest "artifactId" then Some (c_artifact_id (ctx r))
  else if String.eqb rest "version" then c_version (ctx r)
  else if String.eqb rest "parent.groupId" then c_parent_group_id (ctx r)
  else if String.eqb rest "parent.artifactId" then c_parent_artifact_id (ctx r)
  else if String.eqb rest "parent.version" then c_parent_version (ctx r)
  else if String.eqb rest "basedir" then Some ""
  else None.

Section Interp.
Context `{ENV : Environment}.

Definition lookup (r : Resolver) (key : string) : option string :=
  match str_strip_prefix "project." key with
  | Some rest => lookup_project r rest
  | None =>
      match str_strip_prefix "env." key with
      | Some name => env_var name
      | None =>
          match str_strip_prefix "settings." key with
          | Some _ => None
          | None => IndexMap.get key (props r)
          end
      end
  end.

(** The loop of [pass] on the unread input; every round reads at least one
    byte, so the length of the input is enough fuel ([pass_total]). *)
Fixpoint pass_loop (r : Resolver) (loc : InterpolationLocation) (fuel : nat) (input out : string)
    (fired : bool) (log : list Interpolation)
    : option (result EffectiveError (string * bool * list Interpolation)) :=
  match input with
  | EmptyString => Some (Ok (out, fired, log))
  | String a rest =>
      match fuel with
      | O => None
      | S fuel' =>
          let literal := pass_loop r loc fuel' rest (out +:+ push_byte a) fired log in
          match rest with
          | String b rest' =>
              if Ascii.eqb a "$" && Ascii.eqb b "{" then
                match str_split_once "}" rest' with
                | Some (key, after) =>
                    let ph := "${" +:+ key +:+ "}" in
                    match lookup r key with
                    | Some v =>
                        pass_loop r loc fuel' after (out +:+ v) true
                          (log ++ [mkInterpolation ph v loc])
                    | None =>
                        if is_strict loc then Some (Err (UnresolvedPlaceholder ph loc))
                        else pass_loop r loc fuel' after (out +:+ ph) fired log
                    end
                | None => literal
                end
              else literal
          | EmptyString => literal
          end
      end
  end.

Definition pass (r : Resolver) (loc : InterpolationLocation) (input : string)
    (log : list Interpolation) : result EffectiveError (string * bool * list Interpolation) :=
  match pass_loop r loc (String.length input) input "" false log with
  | Some x => x
  | None => Err (UnresolvedPlaceholder input loc) (* unreachable: pass_total *)
  end.

(** The [for _ in 0..MAX_INTERPOLATION_DEPTH] of [interp]. *)
Fixpoint interp_loop (r : Resolver) (loc : InterpolationLocation) (n : nat) (current : string)
    (log : list Interpolation) : result EffectiveError (string * list Interpolation) :=
  match n with
  | O => Err (UnresolvedPlaceholder (default current (first_placeholder current)) loc)
  | S n' =>
      match pass r loc current log with
      | Err e => Err e
      | Ok (next, fired, log') =>
          if negb fired then Ok (next, log')
          else if negb (has_open next) then Ok (next, log')
          else if String.eqb next current then
            Err (UnresolvedPlaceholder (default next (first_placeholder next)) loc)
          else interp_loop r loc n' next log'
      end
  end.

Definition interp (r : Resolver) (loc : InterpolationLocation) (input : string)
    : interp_m string := fun log =>
  if negb (has_open input) then Ok (input, log)
  else interp_loop r loc MAX_INTERPOLATION_DEPTH input log.

Definition interp_opt (r : Resolver) (loc : InterpolationLocation) (target : option string)
    : interp_m (option string) := traverse_opt (interp r loc) target.

Definition interp_exclusion (r : Resolver) (loc : InterpolationLocation) (x : RawExclusion)
    : interp_m RawExclusion :=
  g ← interp r loc (x_group_id x); a ← interp r loc (x_artifact_id x);
  mret (mkExclusion g a).

Definition interp_dependency (r : Resolver) (d : RawDependency) : interp_m RawDependency :=
  let loc := DependencyVersion (d_group_id d) (d_artifact_id d) in
  g ← interp r loc (d_group_id d);
  a ← interp r loc (d_artifact_id d);
  v ← interp_opt r loc (d_version d);
  s ← interp_opt r loc (d_scope d);
  c ← interp_opt r loc (d_classifier d);
  t ← interp_opt r loc (d_type d);
  sp ← interp_opt r loc (d_system_path d);
  o ← interp_opt r loc (d_optional d);
  xs ← traverse (interp_exclusion r loc) (d_exclusions d);
  mret (mkDependency g a v s c t sp o xs).

Fixpoint interp_xml_value (r : Resolver) (loc : InterpolationLocation) (v : XmlValue)
    : interp_m XmlValue :=
  let 'mkXml attributes text children := v in
  t ← interp_opt r loc text;
  ats ← traverse (fun ka => va ← interp r loc (ka.2); mret (ka.1, va)) attributes;
  cs ← traverse (fun kc => l ← traverse (interp_xml_value r loc) (kc.2); mret (kc.1, l)) children;
  mret (mkXml ats t cs).

Definition interp_plugin_execution (r : Resolver) (cfg_loc : InterpolationLocation)
    (e : RawPluginExecution) : interp_m RawPluginExecution :=
  i ← interp_opt r cfg_loc (e_id e);
  p ← interp_opt r cfg_loc (e_phase e);
  gs ← traverse (interp r cfg_loc) (e_goals e);
  c ← traverse_opt (interp_xml_value r cfg_loc) (e_configuration e);
  mret (mkExecution i p (e_inherited e) gs c).

Definition interp_plugin (r : Resolver) (p : RawPlugin) : interp_m RawPlugin :=
  let loc := PluginVersion (pl_group_id p) (pl_artifact_id p) in
  g ← interp r loc (pl_group_id p);
  a ← interp r loc (pl_artifact_id p);
  v ← interp_opt r loc (pl_version p);
  let cfg_loc := PluginConfiguration g a in
  c ← traverse_opt (interp_xml_value r cfg_loc) (pl_configuration p);
  ds ← traverse (interp_dependency r) (pl_dependencies p);
  es ← traverse (interp_plugin_execution r cfg_loc) (pl_executions p);
  mret (mkPlugin g a v (pl_inherited p) (pl_extensions p) c ds es).

Definition interp_build (r : Resolver) (b : RawBuild) : interp_m RawBuild :=
  let loc := Other "build" in
  sd ← interp_opt r loc (b_source_directory b);
  ss ← interp_opt r loc (b_script_source_directory b);
  ts ← interp_opt r loc (b_test_source_directory b);
  od ← interp_opt r loc (b_output_directory b);
  tod ← interp_opt r loc (b_test_output_directory b);
  fn ← interp_opt r loc (b_final_name b);
  dg ← interp_opt r loc (b_default_goal b);
  d ← interp_opt r loc (b_directory b);
  ps ← traverse (interp_plugin r) (b_plugins b);
  pm ← traverse_opt (fun pm => l ← traverse (interp_plugin r) (pm_plugins pm); mret (mkPluginMgt l))
         (b_plugin_management b);
  mret (mkBuild sd ss ts od tod fn dg d (b_filters b) (b_resources b) (b_test_resources b) ps pm).

Definition interp_depmgt (r : Resolver) (dm : DependencyManagement)
    : interp_m DependencyManagement :=
  l ← traverse (interp_dependency r) (dm_dependencies dm); mret (mkDepMgt l).

Definition interp_repository (r : Resolver) (x : RawRepository) : interp_m RawRepository :=
  let loc := RepositoryUrl (default "?" (r_id x)) in
  i ← interp_opt r loc (r_id x);
  n ← interp_opt r loc (r_name x);
  u ← interp_opt r loc (r_url x);
  l ← interp_opt r loc (r_layout x);
  mret (mkRepository i n u l (r_releases x) (r_snapshots x)).

Definition interp_profile (r : Resolver) (pr : RawProfile) : interp_m RawProfile :=
  let loc := Other ("profile[" +:+ default "?" (pr_id pr) +:+ "]") in
  i ← interp_opt r loc (pr_id pr);
  ds ← traverse (interp_dependency r) (pr_dependencies pr);
  dm ← traverse_opt (interp_depmgt r) (pr_dependency_management pr);
  b ← traverse_opt (interp_build r) (pr_build pr);
  rs ← traverse (interp_repository r) (pr_repositories pr);
  ps ← traverse (interp_repository r) (pr_plugin_repositories pr);
  mret (mkProfile i (pr_activation pr) (pr_properties pr) ds dm (pr_modules pr) b rs ps).

Definition interp_property (r : Resolver) (kv : string * string) : interp_m (string * string) :=
  v2 ← interp r (Property (kv.1)) (kv.2); mret (kv.1, v2).

(** [interpolate_pom]: the snapshot of the context and of the properties is
    taken before any field changes. *)
Definition interpolate_pom (p : RawPom) : interp_m RawPom :=
  let r := mkResolver (from_pom p) (properties p) in
  pp ← traverse (interp_property r) (properties p);
  g ← interp_opt r (PomField "groupId") (group_id p);
  v ← interp_opt r (PomField "version") (version p);
  n ← interp_opt r (PomField "name") (name p);
  de ← interp_opt r (PomField "description") (description p);
  u ← interp_opt r (PomField "url") (url p);
  iy ← interp_opt r (PomField "inceptionYear") (inception_year p);
  ds ← traverse (interp_dependency r) (dependencies p);
  dm ← traverse_opt (interp_depmgt r) (dependency_management p);
  b ← traverse_opt (interp_build r) (build p);
  prs ← traverse (interp_profile r) (profiles p);
  rs ← traverse (interp_repository r) (repositories p);
  prs' ← traverse (interp_repository r) (plugin_repositories p);
  mret (mkPom (model_version p) (parent p) g (artifact_id p) v (packaging p) n de u iy
          (IndexMap.extend [] pp) dm ds (modules p) b prs rs prs').

Definition clear_parent (p : RawPom) : RawPom :=
  mkPom (model_version p) None (group_id p) (artifact_id p) (version p) (packaging p) (name p)
    (description p) (url p) (inception_year p) (properties p) (dependency_management p)
    (dependencies p) (modules p) (build p) (profiles p) (repositories p) (plugin_repositories p).

Definition build_effective (root : RawPom) (resolve : ParentResolver)
    : result EffectiveError EffectivePom :=
  parent_chain ← collect_parent_chain root resolve;
  '(p, log) ← interpolate_pom (merge_chain parent_chain root) [];
  Ok (mkEffective (clear_parent p) log parent_chain).

(** ** Substitution of placeholders *)

Lemma str_split_once_length c s x y :
  str_split_once c s = Some (x, y) -> String.length s = String.length x + 1 + String.length y.
Proof.
  revert x y. induction s as [|a s IH]; intros x y; cbn; [done |].
  destruct (Ascii.eqb a c); [by intros [= <- <-] |].
  destruct (str_split_once c s) as [[x' y']|]; [|done]. intros [= <- <-]. cbn.
  rewrite (IH _ _ eq_refl). lia.
Qed.

Lemma pass_loop_total r loc fuel input out fired log :
  String.length input <= fuel -> pass_loop r loc fuel input out fired log <> None.
Proof.
  revert input out fired log. induction fuel as [|fuel IH]; intros [|a rest] out fired log Hf;
    cbn in *; try done; [lia |].
  destruct rest as [|b rest']; [apply IH; cbn; lia |].
  destruct (_ && _); [|apply IH; cbn in *; lia].
  destruct (str_split_once "}" rest') as [[key after]|] eqn:E; [|apply IH; cbn in *; lia].
  apply str_split_once_length in E. cbn in *.
  destruct (lookup r key); [apply IH; lia |]. destruct (is_strict loc); [done |]. apply IH; lia.
Qed.

(** What [pass] does to text without placeholders: byte by byte through
    [char]. *)
Fixpoint recode (s : string) : string :=
  match s with
  | EmptyString => EmptyString
  | String a s' => push_byte a +:+ recode s'
  end.

Lemma recode_ascii s : str_forallb is_ascii s = true -> recode s = s.
Proof.
  induction s as [|a s IH]; cbn; [done |]. intros [H1 H2]%andb_true_iff.
  unfold push_byte. rewrite H1. cbn. by rewrite IH.
Qed.

Lemma has_open_none s : has_open s = false -> first_placeholder s = None.
Proof.
  induction s as [|a s IH]; cbn; [done |]. intros [H1 H2]%orb_false_iff.
  destruct s as [|b rest]; [done |]. rewrite H1. by apply IH.
Qed.

(** Once a substitution fired, the flag stays set. *)
Lemma pass_loop_fired r loc fuel input out log out' log' :
  pass_loop r loc fuel input out true log <> Some (Ok (out', false, log')).
Proof.
  revert input out log. induction fuel as [|fuel IH]; intros [|a rest] out log; cbn; try done.
  destruct rest as [|b rest']; [apply IH |].
  destruct (_ && _); [|apply IH].
  destruct (str_split_once _ _) as [[key after]|]; [|apply IH].
  destruct (lookup r key); [apply IH |]. destruct (is_strict loc); [done | apply IH].
Qed.

Lemma pass_loop_quiet r loc fuel input out log out' log' :
  is_strict loc = true ->
  pass_loop r loc fuel input out false log = Some (Ok (out', false, log')) ->
  out' = out +:+ recode input /\ first_placeholder input = None.
Proof.
  intros Hs. revert input out log. induction fuel as [|fuel IH]; intros [|a rest] out log;
    cbn [pass_loop recode]; try done.
  - intros [= -> _]. by rewrite str_app_nil_r.
  - intros [= -> _]. by rewrite str_app_nil_r.
  - assert (Hlit : pass_loop r loc fuel rest (out +:+ push_byte a) false log
                    = Some (Ok (out', false, log')) ->
                  out' = out +:+ push_byte a +:+ recode rest /\ first_placeholder rest = None).
    { intros H. apply IH in H as [-> Hp]. by rewrite <- str_app_assoc. }
    destruct rest as [|b rest']; [intros H; split; [by apply Hlit | done] |].
    destruct (Ascii.eqb a "$" && Ascii.eqb b "{") eqn:Eab.
    + destruct (str_split_once "}" rest') as [[key after]|] eqn:E.
      * destruct (lookup r key); [|by rewrite Hs].
        intros H. exfalso. revert H. apply pass_loop_fired.
      * intros H. split; [by apply Hlit |]. cbn. by rewrite Eab, E.
    + intros H. destruct (Hlit H) as [H1 H2]. split; [done |]. cbn. by rewrite Eab.
Qed.

Lemma push_byte_free a c t :
  is_ascii c = true -> Ascii.eqb a c = false ->
  str_split_once c (push_byte a +:+ t)
  = (fun p => (push_byte a +:+ p.1, p.2)) <$> str_split_once c t.
Proof.
  intros Hc Hne. unfold push_byte. destruct (is_ascii a) eqn:Ha.
  - cbn. rewrite Hne. by destruct (str_split_once c t) as [[]|].
  - assert (H : forall n, (128 <= n < 256)%N -> Ascii.eqb (ascii_of_N n) c = false).
    { intros n Hn. apply Ascii.eqb_neq. intros <-. unfold is_ascii, code in Hc.
      rewrite N_ascii_embedding in Hc by lia. apply N.ltb_lt in Hc. lia. }
    apply N.ltb_ge in Ha. pose proof (N_ascii_bounded a) as Hb. unfold code in *. cbn.
    rewrite !H; [by destruct (str_split_once c t) as [[]|] | |].
    + destruct a as [[] [] [] [] [] [] [] []]; vm_compute in Ha; vm_compute; try done; by split.
    + destruct a as [[] [] [] [] [] [] [] []]; vm_compute in Ha; vm_compute; try done; by split.
Qed.

Lemma push_byte_head a c :
  is_ascii c = true -> Ascii.eqb a c = false ->
  exists x t, push_byte a = String x t /\ Ascii.eqb x c = false
    /\ (t = "" \/ exists y, t = String y "" /\ Ascii.eqb y c = false).
Proof.
  intros Hc Hne. pose proof (push_byte_free a c "" Hc Hne) as H. unfold push_byte in *.
  destruct (is_ascii a); [exists a, ""; split_and!; auto |].
  eexists _, _. split; [done |]. cbn in H.
  destruct (Ascii.eqb (ascii_of_N (N.lor 192 _)) c); [done |]. split; [done |].
  right. eexists. split; [done |]. by destruct (Ascii.eqb (ascii_of_N (N.lor 128 _)) c).
Qed.

Lemma placeholder_cons_ne a s :
  Ascii.eqb a "$" = false -> first_placeholder (String a s) = first_placeholder s.
Proof. intros H. destruct s; cbn; [done |]. by rewrite H. Qed.

Lemma placeholder_push a s :
  Ascii.eqb a "$" = false -> first_placeholder (push_byte a +:+ s) = first_placeholder s.
Proof.
  intros H. destruct (push_byte_head a "$" eq_refl H) as (x & t & -> & Hx & Ht).
  change ((String x t) +:+ s) with (String x (t +:+ s)). rewrite placeholder_cons_ne by done.
  destruct Ht as [->|(y & -> & Hy)]; [done |]. by apply placeholder_cons_ne.
Qed.

Lemma split_once_recode c s :
  is_ascii c = true -> str_split_once c s = None -> str_split_once c (recode s) = None.
Proof.
  intros Hc. induction s as [|a s IH]; cbn [str_split_once recode]; [done |].
  destruct (Ascii.eqb a c) eqn:E; [done |]. rewrite push_byte_free by done.
  destruct (str_split_once c s) as [[]|]; [done |]. intros _. by rewrite IH.
Qed.

Lemma placeholder_recode s : first_placeholder s = None -> first_placeholder (recode s) = None.
Proof.
  induction s as [|a s IH]; [done |]. destruct (Ascii.eqb a "$") eqn:E.
  - apply Ascii.eqb_eq in E as ->. destruct s as [|b s]; [done |].
    cbn [first_placeholder]. destruct (Ascii.eqb b "{") eqn:Eb.
    + apply Ascii.eqb_eq in Eb as ->.
      change (recode (String "$" (String "{" s))) with (String "$" (String "{" (recode s))).
      intros H. cbn -[recode]. rewrite split_once_recode; [done | done |].
      by destruct (str_split_once "}" s).
    + intros H%IH. rewrite <- H. cbn [recode].
      destruct (push_byte_head b "{" eq_refl Eb) as (x & t & Hx & Hne & _). rewrite Hx.
      change (push_byte "$") with "$". cbn. by rewrite Hne.
  - rewrite placeholder_cons_ne by done. intros H%IH. cbn [recode]. by rewrite placeholder_push.
Qed.

(** A strict location never keeps a complete placeholder. *)
Lemma interp_strict_clean r loc input log out log' :
  is_strict loc = true ->
  interp r loc input log = Ok (out, log') ->
  first_placeholder out = None.
Proof.
  intros Hs. unfold interp. destruct (has_open input) eqn:E; cbn [negb].
  2: { intros [= <- _]. by apply has_open_none. }
  generalize MAX_INTERPOLATION_DEPTH as n. intros n. clear E. revert input log.
  induction n as [|n IH]; intros input log; cbn [interp_loop]; [done |].
  unfold pass. destruct (pass_loop _ _ _ _ _ _ _) as [[[[next fired] log1]|]|] eqn:E; try done.
  destruct fired; cbn.
  - destruct (has_open next) eqn:Ho; cbn.
    + destruct (String.eqb next input); [done |]. apply IH.
    + intros [= <- _]. by apply has_open_none.
  - intros [= <- _]. apply pass_loop_quiet in E as [-> Hp]; [|done]. by apply placeholder_recode.
Qed.

(** A template: literal text and references, as a POM author writes it. *)
Inductive Piece : Type :=
  | Lit (s : string)
  | Ref (key : string).

Definition piece_text (p : Piece) : string :=
  match p with Lit s => s | Ref k => "${" +:+ k +:+ "}" end.

Fixpoint render (ps : list Piece) : string :=
  match ps with [] => "" | p :: ps' => piece_text p +:+ render ps' end.

(** The reference semantics: every reference replaced by its value. *)
Definition piece_value (r : Resolver) (p : Piece) : string :=
  match p with Lit s => s | Ref k => default "" (lookup r k) end.

Fixpoint substitute (r : Resolver) (ps : list Piece) : string :=
  match ps with [] => "" | p :: ps' => piece_value r p +:+ substitute r ps' end.

Fixpoint substitutions (r : Resolver) (loc : InterpolationLocation) (ps : list Piece)
    : list Interpolation :=
  match ps with
  | [] => []
  | Lit _ :: ps' => substitutions r loc ps'
  | Ref k :: ps' => mkInterpolation (piece_text (Ref k)) (default "" (lookup r k)) loc
                    :: substitutions r loc ps'
  end.

(** Literals are ASCII text without [$]; references name known values. *)
Definition piece_ok (r : Resolver) (p : Piece) : Prop :=
  match p with
  | Lit s => str_forallb is_ascii s = true /\ sep_free "$" s = true
  | Ref k => sep_free "}" k = true /\ is_Some (lookup r k)
  end.

Lemma pass_loop_literal r loc s fuel t out fired log :
  str_forallb is_ascii s = true -> sep_free "$" s = true ->
  pass_loop r loc (String.length s + fuel) (s +:+ t) out fired log
  = pass_loop r loc fuel t (out +:+ s) fired log.
Proof.
  revert out. induction s as [|a s IH]; intros out; [by rewrite str_app_nil_r |].
  unfold sep_free in *. cbn. intros [Ha Hs]%andb_true_iff [Hd Hf]%andb_true_iff.
  apply negb_true_iff in Hd. rewrite Hd. cbn. unfold push_byte. rewrite Ha.
  rewrite IH by done. rewrite str_app_assoc. cbn.
  by destruct (s +:+ t).
Qed.

Lemma pass_loop_ref r loc k v fuel t out fired log :
  sep_free "}" k = true -> lookup r k = Some v ->
  pass_loop r loc (S fuel) (piece_text (Ref k) +:+ t) out fired log
  = pass_loop r loc fuel t (out +:+ v) true (log ++ [mkInterpolation (piece_text (Ref k)) v loc]).
Proof.
  intros Hk Hl. cbn. rewrite str_app_assoc. cbn. rewrite split_once_free by done. by rewrite Hl.
Qed.

Definition is_ref (p : Piece) : bool := match p with Ref _ => true | Lit _ => false end.

Lemma pass_loop_render r loc ps fuel out fired log :
  Forall (piece_ok r) ps -> String.length (render ps) <= fuel ->
  pass_loop r loc fuel (render ps) out fired log
  = Some (Ok (out +:+ substitute r ps, fired || existsb is_ref ps, log ++ substitutions r loc ps)).
Proof.
  intros HF. revert fuel out fired log.
  induction HF as [|p ps Hp HF IH]; intros fuel out fired log Hlen; cbn [render substitute substitutions].
  - cbn. rewrite str_app_nil_r, app_nil_r, orb_false_r. by destruct fuel.
  - cbn [render] in Hlen. rewrite str_length_app in Hlen.
    destruct p as [s|k]; cbn [piece_ok piece_text piece_value existsb is_ref] in *.
    + destruct Hp as [H1 H2]. replace fuel with (String.length s + (fuel - String.length s)) by lia.
      rewrite pass_loop_literal by done. rewrite IH by lia. by rewrite str_app_assoc.
    + destruct Hp as [Hk [v Hv]]. destruct fuel as [|fuel]; [cbn in Hlen; lia |].
      change ("${" +:+ k +:+ "}") with (piece_text (Ref k)).
      rewrite (pass_loop_ref _ _ _ v) by done. rewrite IH by (cbn in Hlen; lia).
      rewrite Hv. cbn [default from_option]. rewrite str_app_assoc, <- app_assoc. cbn.
      by rewrite orb_true_r.
Qed.

Lemma render_no_ref r ps :
  existsb is_ref ps = false -> Forall (piece_ok r) ps ->
  sep_free "$" (render ps) = true /\ substitute r ps = render ps /\ forall loc, substitutions r loc ps = [].
Proof.
  intros He HF. induction HF as [|p ps Hp HF IH]; [done |].
  destruct p as [s|k]; cbn in He; [|done]. destruct (IH He) as (H1 & H2 & H3). destruct Hp as [_ Hd].
  unfold sep_free in *. cbn. rewrite str_forallb_app, Hd, H1. by rewrite H2.
Qed.

Lemma sep_free_open s : sep_free "$" s = true -> has_open s = false.
Proof.
  unfold sep_free. induction s as [|a s IH]; cbn; [done |].
  intros [H1 H2]%andb_true_iff. apply negb_true_iff in H1. rewrite H1, IH; done.
Qed.

(** On a template whose references all have values, and whose expansion
    holds no further placeholder, interpolation returns exactly the text with
    every reference replaced, and logs one substitution per reference in
    order. *)
Theorem interp_template r loc ps log :
  Forall (piece_ok r) ps ->
  has_open (substitute r ps) = false ->
  interp r loc (render ps) log = Ok (substitute r ps, log ++ substitutions r loc ps).
Proof.
  intros HF Ho. unfold interp. destruct (existsb is_ref ps) eqn:Er.
  - destruct (has_open (render ps)) eqn:E; cbn [negb].
    + unfold MAX_INTERPOLATION_DEPTH. cbn [interp_loop]. unfold pass.
      rewrite pass_loop_render by done. cbn. rewrite Er. cbn. by rewrite Ho.
    + exfalso. clear Ho. induction HF as [|p ps Hp HF IH]; [done |].
      destruct p as [s|k]; [|by cbn in E]. apply IH; [done |]. clear -E.
      cbn [render piece_text] in E. induction s as [|a s IHs]; [done |].
      apply IHs. apply (orb_false_elim _ _ E).
  - destruct (render_no_ref r ps Er HF) as (H1 & H2 & H3).
    rewrite sep_free_open by done. cbn. by rewrite H2, H3, app_nil_r.
Qed.

(** ** Interpolated dependencies are concrete *)

Definition clean (s : string) : Prop := first_placeholder s = None.

Definition clean_opt (o : option string) : Prop :=
  match o with Some s => clean s | None => True end.

(** No field of the dependency holds a placeholder. *)
Definition clean_dependency (d : RawDependency) : Prop :=
  clean (d_group_id d) /\ clean (d_artifact_id d) /\ clean_opt (d_version d)
  /\ clean_opt (d_scope d) /\ clean_opt (d_classifier d) /\ clean_opt (d_type d)
  /\ Forall (fun x => clean (x_group_id x) /\ clean (x_artifact_id x)) (d_exclusions d).

Definition depmgt_entries (p : RawPom) : list RawDependency :=
  match dependency_management p with Some dm => dm_dependencies dm | None => [] end.

Lemma interp_bind_inv {A B} (m : interp_m A) (k : A -> interp_m B) log b log' :
  (m ≫= k) log = Ok (b, log') ->
  exists a log1, m log = Ok (a, log1) /\ k a log1 = Ok (b, log').
Proof. unfold mbind, interp_mbind. destruct (m log) as [[a log1]|]; [eauto | done]. Qed.

Lemma traverse_Forall {A B} (P : B -> Prop) (f : A -> interp_m B) l log l' log' :
  (forall x lg y lg', f x lg = Ok (y, lg') -> P y) ->
  traverse f l log = Ok (l', log') -> Forall P l'.
Proof.
  intros Hf. revert log l' log'. induction l as [|x l IH]; intros log l' log'; cbn [traverse].
  - intros [= <- _]. constructor.
  - intros (y & lg & Hy & H)%interp_bind_inv. apply interp_bind_inv in H as (ys & lg' & Hys & H).
    injection H as <- _. constructor; eauto.
Qed.

Lemma interp_opt_clean r loc o log o' log' :
  is_strict loc = true -> interp_opt r loc o log = Ok (o', log') -> clean_opt o'.
Proof.
  intros Hs. destruct o as [x|]; cbn [interp_opt traverse_opt].
  - intros (y & lg & Hy & H)%interp_bind_inv. injection H as <- _. by eapply interp_strict_clean.
  - by intros [= <- _].
Qed.

Lemma interp_dependency_clean r d log d' log' :
  interp_dependency r d log = Ok (d', log') -> clean_dependency d'.
Proof.
  unfold interp_dependency. intros H.
  repeat (apply interp_bind_inv in H as (? & ? & ? & H)). injection H as <- _.
  split_and!; cbn;
    try (by eapply interp_strict_clean; [|eassumption]);
    try (by eapply interp_opt_clean; [|eassumption]).
  eapply traverse_Forall; [|eassumption]. intros ex lg ey lg' Hx. unfold interp_exclusion in Hx.
  repeat (apply interp_bind_inv in Hx as (? & ? & ? & Hx)). injection Hx as <- _.
  split; cbn; by eapply interp_strict_clean; [|eassumption].
Qed.

Lemma interpolate_pom_clean p log p' log' :
  interpolate_pom p log = Ok (p', log') ->
  Forall clean_dependency (dependencies p') /\ Forall clean_dependency (depmgt_entries p').
Proof.
  unfold interpolate_pom. intros H.
  repeat (apply interp_bind_inv in H as (? & ? & ? & H)). injection H as <- _.
  unfold depmgt_entries. cbn. split.
  - eapply traverse_Forall; [|eassumption]. intros *. apply interp_dependency_clean.
  - match goal with H : traverse_opt (interp_depmgt _) ?o _ = Ok (?d, _) |- _ =>
      destruct o as [dm|]; cbn [traverse_opt] in H end.
    + match goal with H : mbind _ _ _ = _ |- _ => apply interp_bind_inv in H as (dm' & lg & Hd & He) end.
      injection He as <- _. unfold interp_depmgt in Hd.
      apply interp_bind_inv in Hd as (l & lg' & Hl & Hm). injection Hm as <- _. cbn.
      eapply traverse_Forall; [|exact Hl]. intros *. apply interp_dependency_clean.
    + match goal with H : mret None _ = Ok _ |- _ => injection H as <- _ end. constructor.
Qed.

Lemma build_effective_clean root resolve e :
  build_effective root resolve = Ok e ->
  parent (pom e) = None
  /\ Forall clean_dependency (dependencies (pom e))
  /\ Forall clean_dependency (depmgt_entries (pom e)).
Proof.
  unfold build_effective. intros (chain & _ & H)%bind_ok_inv.
  apply bind_ok_inv in H as ([p log] & Hi & H). injection H as <-. cbn.
  apply interpolate_pom_clean in Hi as [H1 H2]. by split_and!.
Qed.

End Interp.

Lemma interp_template_witness :
  interp (mkResolver (mkContext None "a" None None None None) [("v", "1")]) (PomField "url")
    "x/${v}/${project.artifactId}" []
  = Ok ("x/1/a", [mkInterpolation "${v}" "1" (PomField "url");
                  mkInterpolation "${project.artifactId}" "a" (PomField "url")]).
Proof.
  apply (interp_template (ENV := empty_environment)
    (mkResolver (mkContext None "a" None None None None) [("v", "1")]) (PomField "url")
    [Lit "x/"; Ref "v"; Lit "/"; Ref "project.artifactId"] []).
  - repeat constructor; vm_compute; eauto.
  - reflexivity.
Defined.

(** Literal text outside ASCII does not survive: [pass] copies it byte
    by byte through [char], so the two bytes of [é] in a POM field that also
    holds a placeholder come out as the four bytes of [Ã©]. *)
Theorem interp_mangles_non_ascii :
  let e_acute := String "195" (String "169" "") in
  let mangled := String "195" (String "131" (String "194" (String "169" ""))) in
  interp (ENV := empty_environment) (mkResolver (mkContext None "a" None None None None) [("v", "1")])
    (PomField "name") (e_acute +:+ "${v}") []
  = Ok (mangled +:+ "1", [mkInterpolation "${v}" "1" (PomField "name")]).
Proof. reflexivity. Qed.

(** ** The parent chain *)

(** Each POM is what the resolver gives for the [<parent>] below it, up to a
    POM without one. *)
Fixpoint linked (resolve : ParentResolver) (current : option RawParent) (chain : list RawPom) : Prop :=
  match current, chain with
  | None, [] => True
  | Some p, q :: chain' => resolve p = Ok q /\ linked resolve (parent q) chain'
  | _, _ => False
  end.

(** The coordinates the chain's [<parent>] elements declare. *)
Fixpoint declared (current : option RawParent) (chain : list RawPom) : list Gav :=
  match current, chain with
  | Some p, q :: chain' => parent_gav p :: declared (parent q) chain'
  | _, _ => []
  end.

Lemma collect_loop_spec resolve room seen current acc chain :
  collect_loop resolve room seen current acc = Ok chain <->
  exists rest, chain = acc ++ rest /\ linked resolve current rest /\ length rest <= room
    /\ NoDup (declared current rest) /\ (forall g, g ∈ declared current rest -> g ∉ seen).
Proof.
  revert seen current acc. induction room as [|room IH]; intros seen [p|] acc; cbn.
  - split; [done |]. by intros ([|q rest] & _ & Hl & Hr & _); cbn in *; [|lia].
  - split.
    + intros [= ->]. exists []. cbn. rewrite app_nil_r.
      split_and!; [done | done | lia | constructor | by intros g ?%elem_of_nil].
    + intros ([|] & -> & Hl & _); [by rewrite app_nil_r | done].
  - case_decide as Hin.
    + split; [done |]. intros ([|q rest] & _ & Hl & _ & _ & Hs); [done |]. cbn in Hs.
      exfalso. apply (Hs (parent_gav p)); [left | done].
    + destruct (resolve p) as [q|e] eqn:Er; cbn.
      2: { split; [done |]. intros ([|q rest] & _ & Hl & _); [done |]. cbn in Hl. destruct Hl; congruence. }
      rewrite IH. clear IH. split.
      * intros (rest & -> & Hl & Hlen & Hnd & Hs). exists (q :: rest). cbn. rewrite <- app_assoc.
        split_and!; [done | done | done | lia | |].
        -- apply list.NoDup_cons. split; [|done]. intros Hp. apply (Hs _ Hp). set_solver.
        -- intros g [->|Hg]%elem_of_cons; [done |]. specialize (Hs _ Hg). set_solver.
      * intros ([|q' rest] & -> & Hl & Hlen & Hnd & Hs); [done |]. cbn in *.
        destruct Hl as [Hq Hl]. assert (q' = q) as -> by congruence. apply list.NoDup_cons in Hnd as [Hni Hnd]. exists rest.
        rewrite <- app_assoc. split_and!; [done | done | lia | done |].
        intros g Hg [->%elem_of_singleton|Hg']%elem_of_union; [done |].
        apply (Hs g); [by right | done].
  - split.
    + intros [= ->]. exists []. cbn. rewrite app_nil_r.
      split_and!; [done | done | lia | constructor | by intros g ?%elem_of_nil].
    + intros ([|] & -> & Hl & _); [by rewrite app_nil_r | done].
Qed.

(** C13. [collect_parent_chain] succeeds exactly on the chains the resolver
    links from the POM to a POM without [<parent>], of at most
    [MAX_CHAIN_DEPTH] ancestors, whose coordinates are pairwise distinct and
    distinct from the POM's own: a cycle or a longer chain is always an
    error, and anything else is always accepted. *)
Theorem parent_chain_exact root resolve chain :
  collect_parent_chain root resolve = Ok chain <->
  linked resolve (parent root) chain
  /\ length chain <= MAX_CHAIN_DEPTH
  /\ NoDup (pom_coords root :: declared (parent root) chain).
Proof.
  unfold collect_parent_chain. rewrite collect_loop_spec. cbn [app]. split.
  - intros (rest & -> & Hl & Hlen & Hnd & Hs). split_and!; [done | done |].
    apply list.NoDup_cons. split; [|done]. intros Hin. apply (Hs _ Hin). set_solver.
  - intros (Hl & Hlen & [Hni Hnd]%list.NoDup_cons). exists chain. split_and!; try done.
    intros g Hg ->%elem_of_singleton. done.
Qed.

(** ** Inheritance *)

(** The value of the nearest POM that has one. *)
Fixpoint nearest {A} (f : RawPom -> option A) (poms : list RawPom) : option A :=
  match poms with
  | [] => None
  | p :: poms' => or_else (f p) (nearest f poms')
  end.

Definition wf_properties (p : RawPom) : Prop := NoDup (properties p).*1.

Lemma or_else_assoc {A} (a b c : option A) : or_else (or_else a b) c = or_else a (or_else b c).
Proof. by destruct a. Qed.

Lemma merge_properties_get k m m' :
  NoDup m.*1 -> NoDup m'.*1 ->
  IndexMap.get k (merge_properties m m') = or_else (IndexMap.get k m') (IndexMap.get k m).
Proof.
  intros H H'. unfold merge_properties. rewrite !IndexMap.get_extend, !IndexMap.get_rev by done.
  cbn. by destruct (IndexMap.get k m'), (IndexMap.get k m).
Qed.

Lemma merge_wf p c : wf_properties (merge p c).
Proof. apply IndexMap.extend_nodup, IndexMap.extend_nodup. constructor. Qed.

(** A field that [merge] takes from the child, and from the parent when the
    child has none, is the nearest one of the chain. *)
Lemma merge_chain_nearest {A} (f : RawPom -> option A) chain root :
  (forall p c, wf_properties p -> wf_properties c -> f (merge p c) = or_else (f c) (f p)) ->
  Forall wf_properties (root :: chain) ->
  f (merge_chain chain root) = nearest f (root :: chain).
Proof.
  intros Hf. rewrite list.Forall_cons. intros [Hr HF]. unfold merge_chain.
  destruct (rev chain) as [|top rest] eqn:E.
  { apply (f_equal (@rev _)) in E. rewrite rev_involutive in E. subst chain. cbn.
    by destruct (f root). }
  assert (Hc : chain = rev rest ++ [top]).
  { rewrite <- (rev_involutive chain), E. done. }
  clear E. subst chain. apply list.Forall_app in HF as [HF [Ht _]%list.Forall_cons].
  assert (Hfold : f (fold_left merge rest top) = nearest f (rev rest ++ [top])
                  /\ wf_properties (fold_left merge rest top)).
  { induction rest as [|q rest IH] using rev_ind; cbn.
    - split; [by destruct (f top) | done].
    - rewrite rev_app_distr in HF |- *. cbn in HF |- *. apply list.Forall_cons in HF as [Hq HF].
      destruct (IH HF) as [IH1 IH2]. rewrite fold_left_app. cbn. split; [|apply merge_wf].
      rewrite Hf by done. by rewrite IH1. }
  destruct Hfold as [H1 H2]. rewrite Hf by done. cbn. by rewrite H1.
Qed.

Lemma merge_chain_dependencies chain root :
  dependencies (merge_chain chain root) = List.concat (dependencies <$> rev (root :: chain)).
Proof.
  unfold merge_chain. cbn. rewrite fmap_app, concat_app. cbn. rewrite app_nil_r.
  destruct (rev chain) as [|top rest]; [done |]. cbn. f_equal.
  induction rest as [|q rest IH] using rev_ind; cbn; [by rewrite app_nil_r |].
  rewrite fold_left_app, fmap_app, concat_app, app_assoc. cbn. by rewrite IH, app_nil_r.
Qed.

(** In the merged POM every property, the group id and the version are
    those of the nearest POM of the chain that defines them (the POM itself,
    then its parent, and so on), and the dependencies are those of the whole
    chain, the root ancestor's first. *)
Theorem merge_chain_inherits chain root :
  Forall wf_properties (root :: chain) ->
  (forall k, IndexMap.get k (properties (merge_chain chain root))
             = nearest (fun p => IndexMap.get k (properties p)) (root :: chain))
  /\ group_id (merge_chain chain root) = nearest group_id (root :: chain)
  /\ version (merge_chain chain root) = nearest version (root :: chain)
  /\ dependencies (merge_chain chain root) = List.concat (dependencies <$> rev (root :: chain)).
Proof.
  intros HF. split_and!.
  - intros k. apply (merge_chain_nearest (fun p => IndexMap.get k (properties p))); [|done].
    intros p c Hp Hc. by apply merge_properties_get.
  - by apply merge_chain_nearest.
  - by apply merge_chain_nearest.
  - apply merge_chain_dependencies.
Qed.

Definition sample_pom (a : string) (v : option string) (ps : Properties) : RawPom :=
  mkPom "4.0.0" None None a v "jar" None None None None ps None [] [] None [] [] [].

Lemma merge_chain_inherits_witness :
  IndexMap.get "x" (properties (merge_chain [sample_pom "p" (Some "1") [("x", "1"); ("y", "2")]]
                                  (sample_pom "c" None [("x", "3")]))) = Some "3".
Proof.
  rewrite (proj1 (merge_chain_inherits [sample_pom "p" (Some "1") [("x", "1"); ("y", "2")]]
             (sample_pom "c" None [("x", "3")])
             ltac:(unfold wf_properties; repeat constructor; cbn; set_solver)) "x").
  reflexivity.
Defined.

End Effective.
