(* ===== verification/Profile.v ===== *)
(** * barista-pom: BOM imports, profiles and dependencyManagement

    Models crates/barista-pom/src/profile.rs: the passes after
    [build_effective] and the entry point [resolve_pom].  The file system
    consulted by [<file>] activation is the class [FileSystem]. *)

From stdpp Require Import pretty.
From S2P Require Import Prelude Pom Effective.

(** [Path::exists]. *)
Class FileSystem := path_exists : string -> bool.

(** A file system without files. *)
#[export] Instance empty_file_system : FileSystem | 100 := fun _ => false.

Module Profile.
Import Pom.

Definition MAX_BOM_IMPORT_DEPTH : nat := 16.

Record ActivationContext := mkActivationContext {
  jdk_version : option string;
  os_name : option string;
  os_arch : option string;
  os_family : option string;
  os_version : option string;
  user_properties : gmap string string;
  ctx_active_profile_ids : gset string;
  inactive_profile_ids : gset string;
  basedir : option string
}.

Definition ActivationContext_default : ActivationContext :=
  mkActivationContext None None None None None ∅ ∅ ∅ None.

(** The [detail] of [InvalidActivation], as the case it reports. *)
Inductive ActivationDetail : Type :=
  | JdkRangeTooShort (spec : string)
  | JdkRangeMissingBrackets (spec : string)
  | JdkRangeMissingComma (spec : string).

Inductive ResolveError : Type :=
  | EffectiveErr (e : Effective.EffectiveError)
  | BomImportCycle (coords : string)
  | BomImportTooDeep (max : nat)
  | BomImportResolution (coords reason : string)
  | UnresolvedDepMgtVersion (coords : string)
  | UnresolvedDependencyVersion (coords : string)
  | InvalidActivation (detail : ActivationDetail).

Record ResolvedPom := mkResolved {
  pom : RawPom;
  effective : Effective.EffectivePom;
  active_profile_ids : list string;
  imported_boms : list string
}.

Definition set_dependency_management (p : RawPom) (dm : option DependencyManagement) : RawPom :=
  mkPom (model_version p) (parent p) (group_id p) (artifact_id p) (version p) (packaging p)
    (name p) (description p) (url p) (inception_year p) (properties p) dm (dependencies p)
    (modules p) (build p) (profiles p) (repositories p) (plugin_repositories p).

Definition set_dependencies (p : RawPom) (ds : list RawDependency) : RawPom :=
  mkPom (model_version p) (parent p) (group_id p) (artifact_id p) (version p) (packaging p)
    (name p) (description p) (url p) (inception_year p) (properties p) (dependency_management p)
    ds (modules p) (build p) (profiles p) (repositories p) (plugin_repositories p).

Definition set_profiles (p : RawPom) (l : list RawProfile) : RawPom :=
  mkPom (model_version p) (parent p) (group_id p) (artifact_id p) (version p) (packaging p)
    (name p) (description p) (url p) (inception_year p) (properties p) (dependency_management p)
    (dependencies p) (modules p) (build p) l (repositories p) (plugin_repositories p).

(** ** BOM imports *)

Definition is_bom_import (d : RawDependency) : bool :=
  bool_decide (d_scope d = Some "import") && bool_decide (d_type d = Some "pom").

Section Boms.
Context `{ENV : Environment}.

(** [imported_boms] and [stack], threaded through the recursion. *)
Definition BomState : Type := list string * gset Gav.

(** The body of the [for imp in imports] loop; [expand] is the recursive
    call at the next depth. *)
Definition import_one (resolve : Effective.ParentResolver)
    (expand : RawPom -> BomState -> result ResolveError (RawPom * BomState))
    (imp : RawDependency) (st : BomState)
    : result ResolveError (list RawDependency * BomState) :=
  let '(boms, stack) := st in
  let version := default "" (d_version imp) in
  let key := (d_group_id imp, d_artifact_id imp, version) in
  if is_empty (d_group_id imp) || is_empty (d_artifact_id imp) || is_empty version then
    Err (UnresolvedDepMgtVersion (gav_text key))
  else if decide (key ∈ stack) then Err (BomImportCycle (gav_text key))
  else
    bom_raw ← map_err (BomImportResolution (gav_text key))
                (resolve (mkParent (d_group_id imp) (d_artifact_id imp) version None));
    bom_effective ← map_err EffectiveErr (Effective.build_effective bom_raw resolve);
    '(bom_pom, (boms', stack')) ← expand (Effective.pom bom_effective) (boms, {[key]} ∪ stack);
    let appended := match dependency_management bom_pom with
                    | Some bom_dm => dm_dependencies bom_dm
                    | None => []
                    end in
    Ok (appended, (boms' ++ [gav_text key], stack' ∖ {[key]})).

(** The loop over the import declarations. *)
Fixpoint import_all (resolve : Effective.ParentResolver)
    (expand : RawPom -> BomState -> result ResolveError (RawPom * BomState))
    (imports : list RawDependency) (appended : list RawDependency) (st : BomState)
    : result ResolveError (list RawDependency * BomState) :=
  match imports with
  | [] => Ok (appended, st)
  | imp :: imports' =>
      '(entries, st') ← import_one resolve expand imp st;
      import_all resolve expand imports' (appended ++ entries) st'
  end.

(** [room] is [MAX_BOM_IMPORT_DEPTH + 1 - depth]. *)
Fixpoint expand_bom_imports (resolve : Effective.ParentResolver) (room : nat) (p : RawPom)
    (st : BomState) : result ResolveError (RawPom * BomState) :=
  match room with
  | O => Err (BomImportTooDeep MAX_BOM_IMPORT_DEPTH)
  | S room' =>
      match dependency_management p with
      | None => Ok (p, st)
      | Some dm =>
          let imports := List.filter is_bom_import (dm_dependencies dm) in
          let kept := List.filter (fun d => negb (is_bom_import d)) (dm_dependencies dm) in
          '(appended, st') ← import_all resolve (expand_bom_imports resolve room') imports [] st;
          Ok (set_dependency_management p (Some (mkDepMgt (kept ++ appended))), st')
      end
  end.
End Boms.

(** ** Profile activation *)

Definition jdk_prefix_matches (spec have : string) : bool :=
  String.eqb have spec
  || match str_strip_prefix spec have with
     | Some rest => str_starts "." rest
     | None => false
     end.

Definition version_separator (a : ascii) : bool :=
  Ascii.eqb a "." || Ascii.eqb a "_" || Ascii.eqb a "-".

Fixpoint parse_version_pieces (pieces : list string) : list Z :=
  match pieces with
  | [] => []
  | piece :: pieces' =>
      if is_empty piece then parse_version_pieces pieces'
      else
        let num := str_take_while is_ascii_digit piece in
        if is_empty num then []
        else match parse_uint U64_MAX num with
             | Some n => n :: parse_version_pieces pieces'
             | None => []
             end
  end.

Definition parse_version (s : string) : option (list Z) :=
  if is_empty s then None else Some (parse_version_pieces (str_split_on version_separator s)).

(** The loop [for i in 0..len]: an absent component reads as 0. *)
Fixpoint compare_zeros (b : list Z) : comparison :=
  match b with
  | [] => Eq
  | y :: b' => match (0 ?= y)%Z with Eq => compare_zeros b' | c => c end
  end.

Fixpoint compare_components (a b : list Z) : comparison :=
  match a, b with
  | [], b => compare_zeros b
  | x :: a', [] => match (x ?= 0)%Z with Eq => compare_components a' [] | c => c end
  | x :: a', y :: b' => match (x ?= y)%Z with Eq => compare_components a' b' | c => c end
  end.

Definition compare_versions (a : option (list Z)) (b : list Z) : comparison :=
  compare_components (default [] a) b.

Definition is_lt (c : comparison) : bool := match c with Lt => true | _ => false end.
Definition is_gt (c : comparison) : bool := match c with Gt => true | _ => false end.

Definition last_byte (s : string) : option ascii := list.last (list_ascii_of_string s).
Definition byte_is (o : option ascii) (c : ascii) : bool :=
  match o with Some a => Ascii.eqb a c | None => false end.

Definition jdk_range_matches (spec have : string) : result ResolveError bool :=
  if String.length spec <? 3 then Err (InvalidActivation (JdkRangeTooShort spec))
  else
    let first := list.head (list_ascii_of_string spec) in
    let final := last_byte spec in
    let lo_inclusive := byte_is first "[" in
    let hi_inclusive := byte_is final "]" in
    if negb (byte_is first "[" || byte_is first "(") || negb (byte_is final "]" || byte_is final ")")
    then Err (InvalidActivation (JdkRangeMissingBrackets spec))
    else
      let inner := slice spec 1 (String.length spec - 1) in
      '(lo_s, hi_s) ← ok_or (str_split_once "," inner) (InvalidActivation (JdkRangeMissingComma spec));
      let v := parse_version have in
      let lo_fails := match parse_version (trim lo_s) with
                      | Some lo => let cmp := compare_versions v lo in
                                   (lo_inclusive && is_lt cmp) || (negb lo_inclusive && negb (is_gt cmp))
                      | None => false
                      end in
      let hi_fails := match parse_version (trim hi_s) with
                      | Some hi => let cmp := compare_versions v hi in
                                   (hi_inclusive && is_gt cmp) || (negb hi_inclusive && negb (is_lt cmp))
                      | None => false
                      end in
      Ok (negb lo_fails && negb hi_fails).

Definition jdk_matches (spec have : string) : result ResolveError bool :=
  let spec := trim spec in
  if is_empty spec then Ok true
  else match str_strip_prefix "!" spec with
       | Some rest => Ok (negb (jdk_prefix_matches (trim rest) have))
       | None =>
           if str_starts "[" spec || str_starts "(" spec then jdk_range_matches spec have
           else Ok (jdk_prefix_matches spec have)
       end.

(** [child_text] and [check] of [os_matches]. *)
Definition child_text (v : XmlValue) (name : string) : option string :=
  match IndexMap.get name (xml_children v) with
  | Some (c :: _) => xml_text c
  | _ => None
  end.

Definition os_check (spec have : option string) : bool :=
  match spec with
  | None => true
  | Some spec =>
      let '(negate, raw) := match str_strip_prefix "!" spec with
                            | Some rest => (true, trim rest)
                            | None => (false, trim spec)
                            end in
      let matches := match have with Some h => eq_ignore_ascii_case h raw | None => false end in
      if negate then negb matches else matches
  end.

Definition os_matches (os : XmlValue) (ctx : ActivationContext) : bool :=
  os_check (child_text os "name") (os_name ctx)
  && os_check (child_text os "family") (os_family ctx)
  && os_check (child_text os "arch") (os_arch ctx)
  && os_check (child_text os "version") (os_version ctx).

Definition property_matches (name expected_value : option string) (ctx : ActivationContext) : bool :=
  match name with
  | None => false
  | Some name =>
      let '(negate, key) := match str_strip_prefix "!" name with
                            | Some rest => (true, trim rest)
                            | None => (false, trim name)
                            end in
      let matches := match user_properties ctx !! key, expected_value with
                     | Some a, Some want => String.eqb a want
                     | Some _, None => true
                     | None, _ => false
                     end in
      if negate then negb matches else matches
  end.

(** [Path::join] on Unix. *)
Definition join (base path : string) : string :=
  if str_starts "/" path then path
  else match last_byte base with
       | None => path
       | Some a => if Ascii.eqb a "/" then base +:+ path else base +:+ "/" +:+ path
       end.

Section Activation.
Context `{FS : FileSystem}.

Definition file_matches (exists_ missing : option string) (ctx : ActivationContext) : bool :=
  match basedir ctx with
  | None => false
  | Some base =>
      match exists_ with Some path => path_exists (join base path) | None => true end
      && match missing with Some path => negb (path_exists (join base path)) | None => true end
  end.

Inductive ActivationOutcome : Type := Active | Inactive | DefaultCandidate | Unconfigured.

Definition evaluate_activation (profile : RawProfile) (ctx : ActivationContext)
    : result ResolveError ActivationOutcome :=
  match pr_activation profile with
  | None => Ok Unconfigured
  | Some act =>
      let active_by_default := bool_decide (a_active_by_default act = Some "true") in
      match a_jdk act, a_os act, a_property act, a_file act with
      | None, None, None, None => Ok (if active_by_default then DefaultCandidate else Unconfigured)
      | jdk, os, property, file =>
          jdk_ok ← match jdk with
                   | None => Ok true
                   | Some spec => match jdk_version ctx with
                                  | None => Ok false
                                  | Some have => jdk_matches spec have
                                  end
                   end;
          let os_ok := match os with None => true | Some o => os_matches o ctx end in
          let property_ok := match property with
                             | None => true
                             | Some p => property_matches (ap_name p) (ap_value p) ctx
                             end in
          let file_ok := match file with
                         | None => true
                         | Some f => file_matches (af_exists f) (af_missing f) ctx
                         end in
          Ok (if jdk_ok && os_ok && property_ok && file_ok then Active else Inactive)
      end
  end.

(** ** Splicing *)

Definition push_module (ms : list string) (m : string) : list string :=
  if decide (m ∈ ms) then ms else ms ++ [m].

(** [dedup_repositories] has the body of [merge_repositories]. *)
Definition dedup_repositories (existing incoming : list RawRepository) : list RawRepository :=
  let '(out, seen) := Effective.keep_parent_repos (Effective.repo_ids incoming) existing [] ∅ in
  Effective.push_child_repos incoming out seen.

Definition splice_plugin_management (target : option RawPluginManagement)
    (pm : option RawPluginManagement) : option RawPluginManagement :=
  match pm, target with
  | None, _ => target
  | Some pm, Some existing => Some (mkPluginMgt (pm_plugins existing ++ pm_plugins pm))
  | Some pm, None => Some pm
  end.

(** [winset!]: the profile's value when it has one. *)
Definition winset (profile target : option string) : option string :=
  Effective.or_else profile target.

Definition splice_build (target : option RawBuild) (build : option RawBuild) : option RawBuild :=
  match build with
  | None => target
  | Some b =>
      let t := default RawBuild_default target in
      Some (mkBuild
              (winset (b_source_directory b) (b_source_directory t))
              (winset (b_script_source_directory b) (b_script_source_directory t))
              (winset (b_test_source_directory b) (b_test_source_directory t))
              (winset (b_output_directory b) (b_output_directory t))
              (winset (b_test_output_directory b) (b_test_output_directory t))
              (winset (b_final_name b) (b_final_name t))
              (winset (b_default_goal b) (b_default_goal t))
              (winset (b_directory b) (b_directory t))
              (b_filters t ++ b_filters b)
              (b_resources t ++ b_resources b)
              (b_test_resources t ++ b_test_resources b)
              (b_plugins t ++ b_plugins b)
              (splice_plugin_management (b_plugin_management t) (b_plugin_management b)))
  end.

Definition splice_profile (p : RawPom) (profile : RawProfile) : RawPom :=
  mkPom (model_version p) (parent p) (group_id p) (artifact_id p) (version p) (packaging p)
    (name p) (description p) (url p) (inception_year p)
    (IndexMap.extend (properties p) (pr_properties profile))
    (match pr_dependency_management profile, dependency_management p with
     | None, existing => existing
     | Some dm, Some existing => Some (mkDepMgt (dm_dependencies existing ++ dm_dependencies dm))
     | Some dm, None => Some dm
     end)
    (dependencies p ++ pr_dependencies profile)
    (fold_left push_module (pr_modules profile) (modules p))
    (splice_build (build p) (pr_build profile))
    (profiles p)
    (dedup_repositories (repositories p) (pr_repositories profile))
    (dedup_repositories (plugin_repositories p) (pr_plugin_repositories profile)).

(** The first loop of [apply_profiles]: the status of each profile, with
    default candidates still open. *)
Definition classify (ctx : ActivationContext) (p : RawProfile)
    : result ResolveError ActivationOutcome :=
  let id := default "" (pr_id p) in
  if negb (is_empty id) && bool_decide (id ∈ inactive_profile_ids ctx) then Ok Inactive
  else if negb (is_empty id) && bool_decide (id ∈ ctx_active_profile_ids ctx) then Ok Active
  else outcome ← evaluate_activation p ctx;
       Ok (match outcome with Unconfigured => Inactive | o => o end).

Fixpoint classify_all (ctx : ActivationContext) (ps : list RawProfile)
    : result ResolveError (list ActivationOutcome) :=
  match ps with
  | [] => Ok []
  | p :: ps' => s ← classify ctx p; ss ← classify_all ctx ps'; Ok (s :: ss)
  end.

Definition is_active (s : ActivationOutcome) : bool := match s with Active => true | _ => false end.

(** A default candidate is active iff no profile is active otherwise. *)
Definition settle (any_explicit_active : bool) (s : ActivationOutcome) : bool :=
  match s with
  | Active => true
  | DefaultCandidate => negb any_explicit_active
  | Inactive | Unconfigured => false
  end.

Fixpoint splice_all (i : nat) (ps : list (RawProfile * bool)) (p : RawPom)
    (active_ids : list string) (inactive : list RawProfile) : RawPom * list string :=
  match ps with
  | [] => (set_profiles p inactive, active_ids)
  | (pr, true) :: ps' =>
      let id := default ("<profile-" +:+ pretty i +:+ ">") (pr_id pr) in
      splice_all (S i) ps' (splice_profile p pr) (active_ids ++ [id]) inactive
  | (pr, false) :: ps' => splice_all (S i) ps' p active_ids (inactive ++ [pr])
  end.

Definition apply_profiles (p : RawPom) (ctx : ActivationContext)
    : result ResolveError (RawPom * list string) :=
  let ps := profiles p in
  statuses ← classify_all ctx ps;
  let any_explicit_active := existsb is_active statuses in
  Ok (splice_all 0 (combine ps (map (settle any_explicit_active) statuses)) p [] []).

End Activation.

(** ** dependencyManagement *)

(** [DepKey]: group, artifact, type (default [jar]) and classifier (default
    empty). *)
Definition DepKey : Type := string * string * string * string.

Definition DepKey_of (d : RawDependency) : DepKey :=
  (d_group_id d, d_artifact_id d, default "jar" (d_type d), default "" (d_classifier d)).

Definition build_dm_index (p : RawPom) : imap DepKey RawDependency :=
  match dependency_management p with
  | None => []
  | Some dm =>
      fold_left (fun out d => if is_bom_import d then out
                              else IndexMap.or_insert (DepKey_of d) d out)
        (dm_dependencies dm) []
  end.

Definition build_index_from (deps : list RawDependency) : imap DepKey RawDependency :=
  fold_left (fun out d => if is_bom_import d then out
                          else match d_version d with
                               | Some _ => IndexMap.or_insert (DepKey_of d) d out
                               | None => out
                               end)
    deps [].

(** The three fields a managed entry fills in when absent. *)
Definition inherit_from (d other : RawDependency) : RawDependency :=
  mkDependency (d_group_id d) (d_artifact_id d)
    (Effective.or_else (d_version d) (d_version other))
    (Effective.or_else (d_scope d) (d_scope other))
    (d_classifier d) (d_type d) (d_system_path d) (d_optional d)
    (match d_exclusions d with [] => d_exclusions other | xs => xs end).

(** The body of the first loop: an entry of the management section without
    version borrows from the first versioned entry with its key. *)
Definition promote (by_key : imap DepKey RawDependency) (d : RawDependency) : RawDependency :=
  match d_version d with
  | Some _ => d
  | None =>
      if is_bom_import d then d
      else match IndexMap.get (DepKey_of d) by_key with
           | Some other => inherit_from d other
           | None => d
           end
  end.

Fixpoint apply_to_dependencies (dm_index : imap DepKey RawDependency) (ds : list RawDependency)
    : result ResolveError (list RawDependency) :=
  match ds with
  | [] => Ok []
  | d :: ds' =>
      d' ← (if bool_decide (d_scope d = Some "system") then Ok d
            else
              let d1 := match IndexMap.get (DepKey_of d) dm_index with
                        | Some default => inherit_from d default
                        | None => d
                        end in
              match d_version d1 with
              | Some _ => Ok d1
              | None => Err (UnresolvedDependencyVersion (d_group_id d +:+ ":" +:+ d_artifact_id d))
              end);
      rest ← apply_to_dependencies dm_index ds';
      Ok (d' :: rest)
  end.

(** The first loop of [apply_dependency_management]. *)
Definition promote_managed_entries (p : RawPom) : RawPom :=
  match dependency_management p with
  | None => p
  | Some dm =>
      let by_key := build_index_from (dm_dependencies dm) in
      set_dependency_management p (Some (mkDepMgt (map (promote by_key) (dm_dependencies dm))))
  end.

Definition apply_dependency_management (p : RawPom) : result ResolveError RawPom :=
  let p1 := promote_managed_entries p in
  ds ← apply_to_dependencies (build_dm_index p1) (dependencies p1);
  Ok (set_dependencies p1 ds).

(** ** The pipeline *)

Definition resolve_pom `{ENV : Environment} `{FS : FileSystem} (root : RawPom)
    (resolve : Effective.ParentResolver) (ctx : ActivationContext) : result ResolveError ResolvedPom :=
  effective ← map_err EffectiveErr (Effective.build_effective root resolve);
  '(p1, (boms, _)) ← expand_bom_imports resolve (S MAX_BOM_IMPORT_DEPTH)
                       (Effective.pom effective) ([], ∅);
  '(p2, ids) ← apply_profiles p1 ctx;
  p3 ← match boms, ids with
       | [], [] => Ok p2
       | _, _ => Effective.pom <$> map_err EffectiveErr (Effective.build_effective p2 resolve)
       end;
  p4 ← apply_dependency_management p3;
  Ok (mkResolved p4 effective ids boms).

(** ** What dependencyManagement decides *)

(** The version managed for a key: that of the first entry with the key that
    is not an import and has a version. *)
Fixpoint managed_version (l : list RawDependency) (k : DepKey) : option string :=
  match l with
  | [] => None
  | d :: l' =>
      if negb (is_bom_import d) && bool_decide (DepKey_of d = k)
      then Effective.or_else (d_version d) (managed_version l' k)
      else managed_version l' k
  end.

(** The first entry with a key among those that satisfy [P]. *)
Definition find_entry (P : RawDependency -> bool) (k : DepKey) (l : list RawDependency)
    : option RawDependency :=
  List.find (fun d => P d && bool_decide (DepKey_of d = k)) l.

(** The index of the entries that satisfy [P], the first of each key. *)
Definition index_by (P : RawDependency -> bool) (l : list RawDependency)
    (acc : imap DepKey RawDependency) : imap DepKey RawDependency :=
  fold_left (fun out d => if P d then IndexMap.or_insert (DepKey_of d) d out else out) l acc.

Lemma index_by_get P k l acc :
  IndexMap.get k (index_by P l acc)
  = Effective.or_else (IndexMap.get k acc) (find_entry P k l).
Proof.
  revert acc. induction l as [|d l IH]; intros acc; cbn; [by destruct (IndexMap.get k acc) |].
  unfold index_by in IH. rewrite IH. destruct (P d); cbn; [|done]. rewrite IndexMap.get_or_insert.
  destruct (IndexMap.get k acc); [done |]. case_decide as E.
  - rewrite bool_decide_eq_true_2; done.
  - rewrite bool_decide_eq_false_2; [done | congruence].
Qed.

Definition managed (d : RawDependency) : bool := negb (is_bom_import d).
Definition managed_versioned (d : RawDependency) : bool :=
  managed d && match d_version d with Some _ => true | None => false end.

Lemma build_index_from_get k l :
  IndexMap.get k (build_index_from l) = find_entry managed_versioned k l.
Proof.
  transitivity (IndexMap.get k (index_by managed_versioned l [])); [|by rewrite index_by_get].
  unfold build_index_from, index_by. f_equal.
  generalize (@nil (DepKey * RawDependency)) as acc.
  induction l as [|d l IH]; intros acc; cbn; [done |]. rewrite IH. f_equal.
  unfold managed_versioned, managed. destruct (is_bom_import d); [done |]. by destruct (d_version d).
Qed.

Lemma build_dm_index_get k p :
  IndexMap.get k (build_dm_index p) = find_entry managed k (Effective.depmgt_entries p).
Proof.
  unfold build_dm_index, Effective.depmgt_entries.
  destruct (dependency_management p) as [dm|]; [|done].
  transitivity (IndexMap.get k (index_by managed (dm_dependencies dm) [])); [|by rewrite index_by_get].
  unfold index_by. f_equal.
  generalize (@nil (DepKey * RawDependency)) as acc.
  induction (dm_dependencies dm) as [|d l IH]; intros acc; cbn; [done |]. rewrite IH. f_equal.
  unfold managed. by destruct (is_bom_import d).
Qed.

Lemma find_versioned k l :
  find_entry managed_versioned k l ≫= d_version = managed_version l k.
Proof.
  unfold find_entry. induction l as [|d l IH]; cbn; [done |].
  unfold managed_versioned at 1, managed. destruct (is_bom_import d); cbn; [done |].
  case_bool_decide; cbn.
  - destruct (d_version d) as [v|] eqn:E; cbn; [done |]. exact IH.
  - rewrite andb_false_r. exact IH.
Qed.

Lemma find_entry_some P k l d :
  find_entry P k l = Some d -> d ∈ l /\ P d = true /\ DepKey_of d = k.
Proof.
  intros [H1 H2]%List.find_some. apply andb_true_iff in H2 as [H2 H3].
  apply bool_decide_eq_true in H3. split_and!; [by apply list_elem_of_In | done | done].
Qed.

Lemma promote_key l d : DepKey_of (promote (build_index_from l) d) = DepKey_of d.
Proof.
  unfold promote. destruct (d_version d); [done |]. destruct (is_bom_import d); [done |].
  by destruct (IndexMap.get _ _).
Qed.

Lemma promote_managed l d : managed (promote (build_index_from l) d) = managed d.
Proof.
  unfold promote. destruct (d_version d); [done |].
  destruct (is_bom_import d) eqn:Ei; [done |].
  destruct (IndexMap.get _ _) as [o|] eqn:E; [|done].
  rewrite build_index_from_get in E. apply find_entry_some in E as (_ & Ho & Hk).
  unfold managed_versioned, managed in Ho. apply andb_true_iff in Ho as [Ho _].
  unfold managed. rewrite Ei. unfold is_bom_import in *. cbn.
  destruct (d_scope d); cbn; [by rewrite Ei|]. injection Hk as _ _ Ht _.
  apply negb_true_iff in Ho. destruct (bool_decide (d_scope o = _)) eqn:Es; cbn in *; [|done].
  rewrite bool_decide_eq_false in Ho. apply negb_true_iff, bool_decide_eq_false.
  intros Hd. apply Ho. rewrite Hd in Ht. cbn in Ht. destruct (d_type o); cbn in Ht; congruence.
Qed.

Lemma find_promoted l0 k l :
  find_entry managed k (map (promote (build_index_from l0)) l)
  = promote (build_index_from l0) <$> find_entry managed k l.
Proof.
  unfold find_entry. induction l as [|d l IH]; cbn; [done |].
  rewrite promote_managed, promote_key. by destruct (_ && _).
Qed.

Lemma promoted_version l k :
  find_entry managed k (map (promote (build_index_from l)) l) ≫= d_version = managed_version l k.
Proof.
  rewrite find_promoted. destruct (find_entry managed k l) as [d|] eqn:E; cbn.
  - pose proof E as (Hin & Hm & Hk)%find_entry_some. unfold promote.
    assert (Hv : forall v, d_version d = Some v -> managed_version l k = Some v).
    { intros v Hv. clear Hin. unfold find_entry in E. induction l as [|d' l IH]; cbn in *; [done |].
      unfold managed at 1 in E. destruct (negb (is_bom_import d') && _); [|by apply IH].
      injection E as ->. by rewrite Hv. }
    destruct (d_version d) as [v|] eqn:Ev; [by rewrite Ev, (Hv v)|].
    unfold managed in Hm. apply negb_true_iff in Hm. rewrite Hm, build_index_from_get, Hk.
    rewrite <- find_versioned. destruct (find_entry managed_versioned k l) as [o|]; cbn; by rewrite Ev.
  - unfold find_entry in E. induction l as [|d l IH]; cbn in *; [done |].
    unfold managed at 1 in E. destruct (negb (is_bom_import d) && _); [done |]. by apply IH.
Qed.

Definition effective_version (p : RawPom) (d : RawDependency) : option string :=
  if bool_decide (d_scope d = Some "system") then d_version d
  else Effective.or_else (d_version d)
         (managed_version (Effective.depmgt_entries p) (DepKey_of d)).

(** What [apply_to_dependencies] does to one dependency. *)
Definition filled (idx : imap DepKey RawDependency) (d d' : RawDependency) : Prop :=
  (d_scope d = Some "system" /\ d' = d)
  \/ (d_scope d <> Some "system" /\ is_Some (d_version d')
      /\ d' = match IndexMap.get (DepKey_of d) idx with Some e => inherit_from d e | None => d end).

Lemma apply_to_dependencies_Forall2 idx ds ds' :
  apply_to_dependencies idx ds = Ok ds' -> Forall2 (filled idx) ds ds'.
Proof.
  revert ds'. induction ds as [|d ds IH]; intros ds'; cbn [apply_to_dependencies].
  - intros [= <-]. constructor.
  - intros (d' & Hd & H)%bind_ok_inv. apply bind_ok_inv in H as (rest & Hr & [= <-]).
    constructor; [|by apply IH]. case_bool_decide as Es; [left; naive_solver |].
    right. destruct (IndexMap.get (DepKey_of d) idx) as [e|];
      (destruct (d_version _) eqn:Ev in Hd; [|done]); injection Hd as <-; eauto.
Qed.

Lemma apply_to_dependencies_total idx ds :
  Forall (fun d => d_scope d = Some "system"
    \/ is_Some (Effective.or_else (d_version d) (IndexMap.get (DepKey_of d) idx ≫= d_version))) ds <->
  exists ds', apply_to_dependencies idx ds = Ok ds'.
Proof.
  induction ds as [|d ds IH]; cbn [apply_to_dependencies]; [split; [eauto | constructor] |].
  rewrite list.Forall_cons, IH. clear IH. case_bool_decide as Es.
  - split; [intros [_ [ds' ->]]; cbn; eauto |]. intros [l H]. split; [by left |].
    cbn in H. destruct (apply_to_dependencies idx ds); [eauto | done].
  - destruct (IndexMap.get (DepKey_of d) idx) as [e|]; cbn;
      destruct (Effective.or_else _ _) as [v|] eqn:Ev.
    all: try rewrite Ev; try (destruct (d_version d); [|try done]).
    all: destruct (apply_to_dependencies idx ds) as [ds'|]; cbn; naive_solver.
Qed.

Lemma promoted_index k p :
  IndexMap.get k (build_dm_index (promote_managed_entries p)) ≫= d_version
  = managed_version (Effective.depmgt_entries p) k.
Proof.
  rewrite build_dm_index_get. unfold promote_managed_entries, Effective.depmgt_entries.
  destruct (dependency_management p) as [dm|] eqn:E; cbn; [|by rewrite E].
  apply promoted_version.
Qed.

(** [apply_dependency_management] succeeds exactly when every dependency
    that is not system-scoped has a version of its own or a managed one; and
    then it keeps the dependencies and their identity, never overrides a
    declared version, and gives an undeclared one the version managed for its
    (group, artifact, type, classifier). *)
Theorem depmgt_exact p :
  ((exists p', apply_dependency_management p = Ok p') <->
   Forall (fun d => d_scope d = Some "system" \/ is_Some (effective_version p d)) (dependencies p))
  /\ forall p', apply_dependency_management p = Ok p' ->
     Forall2 (fun d d' => DepKey_of d' = DepKey_of d /\ d_optional d' = d_optional d
                          /\ d_version d' = effective_version p d)
       (dependencies p) (dependencies p').
Proof.
  unfold apply_dependency_management. cbn zeta. set (p1 := promote_managed_entries p).
  assert (Hidx : forall k, IndexMap.get k (build_dm_index p1) ≫= d_version
                 = managed_version (Effective.depmgt_entries p) k) by (intros k; apply promoted_index).
  assert (Hds : dependencies p1 = dependencies p)
    by (unfold p1, promote_managed_entries; by destruct (dependency_management p)).
  rewrite Hds. split.
  - transitivity (exists ds', apply_to_dependencies (build_dm_index p1) (dependencies p) = Ok ds').
    { destruct (apply_to_dependencies _ _); cbn; naive_solver. }
    rewrite <- apply_to_dependencies_total. unfold effective_version.
    split; intros H; (eapply Forall_impl; [|exact H]); intros d Hd; cbn in *; rewrite Hidx in *;
      case_bool_decide; naive_solver.
  - intros p' (ds & Hd & [= <-])%bind_ok_inv. cbn. apply apply_to_dependencies_Forall2 in Hd.
    eapply Forall2_impl; [|exact Hd]. unfold effective_version.
    intros d d' [[Hs ->]|(Hs & _ & ->)].
    + by rewrite bool_decide_eq_true_2.
    + rewrite bool_decide_eq_false_2 by done. rewrite <- Hidx.
      destruct (IndexMap.get _ _); cbn; [done |]. by destruct (d_version d).
Qed.

Lemma managed_version_app l1 l2 k :
  managed_version (l1 ++ l2) k = Effective.or_else (managed_version l1 k) (managed_version l2 k).
Proof.
  induction l1 as [|d l1 IH]; cbn; [done |].
  destruct (_ && _); [|done]. rewrite IH. by destruct (d_version d).
Qed.

Definition managed_dep (g a : string) (v : option string) : RawDependency :=
  mkDependency g a v None None None None None [].

(** A parent that manages [g:lib] at 1 and a child that manages it at 2 and
    uses it without version. *)
Definition managing_parent : RawPom :=
  mkPom "4.0.0" None (Some "g") "parent" (Some "1") "pom" None None None None []
    (Some (mkDepMgt [managed_dep "g" "lib" (Some "1")])) [] [] None [] [] [].

Definition managing_child : RawPom :=
  mkPom "4.0.0" (Some (mkParent "g" "parent" "1" None)) None "child" None "jar" None None None None []
    (Some (mkDepMgt [managed_dep "g" "lib" (Some "2")])) [managed_dep "g" "lib" None] [] None [] [] [].

(** The ancestor's management wins over the child's: the merged section
    lists the parent's entries first and the first entry of a key decides, so
    a child cannot override a version its parent manages (the comment in
    [merge] promises that the child wins). *)
Theorem depmgt_parent_wins :
  (forall par child k,
     managed_version (Effective.depmgt_entries (Effective.merge par child)) k
     = Effective.or_else (managed_version (Effective.depmgt_entries par) k)
         (managed_version (Effective.depmgt_entries child) k))
  /\ (fun r => d_version <$> dependencies (pom r))
       <$> resolve_pom managing_child (fun _ => Ok managing_parent) ActivationContext_default
     = Ok [Some "1"].
Proof.
  split; [|vm_compute; reflexivity]. intros par child k.
  unfold Effective.merge, Effective.depmgt_entries. cbn.
  destruct (dependency_management par) as [p|], (dependency_management child) as [c|]; cbn; try done.
  - apply managed_version_app.
  - by destruct (managed_version _ k).
Qed.

(** ** BOM imports *)

Section BomProofs.
Context `{ENV : Environment}.

Abbreviation entries := Effective.depmgt_entries.
Abbreviation clean_deps := (Forall Effective.clean_dependency).

Definition not_import (d : RawDependency) : Prop := is_bom_import d = false.

(** What an expansion of [p] into [p'] promises, the state going from [st] to
    [st']. *)
Definition expanded (p p' : RawPom) (st st' : BomState) : Prop :=
  st'.2 = st.2
  /\ (exists boms, st'.1 = st.1 ++ boms)
  /\ (exists appended,
        entries p' = List.filter (fun d => negb (is_bom_import d)) (entries p) ++ appended
        /\ Forall not_import appended
        /\ (clean_deps (entries p) -> clean_deps appended))
  /\ dependencies p' = dependencies p /\ parent p' = parent p.

Lemma kept_not_import l : Forall not_import (List.filter (fun d => negb (is_bom_import d)) l).
Proof.
  apply List.Forall_forall. intros d [_ H]%List.filter_In. by apply negb_true_iff in H.
Qed.

Lemma filter_clean f l : clean_deps l -> clean_deps (List.filter f l).
Proof.
  rewrite !List.Forall_forall. intros H d [Hd _]%List.filter_In. by apply H.
Qed.

Lemma import_one_spec resolve expand imp st l st' :
  (forall p s p' s', expand p s = Ok (p', s') -> expanded p p' s s') ->
  import_one resolve expand imp st = Ok (l, st') ->
  st'.2 = st.2 /\ (exists boms, st'.1 = st.1 ++ boms) /\ Forall not_import l /\ clean_deps l.
Proof.
  intros Hexp. destruct st as [boms stack]. unfold import_one.
  destruct (_ || _); [done |]. case_decide as Hk; [done |].
  intros (bom & _ & H)%bind_ok_inv. apply bind_ok_inv in H as (be & Hbe & H).
  destruct (Effective.build_effective bom resolve) as [be'|] eqn:Eb; [|done]. injection Hbe as <-.
  apply bind_ok_inv in H as ([bp [boms' stack']] & He & H). injection H as <- <-.
  apply Hexp in He as (Hs & [ext Hb] & (app & Happ & Hni & Hcl) & _). cbn in *.
  apply Effective.build_effective_clean in Eb as (_ & _ & Hc).
  change (match dependency_management bp with Some d => dm_dependencies d | None => [] end)
    with (entries bp). rewrite Happ. split_and!.
  - subst stack'. apply leibniz_equiv. set_solver.
  - exists (ext ++ [gav_text (d_group_id imp, d_artifact_id imp, default "" (d_version imp))]).
    by rewrite Hb, <- app_assoc.
  - apply list.Forall_app. split; [apply kept_not_import | done].
  - apply list.Forall_app. split; [by apply filter_clean | auto].
Qed.

Lemma import_all_spec resolve expand imports acc st l st' :
  (forall p s p' s', expand p s = Ok (p', s') -> expanded p p' s s') ->
  Forall not_import acc -> clean_deps acc ->
  import_all resolve expand imports acc st = Ok (l, st') ->
  st'.2 = st.2 /\ (exists boms, st'.1 = st.1 ++ boms) /\ Forall not_import l /\ clean_deps l.
Proof.
  intros Hexp. revert acc st. induction imports as [|imp imports IH]; intros acc st Ha Hc; cbn.
  - intros [= <- <-]. split_and!; try done. exists []. by rewrite app_nil_r.
  - intros ([e st1] & H1 & H)%bind_ok_inv.
    apply import_one_spec in H1 as (Hs & [b1 Hb1] & Hn & Hcl); [|done].
    apply IH in H as (Hs2 & [b2 Hb2] & Hn2 & Hcl2);
      [|apply list.Forall_app; by split | apply list.Forall_app; by split].
    split_and!; try done; [congruence |]. exists (b1 ++ b2). by rewrite Hb2, Hb1, app_assoc.
Qed.

Lemma expand_spec resolve room p st p' st' :
  expand_bom_imports resolve room p st = Ok (p', st') -> expanded p p' st st'.
Proof.
  revert p st p' st'. induction room as [|room IH]; intros p st p' st'; cbn [expand_bom_imports]; [done |].
  unfold expanded, Effective.depmgt_entries. destruct (dependency_management p) as [dm|] eqn:E.
  - intros ([app st1] & H & [= <- <-])%bind_ok_inv.
    apply import_all_spec in H as (Hs & Hb & Hn & Hc); [|done | constructor | constructor].
    cbn. split_and!; try done. exists app. by split_and!.
  - intros [= <- <-]. rewrite E. split_and!; try done; [exists []; by rewrite app_nil_r |].
    exists []. split_and!; [done | constructor | constructor].
Qed.

(** A successful BOM expansion leaves no import declaration in the
    management section, keeps the POM's own entries first and in order (so
    they win over imported ones), and returns the import stack as it found
    it. *)
Theorem bom_expansion_closed resolve p boms stack p' boms' stack' :
  expand_bom_imports resolve (S MAX_BOM_IMPORT_DEPTH) p (boms, stack) = Ok (p', (boms', stack')) ->
  Forall (fun d => is_bom_import d = false) (entries p')
  /\ stack' = stack
  /\ exists imported,
       entries p' = List.filter (fun d => negb (is_bom_import d)) (entries p) ++ imported
       /\ forall k, managed_version (entries p') k
            = Effective.or_else (managed_version (entries p) k) (managed_version imported k).
Proof.
  intros (Hs & _ & (app & He & Hn & _) & _)%expand_spec. cbn in Hs. split_and!; [|done |].
  - rewrite He. apply list.Forall_app. split; [apply kept_not_import | done].
  - exists app. split; [done |]. intros k. rewrite He, managed_version_app. f_equal. clear.
    induction (entries p) as [|d l IH]; cbn; [done |].
    destruct (is_bom_import d) eqn:E; cbn; [done |]. rewrite E. cbn. by rewrite IH.
Qed.

(** ** The pipeline's result *)

Lemma inherit_from_clean d e :
  Effective.clean_dependency d -> Effective.clean_dependency e ->
  Effective.clean_dependency (inherit_from d e).
Proof.
  unfold Effective.clean_dependency. intros (? & ? & ? & ? & ? & ? & ?) (? & ? & ? & ? & ? & ? & ?).
  cbn. destruct (d_version d), (d_scope d), (d_exclusions d); by split_and!.
Qed.

Lemma find_entry_clean P k l d :
  clean_deps l -> find_entry P k l = Some d -> Effective.clean_dependency d.
Proof.
  intros HF (Hin & _)%find_entry_some. rewrite list.Forall_forall in HF. by apply HF.
Qed.

Lemma promote_clean l d :
  clean_deps l -> Effective.clean_dependency d ->
  Effective.clean_dependency (promote (build_index_from l) d).
Proof.
  intros Hl Hd. unfold promote. destruct (d_version d); [done |]. destruct (is_bom_import d); [done |].
  rewrite build_index_from_get. destruct (find_entry _ _ _) as [e|] eqn:E; [|done].
  apply inherit_from_clean; [done |]. by eapply find_entry_clean.
Qed.

Lemma promote_entries_clean p : clean_deps (entries p) -> clean_deps (entries (promote_managed_entries p)).
Proof.
  unfold promote_managed_entries, Effective.depmgt_entries.
  destruct (dependency_management p) as [dm|] eqn:E; [|by rewrite E]. cbn. intros H.
  apply Forall_map. eapply Forall_impl; [|exact H]. intros d Hd. by apply promote_clean.
Qed.

Definition has_version (d : RawDependency) : Prop :=
  d_scope d = Some "system" \/ is_Some (d_version d).

Lemma apply_depmgt_clean p p' :
  clean_deps (dependencies p) -> clean_deps (entries p) ->
  apply_dependency_management p = Ok p' ->
  parent p' = parent p
  /\ Forall (fun d => Effective.clean_dependency d /\ has_version d) (dependencies p').
Proof.
  intros Hd He. unfold apply_dependency_management. intros (ds & H & [= <-])%bind_ok_inv. cbn.
  split; [unfold promote_managed_entries; by destruct (dependency_management p) |].
  assert (Hds : dependencies (promote_managed_entries p) = dependencies p)
    by (unfold promote_managed_entries; by destruct (dependency_management p)).
  rewrite Hds in H. apply apply_to_dependencies_Forall2 in H.
  apply promote_entries_clean in He. clear Hds. revert Hd. induction H as [|d d' l l' Hf HF IH]; [done |].
  rewrite !list.Forall_cons. intros [Hc HF']. split; [|by apply IH].
  destruct Hf as [[Hs ->]|(Hs & Hv & ->)]; [by split; [|left] |]. split; [|by right].
  rewrite build_dm_index_get. destruct (find_entry _ _ _) as [e|] eqn:E; [|done].
  apply inherit_from_clean; [done |]. exact (find_entry_clean _ _ _ _ He E).
Qed.

Lemma splice_all_spec i ps p ids ina p' ids' :
  splice_all i ps p ids ina = (p', ids') ->
  parent p' = parent p
  /\ exists ext, ids' = ids ++ ext /\ (ext = [] -> exists l, p' = set_profiles p l).
Proof.
  revert i p ids ina. induction ps as [|[pr b] ps IH]; intros i p ids ina; cbn.
  - intros [= <- <-]. split; [done |]. exists []. rewrite app_nil_r. eauto.
  - destruct b; intros H.
    + apply IH in H as (Hp & ext & -> & _). split; [done |]. eexists. by rewrite <- app_assoc.
    + by apply IH in H.
Qed.

Context `{FS : FileSystem}.

(** C11. Every dependency of a resolved POM is concrete: no field of it holds
    a [${...}] placeholder, and it has a version unless it is system-scoped;
    and the resolved POM has no parent left. *)
Theorem resolve_pom_concrete root resolve actx r :
  resolve_pom root resolve actx = Ok r ->
  parent (pom r) = None
  /\ Forall (fun d => Effective.clean_dependency d /\ has_version d) (dependencies (pom r)).
Proof.
  unfold resolve_pom. intros (eff & He & H)%bind_ok_inv.
  destruct (Effective.build_effective root resolve) as [eff'|] eqn:Eb; [|done]. injection He as <-.
  apply Effective.build_effective_clean in Eb as (Hpar & Hd & Hm).
  apply bind_ok_inv in H as ([p1 [boms st]] & Hx & H).
  apply expand_spec in Hx as (_ & _ & (apd & Happ & _ & Hcl) & Hd1 & Hp1).
  apply bind_ok_inv in H as ([p2 ids] & Hpr & H).
  apply bind_ok_inv in Hpr as (sts & _ & Hspl). injection Hspl as Hspl.
  apply splice_all_spec in Hspl as (Hp2 & ext & -> & Hext).
  apply bind_ok_inv in H as (p3 & H3 & H). apply bind_ok_inv in H as (p4 & H4 & [= <-]). cbn.
  assert (H3' : parent p3 = None /\ clean_deps (dependencies p3) /\ clean_deps (entries p3)).
  { destruct boms as [|b boms], ext as [|x ext]; cbn [app] in H3.
    1: { injection H3 as <-. destruct (Hext eq_refl) as [l ->]. unfold Effective.depmgt_entries in *. cbn.
         rewrite Hd1, Happ. split_and!; [congruence | done |].
         apply list.Forall_app. split; [by apply filter_clean | auto]. }
    all: destruct (Effective.build_effective p2 resolve) as [e2|] eqn:E2; [|done];
      injection H3 as <-; by apply Effective.build_effective_clean in E2. }
  destruct H3' as (Hp3 & Hd3 & Hm3). apply apply_depmgt_clean in H4 as [H41 H42]; [|done..].
  split; [congruence | done].
Qed.
End BomProofs.

Lemma bom_expansion_closed_witness :
  Forall (fun d => is_bom_import d = false)
    (Effective.depmgt_entries
       (set_dependency_management managing_child (Some (mkDepMgt [managed_dep "g" "lib" (Some "1")])))).
Proof.
  apply (bom_expansion_closed (ENV := empty_environment) (fun _ => Ok managing_parent)
    (set_dependency_management managing_child
       (Some (mkDepMgt [mkDependency "g" "bom" (Some "1") (Some "import") None (Some "pom") None None []])))
    [] ∅ _ ["g:bom:1"] ∅).
  vm_compute. reflexivity.
Defined.

Lemma resolve_pom_concrete_witness :
  exists r, resolve_pom (ENV := empty_environment) (FS := empty_file_system)
              managing_child (fun _ => Ok managing_parent) ActivationContext_default = Ok r
    /\ parent (pom r) = None.
Proof.
  destruct (resolve_pom (ENV := empty_environment) (FS := empty_file_system)
              managing_child (fun _ => Ok managing_parent) ActivationContext_default) as [r|e] eqn:E.
  - exists r. split; [reflexivity |].
    exact (proj1 (resolve_pom_concrete _ _ _ _ E)).
  - exfalso. vm_compute in E. discriminate E.
Defined.

(** A BOM imported by the management section of an active profile is never
    expanded: profiles are spliced after the expansion pass.  The profile
    below is active by default and imports [managing_parent], which manages
    [g:lib]; the dependency on [g:lib] still has no version. *)
Definition profile_importer : RawPom :=
  mkPom "4.0.0" None (Some "g") "app" (Some "1") "jar" None None None None [] None
    [managed_dep "g" "lib" None] [] None
    [mkProfile (Some "boms") (Some (mkActivation (Some "true") None None None None)) [] []
       (Some (mkDepMgt [mkDependency "g" "parent" (Some "1") (Some "import") None (Some "pom") None None []]))
       [] None [] []] [] [].

Lemma profile_bom_not_expanded :
  resolve_pom profile_importer (fun _ => Ok managing_parent) ActivationContext_default
  = Err (UnresolvedDependencyVersion "g:lib").
Proof. vm_compute. reflexivity. Qed.

End Profile.
