(* ===== verification/Source.v ===== *)
(** * barista-resolver: the metadata source interface and SNAPSHOT metadata

    Models crates/barista-resolver/src/source.rs (the [MetadataSource] trait,
    the resolver's only view of the cache) and snapshot.rs (timestamped
    SNAPSHOT publishes and update policies).  A source is a class of three
    functions: within one walk it gives the same answer to the same
    question. *)

From S2P Require Import Prelude Coords Pom.

Module Snapshot.

Record SnapshotMetadata := mkSnapshotMetadata {
  timestamped_version : string;
  timestamp : string;
  build_number : Z;
  last_updated : option string
}.

Record SnapshotVersionEntry := mkEntry {
  extension : string;
  classifier : option string;
  value : string;
  updated : string
}.

Record SnapshotInfo := mkInfo {
  snapshot : option SnapshotMetadata;
  snapshot_versions : list SnapshotVersionEntry
}.

Definition entry_matches (ext : string) (cls : option string) (e : SnapshotVersionEntry) : bool :=
  String.eqb (extension e) ext && bool_decide (classifier e = cls).

Definition pick_version (info : SnapshotInfo) (ext : string) (cls : option string) : option string :=
  match List.find (entry_matches ext cls) (snapshot_versions info) with
  | Some e => Some (value e)
  | None => timestamped_version <$> snapshot info
  end.

(** ** Update policies *)

Inductive UpdatePolicy : Type := Always | Daily | Interval (minutes : Z) | Never.

(** The [detail] of [InvalidUpdatePolicy], as the case it reports. *)
Inductive PolicyDetail : Type :=
  | EmptyPolicy
  | MissingMinutes
  | InvalidMinutes (text : string)
  | UnknownPolicy (text : string).

(** The [detail] of [MetadataParse]. *)
Inductive MetadataDetail : Type :=
  | XmlDetail (text : string)
  | EncodingDetail (text : string)
  | EscapeDetail (text : string)
  | NonUtf8Name
  | NonUtf8CData.

Inductive SnapshotError : Type :=
  | InvalidUpdatePolicy (raw : string) (detail : PolicyDetail)
  | NoSnapshotVersion (coords version extension : string)
  | MetadataParse (coords : string) (detail : MetadataDetail).

Definition policy_parse (raw : string) : result SnapshotError UpdatePolicy :=
  let trimmed := trim raw in
  if is_empty trimmed then Err (InvalidUpdatePolicy raw EmptyPolicy)
  else
    let lower := to_ascii_lowercase trimmed in
    if String.eqb lower "always" then Ok Always
    else if String.eqb lower "daily" then Ok Daily
    else if String.eqb lower "never" then Ok Never
    else match str_strip_prefix "interval:" lower with
         | Some rest =>
             if is_empty rest then Err (InvalidUpdatePolicy raw MissingMinutes)
             else match parse_uint U32_MAX rest with
                  | Some minutes => Ok (Interval minutes)
                  | None => Err (InvalidUpdatePolicy raw (InvalidMinutes rest))
                  end
         | None => Err (InvalidUpdatePolicy raw (UnknownPolicy trimmed))
         end.

(** Times are nanoseconds since an epoch; [duration_since] of an earlier time
    is an error, read as a zero duration. *)
Definition NANOS_PER_SEC : Z := 1000000000.

Definition elapsed (last now : Z) : Z := if (last <=? now)%Z then (now - last)%Z else 0%Z.

Definition should_refetch (p : UpdatePolicy) (last_local_update now : Z) : bool :=
  match p with
  | Always => true
  | Never => false
  | Daily => (24 * 3600 * NANOS_PER_SEC <=? elapsed last_local_update now)%Z
  | Interval minutes => (minutes * 60 * NANOS_PER_SEC <=? elapsed last_local_update now)%Z
  end.

(** ** The SNAPSHOT suffix *)

(** [s.is_char_boundary(i)] for [i <= s.len()] of a UTF-8 string. *)
Definition is_char_boundary (s : string) (i : nat) : bool :=
  match str_drop i s with
  | EmptyString => true
  | String a _ => negb (is_continuation a)
  end.

(** [strip_snapshot_suffix]; [None] is the panic of slicing inside a
    character. *)
Definition strip_snapshot_suffix (v : string) : option string :=
  let suffix := "-SNAPSHOT" in
  if String.length suffix <=? String.length v then
    let cut := String.length v - String.length suffix in
    if is_char_boundary v cut then
      if eq_ignore_ascii_case (str_drop cut v) suffix then Some (str_take cut v) else Some v
    else None
  else Some v.

End Snapshot.

Module Source.
Import Coords.

Inductive MetadataError : Type :=
  | NotFound (coords version : string)
  | MetadataNotFound (coords : string)
  | Transport (coords version detail : string)
  | Parse (what coords version detail : string)
  | AuthRequired (coords version : string)
  | Offline (coords version : string).

Record GaMetadata := mkMetadata {
  md_coords : Coords;
  versions : list string;
  latest_snapshot_timestamp : option string;
  md_last_updated : option string
}.

Inductive FetchOrigin : Type := InMemory | Disk | Remote | Fixture.

Class MetadataSource := {
  fetch_pom : Coords -> string -> result MetadataError (Pom.RawPom * FetchOrigin);
  fetch_metadata : Coords -> result MetadataError (GaMetadata * FetchOrigin);
  fetch_snapshot_info : Coords -> string -> result MetadataError (Snapshot.SnapshotInfo * FetchOrigin)
}.

(** [NullMetadataSource], with the default [fetch_snapshot_info]. *)
Definition null_source : MetadataSource := {|
  fetch_pom c v := Err (NotFound (display c) v);
  fetch_metadata c := Err (MetadataNotFound (display c));
  fetch_snapshot_info c _ := Err (MetadataNotFound (display c))
|}.

(** [FixtureSource]: POMs by coordinate and version, versions by coordinate. *)
Definition fixture_source (poms : gmap (Coords * string) Pom.RawPom)
    (metadata : gmap Coords (list string)) : MetadataSource := {|
  fetch_pom c v := match poms !! (c, v) with
                   | Some p => Ok (p, Fixture)
                   | None => Err (NotFound (display c) v)
                   end;
  fetch_metadata c := match metadata !! c with
                      | Some vs => Ok (mkMetadata c vs None None, Fixture)
                      | None => Err (MetadataNotFound (display c))
                      end;
  fetch_snapshot_info c _ := Err (MetadataNotFound (display c))
|}.

End Source.

(** ** Snapshot lemmas *)
Module SnapshotFacts.
Import Snapshot.

(** The prefix ["-SNAPSHOT"] is removed whatever its case. *)
Lemma strip_snapshot_append base suffix :
  eq_ignore_ascii_case suffix "-SNAPSHOT" = true -> String.length suffix = 9 ->
  str_forallb is_ascii suffix = true ->
  strip_snapshot_suffix (base +:+ suffix) = Some base.
Proof.
  intros He Hl Ha. unfold strip_snapshot_suffix. rewrite str_length_app.
  replace (String.length "-SNAPSHOT" <=? String.length base + String.length suffix) with true
    by (symmetry; apply Nat.leb_le; rewrite Hl; cbn; lia).
  replace (String.length base + String.length suffix - String.length "-SNAPSHOT")
    with (String.length base) by (rewrite Hl; cbn; lia).
  unfold is_char_boundary. rewrite str_drop_app, str_take_app, He.
  destruct suffix as [|a suffix]; [done |]. cbn in Ha. apply andb_true_iff in Ha as [Ha _].
  unfold is_ascii, is_continuation in *. apply N.ltb_lt in Ha.
  by rewrite (proj2 (N.leb_gt 128 (code a))).
Qed.

(** A metadata document whose version has a multi-byte character nine bytes
    from its end makes [strip_snapshot_suffix] slice inside it. *)
Lemma strip_snapshot_panics :
  strip_snapshot_suffix (String "195" (String "169" "12345678")) = None.
Proof. reflexivity. Qed.

End SnapshotFacts.
