(* ===== verification/MetadataXml.v ===== *)
(** * maven-metadata.xml

    Models the two readers of repository metadata over the events of the XML
    lexer: [parse_versions_list] of crates/barista-cache/src/source.rs and
    [parse_snapshot_metadata] of crates/barista-resolver/src/snapshot.rs.
    Both leave empty elements as they are, so their lexer is a class of its
    own, [PlainXml]. *)

From stdpp Require Import pretty.
From S2P Require Import Prelude Pom Source Xml.

Module MetadataXml.
Import Snapshot Xml.

(** quick-xml's reader with [trim_text] only. *)
Class PlainXml := plain_tokens : string -> Stream.

(** ** The versions of an artifact *)

(** The three flags of the loop. *)
Record Flags := mkFlags { in_versioning : bool; in_versions : bool; in_version : bool }.

Definition on_start (name : string) (f : Flags) : Flags :=
  if String.eqb name "versioning" then mkFlags true (in_versions f) (in_version f)
  else if String.eqb name "versions" && in_versioning f then mkFlags (in_versioning f) true (in_version f)
  else if String.eqb name "version" && in_versions f then mkFlags (in_versioning f) (in_versions f) true
  else f.

Definition on_end (name : string) (f : Flags) : Flags :=
  if String.eqb name "versioning" then mkFlags false (in_versions f) (in_version f)
  else if String.eqb name "versions" then mkFlags (in_versioning f) false (in_version f)
  else if String.eqb name "version" then mkFlags (in_versioning f) (in_versions f) false
  else f.

Definition version_text (raw : string) : list string :=
  match from_utf8 raw with
  | Some s => let v := trim s in if is_empty v then [] else [v]
  | None => []
  end.

Fixpoint versions_loop (f : Flags) (out : list string) (s : Stream) : list string :=
  match s with
  | [] => out
  | Err _ :: _ => out
  | Ok ev :: s' =>
      match ev with
      | Start name _ => versions_loop (on_start name f) out s'
      | End name => versions_loop (on_end name f) out s'
      | Other (Text raw) => versions_loop f (if in_version f then out ++ version_text raw else out) s'
      | Eof => out
      | _ => versions_loop f out s'
      end
  end.

Definition parse_versions_list `{PlainXml} (xml : string) : list string :=
  versions_loop (mkFlags false false false) [] (plain_tokens xml).

(** ** The publishes of a SNAPSHOT *)

(** The accumulators of the loop; those of the current [snapshotVersion] are
    a record of their own. *)
Record Current := mkCurrent {
  sv_extension : option string;
  sv_classifier : option string;
  sv_value : option string;
  sv_updated : option string
}.

Definition no_current : Current := mkCurrent None None None None.

Record Fields := mkFields {
  version : option string;
  snap_ts : option string;
  snap_build : option Z;
  f_last_updated : option string;
  current : Current;
  entries : list SnapshotVersionEntry
}.

Definition no_fields : Fields := mkFields None None None None no_current [].

Record Scan := mkScan { path : list string; current_text : string; fields : Fields }.

Definition set_current (c : Current) (f : Fields) : Fields :=
  mkFields (version f) (snap_ts f) (snap_build f) (f_last_updated f) c (entries f).

(** The [match *inner]. *)
Definition close_inner (inner text : string) (c : Current) : Current :=
  if String.eqb inner "extension" then mkCurrent (Some text) (sv_classifier c) (sv_value c) (sv_updated c)
  else if String.eqb inner "classifier" then
    if is_empty text then c
    else mkCurrent (sv_extension c) (Some text) (sv_value c) (sv_updated c)
  else if String.eqb inner "value" then
    mkCurrent (sv_extension c) (sv_classifier c) (Some text) (sv_updated c)
  else if String.eqb inner "updated" then
    mkCurrent (sv_extension c) (sv_classifier c) (sv_value c) (Some text)
  else c.

(** The entry that the end of a [snapshotVersion] pushes. *)
Definition close_entry (c : Current) : list SnapshotVersionEntry :=
  match sv_extension c, sv_value c with
  | Some ext, Some val => [mkEntry ext (sv_classifier c) val (default "" (sv_updated c))]
  | _, _ => []
  end.

(** The paths of the [match p.as_slice()]. *)
Definition P_VERSION : list string := ["metadata"; "version"].
Definition P_UPDATED : list string := ["metadata"; "versioning"; "lastUpdated"].
Definition P_TIMESTAMP : list string := ["metadata"; "versioning"; "snapshot"; "timestamp"].
Definition P_BUILD : list string := ["metadata"; "versioning"; "snapshot"; "buildNumber"].
Definition P_ENTRY : list string := ["metadata"; "versioning"; "snapshotVersions"; "snapshotVersion"].

(** The end tag of the element at a path. *)
Definition close (p : list string) (text : string) (f : Fields) : Fields :=
  if decide (p = P_VERSION) then
    mkFields (Some text) (snap_ts f) (snap_build f) (f_last_updated f) (current f) (entries f)
  else if decide (p = P_UPDATED) then
    mkFields (version f) (snap_ts f) (snap_build f) (Some text) (current f) (entries f)
  else if decide (p = P_TIMESTAMP) then
    mkFields (version f) (Some text) (snap_build f) (f_last_updated f) (current f) (entries f)
  else if decide (p = P_BUILD) then
    mkFields (version f) (snap_ts f) (parse_uint U32_MAX text) (f_last_updated f) (current f) (entries f)
  else match p with
  | [a; b; c; d; inner] =>
      if decide ([a; b; c; d] = P_ENTRY)
      then set_current (close_inner inner text (current f)) f else f
  | _ =>
      if decide (p = P_ENTRY) then
        mkFields (version f) (snap_ts f) (snap_build f) (f_last_updated f) no_current
          (entries f ++ close_entry (current f))
      else f
  end.

Section Reader.
Context `{P : PlainXml} `{Q : QuickXml}.

Definition fail_with (d : MetadataDetail) : SnapshotError := MetadataParse "" d.

(** The text an event adds. *)
Definition leaf_result (l : Leaf) : result SnapshotError string :=
  match l with
  | Text raw =>
      t ← map_err (fun e => fail_with (EncodingDetail e)) (decode raw);
      map_err (fun e => fail_with (EscapeDetail e)) (unescape t)
  | CData raw => ok_or (from_utf8 raw) (fail_with NonUtf8CData)
  | _ => Ok ""
  end.

(** [path.pop()] is [removelast]. *)
Definition step (ev : Event) (st : Scan) : result SnapshotError Scan :=
  match ev with
  | Start name _ =>
      name ← ok_or (from_utf8 name) (fail_with NonUtf8Name);
      Ok (mkScan (path st ++ [name]) "" (fields st))
  | End _ =>
      Ok (mkScan (removelast (path st)) "" (close (path st) (trim (current_text st)) (fields st)))
  | Other l =>
      t ← leaf_result l;
      Ok (mkScan (path st) (current_text st +:+ t) (fields st))
  | _ => Ok st
  end.

Fixpoint scan (s : Stream) (st : Scan) : result SnapshotError Scan :=
  match s with
  | [] => Ok st
  | Err e :: _ => Err (fail_with (XmlDetail e))
  | Ok Eof :: _ => Ok st
  | Ok ev :: s' => st' ← step ev st; scan s' st'
  end.

(** The [snapshot] block; [None] is the panic of [strip_snapshot_suffix]. *)
Definition assemble (f : Fields) : option SnapshotInfo :=
  match snap_ts f, snap_build f with
  | Some ts, Some bn =>
      base ← match version f with Some v => strip_snapshot_suffix v | None => Some "" end;
      let tail := ts +:+ "-" +:+ pretty bn in
      let tv := if is_empty base then tail else base +:+ "-" +:+ tail in
      Some (mkInfo (Some (mkSnapshotMetadata tv ts bn (f_last_updated f))) (entries f))
  | _, _ => Some (mkInfo None (entries f))
  end.

Definition parse_snapshot_metadata (xml : string) : option (result SnapshotError SnapshotInfo) :=
  match scan (plain_tokens xml) (mkScan [] "" no_fields) with
  | Err e => Some (Err e)
  | Ok st => Ok <$> assemble (fields st)
  end.

(** ** Documents as trees *)

(** The content of the elements at a path, in document order. *)
Definition named (m : string) (n : Node) : option (list Node) :=
  match n with
  | Elem name _ kids => if decide (name = m) then Some kids else None
  | Content _ => None
  end.

Fixpoint at_path (ns : list string) (kids : list Node) : list (list Node) :=
  match ns with
  | [] => []
  | [m] => omap (named m) kids
  | m :: ns' => flat_map (at_path ns') (omap (named m) kids)
  end.

(** The text of an element after its last child element, trimmed. *)
Definition tail_text (t : string) (kids : list Node) : string :=
  foldl (fun t n => match n with Elem _ _ _ => "" | Content l => t +:+ default "" (leaf_text l) end) t kids.

Definition text_at (kids : list Node) : string := trim (tail_text "" kids).

Definition value_at {A} (ns : list string) (g : string -> A) (kids : list Node) (d : A) : A :=
  match list.last (at_path ns kids) with
  | Some ks => g (text_at ks)
  | None => d
  end.

(** The last classifier that is not empty. *)
Definition classifier_at (kids : list Node) : option string :=
  list.last (filter (fun t => is_empty t = false) (text_at <$> at_path ["classifier"] kids)).

Definition current_at (kids : list Node) : Current :=
  mkCurrent (value_at ["extension"] Some kids None) (classifier_at kids)
    (value_at ["value"] Some kids None) (value_at ["updated"] Some kids None).

(** What a document says. *)
Definition fields_at (kids : list Node) : Fields :=
  mkFields (value_at P_VERSION Some kids None) (value_at P_TIMESTAMP Some kids None)
    (value_at P_BUILD (parse_uint U32_MAX) kids None) (value_at P_UPDATED Some kids None)
    no_current (flat_map (fun ks => close_entry (current_at ks)) (at_path P_ENTRY kids)).

(** Names are UTF-8 and texts can be decoded. *)
Fixpoint readable (n : Node) : bool :=
  match n with
  | Elem name _ kids => utf8_valid name && forallb readable kids
  | Content l => decodable (Content l)
  end.

(** Self-closing elements are dropped. *)
Definition full (ev : result XmlError Event) : bool :=
  match ev with Ok (Empty _) => false | _ => true end.

(** ** The loop is a query *)

(** What a node at a path does to the fields. *)
Fixpoint eff (p : list string) (n : Node) (f : Fields) : Fields :=
  match n with
  | Content _ => f
  | Elem name _ kids =>
      close (p ++ [name]) (text_at kids) (foldl (fun f k => eff (p ++ [name]) k f) f kids)
  end.

Definition effs (p : list string) (kids : list Node) (f : Fields) : Fields :=
  foldl (fun f k => eff p k f) f kids.

Lemma leaf_result_ok l : readable (Content l) -> leaf_result l = Ok (default "" (leaf_text l)).
Proof.
  destruct l as [raw|raw| | | | |]; cbn [readable decodable leaf_result]; try done.
  - intros [t Ht]%bool_decide_unpack. unfold leaf_text in *. destruct (decode raw) as [u|]; [| done].
    cbn in *. by destruct (unescape u).
  - intros H. cbn [leaf_text]. unfold from_utf8. by rewrite (Is_true_true_1 _ H).
Qed.

Lemma scan_full s st : scan (List.filter full s) st = scan s st.
Proof.
  revert st. induction s as [|[ev|e] s IH]; intros st; [done | | done].
  destruct ev; cbn [List.filter full scan]; [| apply IH | | | done];
    (destruct (step _ st); [apply IH | done]).
Qed.

Lemma scan_nodes kids :
  Forall (fun n => forall p t f rest, readable n ->
    scan (flatten n ++ rest) (mkScan p t f) = scan rest (mkScan p (tail_text t [n]) (eff p n f))) kids ->
  forall p t f rest, forallb readable kids ->
  scan (events kids ++ rest) (mkScan p t f) = scan rest (mkScan p (tail_text t kids) (effs p kids f)).
Proof.
  induction 1 as [|n kids Hn _ IH]; intros p t f rest; [done |]. cbn [forallb].
  intros [H1 H2]%andb_True. by rewrite events_cons, Hn, IH.
Qed.

Lemma scan_node n : forall p t f rest, readable n ->
  scan (flatten n ++ rest) (mkScan p t f) = scan rest (mkScan p (tail_text t [n]) (eff p n f)).
Proof.
  induction n as [name attrs kids IH|l] using node_tree_ind; intros p t f rest Hr.
  - cbn [readable] in Hr. apply andb_True in Hr as [Hname Hk]. rewrite flatten_elem.
    cbn [scan step]. unfold from_utf8. rewrite (Is_true_true_1 _ Hname). cbn [ok_or mbind].
    change (scan (events kids ++ Ok (End name) :: rest) (mkScan (p ++ [name]) "" f)
      = scan rest (mkScan p "" (eff p (Elem name attrs kids) f))).
    rewrite scan_nodes by done. cbn [scan step path current_text fields mbind].
    change (scan rest (mkScan (removelast (p ++ [name])) ""
      (close (p ++ [name]) (text_at kids) (effs (p ++ [name]) kids f)))
      = scan rest (mkScan p "" (eff p (Elem name attrs kids) f))).
    by rewrite removelast_last.
  - cbn [flatten app scan step]. by rewrite leaf_result_ok.
Qed.

Lemma scan_document kids : forallb readable kids ->
  scan (events kids) (mkScan [] "" no_fields)
  = Ok (mkScan [] (tail_text "" kids) (effs [] kids no_fields)).
Proof.
  intros H. rewrite <- (app_nil_r (events kids)), scan_nodes; [done | | done].
  apply list.Forall_forall. intros n _. apply scan_node.
Qed.

(** *** One field *)

Lemma effs_ind (I : Fields -> Fields -> Prop) p kids :
  (forall f, I f f) -> (forall f g h, I f g -> I g h -> I f h) ->
  Forall (fun n => forall f, I f (eff p n f)) kids -> forall f, I f (effs p kids f).
Proof.
  intros Hr Ht H. induction H as [|n kids Hn _ IH]; intros f; [apply Hr |].
  eapply Ht; [apply Hn | apply IH].
Qed.

Section Watch.
Context {A : Type} (q : list string) (g : string -> A) (get : Fields -> A).
Hypothesis Hclose : forall p t f, get (close p t f) = if decide (p = q) then g t else get f.

(** Nothing happens away from the path. *)
Lemma watch_off_kids p kids f :
  Forall (fun n => forall p f, ~ p `prefix_of` q -> get (eff p n f) = get f) kids ->
  ~ p `prefix_of` q -> get (effs p kids f) = get f.
Proof.
  intros H Hp. apply (effs_ind (fun f f' => get f' = get f)); [done | congruence |].
  eapply List.Forall_impl; [| exact H]. cbn. auto.
Qed.

Lemma watch_off n : forall p f, ~ p `prefix_of` q -> get (eff p n f) = get f.
Proof.
  induction n as [name attrs kids IH|l] using node_tree_ind; intros p f Hp; [| done].
  assert (Hp' : ~ (p ++ [name]) `prefix_of` q).
  { intros [k E]. apply Hp. exists ([name] ++ k). by rewrite E, <- app_assoc. }
  cbn [eff]. rewrite Hclose, decide_False by (intros E; apply Hp'; by rewrite E).
  by apply watch_off_kids.
Qed.

Lemma at_path_cons m ns kids :
  at_path (m :: ns) kids = match ns with
                           | [] => omap (named m) kids
                           | _ => flat_map (at_path ns) (omap (named m) kids)
                           end.
Proof. by destruct ns. Qed.

Lemma value_at_app (h : string -> A) ns kids kids' d :
  value_at ns h (kids ++ kids') d = value_at ns h kids' (value_at ns h kids d).
Proof.
  unfold value_at.
  assert (at_path ns (kids ++ kids') = at_path ns kids ++ at_path ns kids') as ->.
  { destruct ns as [|m [|m' ns]]; [done | |]; rewrite !at_path_cons, omap_app; [done |].
    apply flat_map_app. }
  rewrite last_app. by destruct (list.last (at_path ns kids')).
Qed.

(** On the path, the last element there counts. *)
Lemma watch_kids p ns kids :
  Forall (fun n => forall f, get (eff p n f) = value_at ns g [n] (get f)) kids ->
  forall f, get (effs p kids f) = value_at ns g kids (get f).
Proof.
  induction 1 as [|n kids Hn _ IH]; intros f; [by destruct ns as [|m [|m' ns]] |].
  cbn [effs foldl]. fold (effs p kids (eff p n f)). rewrite IH, Hn.
  by rewrite <- value_at_app.
Qed.

Lemma watch_on n : forall p ns f, q = p ++ ns -> get (eff p n f) = value_at ns g [n] (get f).
Proof.
  induction n as [name attrs kids IH|l] using node_tree_ind; intros p ns f Hq.
  2: { by destruct ns as [|m [|m' ns]]. }
  destruct ns as [|m ns']; [| destruct (decide (m = name)) as [->|Hne]].
  - rewrite app_nil_r in Hq. assert (Hp : ~ (p ++ [name]) `prefix_of` q).
    { intros Hx%prefix_length. rewrite Hq, length_app in Hx. cbn in Hx. lia. }
    cbn [eff]. rewrite Hclose, decide_False by (intros E; apply Hp; by rewrite E).
    apply watch_off_kids; [| done]. apply list.Forall_forall. intros. by apply watch_off.
  - replace (p ++ name :: ns') with ((p ++ [name]) ++ ns') in Hq by by rewrite <- app_assoc.
    cbn [eff]. rewrite Hclose. fold (effs (p ++ [name]) kids f). rewrite (watch_kids _ ns').
    2: { eapply List.Forall_impl; [| exact IH]. cbn. eauto. }
    unfold value_at at 2. rewrite at_path_cons. cbn [omap list_omap named].
    destruct (decide (name = name)) as [_|]; [| done]. destruct ns' as [|m' ns'].
    + rewrite decide_True by (by rewrite Hq, app_nil_r). done.
    + rewrite decide_False; [cbn [flat_map]; by rewrite app_nil_r |].
      intros E. rewrite <- E in Hq. apply (f_equal length) in Hq. rewrite !length_app in Hq. cbn in Hq. lia.
  - assert (Hp : ~ (p ++ [name]) `prefix_of` q).
    { intros [k E]. rewrite Hq, <- app_assoc in E. apply app_inv_head in E. cbn in E. congruence. }
    cbn [eff]. rewrite Hclose, decide_False by (intros E; apply Hp; by rewrite E).
    unfold value_at. rewrite at_path_cons. cbn [omap list_omap named]. rewrite decide_False by done.
    assert (Hn : list.last (match ns' with [] => [] | _ => flat_map (at_path ns') [] end) = @None (list Node))
      by by destruct ns'.
    rewrite Hn. apply watch_off_kids; [| done]. apply list.Forall_forall. intros. by apply watch_off.
Qed.

Lemma watch_document kids f : get (effs [] kids f) = value_at q g kids (get f).
Proof. apply watch_kids, list.Forall_forall. intros n _ f'. by apply watch_on. Qed.

End Watch.

(** *** The entries *)

(** What the end tag of an element does to the entries. *)
Definition parts (f : Fields) : Current * list SnapshotVersionEntry := (current f, entries f).

Lemma close_parts p t f :
  parts (close p t f) =
    if decide (p = P_ENTRY) then (no_current, entries f ++ close_entry (current f))
    else match p with
         | [a; b; c; d; inner] =>
             if decide ([a; b; c; d] = P_ENTRY) then (close_inner inner t (current f), entries f) else parts f
         | _ => parts f
         end.
Proof.
  unfold close, parts.
  destruct (decide (p = P_VERSION)) as [->|]; [done |].
  destruct (decide (p = P_UPDATED)) as [->|]; [done |].
  destruct (decide (p = P_TIMESTAMP)) as [->|]; [done |].
  destruct (decide (p = P_BUILD)) as [->|]; [done |].
  destruct p as [|a [|b [|c [|d [|inner [|x p]]]]]];
    try (rewrite !(decide_False (P := _ = P_ENTRY)) by done; done); [by case_decide |].
  rewrite (decide_False (P := [a; b; c; d; inner] = P_ENTRY)) by done. by case_decide.
Qed.

Lemma close_inner_part p inner t f :
  p = P_ENTRY ++ [inner] -> parts (close p t f) = (close_inner inner t (current f), entries f).
Proof. intros ->. rewrite close_parts. by rewrite decide_False. Qed.

Lemma close_off p t f :
  ~ p `prefix_of` P_ENTRY -> ~ P_ENTRY `prefix_of` p -> parts (close p t f) = parts f.
Proof.
  intros H1 H2. rewrite close_parts, decide_False by (intros ->; by apply H1).
  destruct p as [|a [|b [|c [|d [|inner [|]]]]]]; try done.
  rewrite decide_False; [done |]. intros E. apply H2. exists [inner]. by rewrite <- E.
Qed.

Lemma close_deep p t f : 5 < length p -> parts (close p t f) = parts f.
Proof.
  intros H. rewrite close_parts, decide_False by (intros ->; cbn in H; lia).
  destruct p as [|a [|b [|c [|d [|inner [|]]]]]]; try done. cbn in H. lia.
Qed.

Lemma parts_effs p kids :
  Forall (fun n => forall f, parts (eff p n f) = parts f) kids ->
  forall f, parts (effs p kids f) = parts f.
Proof. apply (effs_ind (fun f f' => parts f' = parts f)); [done | congruence]. Qed.

Lemma eff_deep n : forall p f, 4 < length p -> parts (eff p n f) = parts f.
Proof.
  induction n as [name attrs kids IH|l] using node_tree_ind; intros p f Hp; [| done].
  cbn [eff]. rewrite close_deep by (rewrite length_app; cbn; lia).
  apply parts_effs. eapply List.Forall_impl; [| exact IH]. cbn. intros n Hn f'. apply Hn.
  rewrite length_app. lia.
Qed.

Lemma eff_off n : forall p f,
  ~ p `prefix_of` P_ENTRY -> ~ P_ENTRY `prefix_of` p -> parts (eff p n f) = parts f.
Proof.
  induction n as [name attrs kids IH|l] using node_tree_ind; intros p f H1 H2; [| done].
  assert (H1' : ~ (p ++ [name]) `prefix_of` P_ENTRY).
  { intros [k E]. apply H1. exists ([name] ++ k). by rewrite E, <- app_assoc. }
  assert (H2' : ~ P_ENTRY `prefix_of` (p ++ [name])).
  { intros [k E]. destruct k as [|x k _] using rev_ind.
    - apply H1'. rewrite app_nil_r in E. by rewrite E.
    - rewrite app_assoc in E. apply app_inj_tail in E as [E _]. apply H2. by exists k. }
  cbn [eff]. rewrite close_off by done. apply parts_effs.
  eapply List.Forall_impl; [| exact IH]. cbn. auto.
Qed.

(** Inside an entry. *)
Definition close_node (c : Current) (n : Node) : Current :=
  match n with
  | Elem name _ kids => close_inner name (text_at kids) c
  | Content _ => c
  end.

Lemma eff_entry n f : parts (eff P_ENTRY n f) = (close_node (current f) n, entries f).
Proof.
  destruct n as [name attrs kids|l]; [| done]. cbn [eff].
  rewrite (close_inner_part _ name) by done. fold (effs (P_ENTRY ++ [name]) kids f).
  assert (H : parts (effs (P_ENTRY ++ [name]) kids f) = parts f).
  { apply parts_effs, list.Forall_forall. intros. apply eff_deep. cbn. lia. }
  revert H. generalize (effs (P_ENTRY ++ [name]) kids f) as f'. intros f' [= -> ->]. done.
Qed.

Lemma effs_entry kids : forall f,
  parts (effs P_ENTRY kids f) = (foldl close_node (current f) kids, entries f).
Proof.
  induction kids as [|n kids IH]; intros f; [done |]. cbn [effs foldl].
  fold (effs P_ENTRY kids (eff P_ENTRY n f)). rewrite IH. pose proof (eff_entry n f) as H.
  revert H. generalize (eff P_ENTRY n f) as f'. by intros f' [= -> ->].
Qed.

Lemma filter_one t :
  filter (fun t => is_empty t = false) [t] = if is_empty t then [] else [t].
Proof. rewrite list.filter_cons. case_decide as H; [by rewrite H |]. by destruct (is_empty t). Qed.

Lemma current_at_snoc kids n : current_at (kids ++ [n]) = close_node (current_at kids) n.
Proof.
  unfold current_at, classifier_at. rewrite !value_at_app.
  assert (at_path ["classifier"] (kids ++ [n]) = at_path ["classifier"] kids ++ at_path ["classifier"] [n]) as ->
    by apply omap_app.
  rewrite fmap_app, list.filter_app, last_app. destruct n as [name attrs ks|l]; [| done].
  unfold value_at, close_node, close_inner. cbn [at_path omap list_omap named].
  destruct (String.eqb_spec name "extension") as [->|N1]; [done |]. rewrite (decide_False (P := name = "extension")) by done.
  destruct (String.eqb_spec name "classifier") as [->|N2].
  { destruct (decide ("classifier" = "classifier")) as [_|]; [| done].
    change (text_at <$> [ks]) with [text_at ks]. rewrite filter_one.
    by destruct (is_empty (text_at ks)). }
  rewrite (decide_False (P := name = "classifier")) by done.
  destruct (String.eqb_spec name "value") as [->|N3]; [done |]. rewrite (decide_False (P := name = "value")) by done.
  destruct (String.eqb_spec name "updated") as [->|N4]; [done |]. by rewrite (decide_False (P := name = "updated")).
Qed.

Lemma foldl_current kids : foldl close_node no_current kids = current_at kids.
Proof.
  induction kids as [|n kids IH] using rev_ind; [done |].
  by rewrite foldl_app, IH, current_at_snoc.
Qed.

Definition entries_at (ns : list string) (kids : list Node) : list SnapshotVersionEntry :=
  flat_map (fun ks => close_entry (current_at ks)) (at_path ns kids).

Lemma entries_at_app ns kids kids' :
  entries_at ns (kids ++ kids') = entries_at ns kids ++ entries_at ns kids'.
Proof.
  unfold entries_at. destruct ns as [|m [|m' ns]]; [done | |]; rewrite !at_path_cons, omap_app.
  - apply flat_map_app.
  - by rewrite flat_map_app, flat_map_app.
Qed.

Lemma effs_entries p ns kids :
  Forall (fun n => forall f, current f = no_current ->
    parts (eff p n f) = (no_current, entries f ++ entries_at ns [n])) kids ->
  forall f, current f = no_current -> parts (effs p kids f) = (no_current, entries f ++ entries_at ns kids).
Proof.
  induction 1 as [|n kids Hn _ IH]; intros f Hf.
  - unfold parts. cbn. rewrite Hf. f_equal. destruct ns as [|m [|m' ns]]; by rewrite app_nil_r.
  - cbn [effs foldl]. fold (effs p kids (eff p n f)). specialize (Hn f Hf).
    change (n :: kids) with ([n] ++ kids). rewrite entries_at_app, app_assoc. injection Hn as H1 H2.
    by rewrite IH, H2.
Qed.

Lemma close_above p m ns t f : P_ENTRY = p ++ m :: ns -> parts (close p t f) = parts f.
Proof.
  intros E. assert (length p < 4).
  { apply (f_equal length) in E. rewrite length_app in E. cbn in E. lia. }
  rewrite close_parts, decide_False by (intros ->; cbn in *; lia).
  destruct p as [|a [|b [|c [|d [|]]]]]; try done; cbn in *; lia.
Qed.

Lemma eff_entries n : forall p m ns f,
  P_ENTRY = p ++ m :: ns -> current f = no_current ->
  parts (eff p n f) = (no_current, entries f ++ entries_at (m :: ns) [n]).
Proof.
  induction n as [name attrs kids IH|l] using node_tree_ind; intros p m ns f Hq Hf.
  2: { unfold parts. cbn [eff]. rewrite Hf. destruct ns; by rewrite app_nil_r. }
  unfold entries_at. rewrite at_path_cons. cbn [omap list_omap named eff].
  destruct (decide (name = m)) as [->|Hne].
  - replace (p ++ m :: ns) with ((p ++ [m]) ++ ns) in Hq by by rewrite <- app_assoc.
    destruct ns as [|m' ns].
    + rewrite app_nil_r in Hq. rewrite <- Hq, close_parts. rewrite (decide_True (P := P_ENTRY = P_ENTRY)) by done.
      fold (effs P_ENTRY kids f). pose proof (effs_entry kids f) as H. rewrite Hf, foldl_current in H.
      revert H. generalize (effs P_ENTRY kids f) as f'. intros f' [= -> ->]. cbn. by rewrite app_nil_r.
    + rewrite (close_above _ _ _ _ _ Hq). cbn [flat_map]. rewrite app_nil_r.
      apply effs_entries; [| done]. eapply List.Forall_impl; [| exact IH]. cbn. eauto.
  - assert (H1 : ~ (p ++ [name]) `prefix_of` P_ENTRY).
    { intros [k E]. rewrite Hq, <- app_assoc in E. apply app_inv_head in E. cbn in E. congruence. }
    assert (H2 : ~ P_ENTRY `prefix_of` (p ++ [name])).
    { intros [[|x k] E]; [apply H1; rewrite E, app_nil_r; done |].
      apply (f_equal length) in E, Hq. rewrite !length_app in *. cbn in *. lia. }
    rewrite close_off by done. fold (effs (p ++ [name]) kids f).
    replace (flat_map _ _) with (@nil SnapshotVersionEntry) by by destruct ns.
    rewrite app_nil_r, <- Hf. apply parts_effs, list.Forall_forall. intros. by apply eff_off.
Qed.

Ltac watch_field :=
  intros p t f; unfold close; repeat (case_decide; [by subst |]);
  destruct p as [|? [|? [|? [|? [|? [|]]]]]]; try done; by case_decide.

Lemma effs_fields kids : effs [] kids no_fields = fields_at kids.
Proof.
  assert (Hv := watch_document P_VERSION Some version ltac:(watch_field) kids no_fields).
  assert (Ht := watch_document P_TIMESTAMP Some snap_ts ltac:(watch_field) kids no_fields).
  assert (Hb := watch_document P_BUILD (parse_uint U32_MAX) snap_build ltac:(watch_field) kids no_fields).
  assert (Hu := watch_document P_UPDATED Some f_last_updated ltac:(watch_field) kids no_fields).
  assert (He : parts (effs [] kids no_fields) = (no_current, [] ++ entries_at P_ENTRY kids)).
  { apply (effs_entries [] P_ENTRY); [| done]. apply list.Forall_forall. intros n _ f Hf.
    by apply (eff_entries n [] "metadata"). }
  injection He as Hc He. revert Hv Ht Hb Hu Hc He. unfold fields_at, entries_at.
  generalize (effs [] kids no_fields) as f. intros [] ; cbn. by intros -> -> -> -> -> ->.
Qed.

(** The reader of SNAPSHOT metadata is a query: on every document that
    the lexer splits into a well-formed tree (self-closing elements dropped),
    the event loop with its path stack and accumulators yields the version,
    timestamp, build number and update time found last at their paths, and
    one entry for each [snapshotVersion] that has an extension and a value,
    with its own classifier, in document order. *)
Theorem snapshot_metadata_tree xml kids :
  List.filter full (plain_tokens xml) = events kids -> forallb readable kids ->
  parse_snapshot_metadata xml = Ok <$> assemble (fields_at kids).
Proof.
  intros Hx Hr. unfold parse_snapshot_metadata.
  by rewrite <- scan_full, Hx, scan_document, effs_fields.
Qed.

End Reader.
(** ** The versions of a document *)

(** Where the walk of [parse_versions_list] is. *)
Inductive Place : Type := Outside | InVersioning | InVersions | InVersion.

Definition flags_of (m : Place) : Flags :=
  match m with
  | Outside => mkFlags false false false
  | InVersioning => mkFlags true false false
  | InVersions => mkFlags true true false
  | InVersion => mkFlags true true true
  end.

Definition enter (m : Place) (name : string) : Place :=
  match m with
  | Outside => if String.eqb name "versioning" then InVersioning else Outside
  | InVersioning => if String.eqb name "versions" then InVersions else InVersioning
  | InVersions => if String.eqb name "version" then InVersion else InVersions
  | InVersion => InVersion
  end.

(** The elements that the flags would lose track of. *)
Definition strays (m : Place) : list string :=
  match m with
  | Outside => []
  | InVersioning => ["versioning"]
  | InVersions => ["versioning"; "versions"]
  | InVersion => ["versioning"; "versions"; "version"]
  end.

Fixpoint regular (m : Place) (n : Node) : bool :=
  match n with
  | Elem name _ kids => bool_decide (name ∉ strays m) && forallb (regular (enter m name)) kids
  | Content _ => true
  end.

(** The texts below [versioning], [versions] and [version]. *)
Fixpoint versions_in (m : Place) (n : Node) : list string :=
  match n with
  | Elem name _ kids => flat_map (versions_in (enter m name)) kids
  | Content (Text raw) => match m with InVersion => version_text raw | _ => [] end
  | Content _ => []
  end.

Lemma enter_start m name : name ∉ strays m -> on_start name (flags_of m) = flags_of (enter m name).
Proof.
  intros H. unfold on_start. destruct m; cbn [strays] in H; cbn;
    rewrite ?not_elem_of_cons in H; rewrite ?andb_false_r, ?andb_true_r;
    repeat match goal with |- context [String.eqb name ?x] =>
      destruct (String.eqb_spec name x); subst; cbn end; tauto || done.
Qed.

Lemma enter_end m name :
  name ∉ strays m -> on_end name (flags_of (enter m name)) = flags_of m.
Proof.
  intros H. unfold on_end. destruct m; cbn [strays] in H; cbn;
    rewrite ?not_elem_of_cons in H;
    repeat match goal with |- context [String.eqb name ?x] =>
      destruct (String.eqb_spec name x); subst; cbn end; tauto || done.
Qed.

Lemma versions_loop_nodes kids :
  Forall (fun n => forall m out rest, regular m n ->
    versions_loop (flags_of m) out (flatten n ++ rest)
    = versions_loop (flags_of m) (out ++ versions_in m n) rest) kids ->
  forall m out rest, forallb (regular m) kids ->
  versions_loop (flags_of m) out (events kids ++ rest)
  = versions_loop (flags_of m) (out ++ flat_map (versions_in m) kids) rest.
Proof.
  induction 1 as [|n kids Hn _ IH]; intros m out rest; [by rewrite app_nil_r |]. cbn [forallb].
  intros [H1 H2]%andb_True. rewrite events_cons, Hn, IH by done. cbn. by rewrite <- app_assoc.
Qed.

Lemma versions_loop_node n : forall m out rest, regular m n ->
  versions_loop (flags_of m) out (flatten n ++ rest)
  = versions_loop (flags_of m) (out ++ versions_in m n) rest.
Proof.
  induction n as [name attrs kids IH|l] using node_tree_ind; intros m out rest Hr.
  - cbn [regular] in Hr. apply andb_True in Hr as [Hs%bool_decide_unpack Hk].
    rewrite flatten_elem. cbn [versions_loop]. rewrite (enter_start m name) by done.
    rewrite versions_loop_nodes by done. cbn [versions_loop]. by rewrite enter_end.
  - destruct l; cbn; rewrite ?app_nil_r; try done. destruct m; cbn; by rewrite ?app_nil_r.
Qed.

Lemma versions_loop_full f out s : versions_loop f out (List.filter full s) = versions_loop f out s.
Proof.
  revert f out. induction s as [|[[]|] s IH]; intros f out; cbn; try done.
  destruct l; apply IH.
Qed.

(** The version list of an artifact: on every document tree in which
    [versioning], [versions] and [version] elements do not nest into each
    other the wrong way round, [parse_versions_list] returns the non-empty
    texts of the [version] elements of [versions] of [versioning], trimmed
    and in document order, whatever else the document holds. *)
Theorem versions_list_tree `{P : PlainXml} xml kids :
  List.filter full (plain_tokens xml) = events kids -> forallb (regular Outside) kids ->
  parse_versions_list xml = flat_map (versions_in Outside) kids.
Proof.
  intros Hx Hr. unfold parse_versions_list. change (mkFlags false false false) with (flags_of Outside).
  rewrite <- versions_loop_full, Hx, <- (app_nil_r (events kids)), versions_loop_nodes; [done | | done].
  apply list.Forall_forall. intros n _. apply versions_loop_node.
Qed.

(** ** Examples *)

Module Sample.

Definition txt (s : string) : Node := Content (Text s).
Definition el (name : string) (kids : list Node) : Node := Elem name [] kids.

#[local] Instance xml : QuickXml := {| tokens := fun _ => []; decode := Ok; unescape := Ok |}.

Definition publish : list Node :=
  [el "metadata" [
     el "groupId" [txt "g"]; el "version" [txt "1.0-SNAPSHOT"];
     el "versioning" [
       el "snapshot" [el "timestamp" [txt "20240101.123456"]; el "buildNumber" [txt "7"]];
       el "lastUpdated" [txt "20240101123456"];
       el "snapshotVersions" [
         el "snapshotVersion" [el "classifier" [txt "sources"]; el "extension" [txt "jar"];
                               el "value" [txt "1.0-20240101.123456-7"]; el "updated" [txt "2"]];
         el "snapshotVersion" [el "classifier" [txt "lost"]; el "value" [txt "no extension"]];
         el "snapshotVersion" [el "extension" [txt "pom"]; el "value" [txt "1.0-20240101.123456-6"]]]]]].

#[local] Instance lexer : PlainXml := fun s =>
  if String.eqb s "snapshot" then Ok (Other Decl) :: Ok (Empty "hollow") :: events publish
  else events [el "metadata" [el "version" [txt "9"];
         el "versioning" [el "latest" [txt "2"]; el "versions" [el "version" [txt " 1 "]; el "version" [];
           el "version" [txt "2"]]]]].

Definition published : SnapshotInfo :=
  mkInfo (Some (mkSnapshotMetadata "1.0-20240101.123456-7" "20240101.123456" 7 (Some "20240101123456")))
    [mkEntry "jar" (Some "sources") "1.0-20240101.123456-7" "2";
     mkEntry "pom" None "1.0-20240101.123456-6" ""].

Lemma snapshot_metadata_tree_witness :
  parse_snapshot_metadata "snapshot" = Some (Ok published).
Proof.
  rewrite (snapshot_metadata_tree "snapshot" (Content Decl :: publish)).
  - vm_compute. reflexivity.
  - vm_compute. reflexivity.
  - vm_compute. exact I.
Defined.

Lemma versions_list_tree_witness : parse_versions_list "versions" = ["1"; "2"].
Proof.
  rewrite (versions_list_tree "versions" [el "metadata" [el "version" [txt "9"];
         el "versioning" [el "latest" [txt "2"]; el "versions" [el "version" [txt " 1 "]; el "version" [];
           el "version" [txt "2"]]]]]).
  - vm_compute. reflexivity.
  - vm_compute. reflexivity.
  - vm_compute. exact I.
Defined.

End Sample.
End MetadataXml.
