(* ===== verification/Skipper.v ===== *)
(** * barista-resolver: the skipper

    Models crates/barista-resolver/src/skipper.rs: exclusion patterns and
    sets, and the state that decides whether the walker visits a candidate.
    The winners map is a parameter of [decide] only through the depth of the
    winner. *)

From S2P Require Import Prelude Coords Pom.

Module Skipper.
Import Coords.

(** ** Exclusions *)

Record ExclusionPattern := mkPattern { pat_group : string; pat_artifact : string }.

#[export] Instance ExclusionPattern_eq_dec : EqDecision ExclusionPattern.
Proof. solve_decision. Defined.

#[export] Instance ExclusionPattern_countable : Countable ExclusionPattern.
Proof.
  refine (inj_countable' (fun p => (pat_group p, pat_artifact p)) (fun q => mkPattern q.1 q.2) _).
  by intros [].
Defined.

Definition pattern_new (group artifact : string) : ExclusionPattern :=
  mkPattern (if is_empty group then "*" else group) (if is_empty artifact then "*" else artifact).

Definition matches (p : ExclusionPattern) (c : Coords) : bool :=
  (String.eqb (pat_group p) "*" || String.eqb (pat_group p) (group c))
  && (String.eqb (pat_artifact p) "*" || String.eqb (pat_artifact p) (artifact c)).

Definition subsumes (p other : ExclusionPattern) : bool :=
  (String.eqb (pat_group p) "*" || String.eqb (pat_group p) (pat_group other))
  && (String.eqb (pat_artifact p) "*" || String.eqb (pat_artifact p) (pat_artifact other)).

Definition ExclusionSet : Type := gset ExclusionPattern.

Definition from_raw (raw : list Pom.RawExclusion) : ExclusionSet :=
  fold_left (fun s r => {[pattern_new (Pom.x_group_id r) (Pom.x_artifact_id r)]} ∪ s) raw ∅.

Definition matches_any (s : ExclusionSet) (c : Coords) : bool :=
  existsb (fun p => matches p c) (elements s).

Definition contains_matching (s : ExclusionSet) (pat : ExclusionPattern) : bool :=
  existsb (fun our => subsumes our pat) (elements s).

Definition is_superset_of (s other : ExclusionSet) : bool :=
  forallb (contains_matching s) (elements other).

(** ** Decisions *)

Inductive SkipReason : Type :=
  | AlreadyResolvedShallowerWithCompatibleExclusions (winning_depth new_depth : Z)
  | KnownLeaf.

Inductive SkipDecision : Type :=
  | Walk
  | Skip (reason : SkipReason).

Record SkipperStats := mkStats {
  skips_already_resolved : Z;
  skips_known_leaf : Z;
  walks : Z
}.

Definition stats_zero : SkipperStats := mkStats 0 0 0.

(** [u64] additions without overflow check in release builds. *)
Definition total_skips (s : SkipperStats) : Z :=
  u64_wrap_add (skips_already_resolved s) (skips_known_leaf s).
Definition total_decisions (s : SkipperStats) : Z := u64_wrap_add (walks s) (total_skips s).

Definition bump_already (s : SkipperStats) : SkipperStats :=
  mkStats (u64_wrap_add (skips_already_resolved s) 1) (skips_known_leaf s) (walks s).
Definition bump_leaf (s : SkipperStats) : SkipperStats :=
  mkStats (skips_already_resolved s) (u64_wrap_add (skips_known_leaf s) 1) (walks s).
Definition bump_walks (s : SkipperStats) : SkipperStats :=
  mkStats (skips_already_resolved s) (skips_known_leaf s) (u64_wrap_add (walks s) 1).

Record SkipperState := mkSkipper {
  winners_exclusions : gmap Coords ExclusionSet;
  known_leaves : gset Coords;
  stats : SkipperStats;
  enabled : bool
}.

Definition skipper_new : SkipperState := mkSkipper ∅ ∅ stats_zero true.
Definition skipper_disabled : SkipperState := mkSkipper ∅ ∅ stats_zero false.

Definition set_stats (s : SkipperState) (st : SkipperStats) : SkipperState :=
  mkSkipper (winners_exclusions s) (known_leaves s) st (enabled s).

(** [decide]; [winner_depth] is the depth of the current winner of [coords],
    if it has one. *)
Definition decide_visit (s : SkipperState) (coords : Coords) (depth : Z)
    (path_exclusions : ExclusionSet) (winner_depth : option Z) : SkipDecision * SkipperState :=
  if negb (enabled s) then (Walk, set_stats s (bump_walks (stats s)))
  else if decide (coords ∈ known_leaves s) then
    (Skip KnownLeaf, set_stats s (bump_leaf (stats s)))
  else
    let walk := (Walk, set_stats s (bump_walks (stats s))) in
    match winner_depth with
    | Some wd =>
        if (wd <? depth)%Z then
          let winner_excl := default ∅ (winners_exclusions s !! coords) in
          if is_superset_of path_exclusions winner_excl then
            (Skip (AlreadyResolvedShallowerWithCompatibleExclusions wd depth),
             set_stats s (bump_already (stats s)))
          else walk
        else walk
    | None => walk
    end.

Definition record_visit (s : SkipperState) (coords : Coords) (path_exclusions : ExclusionSet)
    (was_leaf : bool) : SkipperState :=
  if negb (enabled s) then s
  else mkSkipper (<[coords := path_exclusions]> (winners_exclusions s))
         (if was_leaf then {[coords]} ∪ known_leaves s else known_leaves s)
         (stats s) (enabled s).

(** ** Exclusion sets denote sets of coordinates *)

Lemma existsb_elements (f : ExclusionPattern -> bool) (s : ExclusionSet) :
  existsb f (elements s) = true <-> exists p, p ∈ s /\ f p = true.
Proof.
  rewrite existsb_exists. split; intros (p & Hp & Hf); exists p; split; try done.
  - by apply list_elem_of_In, elem_of_elements in Hp.
  - by apply list_elem_of_In, elem_of_elements.
Qed.

Lemma is_superset_of_true (s other : ExclusionSet) :
  is_superset_of s other = true <-> forall q, q ∈ other -> exists p, p ∈ s /\ subsumes p q = true.
Proof.
  unfold is_superset_of. rewrite forallb_forall. split.
  - intros H q Hq. apply existsb_elements, H, list_elem_of_In. by apply elem_of_elements.
  - intros H q Hq%list_elem_of_In%elem_of_elements. by apply existsb_elements, H.
Qed.

Lemma eqb_or (a b c : string) : String.eqb a b || String.eqb a c = true <-> a = b \/ a = c.
Proof. by rewrite orb_true_iff, !String.eqb_eq. Qed.

Lemma subsumes_matches p q c : subsumes p q = true -> matches q c = true -> matches p c = true.
Proof.
  unfold subsumes, matches. rewrite !andb_true_iff, !eqb_or.
  intros [[-> | ->] [-> | ->]] [H1 H2]; auto.
Qed.

(** A name that no pattern of the set mentions, and that is not the wildcard. *)
Definition fresh_name (f : ExclusionPattern -> string) (s : ExclusionSet) : string :=
  fresh ({["*"]} ∪ set_map f s : gset string).

Lemma fresh_name_spec f s : fresh_name f s <> "*" /\ forall p, p ∈ s -> f p <> fresh_name f s.
Proof.
  pose proof (is_fresh ({["*"]} ∪ set_map f s : gset string)) as H. unfold fresh_name.
  rewrite not_elem_of_union, not_elem_of_singleton in H. destruct H as [H1 H2]. split; [done |].
  intros p Hp He. apply H2. rewrite <- He. by apply elem_of_map_2.
Qed.

(** The coordinate a pattern stands for against a set: wildcards become names
    the set does not mention. *)
Definition sample (s : ExclusionSet) (q : ExclusionPattern) : Coords :=
  mkCoords (if String.eqb (pat_group q) "*" then fresh_name pat_group s else pat_group q)
           (if String.eqb (pat_artifact q) "*" then fresh_name pat_artifact s else pat_artifact q).

Lemma sample_component f s p x :
  p ∈ s -> (f p = "*" \/ f p = if String.eqb x "*" then fresh_name f s else x) ->
  f p = "*" \/ f p = x.
Proof.
  intros Hp [H|H]; [by left |]. destruct (fresh_name_spec f s) as [_ Hf].
  destruct (String.eqb x "*"); [|by right]. by destruct (Hf p Hp).
Qed.

Lemma sample_subsumes s p q : p ∈ s -> matches p (sample s q) = true -> subsumes p q = true.
Proof.
  intros Hp. unfold matches, subsumes, sample. cbn. rewrite !andb_true_iff, !eqb_or.
  intros [H1 H2]. split; eapply sample_component; eauto.
Qed.

Lemma sample_matches s q : matches q (sample s q) = true.
Proof.
  unfold matches, sample. cbn. rewrite andb_true_iff.
  split; [destruct (String.eqb (pat_group q) "*") | destruct (String.eqb (pat_artifact q) "*")];
    cbn; auto; apply String.eqb_refl.
Qed.

(** [is_superset_of] decides inclusion of the coordinates the two sets
    exclude: it answers yes exactly when every coordinate the other set
    excludes is excluded by this one. *)
Theorem is_superset_of_exact (s other : ExclusionSet) :
  is_superset_of s other = true <->
  forall c, matches_any other c = true -> matches_any s c = true.
Proof.
  rewrite is_superset_of_true. split.
  - intros H c (q & Hq & Hm)%existsb_elements. destruct (H q Hq) as (p & Hp & Hs).
    apply existsb_elements. exists p. split; [done |]. by eapply subsumes_matches.
  - intros H q Hq. destruct (proj1 (existsb_elements _ _) (H (sample s q)
      (proj2 (existsb_elements _ _) (ex_intro _ q (conj Hq (sample_matches s q)))))) as (p & Hp & Hm).
    exists p. split; [done |]. by eapply sample_subsumes.
Qed.

(** A skip is only ever decided for a leaf already expanded, or for a
    coordinate that has a strictly shallower winner. *)
Lemma decide_skip s c d x wd r s' :
  decide_visit s c d x wd = (Skip r, s') ->
  enabled s = true /\ (c ∈ known_leaves s \/ exists w, wd = Some w /\ (w < d)%Z).
Proof.
  unfold decide_visit. destruct (enabled s); cbn; [|done]. case_decide; [by intros _; split; [|left] |].
  destruct wd as [w|]; [|done]. destruct (w <? d)%Z eqn:E; [|done].
  destruct (is_superset_of _ _); [|done]. intros _. split; [done |]. right. exists w.
  split; [done | by apply Z.ltb_lt].
Qed.

Lemma decide_frame s c d x wd dec s' :
  decide_visit s c d x wd = (dec, s') ->
  enabled s' = enabled s /\ known_leaves s' = known_leaves s
  /\ winners_exclusions s' = winners_exclusions s.
Proof.
  unfold decide_visit. intros H. repeat (case_match; simplify_eq/=; try done).
Qed.

Lemma decide_disabled s c d x wd :
  enabled s = false -> decide_visit s c d x wd = (Walk, set_stats s (bump_walks (stats s))).
Proof. unfold decide_visit. by intros ->. Qed.

End Skipper.
