(* ===== verification/Oreq.v ===== *)
(** * barista-resolver: the request-optimisation session

    Models crates/barista-resolver/src/oreq.rs.  An operation takes the
    session and returns its answer with the session after it; the counters
    are [AtomicU64]s, so they wrap. *)

From S2P Require Import Prelude Coords Pom Profile Source.

Module Oreq.
Import Coords.

Record OreqStats := mkOreqStats {
  oreq_01_avoided : Z;
  oreq_02_avoided : Z;
  oreq_03_avoided : Z;
  oreq_04_avoided : Z;
  oreq_05_avoided : Z
}.

Definition OreqStats_default : OreqStats := mkOreqStats 0 0 0 0 0.

Definition total_avoided (s : OreqStats) : Z :=
  u64_sat_add (u64_sat_add (u64_sat_add (u64_sat_add (oreq_01_avoided s) (oreq_02_avoided s))
    (oreq_03_avoided s)) (oreq_04_avoided s)) (oreq_05_avoided s).

(** [OreqCounters]: the same five numbers, live. *)
Record OreqCounters := mkCounters {
  oreq_01_metadata_dedup_avoided : Z;
  oreq_02_conditional_revalidations : Z;
  oreq_03_frozen_metadata_skipped : Z;
  oreq_04_parent_pom_dedup_avoided : Z;
  oreq_05_effective_pom_dedup_avoided : Z
}.

Definition snapshot (c : OreqCounters) : OreqStats :=
  mkOreqStats (oreq_01_metadata_dedup_avoided c) (oreq_02_conditional_revalidations c)
    (oreq_03_frozen_metadata_skipped c) (oreq_04_parent_pom_dedup_avoided c)
    (oreq_05_effective_pom_dedup_avoided c).

Inductive Counter : Type := C01 | C02 | C03 | C04 | C05.

(** [counter.fetch_add(1)]. *)
Definition fetch_add (k : Counter) (c : OreqCounters) : OreqCounters :=
  let bump k' n := match k, k' with
                   | C01, C01 | C02, C02 | C03, C03 | C04, C04 | C05, C05 => u64_wrap_add n 1
                   | _, _ => n
                   end in
  mkCounters (bump C01 (oreq_01_metadata_dedup_avoided c))
    (bump C02 (oreq_02_conditional_revalidations c))
    (bump C03 (oreq_03_frozen_metadata_skipped c))
    (bump C04 (oreq_04_parent_pom_dedup_avoided c))
    (bump C05 (oreq_05_effective_pom_dedup_avoided c)).

(** [MetadataKey] and [PomKey]. *)
Definition MetadataKey : Type := string * Coords.
Definition PomKey : Type := Coords * string.

Record OreqSession := mkSession {
  counters : OreqCounters;
  metadata_cache : gmap MetadataKey Source.GaMetadata;
  frozen_pins : option (gmap Coords string);
  raw_pom_cache : gmap PomKey Pom.RawPom;
  resolved_pom_cache : gmap PomKey Profile.ResolvedPom
}.

Definition new : OreqSession := mkSession (mkCounters 0 0 0 0 0) ∅ None ∅ ∅.

Definition with_frozen_pins (s : OreqSession) (pins : gmap Coords string) : OreqSession :=
  mkSession (counters s) (metadata_cache s) (Some pins) (raw_pom_cache s) (resolved_pom_cache s).

Definition is_frozen (s : OreqSession) : bool :=
  match frozen_pins s with Some _ => true | None => false end.

Definition frozen_pin (s : OreqSession) (c : Coords) : option string :=
  match frozen_pins s with Some p => p !! c | None => None end.

Definition bump (k : Counter) (s : OreqSession) : OreqSession :=
  mkSession (fetch_add k (counters s)) (metadata_cache s) (frozen_pins s) (raw_pom_cache s)
    (resolved_pom_cache s).

Definition lookup_metadata (key : MetadataKey) (s : OreqSession)
    : option Source.GaMetadata * OreqSession :=
  match metadata_cache s !! key with
  | Some md => (Some md, bump C01 s)
  | None => (None, s)
  end.

Definition record_metadata_origin (origin : Source.FetchOrigin) (s : OreqSession) : OreqSession :=
  match origin with
  | Source.Disk | Source.InMemory => bump C02 s
  | Source.Remote | Source.Fixture => s
  end.

Definition deposit_metadata (key : MetadataKey) (md : Source.GaMetadata)
    (origin : Source.FetchOrigin) (s : OreqSession) : OreqSession :=
  let s := record_metadata_origin origin s in
  mkSession (counters s) (<[key := md]> (metadata_cache s)) (frozen_pins s) (raw_pom_cache s)
    (resolved_pom_cache s).

Definition record_frozen_skip (s : OreqSession) : OreqSession := bump C03 s.

Definition lookup_parent_pom (c : Coords) (v : string) (s : OreqSession)
    : option Pom.RawPom * OreqSession :=
  match raw_pom_cache s !! (c, v) with
  | Some p => (Some p, bump C04 s)
  | None => (None, s)
  end.

Definition deposit_parent_pom (c : Coords) (v : string) (p : Pom.RawPom) (s : OreqSession)
    : OreqSession :=
  mkSession (counters s) (metadata_cache s) (frozen_pins s) (<[(c, v) := p]> (raw_pom_cache s))
    (resolved_pom_cache s).

Definition lookup_effective_pom (c : Coords) (v : string) (s : OreqSession)
    : option Profile.ResolvedPom * OreqSession :=
  match resolved_pom_cache s !! (c, v) with
  | Some r => (Some r, bump C05 s)
  | None => (None, s)
  end.

Definition deposit_effective_pom (c : Coords) (v : string) (r : Profile.ResolvedPom)
    (s : OreqSession) : OreqSession :=
  mkSession (counters s) (metadata_cache s) (frozen_pins s) (raw_pom_cache s)
    (<[(c, v) := r]> (resolved_pom_cache s)).

Definition stats (s : OreqSession) : OreqStats := snapshot (counters s).

End Oreq.
