(* ===== verification/Walker.v ===== *)
(** * barista-resolver: the breadth-first walker

    Models crates/barista-resolver/src/walker.rs: scope inheritance, version
    resolution, the effective POM of a transitive dependency and the
    nearest-wins walk.  The optional session of [WalkOptions::oreq] is shared
    and mutable in the code; here it is threaded through every function, and
    survives errors. *)

From stdpp Require Import sorting.
From S2P Require Import Prelude Version Coords VersionSpec Pom Effective Profile Source Skipper Oreq.

Module Walker.
Import Coords.

(** ** Data *)

Inductive Scope : Type := Compile | Provided | Runtime | Test | System | Import.

#[export] Instance Scope_eq_dec : EqDecision Scope.
Proof. solve_decision. Defined.

(** [Scope::parse]. *)
Definition scope_parse (raw : option string) : Scope :=
  let t := default "" (trim <$> raw) in
  if String.eqb t "compile" || String.eqb t "" then Compile
  else if String.eqb t "provided" then Provided
  else if String.eqb t "runtime" then Runtime
  else if String.eqb t "test" then Test
  else if String.eqb t "system" then System
  else if String.eqb t "import" then Import
  else Compile.

(** [Scope::inherit]. *)
Definition inherit (parent_path_scope declared : Scope) : option Scope :=
  match declared with
  | Provided | Test | System | Import => None
  | Compile | Runtime =>
      match parent_path_scope with
      | Provided | System | Import => None
      | Compile | Runtime | Test =>
          match parent_path_scope, declared with
          | Compile, Compile => Some Compile
          | Compile, Runtime => Some Runtime
          | Runtime, Compile => Some Runtime
          | Runtime, Runtime => Some Runtime
          | Test, Compile => Some Test
          | Test, Runtime => Some Test
          | _, _ => None
          end
      end
  end.

Record ResolvedDep := mkResolvedDep {
  coords : Coords;
  version : string;
  scope : Scope;
  classifier : option string;
  type_ : string;
  optional : bool;
  depth : Z;
  winning_path : list Coords
}.

Record AuditEntry := mkAudit {
  au_coords : Coords;
  winning_version : string;
  winning_depth : Z;
  also_seen_at : list (string * Z)
}.

Record ResolvedGraph := mkGraph {
  resolved : list ResolvedDep;
  graph_winners : gmap Coords ResolvedDep;
  graph_warnings : list VersionSpec.SpecWarning;
  audit : list AuditEntry;
  skipper_stats : Skipper.SkipperStats;
  oreq_stats : Oreq.OreqStats
}.

(** [WalkOptions], less the session. *)
Record WalkOptions := mkOptions {
  strip_optional : bool;
  include_scopes : list Scope;
  activation : Profile.ActivationContext;
  enable_skipper : bool;
  repo_id : string
}.

Definition WalkOptions_default : WalkOptions :=
  mkOptions true [] Profile.ActivationContext_default true "default".

(** Texts that the code formats from a cause ([detail], the [{spec:?}] of a
    missing candidate) are carried as that cause. *)
Inductive SnapshotDetail : Type :=
  | NoSnapshotVersionEntry (extension : string) (classifier : option string)
  | SnapshotFetch (e : Source.MetadataError).

Inductive EffectiveDetail : Type :=
  | UnparseableMissing (missing : string)
  | ResolveFailed (e : Profile.ResolveError)
  | NotConverged.

Inductive WalkError : Type :=
  | Metadata (e : Source.MetadataError)
  | InvalidSpec (coords spec : string) (detail : VersionSpec.ParseError)
  | MissingVersion (coords : string)
  | NoMetaVersionCandidate (coords : string) (spec : VersionSpec.VersionSpec)
  | InvalidCoords (group artifact : string) (e : ParseError)
  | SnapshotResolution (coords version : string) (detail : SnapshotDetail)
  | ParentChainResolution (coords version : string) (detail : ParseError + WalkError)
  | EffectivePomResolution (coords version : string) (detail : EffectiveDetail).

(** ** The session monad *)

Definition Sess : Type := option Oreq.OreqSession.
Definition W (A : Type) : Type := Sess -> result WalkError A * Sess.

#[export] Instance W_ret : MRet W := fun A a s => (Ok a, s).
#[export] Instance W_bind : MBind W := fun A B k m s =>
  match m s with
  | (Ok a, s') => k a s'
  | (Err e, s') => (Err e, s')
  end.

Definition lift {A} (r : result WalkError A) : W A := fun s => (r, s).

(** [.map_err(f)] on an awaited call. *)
Definition map_err_w {A} (f : WalkError -> WalkError) (m : W A) : W A := fun s =>
  match m s with (Ok a, s') => (Ok a, s') | (Err e, s') => (Err (f e), s') end.

(** [if let Some(session) = opts.oreq.as_ref()] around a session call. *)
Definition session_call {A} (f : Oreq.OreqSession -> option A * Oreq.OreqSession) : W (option A) :=
  fun s => match s with
           | Some session => let '(a, session') := f session in (Ok a, Some session')
           | None => (Ok None, None)
           end.

Definition session_do (f : Oreq.OreqSession -> Oreq.OreqSession) : W unit :=
  fun s => (Ok tt, f <$> s).

(** ** Small helpers *)

Definition matches_any_exclusion (c : Coords) (xs : list Pom.RawExclusion) : bool :=
  existsb (fun x =>
    (String.eqb (Pom.x_group_id x) "*" || String.eqb (Pom.x_group_id x) (group c))
    && (String.eqb (Pom.x_artifact_id x) "*" || String.eqb (Pom.x_artifact_id x) (artifact c))) xs.

Definition scope_included (s : Scope) (included : list Scope) : bool :=
  match included with
  | [] => negb (bool_decide (s = Import))
  | _ => bool_decide (s ∈ included)
  end.

Definition parse_bool (s : option string) : bool := bool_decide (trim <$> s = Some "true").

Definition interval_contains (iv : VersionSpec.Interval) (v : Version.Version) : bool :=
  let lower_ok := match VersionSpec.lower iv with
                  | VersionSpec.Unbounded => true
                  | VersionSpec.Included b => Version.ge v b
                  | VersionSpec.Excluded b => Version.gt v b
                  end in
  let upper_ok := match VersionSpec.upper iv with
                  | VersionSpec.Unbounded => true
                  | VersionSpec.Included b => Version.le v b
                  | VersionSpec.Excluded b => Version.lt v b
                  end in
  lower_ok && upper_ok.

(** [s.ends_with(t)]. *)
Definition str_ends_with (t s : string) : bool :=
  (String.length t <=? String.length s)
  && String.eqb (str_drop (String.length s - String.length t) s) t.

(** [Iterator::max_by]: of two elements the later one, unless the earlier is
    greater. *)
Definition max_by {A} (cmp : A -> A -> comparison) (l : list A) : option A :=
  match l with
  | [] => None
  | x :: l' => Some (fold_left (fun acc y => match cmp acc y with Gt => acc | _ => y end) l' x)
  end.

(** [parse_gav]: [splitn(3, ':')] with three non-empty parts. *)
Definition parse_gav (s : string) : option Pom.Gav :=
  match str_split_once ":" s with
  | Some (g, rest) =>
      match str_split_once ":" rest with
      | Some (a, v) => if is_empty g || is_empty a || is_empty v then None else Some (g, a, v)
      | None => None
      end
  | None => None
  end.

Definition MAX_PARENT_PREFETCH_ROUNDS : nat := 64.

Section Walk.
Context `{CF : CaseFolding} `{ENV : Environment} `{FS : FileSystem} `{SRC : Source.MetadataSource}.
Context (opts : WalkOptions).

(** ** Fetches through the session *)

Definition fetch_metadata_via_session (c : Coords) : W Source.GaMetadata :=
  let key := (repo_id opts, c) in
  hit ← session_call (Oreq.lookup_metadata key);
  match hit with
  | Some md => mret md
  | None =>
      '(md, origin) ← lift (map_err Metadata (Source.fetch_metadata c));
      _ ← session_do (Oreq.deposit_metadata key md origin);
      mret md
  end.

Definition fetch_pom_via_session (c : Coords) (v : string) : W (Pom.RawPom * Source.FetchOrigin) :=
  hit ← session_call (Oreq.lookup_parent_pom c v);
  match hit with
  | Some p => mret (p, Source.InMemory)
  | None =>
      '(p, origin) ← lift (map_err Metadata (Source.fetch_pom c v));
      _ ← session_do (Oreq.deposit_parent_pom c v p);
      mret (p, origin)
  end.

(** ** Version resolution *)

(** The versions of the metadata inside one of the intervals. *)
Definition in_range (intervals : list VersionSpec.Interval) (v : string) : bool :=
  existsb (fun iv => interval_contains iv (Version.parse v)) intervals.

Definition frozen_pin (c : Coords) : W (option string) :=
  fun s => (Ok (s ≫= fun session => Oreq.frozen_pin session c), s).

(** [resolve_spec]; the warnings it pushes are returned. *)
Definition resolve_spec (spec : VersionSpec.VersionSpec) (c : Coords)
    : W (string * list VersionSpec.SpecWarning) :=
  pin ← frozen_pin c;
  let no_candidate := NoMetaVersionCandidate (display c) spec in
  match spec with
  | VersionSpec.Soft v =>
      match pin with
      | Some pin => _ ← session_do Oreq.record_frozen_skip; mret (pin, [])
      | None => mret (v, [])
      end
  | VersionSpec.Hard intervals =>
      let use_metadata :=
        md ← fetch_metadata_via_session c;
        match max_by (fun a b => Version.cmp (Version.parse a) (Version.parse b))
                (List.filter (in_range intervals) (Source.versions md)) with
        | Some picked => mret (picked, [])
        | None => lift (Err no_candidate)
        end in
      match pin with
      | Some pin =>
          if in_range intervals pin then _ ← session_do Oreq.record_frozen_skip; mret (pin, [])
          else use_metadata
      | None => use_metadata
      end
  | VersionSpec.Latest =>
      match pin with
      | Some pin =>
          _ ← session_do Oreq.record_frozen_skip;
          mret (pin, [VersionSpec.LatestUsed (display c) pin])
      | None =>
          md ← fetch_metadata_via_session c;
          picked ← lift (ok_or (list.last (Source.versions md)) no_candidate);
          mret (picked, [VersionSpec.LatestUsed (display c) picked])
      end
  | VersionSpec.Release =>
      match pin with
      | Some pin =>
          _ ← session_do Oreq.record_frozen_skip;
          mret (pin, [VersionSpec.ReleaseUsed (display c) pin])
      | None =>
          md ← fetch_metadata_via_session c;
          picked ← lift (ok_or (List.find (fun v => negb (str_ends_with "-SNAPSHOT" v))
                                  (rev (Source.versions md))) no_candidate);
          mret (picked, [VersionSpec.ReleaseUsed (display c) picked])
      end
  end.

Definition resolve_snapshot_fetch_version (v : string) (c : Coords) (dep : Pom.RawDependency)
    : result WalkError string :=
  if negb (Version.is_snapshot (Version.parse v)) then Ok v
  else match Source.fetch_snapshot_info c v with
       | Ok (info, _) =>
           let extension := default "jar" (Pom.d_type dep) in
           let cls := Pom.d_classifier dep in
           match Snapshot.pick_version info extension cls with
           | Some ts => Ok ts
           | None => Err (SnapshotResolution (display c) v (NoSnapshotVersionEntry extension cls))
           end
       | Err (Source.MetadataNotFound _) => Ok v
       | Err e => Err (SnapshotResolution (display c) v (SnapshotFetch e))
       end.

(** ** The effective POM of a dependency *)

(** [MapParentResolver::resolve]. *)
Definition map_parent_resolver (chain : gmap Pom.Gav Pom.RawPom) : Effective.ParentResolver :=
  fun p => ok_or (chain !! Pom.parent_gav p)
             ("parent " +:+ Pom.gav_text (Pom.parent_gav p) +:+ " not in prefetched chain").

(** The [while let] of [prefetch_parent_chain]; [room] is
    [MAX_CHAIN_DEPTH - depth]. *)
Fixpoint prefetch_loop (room : nat) (current : option Pom.RawParent)
    (chain : gmap Pom.Gav Pom.RawPom) : W (gmap Pom.Gav Pom.RawPom) :=
  match current with
  | None => mret chain
  | Some p =>
      match room with
      | O => mret chain
      | S room' =>
          let key := Pom.parent_gav p in
          match chain !! key with
          | Some _ => mret chain
          | None =>
              c ← lift (map_err (fun e => ParentChainResolution
                          (Pom.par_group_id p +:+ ":" +:+ Pom.par_artifact_id p)
                          (Pom.par_version p) (inl e))
                     (Coords.new (Pom.par_group_id p) (Pom.par_artifact_id p)));
              '(parent_pom, _) ← map_err_w
                     (fun e => ParentChainResolution (display c) (Pom.par_version p) (inr e))
                     (fetch_pom_via_session c (Pom.par_version p));
              prefetch_loop room' (Pom.parent parent_pom) (<[key := parent_pom]> chain)
          end
      end
  end.

Definition prefetch_parent_chain (raw : Pom.RawPom) : W (gmap Pom.Gav Pom.RawPom) :=
  prefetch_loop Effective.MAX_CHAIN_DEPTH (Pom.parent raw) ∅.

(** The coordinates a failed resolution reports as missing. *)
Definition missing_coords (e : Profile.ResolveError) : option string :=
  match e with
  | Profile.EffectiveErr (Effective.ParentResolution missing _) => Some missing
  | Profile.BomImportResolution missing _ => Some missing
  | _ => None
  end.

(** The [for _ in 0..MAX_PARENT_PREFETCH_ROUNDS] of [resolve_child_pom]. *)
Fixpoint resolve_rounds (rounds : nat) (c : Coords) (v : string)
    (raw : Pom.RawPom) (chain : gmap Pom.Gav Pom.RawPom) : W Profile.ResolvedPom :=
  match rounds with
  | O => lift (Err (EffectivePomResolution (display c) v NotConverged))
  | S rounds' =>
      match Profile.resolve_pom raw (map_parent_resolver chain) (activation opts) with
      | Ok resolved => mret resolved
      | Err e =>
          match missing_coords e with
          | None => lift (Err (EffectivePomResolution (display c) v (ResolveFailed e)))
          | Some missing =>
              '(mg, ma, mv) ← lift (ok_or (parse_gav missing)
                   (EffectivePomResolution (display c) v (UnparseableMissing missing)));
              mc ← lift (map_err (fun e => ParentChainResolution (mg +:+ ":" +:+ ma) mv (inl e))
                           (Coords.new mg ma));
              '(missing_pom, _) ← map_err_w
                   (fun e => ParentChainResolution (display mc) mv (inr e))
                   (fetch_pom_via_session mc mv);
              extra ← prefetch_parent_chain missing_pom;
              resolve_rounds rounds' c v raw (extra ∪ <[(mg, ma, mv) := missing_pom]> chain)
          end
      end
  end.

Definition resolve_child_pom (c : Coords) (v : string) (raw : Pom.RawPom)
    : W Profile.ResolvedPom :=
  chain ← prefetch_parent_chain raw;
  resolve_rounds MAX_PARENT_PREFETCH_ROUNDS c v raw chain.

(** The [let resolved_child = ...] of [process_item].  Without a session the
    code calls the source directly, which is what [fetch_pom_via_session]
    does then. *)
Definition child_pom (c : Coords) (fetch_version : string)
    : W Profile.ResolvedPom :=
  hit ← session_call (Oreq.lookup_effective_pom c fetch_version);
  match hit with
  | Some r =>
      _ ← session_call (Oreq.lookup_parent_pom c fetch_version);
      mret r
  | None =>
      '(raw_pom, _) ← fetch_pom_via_session c fetch_version;
      r ← resolve_child_pom c fetch_version raw_pom;
      _ ← session_do (Oreq.deposit_effective_pom c fetch_version r);
      mret r
  end.

(** ** The walk *)

Record WorkItem := mkItem {
  it_dep : Pom.RawDependency;
  it_depth : Z;
  parent_path : list Coords;
  parent_scope : Scope;
  it_exclusions : list Pom.RawExclusion;
  is_direct : bool
}.

Record WalkState := mkState {
  queue : list WorkItem;
  winners : gmap Coords ResolvedDep;
  order : list Coords;
  losers : gmap Coords (list (string * Z));
  warnings : list VersionSpec.SpecWarning;
  skipper : Skipper.SkipperState
}.

Definition state_new (enable : bool) : WalkState :=
  mkState [] ∅ [] ∅ [] (if enable then Skipper.skipper_new else Skipper.skipper_disabled).

Definition set_skipper (st : WalkState) (sk : Skipper.SkipperState) : WalkState :=
  mkState (queue st) (winners st) (order st) (losers st) (warnings st) sk.

Definition set_queue (st : WalkState) (q : list WorkItem) : WalkState :=
  mkState q (winners st) (order st) (losers st) (warnings st) (skipper st).

(** [state.losers.entry(c).or_default().push(x)]. *)
Definition push_loser (c : Coords) (x : string * Z) (st : WalkState) : WalkState :=
  mkState (queue st) (winners st) (order st)
    (<[c := default [] (losers st !! c) ++ [x]]> (losers st)) (warnings st) (skipper st).

Definition push_warnings (ws : list VersionSpec.SpecWarning) (st : WalkState) : WalkState :=
  mkState (queue st) (winners st) (order st) (losers st) (warnings st ++ ws) (skipper st).

(** Recording the winner: [order] grows only for a new coordinate. *)
Definition record_winner (d : ResolvedDep) (st : WalkState) : WalkState :=
  mkState (queue st) (<[coords d := d]> (winners st))
    (match winners st !! coords d with Some _ => order st | None => order st ++ [coords d] end)
    (losers st) (warnings st) (skipper st).

Definition record_visit (c : Coords) (x : Skipper.ExclusionSet) (leaf : bool) (st : WalkState)
    : WalkState := set_skipper st (Skipper.record_visit (skipper st) c x leaf).

(** The items [enqueue_direct_deps] pushes. *)
Definition direct_items (deps : list Pom.RawDependency) : list WorkItem :=
  map (fun d => mkItem d 1 [] Compile [] true)
    (List.filter (fun d => negb (bool_decide (scope_parse (Pom.d_scope d) = Import))) deps).

Definition enqueue_direct_deps (deps : list Pom.RawDependency) (st : WalkState) : WalkState :=
  set_queue st (queue st ++ direct_items deps).

(** The items pushed for the dependencies of a winner's POM. *)
Definition child_items (item : WorkItem) (path : list Coords) (eff : Scope)
    (deps : list Pom.RawDependency) : list WorkItem :=
  map (fun d => mkItem d (u32_sat_add (it_depth item) 1) path eff
                  (it_exclusions item ++ Pom.d_exclusions (it_dep item)) false)
    (List.filter (fun d => negb (bool_decide (scope_parse (Pom.d_scope d) = Import))) deps).

(** The effective scope of step 2, or [None] when the item is dropped. *)
Definition effective_scope (item : WorkItem) : option Scope :=
  let declared := scope_parse (Pom.d_scope (it_dep item)) in
  if is_direct item then (if bool_decide (declared = Import) then None else Some declared)
  else inherit (parent_scope item) declared.

(** Steps 3 and 4 of [process_item]: the optional check ([None]: dropped),
    the version and the version to fetch. *)
Definition declared_version (c : Coords) (dep : Pom.RawDependency) : result WalkError string :=
  match Pom.d_version dep with
  | Some v => if is_empty (trim v) then Err (MissingVersion (display c)) else Ok v
  | None => Err (MissingVersion (display c))
  end.

Definition resolve_version (item : WorkItem) (c : Coords)
    : W (string * string * list VersionSpec.SpecWarning) :=
  raw_version ← lift (declared_version c (it_dep item));
  spec ← lift (map_err (InvalidSpec (display c) raw_version) (VersionSpec.parse raw_version));
  '(resolved_version, ws) ← resolve_spec spec c;
  fetch_version ← lift (resolve_snapshot_fetch_version resolved_version c (it_dep item));
  mret (resolved_version, fetch_version, ws).

(** Step 7: record the winner and enqueue its children. *)
Definition win (item : WorkItem) (c : Coords) (x : Skipper.ExclusionSet)
    (eff : Scope) (resolved_version fetch_version : string) (st : WalkState) : W WalkState :=
  let dep := it_dep item in
  let path := parent_path item ++ [c] in
  let st1 := record_winner
    (mkResolvedDep c resolved_version eff (Pom.d_classifier dep) (default "jar" (Pom.d_type dep))
       (parse_bool (Pom.d_optional dep)) (it_depth item) path) st in
  if bool_decide (eff = System) then mret (record_visit c x true st1)
  else
    r ← child_pom c fetch_version;
    let items := child_items item path eff (Pom.dependencies (Profile.pom r)) in
    mret (record_visit c x (match items with [] => true | _ => false end)
            (set_queue st1 (queue st1 ++ items))).

(** [process_item] after the skipper said [Walk]. *)
Definition visit (item : WorkItem) (c : Coords) (x : Skipper.ExclusionSet)
    (st : WalkState) : W WalkState :=
  match effective_scope item with
  | None => mret st
  | Some eff =>
      if parse_bool (Pom.d_optional (it_dep item)) && negb (is_direct item) && strip_optional opts
      then mret st
      else
        '(resolved_version, fetch_version, ws) ← resolve_version item c;
        let st := push_warnings ws st in
        match winners st !! c with
        | Some existing =>
            if (depth existing <=? it_depth item)%Z
            then mret (push_loser c (resolved_version, it_depth item) st)
            else win item c x eff resolved_version fetch_version
                   (push_loser c (version existing, depth existing) st)
        | None => win item c x eff resolved_version fetch_version st
        end
  end.

(** The version text recorded for a candidate the skipper drops. *)
Definition skipped_version (dep : Pom.RawDependency) : string :=
  match trim <$> Pom.d_version dep with
  | Some v => if is_empty v then "<unresolved>" else v
  | None => "<unresolved>"
  end.

Definition process_item (item : WorkItem) (st : WalkState) : W WalkState :=
  let dep := it_dep item in
  c ← lift (map_err (InvalidCoords (Pom.d_group_id dep) (Pom.d_artifact_id dep))
              (Coords.new (Pom.d_group_id dep) (Pom.d_artifact_id dep)));
  if matches_any_exclusion c (it_exclusions item) then mret st
  else
    let x := Skipper.from_raw (it_exclusions item) in
    let '(decision, sk) :=
      Skipper.decide_visit (skipper st) c (it_depth item) x (depth <$> winners st !! c) in
    let st := set_skipper st sk in
    match decision with
    | Skipper.Skip _ =>
        mret (match winners st !! c with
              | Some _ => push_loser c (skipped_version dep, it_depth item) st
              | None => st
              end)
    | Skipper.Walk => visit item c x st
    end.

(** The BFS loop; the outer [None] is fuel exhaustion. *)
Fixpoint walk_loop (fuel : nat) (st : WalkState) (s : Sess)
    : option (result WalkError WalkState * Sess) :=
  match queue st with
  | [] => Some (Ok st, s)
  | item :: rest =>
      match fuel with
      | O => None
      | S fuel' =>
          match process_item item (set_queue st rest) s with
          | (Ok st', s') => walk_loop fuel' st' s'
          | (Err e, s') => Some (Err e, s')
          end
      end
  end.

Definition audit_le (a b : AuditEntry) : Prop := Coords_cmp (au_coords a) (au_coords b) <> Gt.

#[export] Instance audit_le_dec : RelDecision audit_le.
Proof. intros a b. unfold audit_le. solve_decision. Defined.

Definition finish (st : WalkState) : ResolvedGraph :=
  mkGraph (omap (fun c => winners st !! c) (order st)) (winners st) (warnings st)
    (merge_sort audit_le
       (map (fun w => mkAudit (coords w) (version w) (depth w) (default [] (losers st !! coords w)))
          (map_to_list (winners st)).*2))
    (Skipper.stats (skipper st)) Oreq.OreqStats_default.

Definition walk (fuel : nat) (root : Profile.ResolvedPom) (s : Sess)
    : option (result WalkError ResolvedGraph * Sess) :=
  let st := enqueue_direct_deps (Pom.dependencies (Profile.pom root)) (state_new (enable_skipper opts)) in
  match walk_loop fuel st s with
  | None => None
  | Some (Err e, s') => Some (Err e, s')
  | Some (Ok st', s') =>
      let g := finish st' in
      let g := match s' with
               | Some session => mkGraph (resolved g) (graph_winners g) (graph_warnings g) (audit g)
                                   (skipper_stats g) (Oreq.stats session)
               | None => g
               end in
      Some (Ok g, s')
  end.

End Walk.

End Walker.
