(* ===== verification/WalkerFacts.v ===== *)
(** * barista-resolver: properties of the walker

    The session of request optimisations does not change a walk's result, the
    skipper does not change its graph, the graph is a nearest-wins tree, and
    the walk terminates on a finite universe of coordinates. *)

From stdpp Require Import sorting.
From S2P Require Import Prelude Version Coords VersionSpec Pom Effective Profile Source Skipper Oreq Walker.

Module WalkerFacts.
Import Coords Walker.

(** ** Inversion of the session monad *)

Lemma W_bind_ok {A B} (m : W A) (k : A -> W B) s b s' :
  (m ≫= k) s = (Ok b, s') -> exists a s1, m s = (Ok a, s1) /\ k a s1 = (Ok b, s').
Proof.
  unfold mbind, W_bind. destruct (m s) as [[a|e] s1]; [eauto | done].
Qed.

Lemma lift_ok {A} (r : result WalkError A) s a s' : lift r s = (Ok a, s') -> r = Ok a /\ s' = s.
Proof. by intros [= -> ->]. Qed.

(** Invert every bind and lift of a successful run. *)
Ltac W_inv H :=
  repeat match type of H with
  | (_ ≫= _) _ = (Ok _, _) =>
      let a := fresh "a" in let s1 := fresh "s" in let Ha := fresh "Hm" in
      apply W_bind_ok in H as (a & s1 & Ha & H)
  end.

(** Run the monad's operations. *)
Ltac W_run :=
  unfold mbind, W_bind, session_call, session_do, lift, map_err_w, mret, W_ret; cbn.

#[local] Arguments resolve_child_pom : simpl never.
#[local] Arguments fetch_pom_via_session : simpl never.
#[local] Arguments fetch_metadata_via_session : simpl never.
#[local] Arguments child_pom : simpl never.

Section Facts.
Context `{CF : CaseFolding} `{ENV : Environment} `{FS : FileSystem} `{SRC : Source.MetadataSource}.
Context (opts : WalkOptions).

(** ** Coherent sessions

    Every cached answer is the answer the source, or the resolution without
    session, would give. *)

Definition coherent (s : Sess) : Prop :=
  match s with
  | None => True
  | Some x =>
      (forall c md, Oreq.metadata_cache x !! (repo_id opts, c) = Some md ->
         exists o, Source.fetch_metadata c = Ok (md, o))
      /\ (forall c v p, Oreq.raw_pom_cache x !! (c, v) = Some p ->
            exists o, Source.fetch_pom c v = Ok (p, o))
      /\ (forall c v r, Oreq.resolved_pom_cache x !! (c, v) = Some r ->
            exists p o, Source.fetch_pom c v = Ok (p, o)
              /\ (resolve_child_pom opts c v p None).1 = Ok r)
  end.

Definition pin (s : Sess) (c : Coords) : option string := s ≫= fun x => Oreq.frozen_pin x c.

#[local] Arguments pin : simpl never.
#[local] Arguments coherent : simpl never.

Definition res_rel {A B} (R : A -> B -> Prop) (r1 : result WalkError A) (r2 : result WalkError B) : Prop :=
  match r1, r2 with
  | Ok a, Ok b => R a b
  | Err e1, Err e2 => e1 = e2
  | _, _ => False
  end.

(** [m] gives, in any coherent session, the result it gives without one; and
    it keeps the session coherent and its pins unchanged. *)
Definition insens {A} (R : A -> A -> Prop) (m : W A) : Prop :=
  (m None).2 = None
  /\ forall s, coherent s ->
     res_rel R (m s).1 (m None).1 /\ coherent (m s).2 /\ forall c, pin (m s).2 c = pin s c.

Lemma insens_ret {A} (a : A) : insens eq (mret a).
Proof. split; [done |]. intros s Hs. by split_and!. Qed.

Lemma insens_lift {A} (r : result WalkError A) : insens eq (lift r).
Proof. split; [done |]. intros s Hs. split_and!; try done. by destruct r. Qed.

Lemma insens_bind {A B} (R : A -> A -> Prop) (R' : B -> B -> Prop) (m : W A) (k : A -> W B) :
  insens R m -> (forall a b, R a b -> k a = k b) -> (forall a, insens R' (k a)) ->
  insens R' (m ≫= k).
Proof.
  intros [Hn Hm] Hk Hk'. unfold mbind, W_bind. split.
  - destruct (m None) as [[a|e] s1]; cbn in *; subst s1; [apply Hk' | done].
  - intros s Hs. destruct (Hm s Hs) as (Hr & Hc & Hp).
    destruct (m None) as [r0 s0], (m s) as [r1 s1]. cbn in *. subst s0.
    destruct r1 as [a|e], r0 as [b|e0]; cbn in *; try done.
    rewrite <- (Hk a b Hr). destruct (Hk' a) as [_ Hk'']. destruct (Hk'' s1 Hc) as (H1 & H2 & H3).
    split_and!; [done | done |]. intros c. rewrite H3. apply Hp.
Qed.

Lemma insens_map_err {A} (R : A -> A -> Prop) f (m : W A) : insens R m -> insens R (map_err_w f m).
Proof.
  intros [Hn Hm]. unfold map_err_w. split.
  - by destruct (m None) as [[] ?].
  - intros s Hs. destruct (Hm s Hs) as (Hr & Hc & Hp).
    destruct (m None) as [[] ?], (m s) as [[] ?]; cbn in *; try done. by subst.
Qed.

(** ** The fetches *)

Lemma bump_coherent k x : coherent (Some x) -> coherent (Some (Oreq.bump k x)).
Proof. done. Qed.

Lemma bump_pin k x c : pin (Some (Oreq.bump k x)) c = pin (Some x) c.
Proof. done. Qed.

Lemma fetch_metadata_run c s :
  fetch_metadata_via_session opts c s
  = match s ≫= fun x => Oreq.metadata_cache x !! (repo_id opts, c) with
    | Some md => (Ok md, Oreq.bump Oreq.C01 <$> s)
    | None =>
        match Source.fetch_metadata c with
        | Ok (md, o) => (Ok md, Oreq.deposit_metadata (repo_id opts, c) md o <$> s)
        | Err e => (Err (Metadata e), s)
        end
    end.
Proof.
  unfold fetch_metadata_via_session. W_run. destruct s as [x|]; cbn.
  - unfold Oreq.lookup_metadata. destruct (Oreq.metadata_cache x !! _); [done |].
    by destruct (Source.fetch_metadata c) as [[]|].
  - by destruct (Source.fetch_metadata c) as [[]|].
Qed.

Lemma fetch_pom_run c v s :
  fetch_pom_via_session c v s
  = match s ≫= fun x => Oreq.raw_pom_cache x !! (c, v) with
    | Some p => (Ok (p, Source.InMemory), Oreq.bump Oreq.C04 <$> s)
    | None =>
        match Source.fetch_pom c v with
        | Ok (p, o) => (Ok (p, o), Oreq.deposit_parent_pom c v p <$> s)
        | Err e => (Err (Metadata e), s)
        end
    end.
Proof.
  unfold fetch_pom_via_session. W_run. destruct s as [x|]; cbn.
  - unfold Oreq.lookup_parent_pom. destruct (Oreq.raw_pom_cache x !! _); [done |].
    by destruct (Source.fetch_pom c v) as [[]|].
  - by destruct (Source.fetch_pom c v) as [[]|].
Qed.

Lemma origin_caches o x :
  let y := Oreq.record_metadata_origin o x in
  Oreq.metadata_cache y = Oreq.metadata_cache x /\ Oreq.raw_pom_cache y = Oreq.raw_pom_cache x
  /\ Oreq.resolved_pom_cache y = Oreq.resolved_pom_cache x /\ Oreq.frozen_pins y = Oreq.frozen_pins x.
Proof. by destruct o. Qed.

Lemma deposit_metadata_coherent c md o x :
  Source.fetch_metadata c = Ok (md, o) -> coherent (Some x) ->
  coherent (Some (Oreq.deposit_metadata (repo_id opts, c) md o x)).
Proof.
  intros Hf (H1 & H2 & H3). destruct (origin_caches o x) as (E1 & E2 & E3 & _).
  unfold Oreq.deposit_metadata, coherent. cbn. rewrite E1, E2, E3. split_and!; try done.
  intros c' md' [[[= <-] <-]|[_ Hl]]%lookup_insert_Some; [eauto | by apply H1].
Qed.

Lemma deposit_metadata_pin key md o x c : pin (Some (Oreq.deposit_metadata key md o x)) c = pin (Some x) c.
Proof. by destruct o. Qed.

Lemma deposit_pom_coherent c v p o x :
  Source.fetch_pom c v = Ok (p, o) -> coherent (Some x) ->
  coherent (Some (Oreq.deposit_parent_pom c v p x)).
Proof.
  intros Hf (H1 & H2 & H3). unfold Oreq.deposit_parent_pom, coherent. cbn. split_and!; try done.
  intros c' v' p' [[[= <- <-] <-]|[_ Hl]]%lookup_insert_Some; [eauto | by apply H2].
Qed.

Lemma fetch_metadata_insens c : insens eq (fetch_metadata_via_session opts c).
Proof.
  split; [rewrite fetch_metadata_run; cbn; by destruct (Source.fetch_metadata c) as [[]|] |].
  intros s Hs. rewrite !fetch_metadata_run. cbn.
  destruct (s ≫= _) as [md|] eqn:E.
  - destruct s as [x|]; [|done]. cbn in E. pose proof Hs as (H1 & _ & _).
    destruct (H1 _ _ E) as [o ->]. by split_and!.
  - destruct (Source.fetch_metadata c) as [[md o]|e] eqn:Ef; [|by split_and!].
    destruct s as [x|]; [|by split_and!]. cbn.
    split_and!; [done | by apply deposit_metadata_coherent | intros; apply deposit_metadata_pin].
Qed.

Definition same_pom (a b : Pom.RawPom * Source.FetchOrigin) : Prop := a.1 = b.1.

Lemma fetch_pom_insens c v : insens same_pom (fetch_pom_via_session c v).
Proof.
  split; [rewrite fetch_pom_run; cbn; by destruct (Source.fetch_pom c v) as [[]|] |].
  intros s Hs. rewrite !fetch_pom_run. cbn.
  destruct (s ≫= _) as [p|] eqn:E.
  - destruct s as [x|]; [|done]. cbn in E. pose proof Hs as (_ & H2 & _).
    destruct (H2 _ _ _ E) as [o ->]. by split_and!.
  - destruct (Source.fetch_pom c v) as [[p o]|e] eqn:Ef; [|by split_and!].
    destruct s as [x|]; [|by split_and!]. cbn.
    split_and!; [done | by eapply deposit_pom_coherent | done].
Qed.

Lemma prefetch_insens room current chain : insens eq (prefetch_loop room current chain).
Proof.
  revert current chain. induction room as [|room IH]; intros [p|] chain; cbn;
    try apply insens_ret.
  destruct (chain !! _); [apply insens_ret |].
  apply (insens_bind eq); [apply insens_lift | by intros ?? -> |]. intros c.
  apply (insens_bind same_pom); [apply insens_map_err, fetch_pom_insens | |].
  - intros [] [] H. unfold same_pom in H. cbn in H. by subst.
  - intros []. apply IH.
Qed.

Lemma resolve_rounds_insens rounds c v raw chain : insens eq (resolve_rounds opts rounds c v raw chain).
Proof.
  revert chain. induction rounds as [|rounds IH]; intros chain; cbn [resolve_rounds]; [apply insens_lift |].
  destruct (Profile.resolve_pom _ _ _); [apply insens_ret |].
  destruct (missing_coords e); [|apply insens_lift].
  apply (insens_bind eq); [apply insens_lift | by intros ?? -> |]. intros [[mg ma] mv].
  apply (insens_bind eq); [apply insens_lift | by intros ?? -> |]. intros mc.
  apply (insens_bind same_pom); [apply insens_map_err, fetch_pom_insens | |].
  - intros [] [] H. unfold same_pom in H. cbn in H. by subst.
  - intros [mp o]. apply (insens_bind eq); [apply prefetch_insens | by intros ?? -> |]. intros extra. apply IH.
Qed.

Lemma resolve_child_insens c v raw : insens eq (resolve_child_pom opts c v raw).
Proof.
  apply (insens_bind eq); [apply prefetch_insens | by intros ?? -> |]. intros. apply resolve_rounds_insens.
Qed.

(** The reference: fetch the POM and resolve it, with no session. *)
Definition child_pom_ref (c : Coords) (v : string) : result WalkError Profile.ResolvedPom :=
  match Source.fetch_pom c v with
  | Ok (p, _) => (resolve_child_pom opts c v p None).1
  | Err e => Err (Metadata e)
  end.

Lemma child_pom_run c v s :
  child_pom opts c v s
  = match s ≫= fun x => Oreq.resolved_pom_cache x !! (c, v) with
    | Some r => (Ok r, (fun x => (Oreq.lookup_parent_pom c v (Oreq.bump Oreq.C05 x)).2) <$> s)
    | None =>
        match fetch_pom_via_session c v s with
        | (Ok (p, _), s1) =>
            match resolve_child_pom opts c v p s1 with
            | (Ok r, s2) => (Ok r, Oreq.deposit_effective_pom c v r <$> s2)
            | (Err e, s2) => (Err e, s2)
            end
        | (Err e, s1) => (Err e, s1)
        end
    end.
Proof.
  unfold child_pom, mbind, W_bind, session_call, session_do, mret, W_ret. destruct s as [x|]; cbn.
  - unfold Oreq.lookup_effective_pom. destruct (Oreq.resolved_pom_cache x !! _).
    + unfold Oreq.lookup_parent_pom. by destruct (Oreq.raw_pom_cache _ !! _).
    + by destruct (fetch_pom_via_session c v (Some x)) as [[[]|] ?].
  - by destruct (fetch_pom_via_session c v None) as [[[]|] ?].
Qed.

Lemma child_pom_none c v : child_pom opts c v None = (child_pom_ref c v, None).
Proof.
  rewrite child_pom_run, fetch_pom_run. unfold child_pom_ref. cbn.
  destruct (Source.fetch_pom c v) as [[p o]|e]; cbn; [|done].
  destruct (resolve_child_insens c v p) as [H _].
  destruct (resolve_child_pom opts c v p None) as [[r|e] s]; cbn in *; by subst.
Qed.

Lemma deposit_effective_coherent c v p o r x :
  Source.fetch_pom c v = Ok (p, o) -> (resolve_child_pom opts c v p None).1 = Ok r ->
  coherent (Some x) -> coherent (Some (Oreq.deposit_effective_pom c v r x)).
Proof.
  intros Hf Hr (H1 & H2 & H3). unfold Oreq.deposit_effective_pom, coherent. cbn. split_and!; try done.
  intros c' v' r' [[[= <- <-] <-]|[_ Hl]]%lookup_insert_Some; [eauto | by apply H3].
Qed.

Lemma child_pom_insens c v : insens eq (child_pom opts c v).
Proof.
  split; [by rewrite child_pom_none |]. intros s Hs. rewrite child_pom_none, child_pom_run. cbn [fst].
  destruct (s ≫= _) as [r|] eqn:E.
  - destruct s as [x|]; [|done]. cbn in E. pose proof Hs as (_ & _ & H3).
    destruct (H3 _ _ _ E) as (p & o & Hp & Hr). unfold child_pom_ref. rewrite Hp, Hr. cbn.
    unfold Oreq.lookup_parent_pom. by destruct (Oreq.raw_pom_cache _ !! _); split_and!.
  - destruct (fetch_pom_insens c v) as [_ Hf]. destruct (Hf s Hs) as (Hr & Hc & Hp). clear Hf E.
    rewrite (fetch_pom_run c v None) in Hr. cbn in Hr. unfold child_pom_ref.
    destruct (fetch_pom_via_session c v s) as [[[p o]|e] s1];
      destruct (Source.fetch_pom c v) as [[p' o']|e'] eqn:Es; cbn in *; try done.
    unfold same_pom in Hr. cbn in Hr. subst p'.
    destruct (resolve_child_insens c v p) as [_ Hk]. destruct (Hk s1 Hc) as (Hr2 & Hc2 & Hp2).
    destruct (resolve_child_pom opts c v p s1) as [[r|e] s2]; cbn in *.
    + destruct (resolve_child_pom opts c v p None).1 as [r0|] eqn:E0; [|done]. cbn in Hr2. subst r0.
      split_and!; [done | |].
      * destruct s2 as [y|]; [|done]. by eapply deposit_effective_coherent.
      * intros c'. rewrite <- Hp, <- Hp2. by destruct s2.
    + destruct (resolve_child_pom opts c v p None).1; [done |]. cbn in Hr2. subst.
      split_and!; try done. intros c'. by rewrite Hp2, Hp.
Qed.

(** ** Two runs with sessions that agree on the pins *)

Definition sess_rel (s1 s2 : Sess) : Prop :=
  coherent s1 /\ coherent s2 /\ forall c, pin s1 c = pin s2 c.

Definition agree {A B} (R : A -> B -> Prop) (m1 : W A) (m2 : W B) : Prop :=
  forall s1 s2, sess_rel s1 s2 ->
    res_rel R (m1 s1).1 (m2 s2).1 /\ coherent (m1 s1).2 /\ coherent (m2 s2).2
    /\ (forall c, pin (m1 s1).2 c = pin s1 c) /\ forall c, pin (m2 s2).2 c = pin s2 c.

Lemma insens_agree {A} (m : W A) : insens eq m -> agree eq m m.
Proof.
  intros [_ H] s1 s2 (H1 & H2 & _). destruct (H s1 H1) as (R1 & C1 & P1), (H s2 H2) as (R2 & C2 & P2).
  split_and!; try done. destruct (m s1).1, (m s2).1, (m None).1; cbn in *; done || congruence.
Qed.

Lemma agree_ret {A B} (R : A -> B -> Prop) a b : R a b -> agree R (mret a) (mret b).
Proof. intros HR s1 s2 (H1 & H2 & _). by split_and!. Qed.

Lemma agree_bind {A B A' B'} (R : A -> B -> Prop) (R' : A' -> B' -> Prop) m1 m2 k1 k2 :
  agree R m1 m2 -> (forall a b, R a b -> agree R' (k1 a) (k2 b)) ->
  agree R' (m1 ≫= k1) (m2 ≫= k2).
Proof.
  intros Hm Hk s1 s2 Hs. destruct (Hm s1 s2 Hs) as (Hr & C1 & C2 & P1 & P2).
  destruct Hs as (_ & _ & Hp). unfold mbind, W_bind.
  destruct (m1 s1) as [[a|e] s1'], (m2 s2) as [[b|e'] s2']; cbn in *; try done.
  destruct (Hk a b Hr s1' s2') as (H1 & H2 & H3 & H4 & H5).
  { split_and!; try done. intros c. by rewrite P1, P2. }
  split_and!; try done; intros c; [by rewrite H4, P1 | by rewrite H5, P2].
Qed.

Lemma agree_lift {A} (r : result WalkError A) : agree eq (lift r) (lift r).
Proof. apply insens_agree, insens_lift. Qed.

Lemma agree_skip : agree eq (session_do Oreq.record_frozen_skip) (session_do Oreq.record_frozen_skip).
Proof.
  intros s1 s2 (H1 & H2 & _). unfold session_do. cbn.
  destruct s1, s2; by split_and!.
Qed.

Lemma agree_pin c : agree eq (frozen_pin c) (frozen_pin c).
Proof. intros s1 s2 (H1 & H2 & H3). split_and!; try done. apply H3. Qed.

Create HintDb walker.
#[local] Hint Resolve agree_lift agree_skip agree_pin fetch_metadata_insens insens_agree
  child_pom_insens : walker.

(** Step through two equal programs in lockstep. *)
Ltac lockstep :=
  repeat first
    [ progress (intros; subst)
    | apply agree_ret; done
    | apply (agree_bind eq); [by auto with walker |]
    | match goal with |- agree _ (match ?x with _ => _ end) _ => destruct x end
    | by auto with walker ].

Lemma resolve_spec_agree spec c : agree eq (resolve_spec opts spec c) (resolve_spec opts spec c).
Proof. unfold resolve_spec. lockstep. Qed.

Lemma resolve_version_agree item c :
  agree eq (resolve_version opts item c) (resolve_version opts item c).
Proof.
  unfold resolve_version. apply (agree_bind eq); [auto with walker |]. intros rv ? <-.
  apply (agree_bind eq); [auto with walker |]. intros spec ? <-.
  apply (agree_bind eq); [apply resolve_spec_agree |]. lockstep.
Qed.
#[local] Hint Resolve resolve_version_agree : walker.

(** ** The optimisations are transparent *)

Lemma process_item_agree item st : agree eq (process_item opts item st) (process_item opts item st).
Proof.
  unfold process_item. apply (agree_bind eq); [auto with walker |]. intros c ? <-.
  destruct (matches_any_exclusion _ _); [by apply agree_ret |].
  destruct (Skipper.decide_visit _ _ _ _ _) as [[|r] sk]; [|by apply agree_ret].
  unfold visit. destruct (effective_scope item) as [eff|]; [|by apply agree_ret].
  destruct (_ && _); [by apply agree_ret |].
  apply (agree_bind eq); [auto with walker |]. intros [[rv fv] ws] ? <-. unfold win. lockstep.
Qed.

Definition out_rel {A B} (R : A -> B -> Prop) (o1 : option (result WalkError A * Sess))
    (o2 : option (result WalkError B * Sess)) : Prop :=
  match o1, o2 with
  | Some (r1, s1), Some (r2, s2) => res_rel R r1 r2
  | None, None => True
  | _, _ => False
  end.

Lemma walk_loop_agree fuel st s1 s2 :
  sess_rel s1 s2 -> out_rel eq (walk_loop opts fuel st s1) (walk_loop opts fuel st s2).
Proof.
  revert st s1 s2. induction fuel as [|fuel IH]; intros st s1 s2 Hs; cbn;
    destruct (queue st) as [|item rest]; cbn; try done.
  destruct (process_item_agree item (set_queue st rest) s1 s2 Hs) as (Hr & C1 & C2 & P1 & P2).
  destruct (process_item opts item _ s1) as [[a|e] s1'], (process_item opts item _ s2) as [[b|e'] s2'];
    cbn in *; try done. subst b. apply IH. destruct Hs as (_ & _ & Hp). split_and!; try done.
  intros c. by rewrite P1, P2.
Qed.

(** The parts of a graph other than the request counters. *)
Definition same_graph (g1 g2 : ResolvedGraph) : Prop :=
  resolved g1 = resolved g2 /\ graph_winners g1 = graph_winners g2
  /\ graph_warnings g1 = graph_warnings g2 /\ audit g1 = audit g2
  /\ skipper_stats g1 = skipper_stats g2.

Lemma walk_agree fuel root s1 s2 :
  sess_rel s1 s2 -> out_rel same_graph (walk opts fuel root s1) (walk opts fuel root s2).
Proof.
  intros Hs. unfold walk.
  pose proof (walk_loop_agree fuel (enqueue_direct_deps (Pom.dependencies (Profile.pom root))
    (state_new (enable_skipper opts))) s1 s2 Hs) as H. revert H.
  destruct (walk_loop _ _ _ s1) as [[[st1|e1] s1']|], (walk_loop _ _ _ s2) as [[[st2|e2] s2']|];
    cbn; try done. intros ->. by destruct s1', s2'.
Qed.

(** C5. The request optimisations are transparent: a walk with a fresh
    session gives the same graph, or the same error, as a walk without one;
    and with any two coherent sessions that hold the same frozen pins the
    result is the same, whatever they have cached. *)
Theorem oreq_transparent fuel root :
  out_rel same_graph (walk opts fuel root (Some Oreq.new)) (walk opts fuel root None)
  /\ forall s1 s2, sess_rel s1 s2 -> out_rel same_graph (walk opts fuel root s1) (walk opts fuel root s2).
Proof.
  split; [|intros; by apply walk_agree]. apply walk_agree. by split_and!.
Qed.

(** ** What one step does to the frontier *)

(** States with the same queue, winners and discovery order. *)
Definition sim (st1 st2 : WalkState) : Prop :=
  queue st1 = queue st2 /\ winners st1 = winners st2 /\ order st1 = order st2.

(** [item] won as [w] and its children [items] joined the queue. *)
Definition won (item : WorkItem) (st st' : WalkState) (w : ResolvedDep) (items : list WorkItem) : Prop :=
  Coords.new (Pom.d_group_id (it_dep item)) (Pom.d_artifact_id (it_dep item)) = Ok (coords w)
  /\ winners st' = <[coords w := w]> (winners st)
  /\ order st' = match winners st !! coords w with
                 | Some _ => order st | None => order st ++ [coords w] end
  /\ queue st' = queue st ++ items
  /\ depth w = it_depth item
  /\ winning_path w = parent_path item ++ [coords w]
  /\ effective_scope item = Some (scope w)
  /\ matches_any_exclusion (coords w) (it_exclusions item) = false
  /\ (forall w0, winners st !! coords w = Some w0 -> (it_depth item < depth w0)%Z)
  /\ (scope w = System /\ items = []
      \/ exists fv s r, resolve_snapshot_fetch_version (version w) (coords w) (it_dep item) = Ok fv
          /\ coherent s /\ (child_pom opts (coords w) fv s).1 = Ok r
          /\ items = child_items item (winning_path w) (scope w) (Pom.dependencies (Profile.pom r))).

(** The skipper's leaves are a coordinate that just won, or were leaves. *)
Definition leaves_from (c : Coords) (st st' : WalkState) : Prop :=
  Skipper.enabled (skipper st') = Skipper.enabled (skipper st)
  /\ Skipper.known_leaves (skipper st') ⊆ {[c]} ∪ Skipper.known_leaves (skipper st).

Lemma record_visit_leaves c x b st st0 :
  skipper st = skipper st0 -> leaves_from c st0 (record_visit c x b st).
Proof.
  intros E. unfold leaves_from, record_visit, Skipper.record_visit. cbn. rewrite E.
  destruct (Skipper.enabled (skipper st0)) eqn:Ee; cbn; [|split; [done | set_solver]].
  split; [done |]. destruct b; set_solver.
Qed.

Lemma win_step item c x eff rv fv st s st' s' :
  coherent s ->
  Coords.new (Pom.d_group_id (it_dep item)) (Pom.d_artifact_id (it_dep item)) = Ok c ->
  effective_scope item = Some eff -> matches_any_exclusion c (it_exclusions item) = false ->
  (forall w0, winners st !! c = Some w0 -> (it_depth item < depth w0)%Z) ->
  resolve_snapshot_fetch_version rv c (it_dep item) = Ok fv ->
  win opts item c x eff rv fv st s = (Ok st', s') ->
  exists w items, won item st st' w items /\ coords w = c /\ leaves_from c st st'.
Proof.
  intros Hs Hc He Hx Hd Hfv. unfold win. cbn zeta. case_bool_decide as Esys.
  - intros [= <- <-]. eexists (mkResolvedDep c _ _ _ _ _ _ _), []. split_and!; [|done | by apply record_visit_leaves].
    unfold won. cbn. rewrite app_nil_r. split_and!; try done. by left.
  - intros H. W_inv H. injection H as <- <-.
    eexists (mkResolvedDep c _ _ _ _ _ _ _), _. split_and!; [|done | by apply record_visit_leaves].
    unfold won. cbn. split_and!; try done. right. eexists fv, s, a. split_and!; try done. by rewrite Hm.
Qed.

(** The version that is fetched is that of the version that was chosen. *)
Lemma resolve_version_fetch item c s rv fv ws s' :
  resolve_version opts item c s = (Ok (rv, fv, ws), s') ->
  resolve_snapshot_fetch_version rv c (it_dep item) = Ok fv.
Proof.
  unfold resolve_version. intros H. W_inv H. destruct a1 as [v l]. W_inv H.
  apply lift_ok in Hm2 as [Hv _]. by injection H as -> -> _ _.
Qed.

(** An item is dropped, leaving the frontier as it was, or it wins. *)
Lemma visit_step item c x st s st' s' :
  coherent s ->
  Coords.new (Pom.d_group_id (it_dep item)) (Pom.d_artifact_id (it_dep item)) = Ok c ->
  matches_any_exclusion c (it_exclusions item) = false ->
  visit opts item c x st s = (Ok st', s') ->
  (sim st st' /\ skipper st' = skipper st)
  \/ exists w items, won item st st' w items /\ coords w = c /\ leaves_from c st st'.
Proof.
  intros Hs Hc Hx. unfold visit. destruct (effective_scope item) as [eff|] eqn:He.
  2: { intros [= <- <-]. left. by split. }
  destruct (_ && _); [intros [= <- <-]; left; by split |].
  intros H. W_inv H. destruct a as [[rv fv] ws].
  assert (Hs0 : coherent s0).
  { destruct (resolve_version_agree item c s s) as (_ & Hco & _); [by split_and! |]. by rewrite Hm in Hco. }
  pose proof (resolve_version_fetch _ _ _ _ _ _ _ Hm) as Hfv.
  cbn zeta in H. destruct (winners (push_warnings ws st) !! c) as [w0|] eqn:Ew; cbn in Ew.
  - destruct (depth w0 <=? it_depth item)%Z eqn:Ed.
    + injection H as <- <-. left. by split.
    + right. apply win_step in H as (w & items & Hw & Hcw & Hl); try done.
      * exists w, items. by split_and!.
      * cbn. intros w1 Hw1. rewrite Ew in Hw1. injection Hw1 as <-. by apply Z.leb_gt.
  - right. apply win_step in H as (w & items & Hw & Hcw & Hl); try done.
    + exists w, items. by split_and!.
    + cbn. intros w1 Hw1. by rewrite Ew in Hw1.
Qed.

Lemma process_item_step item st s st' s' :
  coherent s -> process_item opts item st s = (Ok st', s') ->
  Skipper.enabled (skipper st') = Skipper.enabled (skipper st)
  /\ ((sim st st' /\ Skipper.known_leaves (skipper st') = Skipper.known_leaves (skipper st))
      \/ exists w items, won item st st' w items
          /\ Skipper.known_leaves (skipper st') ⊆ {[coords w]} ∪ Skipper.known_leaves (skipper st)).
Proof.
  intros Hs. unfold process_item. intros H. W_inv H. apply lift_ok in Hm as [Hc ->].
  rename a into c. assert (Hc' : Coords.new (Pom.d_group_id (it_dep item)) (Pom.d_artifact_id (it_dep item)) = Ok c).
  { by destruct (Coords.new _ _); [injection Hc as -> | done]. }
  destruct (matches_any_exclusion _ _) eqn:Hx; [injection H as <- <-; split; [done | by left] |].
  destruct (Skipper.decide_visit _ _ _ _ _) as [dec sk] eqn:Ed.
  apply Skipper.decide_frame in Ed as (He & Hk & _). cbn zeta in H. destruct dec.
  - apply visit_step in H as [[Hsim Hsk]|(w & items & Hw & <- & Hl)]; try done.
    + rewrite Hsk. split; [done |]. by left.
    + destruct Hl as [Hle Hl]. cbn in Hl, Hle. split; [congruence |].
      right. exists w, items. split; [done |]. by rewrite <- Hk.
  - injection H as <- <-. cbn. split; [by destruct (winners st !! c) |].
    left. by destruct (winners st !! c).
Qed.

(** ** Breadth-first order *)

Definition shallower (a b : WorkItem) : Prop := (it_depth a <= it_depth b)%Z.

(** The queue is sorted by depth and spans at most two levels, and no winner
    is deeper than it. *)
Definition bfs (st : WalkState) : Prop :=
  StronglySorted shallower (queue st)
  /\ exists lo, (forall c w, winners st !! c = Some w -> (depth w <= lo)%Z)
     /\ Forall (fun it => (lo <= it_depth it <= u32_sat_add lo 1)%Z) (queue st).

Lemma sat_add_mono a b : (a <= b)%Z -> (u32_sat_add a 1 <= u32_sat_add b 1)%Z.
Proof. unfold u32_sat_add. lia. Qed.

(** At the head of the queue, the head's depth is the level. *)
Lemma bfs_head st item rest :
  bfs st -> queue st = item :: rest ->
  (forall c w, winners st !! c = Some w -> (depth w <= it_depth item)%Z)
  /\ (it_depth item <= u32_sat_add (it_depth item) 1)%Z
  /\ Forall (fun it => (it_depth item <= it_depth it <= u32_sat_add (it_depth item) 1)%Z) rest
  /\ StronglySorted shallower rest.
Proof.
  intros (Hsort & lo & Hw & HF) Eq. rewrite Eq in *.
  apply StronglySorted_inv in Hsort as [Hsort Hle].
  apply list.Forall_cons in HF as [[H1 H2] HF]. pose proof (sat_add_mono _ _ H1).
  split_and!; [|lia | |done].
  - intros c w E. specialize (Hw c w E). lia.
  - rewrite list.Forall_forall in HF, Hle |- *. intros it Hit.
    specialize (HF it Hit). specialize (Hle it Hit). unfold shallower in Hle. lia.
Qed.

Lemma sorted_app (l1 l2 : list WorkItem) d :
  StronglySorted shallower l1 -> Forall (fun it => (it_depth it <= d)%Z) l1 ->
  Forall (fun it => it_depth it = d) l2 -> StronglySorted shallower (l1 ++ l2).
Proof.
  intros Hs. induction Hs as [|a l Hs IH Ha]; intros HF H2; cbn.
  - induction H2 as [|b l Hb H2 IH]; constructor; [done |].
    eapply Forall_impl; [|exact H2]. intros x Hx. unfold shallower. cbn in *. lia.
  - apply list.Forall_cons in HF as [Hda HF]. constructor; [by apply IH |].
    apply list.Forall_app. split; [done |]. eapply Forall_impl; [|exact H2].
    intros x Hx. unfold shallower. cbn in *. lia.
Qed.

Lemma won_items_depth item st st' w items :
  won item st st' w items -> Forall (fun it => it_depth it = u32_sat_add (it_depth item) 1) items.
Proof.
  intros (_ & _ & _ & _ & _ & _ & _ & _ & _ & [[_ ->]|(fv & s & r & _ & _ & _ & ->)]); [constructor |].
  unfold child_items. apply Forall_map. apply List.Forall_forall. done.
Qed.

(** Under breadth-first order a winner is always new. *)
Lemma won_new item rest st st' w items :
  bfs st -> queue st = item :: rest -> won item (set_queue st rest) st' w items ->
  winners st !! coords w = None.
Proof.
  intros Hb Eq (_ & _ & _ & _ & _ & _ & _ & _ & Hd & _). cbn in Hd.
  destruct (winners st !! coords w) as [w0|] eqn:E; [|done].
  destruct (bfs_head _ _ _ Hb Eq) as (Hw & _). specialize (Hw _ _ E). specialize (Hd _ eq_refl). lia.
Qed.

Lemma bfs_step item rest st st' :
  bfs st -> queue st = item :: rest ->
  sim (set_queue st rest) st' \/ (exists w items, won item (set_queue st rest) st' w items) -> bfs st'.
Proof.
  intros Hb Eq Hstep. destruct (bfs_head _ _ _ Hb Eq) as (Hw & Hle & HF & Hsort).
  destruct Hstep as [(Hq & Hwin & _)|(w & items & Hwon)].
  - cbn in *. split; [by rewrite <- Hq|]. exists (it_depth item). rewrite <- Hq, <- Hwin. by split.
  - pose proof (won_items_depth _ _ _ _ _ Hwon) as Hd.
    destruct Hwon as (_ & Hwin & _ & Hq & Hdep & _). cbn in *. split.
    + rewrite Hq. eapply sorted_app; [done | | exact Hd].
      eapply Forall_impl; [|exact HF]. intros it Hit. apply Hit.
    + exists (it_depth item). rewrite Hq, Hwin. split.
      * intros c w' [[<- <-]|[_ E]]%lookup_insert_Some; [lia | by eapply Hw].
      * apply list.Forall_app. split; [done |]. eapply Forall_impl; [|exact Hd].
        intros it Hit. cbn in *. lia.
Qed.

Lemma direct_items_depth deps : Forall (fun it => it_depth it = 1%Z) (direct_items deps).
Proof. unfold direct_items. apply Forall_map. by apply List.Forall_forall. Qed.

Lemma bfs_init deps b : bfs (enqueue_direct_deps deps (state_new b)).
Proof.
  pose proof (direct_items_depth deps) as Hd. split; cbn.
  - eapply (sorted_app [] _ 1%Z); [constructor | constructor | exact Hd].
  - exists 1%Z. split; [done |]. eapply Forall_impl; [|exact Hd].
    intros it Hit. unfold u32_sat_add, U32_MAX. cbn in *. lia.
Qed.

(** ** The skipper *)

Lemma sim_push_warnings ws st1 st2 : sim st1 st2 -> sim (push_warnings ws st1) (push_warnings ws st2).
Proof. done. Qed.

Lemma win_sim item c x eff rv fv st1 st2 :
  sim st1 st2 -> agree sim (win opts item c x eff rv fv st1) (win opts item c x eff rv fv st2).
Proof.
  intros (Hq & Hw & Ho). unfold win. cbn zeta. case_bool_decide.
  - apply agree_ret. unfold sim. cbn. by rewrite Hq, Hw, Ho.
  - apply (agree_bind eq); [auto with walker |]. intros r ? <-. apply agree_ret.
    unfold sim. cbn. by rewrite Hq, Hw, Ho.
Qed.

Lemma visit_sim item c x st1 st2 :
  sim st1 st2 -> agree sim (visit opts item c x st1) (visit opts item c x st2).
Proof.
  intros Hs. unfold visit. destruct (effective_scope item); [|by apply agree_ret].
  destruct (_ && _); [by apply agree_ret |].
  apply (agree_bind eq); [auto with walker |]. intros [[rv fv] ws] ? <-. cbn zeta.
  pose proof Hs as (_ & Hw & _). cbn [winners push_warnings]. rewrite Hw.
  destruct (winners st2 !! c); [destruct (_ <=? _)%Z |]; [by apply agree_ret | by apply win_sim..].
Qed.

(** The state of the walk without skipper against that of the walk with it. *)
Definition skip_rel (off on : WalkState) : Prop :=
  sim off on /\ bfs off /\ Skipper.enabled (skipper off) = false
  /\ forall c, c ∈ Skipper.known_leaves (skipper on) -> is_Some (winners on !! c).

(** The walk without skipper drops what the skipper would skip. *)
Lemma skipped_dropped item rest c x st s st' s' :
  coherent s -> bfs st -> queue st = item :: rest -> is_Some (winners st !! c) ->
  Coords.new (Pom.d_group_id (it_dep item)) (Pom.d_artifact_id (it_dep item)) = Ok c ->
  matches_any_exclusion c (it_exclusions item) = false ->
  forall sk, visit opts item c x (set_skipper (set_queue st rest) sk) s = (Ok st', s') ->
  sim (set_queue st rest) st'.
Proof.
  intros Hs Hb Eq [w0 Hw0] Hc Hx sk Hv.
  apply visit_step in Hv as [[Hsim _]|(w & items & Hw & <- & _)]; try done.
  assert (Hnew : winners st !! coords w = None).
  { eapply (won_new item rest st st' w items); [done | done |]. exact Hw. }
  congruence.
Qed.

Lemma sess_rel_step {A B} (R : A -> B -> Prop) (m1 : W A) (m2 : W B) s1 s2 r1 r2 s1' s2' :
  agree R m1 m2 -> sess_rel s1 s2 -> m1 s1 = (r1, s1') -> m2 s2 = (r2, s2') ->
  res_rel R r1 r2 /\ sess_rel s1' s2'.
Proof.
  intros Ha Hs E1 E2. destruct (Ha s1 s2 Hs) as (Hr & C1 & C2 & P1 & P2).
  rewrite E1 in *. rewrite E2 in *. cbn in *. split; [done |]. destruct Hs as (_ & _ & Hp).
  split_and!; try done. intros c. by rewrite P1, P2.
Qed.

Lemma skip_step off on item rest s1 s2 off' s1' :
  skip_rel off on -> queue off = item :: rest -> sess_rel s1 s2 ->
  process_item opts item (set_queue off rest) s1 = (Ok off', s1') ->
  exists on' s2', process_item opts item (set_queue on rest) s2 = (Ok on', s2')
    /\ skip_rel off' on' /\ sess_rel s1' s2'.
Proof.
  intros ((Hq & Hw & Ho) & Hb & Hen & Hkl) Eq Hs Hoff.
  pose proof Hs as (Hc1 & Hc2 & _).
  destruct (process_item_step _ _ _ _ _ Hc1 Hoff) as [Hen' Hstep1].
  assert (Hb' : bfs off').
  { eapply bfs_step; [done | done |]. destruct Hstep1 as [[? _]|(w & i & ? & _)]; eauto. }
  cut (exists on' s2', process_item opts item (set_queue on rest) s2 = (Ok on', s2')
         /\ sim off' on' /\ sess_rel s1' s2').
  { intros (on' & s2' & Hon & Hsim & Hs'). exists on', s2'. split; [done |]. split; [|done].
    split; [done |]. split; [done |]. split; [by rewrite Hen' |].
    destruct (process_item_step _ _ _ _ _ Hc2 Hon) as [_ [[Hsim2 Hk]|(w & i & Hwon & Hk)]].
    - intros c Hc. rewrite Hk in Hc. destruct Hsim2 as (_ & <- & _). by apply Hkl.
    - intros c Hc. destruct Hwon as (_ & -> & _). apply Hk in Hc.
      apply elem_of_union in Hc as [->%elem_of_singleton|Hc].
      + rewrite lookup_insert. by destruct (decide _).
      + rewrite lookup_insert_is_Some. destruct (decide (coords w = c)); [by left|].
        right. split; [done |]. by apply Hkl. }
  clear Hstep1 Hb' Hen'. revert Hoff. unfold process_item. intros H. W_inv H.
  apply lift_ok in Hm as [Hc ->]. rename a into c.
  assert (Hnew : Coords.new (Pom.d_group_id (it_dep item)) (Pom.d_artifact_id (it_dep item)) = Ok c).
  { by destruct (Coords.new _ _); [injection Hc as -> | done]. }
  unfold mbind, W_bind, lift. rewrite Hnew. cbn -[visit Skipper.decide_visit].
  destruct (matches_any_exclusion c _) eqn:Hx.
  { injection H as <- <-. eexists _, _. by split_and!. }
  rewrite Skipper.decide_disabled in H by done. cbn -[visit] in H.
  destruct (Skipper.decide_visit _ _ _ _ _) as [dec sk] eqn:Ed. destruct dec as [|r].
  - destruct (visit opts item c _ (set_skipper (set_queue on rest) sk) s2) as [r2 s2'] eqn:Ev2.
    unshelve epose proof (sess_rel_step _ _ _ _ _ _ _ _ _ (visit_sim _ _ _ _ _ _) Hs H Ev2) as [Hr Hs'].
    { unfold sim. cbn. by rewrite Hw, Ho. }
    destruct r2 as [on'|]; [|done]. exists on', s2'. by split_and!.
  - eexists _, _. split; [done |].
    assert (Hin : is_Some (winners on !! c)).
    { apply Skipper.decide_skip in Ed as [_ [Hk|(w & Hd & _)]]; cbn in *; [by apply Hkl |].
      by destruct (winners on !! c). }
    rewrite <- Hw in Hin. split.
    + eapply skipped_dropped in H as (H1 & H2 & H3); try done. unfold sim. cbn in *.
      rewrite <- H1, <- H2, <- H3, Hw, Ho. by destruct (winners on !! c).
    + destruct (visit_sim item c (Skipper.from_raw (it_exclusions item))
        (set_skipper (set_queue off rest) (Skipper.set_stats (skipper off)
           (Skipper.bump_walks (Skipper.stats (skipper off)))))
        _ ltac:(done) s1 s1) as (_ & _ & Hco & _ & Hp); [by split_and! |].
      cbn in H. rewrite H in Hco, Hp. cbn in *. destruct Hs as (_ & _ & Hpp).
      split_and!; try done. intros c'. by rewrite Hp, Hpp.
Qed.

Lemma skip_loop fuel off on s1 s2 off' s1' :
  skip_rel off on -> sess_rel s1 s2 ->
  walk_loop opts fuel off s1 = Some (Ok off', s1') ->
  exists on' s2', walk_loop opts fuel on s2 = Some (Ok on', s2') /\ sim off' on'.
Proof.
  revert off on s1 s2. induction fuel as [|fuel IH]; intros off on s1 s2 Hrel Hs;
    pose proof Hrel as ((Hq & Hwo) & _); cbn; rewrite <- Hq.
  - destruct (queue off); [|done]. intros [= <- <-]. eexists _, _. split; [done |]. by apply Hrel.
  - destruct (queue off) as [|item rest] eqn:Eq.
    { intros [= <- <-]. eexists _, _. split; [done |]. by apply Hrel. }
    destruct (process_item opts item (set_queue off rest) s1) as [[off1|e] s1''] eqn:Ep; [|done].
    intros Hl. destruct (skip_step _ _ _ _ _ _ _ _ Hrel Eq Hs Ep) as (on1 & s2'' & Hon & Hrel' & Hs').
    rewrite Hon. by eapply IH.
Qed.

Definition set_enable (b : bool) : WalkOptions :=
  mkOptions (strip_optional opts) (include_scopes opts) (activation opts) b (repo_id opts).

Lemma walk_loop_enable b fuel st s : walk_loop (set_enable b) fuel st s = walk_loop opts fuel st s.
Proof. reflexivity. Qed.

(** C4. The skipper preserves the graph: whenever the walk without it
    succeeds, the walk with it succeeds on the same fuel and resolves the same
    dependencies, in the same order, with the same winners. *)
Theorem skipper_preserves_graph fuel root s g s' :
  coherent s ->
  walk (set_enable false) fuel root s = Some (Ok g, s') ->
  exists g' s'', walk (set_enable true) fuel root s = Some (Ok g', s'')
    /\ resolved g' = resolved g /\ graph_winners g' = graph_winners g.
Proof.
  intros Hs. unfold walk. rewrite !walk_loop_enable. cbn [enable_skipper set_enable].
  set (deps := Pom.dependencies (Profile.pom root)).
  destruct (walk_loop opts fuel (enqueue_direct_deps deps (state_new false)) s) as [[[off|e] s1]|] eqn:El;
    [|done..]. intros [= <- <-].
  destruct (skip_loop fuel (enqueue_direct_deps deps (state_new false))
    (enqueue_direct_deps deps (state_new true)) s s off s1) as (on & s2 & Hon & Hq & Hw & Ho); [| |done |].
  { split_and!; [done | apply bfs_init | done |]. intros c Hc. cbn in Hc. set_solver. }
  { by split_and!. }
  rewrite Hon. eexists _, s2. split; [done |].
  split; [destruct s1, s2 | destruct s1, s2]; cbn; by rewrite ?Hw, ?Ho.
Qed.

(** ** Version resolution *)

Lemma max_by_in {A} (cmp : A -> A -> comparison) (l : list A) x : max_by cmp l = Some x -> x ∈ l.
Proof.
  destruct l as [|a l]; [done |]. cbn. intros [= <-].
  assert (H : forall acc, fold_left (fun acc y => match cmp acc y with Gt => acc | _ => y end) l acc ∈ acc :: l).
  { induction l as [|y l IH]; intros acc; cbn; [left |].
    destruct (cmp acc y); rewrite !elem_of_cons; specialize (IH acc) as H1; specialize (IH y) as H2;
      rewrite elem_of_cons in H1, H2; naive_solver. }
  apply H.
Qed.

Lemma interval_contains_eq iv v : interval_contains iv v = VersionSpec.contains iv v.
Proof. reflexivity. Qed.

(** What the metadata of [c] publishes. *)
Definition published (c : Coords) (vs : list string) : Prop :=
  exists md o, Source.fetch_metadata c = Ok (md, o) /\ vs = Source.versions md.

Lemma fetch_metadata_published c s md s' :
  coherent s -> fetch_metadata_via_session opts c s = (Ok md, s') -> published c (Source.versions md).
Proof.
  intros Hs E. destruct (fetch_metadata_insens c) as [_ H]. destruct (H s Hs) as (Hr & _).
  rewrite E, fetch_metadata_run in Hr. cbn in Hr.
  destruct (Source.fetch_metadata c) as [[md' o]|] eqn:Ef; cbn in Hr; [|done]. subst. by exists md', o.
Qed.

Lemma find_rev_last {A} (f : A -> bool) l x :
  List.find f (rev l) = Some x -> exists l1 l2, l = l1 ++ x :: l2 /\ f x = true /\ Forall (fun y => f y = false) l2.
Proof.
  induction l as [|a l IH] using rev_ind; [done |]. rewrite rev_app_distr. cbn.
  destruct (f a) eqn:E.
  - intros [= <-]. exists l, []. by split_and!; [| |constructor].
  - intros (l1 & l2 & -> & Hx & HF)%IH. exists l1, (l2 ++ [a]). rewrite <- app_assoc. split_and!; try done.
    apply list.Forall_app. split; [done |]. by repeat constructor.
Qed.

(** A range resolved from the metadata. *)
Lemma hard_from_metadata ivs c s r s' :
  coherent s ->
  (fetch_metadata_via_session opts c ≫= fun md =>
     match max_by (fun a b => Version.cmp (Version.parse a) (Version.parse b))
             (List.filter (in_range ivs) (Source.versions md)) with
     | Some picked => mret (picked, @nil VersionSpec.SpecWarning)
     | None => lift (Err (NoMetaVersionCandidate (display c) (VersionSpec.Hard ivs)))
     end) s = (r, s') ->
  match r with
  | Ok (v, _) => in_range ivs v = true /\ exists vs, published c vs /\ v ∈ vs
  | Err (NoMetaVersionCandidate _ _) =>
      exists vs, published c vs /\ Forall (fun v => in_range ivs v = false) vs
  | Err _ => True
  end.
Proof.
  intros Hs. unfold mbind, W_bind.
  destruct (fetch_metadata_via_session opts c s) as [[md|e] s1] eqn:E.
  - apply fetch_metadata_published in E; [|done]. destruct (max_by _ _) as [v|] eqn:Em.
    + intros [= <- <-]. apply max_by_in, list_elem_of_In, List.filter_In in Em as [Hin Hr].
      split; [done |]. eexists. split; [done |]. by apply list_elem_of_In.
    + intros [= <- <-]. eexists. split; [done |]. apply List.Forall_forall. intros v Hv.
      destruct (in_range ivs v) eqn:Er; [|done].
      assert (Hin : In v (List.filter (in_range ivs) (Source.versions md))) by by apply List.filter_In.
      by destruct (List.filter (in_range ivs) (Source.versions md)).
  - intros [= <- <-]. rewrite fetch_metadata_run in E.
    destruct (s ≫= _); [done |]. destruct (Source.fetch_metadata c) as [[]|]; [done |].
    by injection E as <- _.
Qed.

(** Version resolution respects the requirement: a frozen pin is taken as
    it is, except that a range takes it only when it lies in the range;
    otherwise a plain version stands for itself, a range resolves to a
    published version inside it (and fails only when there is none), [LATEST]
    to the last published version and [RELEASE] to the last one that is not a
    SNAPSHOT. *)
Theorem resolve_spec_sound spec c s r s' :
  coherent s -> resolve_spec opts spec c s = (r, s') ->
  match spec, r with
  | VersionSpec.Soft t, Ok (v, _) => v = default t (pin s c)
  | VersionSpec.Soft _, Err _ => False
  | VersionSpec.Hard ivs, Ok (v, _) =>
      VersionSpec.satisfies spec (Version.parse v) = true
      /\ (pin s c = Some v \/ exists vs, published c vs /\ v ∈ vs)
  | VersionSpec.Hard ivs, Err (NoMetaVersionCandidate _ _) =>
      exists vs, published c vs /\ Forall (fun v => VersionSpec.satisfies spec (Version.parse v) = false) vs
  | VersionSpec.Latest, Ok (v, _) =>
      pin s c = Some v \/ (pin s c = None /\ exists vs, published c vs /\ list.last vs = Some v)
  | VersionSpec.Release, Ok (v, _) =>
      pin s c = Some v
      \/ (pin s c = None /\ exists vs l1 l2, published c vs /\ vs = l1 ++ v :: l2
           /\ str_ends_with "-SNAPSHOT" v = false
           /\ Forall (fun u => str_ends_with "-SNAPSHOT" u = true) l2)
  | _, Err _ => True
  end.
Proof.
  intros Hs. unfold resolve_spec, frozen_pin. unfold mbind at 1, W_bind at 1. fold (pin s c).
  destruct spec as [t|ivs| |].
  - destruct (pin s c); by intros [= <- <-].
  - cbn zeta. change (VersionSpec.satisfies (VersionSpec.Hard ivs)) with
      (fun v => existsb (fun i => VersionSpec.contains i v) ivs).
    destruct (pin s c) as [p|]; [destruct (in_range ivs p) eqn:Er |].
    + intros [= <- <-]. split; [done | by left].
    + intros H%hard_from_metadata; [|done]. destruct r as [[v ws]|[]]; try done. destruct H as [H1 H2]. split; [done | by right].
    + intros H%hard_from_metadata; [|done]. destruct r as [[v ws]|[]]; try done. destruct H as [H1 H2]. split; [done | by right].
  - destruct (pin s c) as [p|]; [intros [= <- <-]; by left |].
    unfold mbind, W_bind. destruct (fetch_metadata_via_session opts c s) as [[md|e] s1] eqn:E; [|by intros [= <- _]].
    apply fetch_metadata_published in E; [|done]. unfold lift. cbn.
    destruct (list.last (Source.versions md)) eqn:El; [|by intros [= <- _]].
    intros [= <- _]. right. eauto.
  - destruct (pin s c) as [p|]; [intros [= <- <-]; by left |].
    unfold mbind, W_bind. destruct (fetch_metadata_via_session opts c s) as [[md|e] s1] eqn:E; [|by intros [= <- _]].
    apply fetch_metadata_published in E; [|done]. unfold lift. cbn.
    destruct (List.find _ _) as [v|] eqn:El; [|by intros [= <- _]].
    intros [= <- _]. right. split; [done |]. apply find_rev_last in El as (l1 & l2 & Hl & Hv & HF).
    exists (Source.versions md), l1, l2. apply negb_true_iff in Hv. split_and!; try done.
    eapply Forall_impl; [|exact HF]. intros u Hu. by apply negb_false_iff.
Qed.

End Facts.
Lemma oreq_transparent_witness :
  out_rel same_graph
    (walk (SRC := Source.null_source) WalkOptions_default 1
       (Profile.mkResolved Pom.RawPom_default (Effective.mkEffective Pom.RawPom_default [] []) [] [])
       (Some Oreq.new))
    (walk (SRC := Source.null_source) WalkOptions_default 1
       (Profile.mkResolved Pom.RawPom_default (Effective.mkEffective Pom.RawPom_default [] []) [] [])
       (Some (Oreq.bump Oreq.C01 Oreq.new))).
Proof.
  apply (proj2 (oreq_transparent (SRC := Source.null_source) WalkOptions_default 1
    (Profile.mkResolved Pom.RawPom_default (Effective.mkEffective Pom.RawPom_default [] []) [] []))).
  by split_and!.
Defined.

Lemma resolve_spec_sound_witness :
  VersionSpec.satisfies (VersionSpec.Hard [VersionSpec.mkInterval
    (VersionSpec.Included (Version.parse "1")) (VersionSpec.Excluded (Version.parse "2"))])
    (Version.parse "1.5") = true.
Proof.
  set (src := Source.fixture_source ∅ {[mkCoords "g" "a" := ["1"; "1.5"; "2"]]}).
  set (spec := VersionSpec.Hard _).
  refine (proj1 (resolve_spec_sound (SRC := src) WalkOptions_default spec (mkCoords "g" "a") None
    (Ok ("1.5", [])) None I _)).
  vm_compute. reflexivity.
Defined.

End WalkerFacts.
