(* ===== verification/WalkerGraph.v ===== *)
(** * barista-resolver: the resolved graph

    The graph a walk returns is a tree of nearest winners, nothing reachable
    is missing from it, and the walk terminates on a finite universe. *)

From stdpp Require Import sorting.
From S2P Require Import Prelude Version Coords VersionSpec Pom Effective Profile Source Skipper Oreq Walker WalkerFacts.

Module WalkerGraph.
Import Coords Walker WalkerFacts.

Section Graph.
Context `{CF : CaseFolding} `{ENV : Environment} `{FS : FileSystem} `{SRC : Source.MetadataSource}.
Context (opts : WalkOptions).

(** ** Invariants of the loop *)

(** [w] hangs from a winner, or from the root. *)
Definition rooted (ws : gmap Coords ResolvedDep) (w : ResolvedDep) : Prop :=
  scope w <> Import
  /\ ((winning_path w = [coords w] /\ depth w = 1%Z)
      \/ exists p declared, ws !! coords p = Some p
           /\ winning_path w = winning_path p ++ [coords w]
           /\ depth w = u32_sat_add (depth p) 1
           /\ inherit (scope p) declared = Some (scope w)).

(** Where an item of the queue comes from. *)
Definition item_from (ws : gmap Coords ResolvedDep) (it : WorkItem) : Prop :=
  (is_direct it = true /\ parent_path it = [] /\ it_depth it = 1%Z)
  \/ (is_direct it = false
      /\ exists p, ws !! coords p = Some p /\ parent_path it = winning_path p
           /\ it_depth it = u32_sat_add (depth p) 1 /\ parent_scope it = scope p).

Definition resolved_of (st : WalkState) : list ResolvedDep := omap (fun c => winners st !! c) (order st).

Record graph_inv (st : WalkState) : Prop := {
  gi_bfs : bfs st;
  gi_nodup : NoDup (order st);
  gi_order : forall c, c ∈ order st <-> is_Some (winners st !! c);
  gi_keys : forall c w, winners st !! c = Some w -> coords w = c;
  gi_rooted : forall c w, winners st !! c = Some w -> rooted (winners st) w;
  gi_queue : Forall (item_from (winners st)) (queue st);
  gi_sorted : StronglySorted (fun a b => (depth a <= depth b)%Z) (resolved_of st);
  gi_leaves : forall c, c ∈ Skipper.known_leaves (skipper st) -> is_Some (winners st !! c)
}.

Lemma rooted_mono ws ws' w : ws ⊆ ws' -> rooted ws w -> rooted ws' w.
Proof.
  intros Hsub [Hi [H|(p & d & Hp & H)]]; split; [done | by left | done | right].
  exists p, d. split; [|done]. by eapply lookup_weaken.
Qed.

Lemma item_from_mono ws ws' it : ws ⊆ ws' -> item_from ws it -> item_from ws' it.
Proof.
  intros Hsub [H|(Hd & p & Hp & H)]; [by left |]. right. split; [done |]. exists p.
  split; [|done]. by eapply lookup_weaken.
Qed.

Lemma inherit_not_import p d s : inherit p d = Some s -> s <> Import.
Proof. by destruct p, d; cbn; intros [= <-]. Qed.

(** The winner of an item hangs where the item came from. *)
Lemma won_rooted item st st' w items :
  item_from (winners st) item -> won opts item st st' w items -> winners st !! coords w = None ->
  rooted (winners st') w.
Proof.
  intros Hfrom (_ & Hwin & _ & _ & Hd & Hpath & Heff & _) Hnew.
  assert (Hsub : winners st ⊆ winners st') by (rewrite Hwin; by apply insert_subseteq).
  destruct Hfrom as [(Hdir & Hpp & Hdep)|(Hdir & p & Hp & Hpp & Hdep & Hsc)];
    unfold effective_scope in Heff; rewrite Hdir in Heff.
  - case_bool_decide; [done |]. injection Heff as Heff. split; [congruence |]. left.
    rewrite Hpath, Hpp. split; [done | congruence].
  - split; [by eapply inherit_not_import |]. right. exists p, (scope_parse (Pom.d_scope (it_dep item))).
    split_and!; [by eapply lookup_weaken | congruence | congruence | congruence].
Qed.

Lemma won_items_from item st st' w items :
  won opts item st st' w items -> Forall (item_from (winners st')) items.
Proof.
  intros (_ & Hwin & _ & _ & Hd & _ & _ & _ & _ & [[_ ->]|(fv & s & r & _ & _ & _ & ->)]); [constructor |].
  unfold child_items. apply Forall_map, List.Forall_forall. intros d _. right. split; [done |].
  exists w. rewrite Hwin, lookup_insert_eq. cbn. by rewrite Hd.
Qed.

Lemma omap_insert (ws : gmap Coords ResolvedDep) c w (l : list Coords) :
  c ∉ l -> omap (fun k => <[c := w]> ws !! k) l = omap (fun k => ws !! k) l.
Proof.
  induction l as [|k l IH]; [done |]. rewrite not_elem_of_cons. intros [Hne Hni]. cbn.
  rewrite lookup_insert_ne by done. by rewrite IH.
Qed.

Lemma sorted_snoc (l : list ResolvedDep) w :
  StronglySorted (fun a b => (depth a <= depth b)%Z) l ->
  Forall (fun a => (depth a <= depth w)%Z) l ->
  StronglySorted (fun a b => (depth a <= depth b)%Z) (l ++ [w]).
Proof.
  intros Hs. induction Hs as [|a l Hs IH Ha]; cbn; intros HF; [by repeat constructor |].
  apply list.Forall_cons in HF as [H1 H2]. constructor; [by apply IH |].
  apply list.Forall_app. split; [done |]. by repeat constructor.
Qed.

Lemma graph_inv_step item rest st s st' s' :
  graph_inv st -> queue st = item :: rest -> coherent opts s ->
  process_item opts item (set_queue st rest) s = (Ok st', s') -> graph_inv st'.
Proof.
  intros [Hb Hnd Hord Hkeys Hroot Hq Hsort Hlv] Eq Hs Hp.
  apply process_item_step in Hp as [_ Hstep]; [|done].
  assert (Hb' : bfs st').
  { eapply (bfs_step opts); [done | done |]. destruct Hstep as [[? _]|(w & i & ? & _)]; eauto. }
  rewrite Eq in Hq. apply list.Forall_cons in Hq as [Hit Hq].
  destruct Hstep as [[(E1 & E2 & E3) Hk]|(w & items & Hwon & Hk)].
  - cbn in *. unfold resolved_of in *. split; try (rewrite <- ?E1, <- ?E2, <- ?E3; done).
    + unfold resolved_of. by rewrite <- E2, <- E3.
    + intros c Hc. rewrite Hk in Hc. rewrite <- E2. by apply Hlv.
  - pose proof (won_new opts item rest st st' w items Hb Eq Hwon) as Hnew.
    pose proof (won_rooted _ _ _ _ _ (Hit : item_from (winners (set_queue st rest)) item) Hwon Hnew) as Hwr.
    pose proof (won_items_from _ _ _ _ _ Hwon) as Hif.
    destruct Hwon as (_ & Hwin & Ho & Hqq & Hdep & _). cbn in Hwin, Ho, Hqq, Hk. rewrite Hnew in Ho.
    assert (Hsub : winners st ⊆ winners st') by (rewrite Hwin; by apply insert_subseteq).
    assert (Hni : coords w ∉ order st) by (rewrite Hord, Hnew; by intros []).
    destruct (bfs_head st item rest Hb Eq) as (Hle & _).
    split; [done | | | | | | |].
    + rewrite Ho. apply list.NoDup_app. split_and!; [done | | apply NoDup_singleton].
      intros c Hc ->%list_elem_of_singleton. done.
    + intros c. rewrite Ho, Hwin, elem_of_app, list_elem_of_singleton, Hord, lookup_insert_is_Some.
      destruct (decide (coords w = c)); naive_solver.
    + rewrite Hwin. intros c w' [[<- <-]|[_ E]]%lookup_insert_Some; [done | by apply Hkeys].
    + intros c w' E. rewrite Hwin in E. apply lookup_insert_Some in E as [[<- <-]|[_ E]]; [done |].
      eapply rooted_mono; [done |]. by eapply Hroot.
    + rewrite Hqq. apply list.Forall_app. split; [|done]. eapply Forall_impl; [|exact Hq].
      intros it. by apply item_from_mono.
    + unfold resolved_of. rewrite Ho, Hwin, omap_app. cbn. rewrite lookup_insert_eq, omap_insert by done.
      apply sorted_snoc; [done |]. apply list.Forall_forall. intros d (c & Hc & Hd)%list_elem_of_omap.
      rewrite Hdep. by eapply Hle.
    + intros c Hc. apply Hk in Hc. rewrite Hwin, lookup_insert_is_Some.
      destruct (decide (coords w = c)) as [|Hne]; [by left |]. right. split; [done |].
      apply elem_of_union in Hc as [->%elem_of_singleton|Hc]; [done | by apply Hlv].
Qed.

Lemma graph_inv_init deps b : graph_inv (enqueue_direct_deps deps (state_new b)).
Proof.
  split; [apply bfs_init | constructor | | done | done | | constructor |].
  - intros c. cbn. split; [by intros ?%elem_of_nil | by intros []].
  - cbn. unfold direct_items. apply Forall_map, List.Forall_forall. intros d _. left. done.
  - intros c Hc. cbn in Hc. destruct b; cbn in Hc; set_solver.
Qed.

Lemma process_item_coherent item st s r s' :
  coherent opts s -> process_item opts item st s = (r, s') -> coherent opts s'.
Proof.
  intros Hs E. destruct (process_item_agree opts item st s s) as (_ & Hc & _); [by split_and! |].
  by rewrite E in Hc.
Qed.

(** An invariant kept by every step holds at the end of the loop. *)
Lemma walk_loop_inv (P : WalkState -> Prop) fuel st s st' s' :
  (forall item rest st s st' s', P st -> queue st = item :: rest -> coherent opts s ->
     process_item opts item (set_queue st rest) s = (Ok st', s') -> P st') ->
  P st -> coherent opts s -> walk_loop opts fuel st s = Some (Ok st', s') ->
  P st' /\ queue st' = [].
Proof.
  intros Hstep. revert st s. induction fuel as [|fuel IH]; intros st s HP Hs; cbn;
    destruct (queue st) as [|item rest] eqn:Eq; try done; try by intros [= <- <-].
  destruct (process_item opts item (set_queue st rest) s) as [[st1|e] s1] eqn:Ep; [|done].
  apply IH; [by eapply Hstep | by eapply process_item_coherent].
Qed.

Lemma walk_finish fuel root s g s' :
  walk opts fuel root s = Some (Ok g, s') ->
  exists st, walk_loop opts fuel
      (enqueue_direct_deps (Pom.dependencies (Profile.pom root)) (state_new (enable_skipper opts))) s
      = Some (Ok st, s')
    /\ resolved g = resolved_of st /\ graph_winners g = winners st.
Proof.
  unfold walk. destruct (walk_loop _ _ _ _) as [[[st|e] s1]|]; [|done..].
  intros [= <- <-]. exists st. by destruct s1.
Qed.

Lemma resolved_of_spec st d :
  graph_inv st -> d ∈ resolved_of st <-> winners st !! coords d = Some d.
Proof.
  intros HI. unfold resolved_of. rewrite list_elem_of_omap. split.
  - intros (c & _ & Hc). by rewrite (gi_keys _ HI _ _ Hc).
  - intros Hd. exists (coords d). split; [|done]. apply (gi_order _ HI). by exists d.
Qed.

Lemma resolved_of_coords st : graph_inv st -> coords <$> resolved_of st = order st.
Proof.
  intros HI. unfold resolved_of. pose proof (gi_keys _ HI) as Hk.
  assert (Hin : Forall (fun c => is_Some (winners st !! c)) (order st))
    by (apply list.Forall_forall; intros c; apply (gi_order _ HI)).
  induction Hin as [|c l [w Hw] Hin IH]; [done |]. cbn. rewrite Hw. cbn. by rewrite IH, (Hk c w).
Qed.

(** The coordinates of a graph are distinct. *)
Lemma walk_nodup fuel root s g s' :
  coherent opts s -> walk opts fuel root s = Some (Ok g, s') -> NoDup (coords <$> resolved g).
Proof.
  intros Hs (st & Hl & -> & _)%walk_finish.
  apply (walk_loop_inv graph_inv) in Hl as [HI _]; [|apply graph_inv_step | apply graph_inv_init | done].
  rewrite resolved_of_coords by done. apply HI.
Qed.

(** C1. The graph of a successful walk is a nearest-wins tree: every
    coordinate is resolved once, the list and the winners map hold the same
    dependencies, the list is ordered by depth, and every dependency hangs
    from the root (depth 1) or from a resolved dependency one level up, whose
    path it extends and whose scope admits its own. *)
Theorem walk_graph_tree fuel root s g s' :
  coherent opts s -> walk opts fuel root s = Some (Ok g, s') ->
  NoDup (coords <$> resolved g)
  /\ (forall d, d ∈ resolved g <-> graph_winners g !! coords d = Some d)
  /\ StronglySorted (fun a b => (depth a <= depth b)%Z) (resolved g)
  /\ forall d, d ∈ resolved g -> rooted (graph_winners g) d.
Proof.
  intros Hs (st & Hl & -> & ->)%walk_finish.
  apply (walk_loop_inv graph_inv) in Hl as [HI _]; [|apply graph_inv_step | apply graph_inv_init | done].
  split_and!; [rewrite resolved_of_coords by done; apply HI | | |].
  - intros d. by apply resolved_of_spec.
  - apply HI.
  - intros d Hd%resolved_of_spec; [|done]. by eapply gi_rooted.
Qed.

(** ** Nothing is lost *)

(** The three reasons to drop a declaration: an exclusion on its path names
    its coordinate, its scope does not propagate, it is a stripped optional. *)
Definition excluded (c : Coords) (it : WorkItem) : Prop :=
  exists x, x ∈ it_exclusions it
    /\ (Pom.x_group_id x = "*" \/ Pom.x_group_id x = group c)
    /\ (Pom.x_artifact_id x = "*" \/ Pom.x_artifact_id x = artifact c).

Definition unpropagated (it : WorkItem) : Prop :=
  scope_parse (Pom.d_scope (it_dep it)) = Import
  \/ is_direct it = false
     /\ (scope_parse (Pom.d_scope (it_dep it)) ∈ [Provided; Test; System]
         \/ parent_scope it ∈ [Provided; System; Import]).

Definition stripped (it : WorkItem) : Prop :=
  trim <$> Pom.d_optional (it_dep it) = Some "true" /\ is_direct it = false /\ strip_optional opts = true.

Definition dropped (it : WorkItem) : Prop :=
  exists c, Coords.new (Pom.d_group_id (it_dep it)) (Pom.d_artifact_id (it_dep it)) = Ok c
    /\ (excluded c it \/ unpropagated it \/ stripped it).

Lemma excluded_of c it : matches_any_exclusion c (it_exclusions it) = true -> excluded c it.
Proof.
  intros (x & Hx & [Hg Ha]%andb_true_iff)%existsb_exists. exists x. split; [by apply list_elem_of_In |].
  apply orb_true_iff in Hg, Ha. rewrite !String.eqb_eq in Hg, Ha. done.
Qed.

Lemma unpropagated_of it : effective_scope it = None -> unpropagated it.
Proof.
  unfold effective_scope, unpropagated. destruct (is_direct it).
  - case_bool_decide; [by left | done].
  - destruct (scope_parse _), (parent_scope it); cbn; intros; try done; try (by left); right;
      (split; [done |]); first [left; set_solver | right; set_solver].
Qed.

Lemma stripped_of it :
  (parse_bool (Pom.d_optional (it_dep it)) && negb (is_direct it) && strip_optional opts) = true -> stripped it.
Proof. intros [[Ho%bool_decide_eq_true Hd%negb_true_iff]%andb_true_iff Hs]%andb_true_iff. by split_and!. Qed.

(** An item that was dropped, or has a winner at least as near. *)
Definition settled (ws : gmap Coords ResolvedDep) (it : WorkItem) : Prop :=
  dropped it
  \/ exists c w, Coords.new (Pom.d_group_id (it_dep it)) (Pom.d_artifact_id (it_dep it)) = Ok c
       /\ ws !! c = Some w /\ (depth w <= it_depth it)%Z.

(** [it] was not dropped, and [w] is the winner it made. *)
Definition took (it : WorkItem) (w : ResolvedDep) : Prop :=
  Coords.new (Pom.d_group_id (it_dep it)) (Pom.d_artifact_id (it_dep it)) = Ok (coords w)
  /\ matches_any_exclusion (coords w) (it_exclusions it) = false
  /\ effective_scope it = Some (scope w)
  /\ depth w = it_depth it /\ winning_path w = parent_path it ++ [coords w].

(** The declaration [d] of the root, and of the winner [w] that [it] made: the
    exclusions are those collected on the path to [w]. *)
Definition root_decl (d : Pom.RawDependency) : WorkItem := mkItem d 1 [] Compile [] true.

Definition child_decl (it : WorkItem) (w : ResolvedDep) (d : Pom.RawDependency) : WorkItem :=
  mkItem d (u32_sat_add (depth w) 1) (winning_path w) (scope w)
    (it_exclusions it ++ Pom.d_exclusions (it_dep it)) false.

(** What a POM declares, its imports apart. *)
Definition declares (p : Profile.ResolvedPom) (d : Pom.RawDependency) : Prop :=
  d ∈ Pom.dependencies (Profile.pom p) /\ scope_parse (Pom.d_scope d) <> Import.

(** The effective POM of the version that was chosen for the winner [w] of [it]. *)
Definition pom_of (it : WorkItem) (w : ResolvedDep) (r : Profile.ResolvedPom) : Prop :=
  exists fv, resolve_snapshot_fetch_version (version w) (coords w) (it_dep it) = Ok fv
    /\ child_pom_ref opts (coords w) fv = Ok r.

(** The declarations that the graph [ws] reaches from those of the root. *)
Inductive arises (root : Profile.ResolvedPom) (ws : gmap Coords ResolvedDep) : WorkItem -> Prop :=
  | arises_root d : declares root d -> arises root ws (root_decl d)
  | arises_child it w r d : arises root ws it -> ws !! coords w = Some w -> took it w ->
      pom_of it w r -> declares r d -> arises root ws (child_decl it w d).

(** A winner with the declaration that made it, and its own declarations. *)
Definition accounted (root : Profile.ResolvedPom) (ws : gmap Coords ResolvedDep) (w : ResolvedDep)
    (P : WorkItem -> Prop) : Prop :=
  exists it, arises root ws it /\ took it w
    /\ (scope w = System \/ exists r, pom_of it w r /\ forall d, declares r d -> P (child_decl it w d)).

Definition pending (st : WalkState) (it : WorkItem) : Prop := it ∈ queue st \/ settled (winners st) it.

Record complete_inv (root : Profile.ResolvedPom) (st : WalkState) : Prop := {
  ci_graph : graph_inv st;
  ci_root : forall d, declares root d -> pending st (root_decl d);
  ci_queue : Forall (arises root (winners st)) (queue st);
  ci_children : forall c w, winners st !! c = Some w ->
    accounted root (winners st) w (pending st)
}.

Lemma arises_mono root ws ws' it : ws ⊆ ws' -> arises root ws it -> arises root ws' it.
Proof.
  intros Hsub H. induction H as [d Hd|it w r d _ IH Hw Ht Hr Hd]; [by apply arises_root |].
  eapply arises_child; [exact IH | by eapply lookup_weaken | done | done | done].
Qed.

(** The items the walk enqueues are the declarations. *)
Lemma direct_items_spec p it :
  it ∈ direct_items (Pom.dependencies (Profile.pom p)) <-> exists d, declares p d /\ it = root_decl d.
Proof.
  unfold direct_items. rewrite list_elem_of_In, in_map_iff. unfold declares. split.
  - intros (d & <- & [Hd H%negb_true_iff%bool_decide_eq_false]%List.filter_In). exists d.
    by rewrite list_elem_of_In.
  - intros (d & [Hd H] & ->). exists d. split; [done |]. apply List.filter_In. rewrite <- list_elem_of_In.
    split; [done |]. by apply negb_true_iff, bool_decide_eq_false.
Qed.

Lemma child_items_spec it w p kid : took it w ->
  kid ∈ child_items it (winning_path w) (scope w) (Pom.dependencies (Profile.pom p))
  <-> exists d, declares p d /\ kid = child_decl it w d.
Proof.
  intros (_ & _ & _ & Hd & _). unfold child_items, child_decl. rewrite Hd, list_elem_of_In, in_map_iff.
  unfold declares. split.
  - intros (d & <- & [Hin H%negb_true_iff%bool_decide_eq_false]%List.filter_In). exists d.
    by rewrite list_elem_of_In.
  - intros (d & [Hin H] & ->). exists d. split; [done |]. apply List.filter_In. rewrite <- list_elem_of_In.
    split; [done |]. by apply negb_true_iff, bool_decide_eq_false.
Qed.

Lemma settled_mono ws ws' it : ws ⊆ ws' -> settled ws it -> settled ws' it.
Proof.
  intros Hsub [H|(c & w & Hc & Hw & Hd)]; [by left |]. right. exists c, w.
  split_and!; try done. by eapply lookup_weaken.
Qed.

Lemma child_pom_ref_of c fv s r :
  coherent opts s -> (child_pom opts c fv s).1 = Ok r -> child_pom_ref opts c fv = Ok r.
Proof.
  intros Hs Hr. destruct (child_pom_insens opts c fv) as [_ H]. destruct (H s Hs) as (H1 & _).
  rewrite child_pom_none in H1. cbn in H1. rewrite Hr in H1.
  by destruct (child_pom_ref opts c fv); cbn in H1; subst.
Qed.

(** Processing an item settles it. *)
Lemma process_item_settles item rest st s st' s' :
  graph_inv st -> queue st = item :: rest -> coherent opts s ->
  process_item opts item (set_queue st rest) s = (Ok st', s') ->
  settled (winners st') item.
Proof.
  intros HI Eq Hs. destruct (bfs_head st item rest (gi_bfs _ HI) Eq) as (Hle & _).
  unfold process_item. intros H. W_inv H. apply lift_ok in Hm as [Hc ->]. rename a into c.
  assert (Hnew : Coords.new (Pom.d_group_id (it_dep item)) (Pom.d_artifact_id (it_dep item)) = Ok c).
  { by destruct (Coords.new _ _); [injection Hc as -> | done]. }
  destruct (matches_any_exclusion _ _) eqn:Hx; [left; exists c; eauto using excluded_of |].
  assert (Hhave : forall sk st1, winners st1 = winners st -> is_Some (winners st !! c) ->
            settled (winners (set_skipper st1 sk)) item).
  { intros sk st1 E [w Hw]. right. exists c, w. split; [done |]. cbn. rewrite E. split; [done |]. by eapply Hle. }
  destruct (Skipper.decide_visit _ _ _ _ _) as [dec sk] eqn:Ed. cbn zeta in H. destruct dec as [|r].
  - unfold visit in H. destruct (effective_scope item) as [eff|] eqn:He; [|left; exists c; eauto using unpropagated_of].
    destruct (_ && strip_optional opts) eqn:Eo; [left; exists c; eauto using stripped_of |].
    apply W_bind_ok in H as ([[rv fv] ws] & sv & Hm & H). cbn zeta in H.
    assert (Hco : coherent opts sv).
    { destruct (resolve_version_agree opts item c s s) as (_ & Hco & _); [by split_and! |]. by rewrite Hm in Hco. }
    assert (Hwin : forall st0, (forall w0, winners st0 !! c = Some w0 -> (it_depth item < depth w0)%Z) ->
              win opts item c (Skipper.from_raw (it_exclusions item)) eff rv fv st0 sv = (Ok st', s') ->
              settled (winners st') item).
    { intros st0 Hd Hw. apply win_step in Hw as (w & items & Hw & <- & _); try done;
        [| by eapply resolve_version_fetch].
      right. exists (coords w), w. destruct Hw as (_ & -> & _ & _ & Hdw & _).
      rewrite lookup_insert_eq, Hdw. by split_and!. }
    destruct (winners (push_warnings ws _) !! c) as [w0|] eqn:Ew; cbn in Ew.
    + destruct (depth w0 <=? it_depth item)%Z eqn:Ed0.
      * injection H as <- <-. apply (Hhave sk (set_queue st rest)); [done | by exists w0].
      * apply Z.leb_gt in Ed0. eapply Hwin; [|exact H]. cbn. intros w1 Hw1. by simplify_eq.
    + eapply Hwin; [|exact H]. cbn. intros w1 Hw1. by simplify_eq.
  - injection H as <- <-.
    assert (Hin : is_Some (winners st !! c)).
    { apply Skipper.decide_skip in Ed as [_ [Hk|(w & Hd & _)]]; cbn in *; [by apply (gi_leaves _ HI) |].
      by destruct (winners st !! c). }
    cbn. destruct (winners st !! c) eqn:E; cbn; by apply (Hhave sk (set_queue st rest)).
Qed.

Lemma pending_step item rest st st' it :
  queue st = item :: rest -> winners st ⊆ winners st' ->
  (forall x, x ∈ rest -> x ∈ queue st') -> settled (winners st') item ->
  pending st it -> pending st' it.
Proof.
  intros Eq Hsub Hrest Hset. unfold pending. rewrite Eq.
  intros [[->|Hin]%elem_of_cons|Hs]; [by right | left; auto | right].
  by eapply settled_mono.
Qed.

Lemma accounted_mono root ws ws' w (P P' : WorkItem -> Prop) :
  ws ⊆ ws' -> (forall it, P it -> P' it) -> accounted root ws w P -> accounted root ws' w P'.
Proof.
  intros Hsub HP (it & H1 & H2 & H3). exists it. split_and!; [by eapply arises_mono | done |].
  destruct H3 as [?|(r & Hr & Hd)]; [by left | right; exists r; eauto].
Qed.

(** The step that makes the winner [w] accounts for it. *)
Lemma won_accounted root item rest st st' w items :
  won opts item (set_queue st rest) st' w items -> arises root (winners st') item ->
  accounted root (winners st') w (pending st')
  /\ Forall (fun it => it ∈ rest \/ arises root (winners st') it) (queue st').
Proof.
  intros (Hc & Hwin & _ & Hq & Hd & Hpath & Heff & Hx & _ & Hkids) Hit. cbn in *.
  assert (Htook : took item w) by (by unfold took; split_and!).
  assert (Hw : winners st' !! coords w = Some w) by (rewrite Hwin; apply lookup_insert_eq).
  destruct Hkids as [[Hsys ->]|(fv & s1 & r & Hfv & Hs1 & Hr1 & ->)].
  - split; [exists item; by split_and!; try left |]. rewrite Hq, app_nil_r. apply list.Forall_forall. auto.
  - assert (Hpom : pom_of item w r) by (exists fv; split; [done | by eapply child_pom_ref_of]). split.
    + exists item. split_and!; [done | done | right]. exists r. split; [done |]. intros d Hdecl. left.
      rewrite Hq. apply elem_of_app. right. apply child_items_spec; eauto.
    + rewrite Hq. apply list.Forall_forall. intros it [?|Hk]%elem_of_app; [by left | right].
      apply child_items_spec in Hk as (d & Hdecl & ->); [|done]. by eapply arises_child.
Qed.

Lemma complete_inv_step root item rest st s st' s' :
  complete_inv root st -> queue st = item :: rest -> coherent opts s ->
  process_item opts item (set_queue st rest) s = (Ok st', s') -> complete_inv root st'.
Proof.
  intros [HI Hr Ha Hch] Eq Hs Hp.
  pose proof (graph_inv_step _ _ _ _ _ _ HI Eq Hs Hp) as HI'.
  pose proof (process_item_settles _ _ _ _ _ _ HI Eq Hs Hp) as Hset.
  rewrite Eq in Ha. apply list.Forall_cons in Ha as [Hai Har]. rewrite list.Forall_forall in Har.
  apply process_item_step in Hp as [_ [[(E1 & E2 & _) _]|(w & items & Hwon & _)]]; [| |done]; cbn in *.
  - assert (Hall : forall it, pending st it -> pending st' it).
    { intros it. apply (pending_step item rest); [done | by rewrite E2 | by rewrite E1 | done]. }
    split; [done | auto | rewrite <- E1, <- E2; by apply list.Forall_forall |].
    intros c w Hw. rewrite <- E2 in Hw. eapply (accounted_mono root (winners st)); [by rewrite E2 | exact Hall | by eapply Hch].
  - pose proof (won_new opts item rest st st' w items (gi_bfs _ HI) Eq Hwon) as Hnew.
    pose proof Hwon as (_ & Hwin & _ & Hq & _). cbn in *.
    assert (Hsub : winners st ⊆ winners st') by (rewrite Hwin; by apply insert_subseteq).
    assert (Hall : forall it, pending st it -> pending st' it).
    { intros it. apply (pending_step item rest); [done | done | | done].
      intros x Hx. rewrite Hq. apply elem_of_app. by left. }
    destruct (won_accounted root item rest st st' w items Hwon) as [Hacc Hqs]; [by eapply arises_mono |].
    split; [done | auto | |].
    + eapply Forall_impl; [|exact Hqs]. intros it [Hin|]; [|done]. eapply arises_mono; [done | auto].
    + intros c w' E. rewrite Hwin in E. apply lookup_insert_Some in E as [[<- <-]|[_ E]]; [done |].
      eapply accounted_mono; [done | exact Hall | by eapply Hch].
Qed.

(** C2. A successful walk (from a coherent set of caches) loses nothing.
    Every dependency the root declares (imports apart) either was dropped for
    a stated reason (an exclusion on its path, a scope that does not propagate,
    a stripped optional) or its coordinate has a winner at least as near to the
    root.  And every resolved dependency was made by a declaration that the
    graph reaches from those of the root, so that its exclusions are the ones
    collected on that path, and did not match; unless its scope is system,
    where no POM is read, every dependency that the effective POM of its
    chosen version declares is settled in the same way. *)
Theorem walk_complete fuel root s g s' :
  coherent opts s -> walk opts fuel root s = Some (Ok g, s') ->
  (forall d, declares root d -> settled (graph_winners g) (root_decl d))
  /\ forall w, w ∈ resolved g -> accounted root (graph_winners g) w (settled (graph_winners g)).
Proof.
  intros Hs (st & Hl & -> & ->)%walk_finish.
  apply (walk_loop_inv (complete_inv root)) in Hl as [[HI Hr Ha Hch] Hq]; [| apply complete_inv_step | | done].
  2: { split; [apply graph_inv_init | | | done].
       - intros d Hd. left. apply direct_items_spec. eauto.
       - apply list.Forall_forall. intros it (d & Hd & ->)%direct_items_spec. by apply arises_root. }
  assert (Hdone : forall it, pending st it -> settled (winners st) it).
  { intros it [Hin|?]; [|done]. rewrite Hq in Hin. by apply elem_of_nil in Hin. }
  split; [auto |]. intros d Hd%resolved_of_spec; [|done].
  eapply accounted_mono; [done | exact Hdone | by eapply Hch].
Qed.

(** ** Termination *)

Section Termination.
Context (U : gset Coords) (D : nat).

Definition dep_in (d : Pom.RawDependency) : Prop :=
  forall c, Coords.new (Pom.d_group_id d) (Pom.d_artifact_id d) = Ok c -> c ∈ U.

(** The POMs reachable from the universe stay in it, and declare at most [D]
    dependencies each. *)
Definition bounded : Prop :=
  forall c v r, c ∈ U -> child_pom_ref opts c v = Ok r ->
    length (Pom.dependencies (Profile.pom r)) <= D /\ Forall dep_in (Pom.dependencies (Profile.pom r)).

Definition measure (st : WalkState) : nat :=
  length (queue st) + D * (size U - size (dom (winners st))).

Record term_inv (st : WalkState) : Prop := {
  ti_bfs : bfs st;
  ti_dom : dom (winners st) ⊆ U;
  ti_items : Forall (fun it => dep_in (it_dep it)) (queue st)
}.

Lemma child_items_length item path eff ds : length (child_items item path eff ds) <= length ds.
Proof. unfold child_items. rewrite length_map. apply List.filter_length_le. Qed.

Lemma child_items_in item path eff ds :
  Forall dep_in ds -> Forall (fun it => dep_in (it_dep it)) (child_items item path eff ds).
Proof.
  intros HF. unfold child_items. apply Forall_map, List.Forall_forall. intros d [Hd _]%List.filter_In.
  rewrite List.Forall_forall in HF. by apply HF.
Qed.

Lemma term_step item rest st s st' s' :
  bounded -> term_inv st -> queue st = item :: rest -> coherent opts s ->
  process_item opts item (set_queue st rest) s = (Ok st', s') ->
  term_inv st' /\ measure st' < measure st.
Proof.
  intros Hbd [Hb Hdom Hit] Eq Hs Hp. apply process_item_step in Hp as [_ Hstep]; [|done].
  assert (Hb' : bfs st').
  { eapply (bfs_step opts); [done | done |]. destruct Hstep as [[? _]|(w & i & ? & _)]; eauto. }
  rewrite Eq in Hit. apply list.Forall_cons in Hit as [Hi Hit]. unfold measure. rewrite Eq.
  destruct Hstep as [[(E1 & E2 & _) _]|(w & items & Hwon & _)]; cbn in *.
  - rewrite <- E1, <- E2. split; [split; [done | by rewrite <- E2 | by rewrite <- E1] | lia].
  - pose proof (won_new opts item rest st st' w items Hb Eq Hwon) as Hnew.
    destruct Hwon as (Hc & Hwin & _ & Hq & _ & _ & _ & _ & _ & Hkids). cbn in *.
    assert (HcU : coords w ∈ U) by by apply Hi.
    assert (Hkids' : length items <= D /\ Forall (fun it => dep_in (it_dep it)) items).
    { destruct Hkids as [[_ ->]|(fv & s1 & r & _ & Hs1 & Hr & ->)]; [cbn; split; [lia | constructor] |].
      destruct (Hbd _ _ _ HcU (child_pom_ref_of _ _ _ _ Hs1 Hr)) as [Hlen HF]. split.
      - etransitivity; [apply child_items_length | done].
      - by apply child_items_in. }
    destruct Hkids' as [Hlen HF]. rewrite Hwin, Hq, dom_insert_L, length_app.
    assert (Hsz : size ({[coords w]} ∪ dom (winners st)) = S (size (dom (winners st)))).
    { rewrite size_union, size_singleton; [lia |]. apply disjoint_singleton_l. by apply not_elem_of_dom. }
    assert (Hle : {[coords w]} ∪ dom (winners st) ⊆ U) by set_solver.
    pose proof (subseteq_size _ _ Hle) as Hsub. rewrite Hsz in *. split.
    + split; [done | rewrite Hwin, dom_insert_L; done |]. rewrite Hq. apply list.Forall_app. by split.
    + replace (size U - size (dom (winners st))) with (S (size U - S (size (dom (winners st))))) by lia.
      lia.
Qed.

Lemma walk_loop_terminates fuel st s :
  bounded -> term_inv st -> coherent opts s -> measure st <= fuel ->
  walk_loop opts fuel st s <> None.
Proof.
  intros Hbd. revert st s. induction fuel as [|fuel IH]; intros st s HT Hs Hm; cbn;
    destruct (queue st) as [|item rest] eqn:Eq; try done.
  - exfalso. unfold measure in Hm. rewrite Eq in Hm. apply Nat.le_0_r, Nat.eq_add_0 in Hm as [Hm _]. done.
  - destruct (process_item opts item (set_queue st rest) s) as [[st1|e] s1] eqn:Ep; [|done].
    destruct (term_step _ _ _ _ _ _ Hbd HT Eq Hs Ep) as [HT' Hlt].
    apply IH; [done | by eapply process_item_coherent | lia].
Qed.

(** C3. The walk terminates: if the coordinates reachable from the root lie
    in a finite set [U] and no POM declares more than [D] dependencies, the
    loop ends within [|direct dependencies| + D * |U|] rounds, whatever cycles
    the dependency graph has. *)
Theorem walk_terminates root s fuel :
  bounded -> Forall dep_in (Pom.dependencies (Profile.pom root)) -> coherent opts s ->
  length (Pom.dependencies (Profile.pom root)) + D * size U <= fuel ->
  walk opts fuel root s <> None.
Proof.
  intros Hbd HU Hs Hf. unfold walk.
  destruct (walk_loop _ _ _ _) as [[[] ?]|] eqn:E; [done | done |]. exfalso. revert E.
  apply walk_loop_terminates; [done | | done |].
  - split; [apply bfs_init | cbn; set_solver |]. cbn. unfold direct_items.
    apply Forall_map, List.Forall_forall. intros d [Hd _]%List.filter_In.
    rewrite List.Forall_forall in HU. by apply HU.
  - unfold measure. cbn. rewrite dom_empty_L, size_empty, Nat.sub_0_r.
    assert (length (direct_items (Pom.dependencies (Profile.pom root)))
            <= length (Pom.dependencies (Profile.pom root))).
    { unfold direct_items. rewrite length_map. apply List.filter_length_le. }
    lia.
Qed.
End Termination.

End Graph.
(** ** A small repository *)

Definition ex_dep (a v : string) : Pom.RawDependency :=
  Pom.mkDependency "ex" a (Some v) None None None None None [].

Definition ex_pom (a v : string) (ds : list Pom.RawDependency) : Pom.RawPom :=
  Pom.mkPom "4.0.0" None (Some "ex") a (Some v) "jar" None None None None [] None ds [] None [] [] [].

Definition ex_root (ds : list Pom.RawDependency) : Profile.ResolvedPom :=
  Profile.mkResolved (ex_pom "root" "1" ds) (Effective.mkEffective (ex_pom "root" "1" ds) [] []) [] [].

Definition co (a : string) : Coords := mkCoords "ex" a.

(** [A] and [B] depend on each other; [B] asks for another [A]. *)
Definition cyclic_source : Source.MetadataSource :=
  Source.fixture_source
    (list_to_map [((co "A", "1.0"), ex_pom "A" "1.0" [ex_dep "B" "1.0"]);
                  ((co "B", "1.0"), ex_pom "B" "1.0" [ex_dep "A" "2.0"])]) ∅.

(** [B] declares its dependency on the leaf [A] with a malformed version. *)
Definition malformed_source : Source.MetadataSource :=
  Source.fixture_source
    (list_to_map [((co "A", "1.0"), ex_pom "A" "1.0" []);
                  ((co "B", "1.0"), ex_pom "B" "1.0" [ex_dep "A" "[1.0"])]) ∅.

Definition summary (o : option (result WalkError ResolvedGraph * Sess))
    : option (result WalkError (list (string * string * Z))) :=
  match o with
  | Some (Ok g, _) => Some (Ok (map (fun d => (display (coords d), version d, depth d)) (resolved g)))
  | Some (Err e, _) => Some (Err e)
  | None => None
  end.

(** The converse of the skipper's guarantee fails: with the skipper a
    second occurrence is skipped before its version is even read, so a walk
    that fails without the skipper (a malformed version range on a duplicate)
    succeeds with it.  The two modes are documented to give the same graph. *)
Theorem skipper_masks_errors :
  let root := ex_root [ex_dep "A" "1.0"; ex_dep "B" "1.0"] in
  summary (walk (SRC := malformed_source) (set_enable WalkOptions_default true) 10 root None)
  = Some (Ok [("ex:A", "1.0", 1%Z); ("ex:B", "1.0", 1%Z)])
  /\ summary (walk (SRC := malformed_source) (set_enable WalkOptions_default false) 10 root None)
     = Some (Err (InvalidSpec "ex:A" "[1.0" (VersionSpec.UnmatchedBracket "[1.0"))).
Proof. split; vm_compute; reflexivity. Qed.

Lemma skipper_preserves_graph_witness :
  exists g' s'', walk (SRC := cyclic_source) (set_enable WalkOptions_default true) 10
                   (ex_root [ex_dep "A" "1.0"]) None = Some (Ok g', s'').
Proof.
  destruct (walk (SRC := cyclic_source) (set_enable WalkOptions_default false) 10
              (ex_root [ex_dep "A" "1.0"]) None) as [[[g|e] s']|] eqn:E.
  - destruct (skipper_preserves_graph (SRC := cyclic_source) WalkOptions_default 10
                (ex_root [ex_dep "A" "1.0"]) None g s' I E) as (g' & s'' & H & _).
    exists g', s''. exact H.
  - exfalso. vm_compute in E. discriminate E.
  - exfalso. vm_compute in E. discriminate E.
Defined.

Lemma walk_graph_tree_witness :
  exists g s', walk (SRC := cyclic_source) WalkOptions_default 10 (ex_root [ex_dep "A" "1.0"]) None
               = Some (Ok g, s') /\ NoDup (coords <$> resolved g).
Proof.
  destruct (walk (SRC := cyclic_source) WalkOptions_default 10 (ex_root [ex_dep "A" "1.0"]) None)
    as [[[g|e] s']|] eqn:E.
  - exists g, s'. split; [reflexivity |].
    exact (proj1 (walk_graph_tree (SRC := cyclic_source) WalkOptions_default 10
             (ex_root [ex_dep "A" "1.0"]) None g s' I E)).
  - exfalso. vm_compute in E. discriminate E.
  - exfalso. vm_compute in E. discriminate E.
Defined.

Lemma walk_complete_witness :
  exists g s', walk (SRC := cyclic_source) WalkOptions_default 10 (ex_root [ex_dep "A" "1.0"]) None
               = Some (Ok g, s')
    /\ length (resolved g) = 2
    /\ forall w, w ∈ resolved g ->
         accounted (SRC := cyclic_source) WalkOptions_default (ex_root [ex_dep "A" "1.0"]) (graph_winners g) w
           (settled WalkOptions_default (graph_winners g)).
Proof.
  destruct (walk (SRC := cyclic_source) WalkOptions_default 10 (ex_root [ex_dep "A" "1.0"]) None)
    as [[[g|e] s']|] eqn:E.
  - exists g, s'. split_and!; [reflexivity | vm_compute in E; by injection E as <- _ |].
    exact (proj2 (walk_complete (SRC := cyclic_source) WalkOptions_default 10
             (ex_root [ex_dep "A" "1.0"]) None g s' I E)).
  - exfalso. vm_compute in E. discriminate E.
  - exfalso. vm_compute in E. discriminate E.
Defined.

Lemma cyclic_bounded : bounded (SRC := cyclic_source) WalkOptions_default {[co "A"; co "B"]} 1.
Proof.
  intros c v r _. unfold child_pom_ref.
  assert (HU : forall a w, a = "A" \/ a = "B" -> dep_in {[co "A"; co "B"]} (ex_dep a w)).
  { intros a w Ha c0. cbn. destruct Ha as [-> | ->]; intros [= <-]; set_solver. }
  destruct (Source.fetch_pom c v) as [[p o]|e] eqn:E; [|done]. cbn in E.
  match type of E with context [?m !! (c, v)] => destruct (m !! (c, v)) as [q|] eqn:El; [|done] end.
  injection E as <- _.
  apply lookup_insert_Some in El as [[[= <- <-] <-]|[_ El]];
    [|apply lookup_insert_Some in El as [[[= <- <-] <-]|[_ El]]; [|done]];
    intros Hr; vm_compute in Hr; injection Hr as <-;
    (split; [cbn; lia |]); cbn [Profile.pom Pom.dependencies]; repeat constructor; apply HU; auto.
Qed.

Lemma walk_terminates_witness :
  walk (SRC := cyclic_source) WalkOptions_default 3 (ex_root [ex_dep "A" "1.0"]) None <> None.
Proof.
  apply (walk_terminates (SRC := cyclic_source) WalkOptions_default {[co "A"; co "B"]} 1
           (ex_root [ex_dep "A" "1.0"]) None 3).
  - exact cyclic_bounded.
  - repeat constructor. intros c. cbn. intros [= <-]. set_solver.
  - exact I.
  - vm_compute. lia.
Defined.

End WalkerGraph.
