(* ===== verification/Strict.v ===== *)
(** * barista-resolver: strict resolution

    Models crates/barista-resolver/src/strict.rs: the prefetch of every
    reachable POM into a snapshot, the solver's view of it, the run of the
    solver and the report of a conflict.  The solver (pubgrub) and its sets
    of versions (version-ranges) are the classes [Ranges] and [PubGrub]; the
    hash maps keyed by a version are keyed by its canonical text, which is
    what its [Eq] and [Hash] look at. *)

From S2P Require Import Prelude Version Coords VersionSpec Pom Effective Profile Source.

Module Strict.
Import Coords.

(** ** The libraries *)

(** [version_ranges::Ranges<Version>]. *)
Class Ranges := {
  Range : Type;
  full : Range;
  empty : Range;
  singleton : Version.Version -> Range;
  higher_than : Version.Version -> Range;
  strictly_higher_than : Version.Version -> Range;
  lower_than : Version.Version -> Range;
  strictly_lower_than : Version.Version -> Range;
  union : Range -> Range -> Range;
  intersection : Range -> Range -> Range;
  contains : Range -> Version.Version -> bool;
  range_display : Range -> string
}.

Inductive StrictPackage : Type :=
  | Root
  | Real (c : Coords).

#[export] Instance StrictPackage_eq_dec : EqDecision StrictPackage.
Proof. solve_decision. Defined.

Inductive Dependencies {R : Ranges} : Type :=
  | Unavailable (reason : string)
  | Available (constraints : list (StrictPackage * Range)).

(** [DerivationTree] with its [External] causes. *)
Inductive Tree {R : Ranges} : Type :=
  | NoVersions (p : StrictPackage) (r : Range)
  | FromDependencyOf (from : StrictPackage) (from_range : Range) (to : StrictPackage) (to_range : Range)
  | Custom (p : StrictPackage) (r : Range) (msg : string)
  | NotRoot (p : StrictPackage) (v : Version.Version)
  | Derived (cause1 cause2 : Tree).

Inductive PubGrubError {R : Ranges} : Type :=
  | NoSolution (tree : Tree)
  | ErrorRetrievingDependencies (p : StrictPackage) (v : Version.Version)
  | ErrorChoosingVersion (p : StrictPackage)
  | ErrorInShouldCancel.

(** [resolve] of a provider, which is its [choose_version] and
    [get_dependencies]; and the [FromIterator] of its constraints. *)
Class PubGrub {R : Ranges} := {
  collect : list (StrictPackage * Range) -> list (StrictPackage * Range);
  resolve : (StrictPackage -> Range -> option Version.Version) ->
            (StrictPackage -> Version.Version -> Dependencies) ->
            StrictPackage -> Version.Version ->
            result PubGrubError (list (StrictPackage * Version.Version))
}.

(** ** Data *)

Record ResolvedStrictDep := mkStrictDep { sd_coords : Coords; sd_version : string; sd_scope : string }.

Record DepEdge := mkEdge {
  from_coords : Coords;
  from_version : string;
  to_coords : Coords;
  required_range : string;
  available_versions : list string
}.

#[export] Instance DepEdge_eq_dec : EqDecision DepEdge.
Proof. solve_decision. Defined.

Record StrictDerivation := mkDerivation { root_cause : string; contributing_edges : list DepEdge }.

Inductive StrictOutcome : Type :=
  | Resolved (deps : gmap Coords ResolvedStrictDep)
  | Conflict (d : StrictDerivation).

(** The [detail] of [Adapter], as what it reports. *)
Inductive AdapterDetail : Type :=
  | InvalidCoords (group artifact : string) (e : ParseError)
  | RetrievingDependencies (p : StrictPackage) (v : Version.Version)
  | ChoosingVersion (p : StrictPackage)
  | ShouldCancel.

Inductive StrictError : Type :=
  | Metadata (e : Source.MetadataError)
  | InvalidSpec (coords spec : string) (detail : VersionSpec.ParseError)
  | MissingVersion (coords : string)
  | Adapter (detail : AdapterDetail).

(** ** Declarations *)

Definition scope_or_default (raw : Pom.RawDependency) : string :=
  match Pom.d_scope raw with
  | Some s => if is_empty (trim s) then "compile" else trim s
  | None => "compile"
  end.

Definition trimmed_is (word : string) (s : option string) : bool :=
  match s with
  | Some s => eq_ignore_ascii_case (trim s) word
  | None => false
  end.

Definition is_optional (raw : Pom.RawDependency) : bool := trimmed_is "true" (Pom.d_optional raw).
Definition is_import_scope (raw : Pom.RawDependency) : bool := trimmed_is "import" (Pom.d_scope raw).

Definition propagates_transitively (scope : string) : bool :=
  String.eqb scope "compile" || String.eqb scope "runtime".

Section Strict.
Context `{R : Ranges} `{CF : CaseFolding} `{SRC : Source.MetadataSource}.

(** ** Ranges of a requirement *)

Definition interval_to_range (iv : VersionSpec.Interval) : Range :=
  let lo := match VersionSpec.lower iv with
            | VersionSpec.Unbounded => full
            | VersionSpec.Included v => higher_than v
            | VersionSpec.Excluded v => strictly_higher_than v
            end in
  let hi := match VersionSpec.upper iv with
            | VersionSpec.Unbounded => full
            | VersionSpec.Included v => lower_than v
            | VersionSpec.Excluded v => strictly_lower_than v
            end in
  match VersionSpec.lower iv, VersionSpec.upper iv with
  | VersionSpec.Included l, VersionSpec.Included h =>
      if Version.eq l h then singleton l else intersection lo hi
  | _, _ => intersection lo hi
  end.

Definition spec_to_range (spec : VersionSpec.VersionSpec) : Range :=
  match spec with
  | VersionSpec.Hard intervals =>
      foldl (fun acc iv => union acc (interval_to_range iv)) empty intervals
  | _ => full
  end.

Definition soft_preferences_for (spec : VersionSpec.VersionSpec) (published : list Version.Version)
    : list Version.Version :=
  match spec with
  | VersionSpec.Soft v =>
      let declared := Version.parse v in
      if existsb (fun p => Version.eq p declared) published then [declared] else []
  | _ => []
  end.

(** ** The snapshot *)

Definition SnapshotEdge : Type := StrictPackage * Range.

(** A hash key [(Coords, Version)]. *)
Definition Key : Type := Coords * string.
Definition key (c : Coords) (v : Version.Version) : Key := (c, Version.canonical v).

Record Snapshot := mkSnapshot {
  versions_by_coords : gmap Coords (list Version.Version);
  dependencies : gmap Key (list SnapshotEdge);
  soft_preferences : gmap Coords (list Version.Version);
  version_strings : gmap Key string;
  root_deps : list SnapshotEdge;
  scopes : gmap Coords string
}.

Definition empty_snapshot : Snapshot := mkSnapshot ∅ ∅ ∅ ∅ [] ∅.

Definition set_versions (m : gmap Coords (list Version.Version)) (s : Snapshot) : Snapshot :=
  mkSnapshot m (dependencies s) (soft_preferences s) (version_strings s) (root_deps s) (scopes s).
Definition set_dependencies (m : gmap Key (list SnapshotEdge)) (s : Snapshot) : Snapshot :=
  mkSnapshot (versions_by_coords s) m (soft_preferences s) (version_strings s) (root_deps s) (scopes s).
Definition set_preferences (m : gmap Coords (list Version.Version)) (s : Snapshot) : Snapshot :=
  mkSnapshot (versions_by_coords s) (dependencies s) m (version_strings s) (root_deps s) (scopes s).
Definition set_strings (m : gmap Key string) (s : Snapshot) : Snapshot :=
  mkSnapshot (versions_by_coords s) (dependencies s) (soft_preferences s) m (root_deps s) (scopes s).
Definition push_root (e : SnapshotEdge) (s : Snapshot) : Snapshot :=
  mkSnapshot (versions_by_coords s) (dependencies s) (soft_preferences s) (version_strings s)
    (root_deps s ++ [e]) (scopes s).
Definition set_scopes (m : gmap Coords string) (s : Snapshot) : Snapshot :=
  mkSnapshot (versions_by_coords s) (dependencies s) (soft_preferences s) (version_strings s)
    (root_deps s) m.

(** [entry(k).or_insert(v)]. *)
Definition or_insert {K V} `{Countable K} (k : K) (v : V) (m : gmap K V) : gmap K V :=
  match m !! k with Some _ => m | None => <[k := v]> m end.

(** [Vec::sort]: stable. *)
Fixpoint insert_version (v : Version.Version) (l : list Version.Version) : list Version.Version :=
  match l with
  | [] => [v]
  | u :: l' => if Version.le v u then v :: l else u :: insert_version v l'
  end.

Definition sort_versions (l : list Version.Version) : list Version.Version := foldr insert_version [] l.

(** An operation on the snapshot, which an error discards. *)
Definition M (A : Type) : Type := Snapshot -> result StrictError (A * Snapshot).

#[export] Instance M_ret : MRet M := fun A a s => Ok (a, s).
#[export] Instance M_bind : MBind M := fun A B k m s =>
  match m s with
  | Ok (a, s') => k a s'
  | Err e => Err e
  end.

Definition lift {A} (r : result StrictError A) : M A := fun s =>
  match r with Ok a => Ok (a, s) | Err e => Err e end.
Definition modify (f : Snapshot -> Snapshot) : M unit := fun s => Ok (tt, f s).

(** The texts of the metadata, each kept under the version it parses to. *)
Definition record_strings (c : Coords) (texts : list string) (m : gmap Key string) : gmap Key string :=
  foldl (fun m v => or_insert (key c (Version.parse v)) v m) m texts.

Definition list_versions (c : Coords) : M (list Version.Version) := fun s =>
  match versions_by_coords s !! c with
  | Some cached => Ok (cached, s)
  | None =>
      match Source.fetch_metadata c with
      | Err e => Err (Metadata e)
      | Ok (meta, _) =>
          let versions := sort_versions (Version.parse <$> Source.versions meta) in
          Ok (versions, set_versions (<[c := versions]> (versions_by_coords s))
                          (set_strings (record_strings c (Source.versions meta) (version_strings s)) s))
      end
  end.

Definition extend_preferences (c : Coords) (prefs : list Version.Version) (s : Snapshot) : Snapshot :=
  set_preferences (<[c := default [] (soft_preferences s !! c) ++ prefs]> (soft_preferences s)) s.

(** The common body of the two compilers of a declaration. *)
Definition compile_dep (raw : Pom.RawDependency) : M (Coords * Range * list Version.Version) :=
  c ← lift (map_err (fun e => Adapter (InvalidCoords (Pom.d_group_id raw) (Pom.d_artifact_id raw) e))
              (Coords.new (Pom.d_group_id raw) (Pom.d_artifact_id raw)));
  version_text ← lift (ok_or (Pom.d_version raw) (MissingVersion (Coords.display c)));
  spec ← lift (map_err (InvalidSpec (Coords.display c) version_text) (VersionSpec.parse version_text));
  published ← list_versions c;
  let range := spec_to_range spec in
  _ ← modify (extend_preferences c (soft_preferences_for spec published));
  mret (c, range, List.filter (contains range) published).

Definition compile_dep_for_root (raw : Pom.RawDependency) : M (StrictPackage * Range * list Version.Version) :=
  fun s => match compile_dep raw s with
           | Ok (c, range, declared, s') => Ok (Real c, range, declared, s')
           | Err e => Err e
           end.

(** It never answers [None]. *)
Definition compile_dep_transitive (raw : Pom.RawDependency)
    : M (option (Coords * Range * list Version.Version)) :=
  fun s => match compile_dep raw s with
           | Ok (r, s') => Ok (Some r, s')
           | Err e => Err e
           end.

(** [scopes.entry(c).or_insert(scope)]. *)
Definition note_scope (c : Coords) (scope : string) (s : Snapshot) : Snapshot :=
  set_scopes (or_insert c scope (scopes s)) s.

Definition Queue : Type := list (Coords * Version.Version).

(** The versions of the declaration to look at: those in its range. *)
Definition enqueue (c : Coords) (range : Range) (declared : list Version.Version) : Queue :=
  (fun v => (c, v)) <$> List.filter (contains range) declared.

(** The loop over the declarations of the root. *)
Fixpoint root_loop (deps : list Pom.RawDependency) : M Queue :=
  match deps with
  | [] => mret []
  | raw :: deps' =>
      if is_import_scope raw then root_loop deps'
      else
        '(pkg, range, declared) ← compile_dep_for_root raw;
        _ ← modify (push_root (pkg, range));
        match pkg with
        | Root => root_loop deps'
        | Real c =>
            _ ← modify (note_scope c (scope_or_default raw));
            rest ← root_loop deps';
            mret (enqueue c range declared ++ rest)
        end
  end.

Definition fetch_pom_versioned (c : Coords) (v : Version.Version) : M Pom.RawPom := fun s =>
  let raw_version := default (Version.original v) (version_strings s !! key c v) in
  match Source.fetch_pom c raw_version with
  | Err e => Err (Metadata e)
  | Ok (pom, _) => Ok (pom, set_strings (or_insert (key c v) raw_version (version_strings s)) s)
  end.

(** The declarations of a transitive POM that count. *)
Definition counts (raw : Pom.RawDependency) : bool :=
  negb (is_import_scope raw) && negb (is_optional raw)
  && propagates_transitively (scope_or_default raw).

(** The loop over them: the edges and what they enqueue. *)
Fixpoint edge_loop (deps : list Pom.RawDependency) : M (list SnapshotEdge * Queue) :=
  match deps with
  | [] => mret ([], [])
  | raw :: deps' =>
      if negb (counts raw) then edge_loop deps'
      else
        r ← compile_dep_transitive raw;
        match r with
        | None => edge_loop deps'
        | Some (c, range, declared) =>
            _ ← modify (note_scope c (scope_or_default raw));
            '(edges, rest) ← edge_loop deps';
            mret ((Real c, range) :: edges, enqueue c range declared ++ rest)
        end
  end.

(** A round of the breadth-first loop for a pair not seen before. *)
Definition visit (c : Coords) (v : Version.Version) : M Queue :=
  pom ← fetch_pom_versioned c v;
  '(edges, more) ← edge_loop (Pom.dependencies pom);
  _ ← modify (fun s => set_dependencies (<[key c v := edges]> (dependencies s)) s);
  mret more.

(** The loop; the outer [None] is fuel exhaustion. *)
Fixpoint bfs (fuel : nat) (visited : gset Key) (queue : Queue) (s : Snapshot)
    : option (result StrictError Snapshot) :=
  match queue with
  | [] => Some (Ok s)
  | (c, v) :: queue' =>
      match fuel with
      | O => None
      | S fuel' =>
          if decide (key c v ∈ visited) then bfs fuel' visited queue' s
          else
            match visit c v s with
            | Ok (more, s') => bfs fuel' ({[key c v]} ∪ visited) (queue' ++ more) s'
            | Err e => Some (Err e)
            end
      end
  end.

Definition build_snapshot (fuel : nat) (root : Profile.ResolvedPom) : option (result StrictError Snapshot) :=
  match root_loop (Pom.dependencies (Profile.pom root)) empty_snapshot with
  | Err e => Some (Err e)
  | Ok (queue, s) => bfs fuel ∅ queue s
  end.

(** ** The provider *)

Definition root_version : Version.Version := Version.parse "0".

Section Provider.
Variable snap : Snapshot.

Definition choose_version (p : StrictPackage) (range : Range) : option Version.Version :=
  match p with
  | Root => if contains range root_version then Some root_version else None
  | Real c =>
      match List.find (contains range) (default [] (soft_preferences snap !! c)) with
      | Some v => Some v
      | None =>
          match versions_by_coords snap !! c with
          | None => None
          | Some published => List.find (contains range) (rev published)
          end
      end
  end.

Context `{PG : @PubGrub R}.

Definition package_display (p : StrictPackage) : string :=
  match p with Root => "<root>" | Real c => Coords.display c end.

Definition get_dependencies (p : StrictPackage) (v : Version.Version) : Dependencies :=
  match p with
  | Root =>
      if negb (Version.eq v root_version) then Unavailable "internal: non-singleton root version"
      else Available (collect (root_deps snap))
  | Real c =>
      match dependencies snap !! key c v with
      | Some edges => Available (collect edges)
      | None => Unavailable ("no POM in snapshot for " +:+ Coords.display c +:+ ":" +:+ Version.original v)
      end
  end.

(** ** Reports *)

Definition pick_witness_version (p : StrictPackage) (range : Range) : option string :=
  match p with
  | Root => Some (Version.original root_version)
  | Real c =>
      versions ← versions_by_coords snap !! c;
      v ← List.find (contains range) (rev versions);
      Some (default (Version.original v) (version_strings snap !! key c v))
  end.

Definition package_coords (p : StrictPackage) : Coords :=
  match p with Root => mkCoords "<root>" "<root>" | Real c => c end.

Definition collect_external (t : Tree) : list DepEdge :=
  match t with
  | FromDependencyOf from from_range (Real to) to_range =>
      [mkEdge (package_coords from) (default "*" (pick_witness_version from from_range)) to
         (range_display to_range)
         (Version.original <$> default [] (versions_by_coords snap !! to))]
  | _ => []
  end.

Fixpoint walk_tree (t : Tree) : list DepEdge :=
  match t with
  | Derived cause1 cause2 => walk_tree cause1 ++ walk_tree cause2
  | _ => collect_external t
  end.

(** What [retain] compares. *)
Definition edge_id (e : DepEdge) : Coords * string * Coords * string :=
  (from_coords e, from_version e, to_coords e, required_range e).

Fixpoint retain_first (seen : list (Coords * string * Coords * string)) (l : list DepEdge) : list DepEdge :=
  match l with
  | [] => []
  | e :: l' =>
      if decide (edge_id e ∈ seen) then retain_first seen l'
      else e :: retain_first (edge_id e :: seen) l'
  end.

Definition summarize (t : Tree) : string :=
  match t with
  | NoVersions p r => "no versions of " +:+ package_display p +:+ " satisfy " +:+ range_display r
  | FromDependencyOf _ _ to to_range =>
      "conflict on dependency " +:+ package_display to +:+ " required as " +:+ range_display to_range
  | Custom p _ msg => package_display p +:+ ": " +:+ msg
  | NotRoot p _ => "could not pick root package " +:+ package_display p
  | Derived _ _ => "conflicting version constraints"
  end.

Definition build_derivation (t : Tree) : StrictDerivation :=
  mkDerivation (summarize t) (retain_first [] (walk_tree t)).

(** ** The run *)

Definition resolved_entry (c : Coords) (v : Version.Version) : ResolvedStrictDep :=
  mkStrictDep c (default (Version.original v) (version_strings snap !! key c v))
    (default "compile" (scopes snap !! c)).

Definition add_selected (m : gmap Coords ResolvedStrictDep) (pv : StrictPackage * Version.Version)
    : gmap Coords ResolvedStrictDep :=
  match pv.1 with
  | Root => m
  | Real c => <[c := resolved_entry c pv.2]> m
  end.

Definition resolved_map (selected : list (StrictPackage * Version.Version)) : gmap Coords ResolvedStrictDep :=
  foldl add_selected ∅ selected.

Definition run_pubgrub : result StrictError StrictOutcome :=
  match resolve choose_version get_dependencies Root root_version with
  | Ok selected => Ok (Resolved (resolved_map selected))
  | Err (NoSolution t) => Ok (Conflict (build_derivation t))
  | Err (ErrorRetrievingDependencies p v) => Err (Adapter (RetrievingDependencies p v))
  | Err (ErrorChoosingVersion p) => Err (Adapter (ChoosingVersion p))
  | Err ErrorInShouldCancel => Err (Adapter ShouldCancel)
  end.

End Provider.

(** [resolve_strict]; a panic of the solver's thread is left out. *)
Definition resolve_strict `{PG : @PubGrub R} (fuel : nat) (root : Profile.ResolvedPom)
    : option (result StrictError StrictOutcome) :=
  r ← build_snapshot fuel root;
  Some (snap ← r; run_pubgrub snap).

End Strict.
End Strict.
