(* ===== verification/StrictFacts.v ===== *)
(** * Strict resolution is sound

    Theorems on strict.rs: the prefetch ends and holds every POM the solver
    can ask for, and a solution of the solver is a set of versions that meets
    every requirement of the POMs it selects. *)

From S2P Require Import Prelude Version Coords VersionSpec Pom Effective Profile Source Strict.

Module StrictFacts.
Import Coords Strict.

(** ** Lists of versions *)

Lemma insert_version_perm v l : insert_version v l ≡ₚ v :: l.
Proof.
  induction l as [|u l IH]; cbn; [done |]. destruct (Version.le v u); [done |].
  rewrite IH. apply Permutation_swap.
Qed.

Lemma sort_versions_perm l : sort_versions l ≡ₚ l.
Proof. induction l as [|v l IH]; cbn; [done |]. by rewrite insert_version_perm, IH. Qed.

Lemma elem_of_sort v l : v ∈ sort_versions l <-> v ∈ l.
Proof. by rewrite sort_versions_perm. Qed.

Lemma or_insert_same {K V} `{Countable K} (k : K) (v : V) m :
  or_insert k v m !! k = Some (default v (m !! k)).
Proof. unfold or_insert. destruct (m !! k) eqn:E; [done |]. by rewrite lookup_insert_eq. Qed.

Lemma or_insert_old {K V} `{Countable K} (k k' : K) (v x : V) m :
  m !! k' = Some x -> or_insert k v m !! k' = Some x.
Proof.
  intros H'. unfold or_insert. destruct (m !! k) eqn:E; [done |].
  rewrite lookup_insert_ne; [done |]. intros ->. congruence.
Qed.

Lemma or_insert_inv {K V} `{Countable K} (k k' : K) (v x : V) m :
  or_insert k v m !! k' = Some x -> m !! k' = Some x \/ (k' = k /\ x = v).
Proof.
  unfold or_insert. destruct (m !! k) eqn:E; [by left |].
  intros [[<- <-]|[_ Hx]]%lookup_insert_Some; [by right | by left].
Qed.

(** ** What version-ranges documents *)

(** The full range holds every version. *)
Class RangeTop `{R : Ranges} : Prop := { contains_full v : contains full v = true }.

(** The ranges whose bounds are in [ok]. *)
Inductive over `{R : Ranges} (ok : Version.Version -> Prop) : Range -> Prop :=
  | over_full : over ok full
  | over_empty : over ok empty
  | over_singleton u : ok u -> over ok (singleton u)
  | over_higher u : ok u -> over ok (higher_than u)
  | over_strictly_higher u : ok u -> over ok (strictly_higher_than u)
  | over_lower u : ok u -> over ok (lower_than u)
  | over_strictly_lower u : ok u -> over ok (strictly_lower_than u)
  | over_union a b : over ok a -> over ok b -> over ok (union a b)
  | over_intersection a b : over ok a -> over ok b -> over ok (intersection a b).

(** Ranges are sets of versions; asked only of the versions in [ok], since the
    library assumes a total order and the order of all versions is not
    transitive ([cmp_not_transitive]). *)
Class RangeLaws `{R : Ranges} (ok : Version.Version -> Prop) : Prop := {
  contains_empty v : ok v -> contains empty v = false;
  contains_singleton u v : ok u -> ok v ->
    contains (singleton u) v = match Version.cmp v u with Eq => true | _ => false end;
  contains_higher u v : ok u -> ok v -> contains (higher_than u) v = Version.ge v u;
  contains_strictly_higher u v : ok u -> ok v -> contains (strictly_higher_than u) v = Version.gt v u;
  contains_lower u v : ok u -> ok v -> contains (lower_than u) v = Version.le v u;
  contains_strictly_lower u v : ok u -> ok v -> contains (strictly_lower_than u) v = Version.lt v u;
  contains_union a b v : over ok a -> over ok b -> ok v ->
    contains (union a b) v = contains a v || contains b v;
  contains_intersection a b v : over ok a -> over ok b -> ok v ->
    contains (intersection a b) v = contains a v && contains b v
}.

(** The contract of [Ord] on the versions in [ok]. *)
Record orderly (ok : Version.Version -> Prop) : Prop := {
  o_eq : forall a b, ok a -> ok b -> Version.eq a b = true -> Version.cmp a b = Eq;
  o_trans : forall a b c, ok a -> ok b -> ok c ->
    Version.le a b = true -> Version.le b c = true -> Version.le a c = true
}.

Section Facts.
Context `{R : Ranges} `{RT : @RangeTop R} `{CF : CaseFolding} `{SRC : Source.MetadataSource}.
Variable root : Profile.ResolvedPom.

Lemma record_strings_old c texts m k x :
  m !! k = Some x -> record_strings c texts m !! k = Some x.
Proof.
  unfold record_strings. revert m. induction texts as [|t texts IH]; intros m Hm; [done |].
  cbn. apply IH. by apply or_insert_old.
Qed.

Lemma record_strings_new c texts m t :
  t ∈ texts -> is_Some (record_strings c texts m !! key c (Version.parse t)).
Proof.
  unfold record_strings. revert m. induction texts as [|u texts IH]; intros m Ht.
  - by apply not_elem_of_nil in Ht.
  - apply elem_of_cons in Ht as [->|Ht]; [| by apply IH]. cbn. eexists.
    apply (record_strings_old c texts). apply or_insert_same.
Qed.

Lemma record_strings_inv c texts m k x :
  record_strings c texts m !! k = Some x ->
  m !! k = Some x \/ (x ∈ texts /\ k = key c (Version.parse x)).
Proof.
  unfold record_strings. revert m. induction texts as [|u texts IH]; intros m Hx; [by left |].
  cbn in Hx. apply IH in Hx as [Hx|[H1 H2]]; [| right; split; [by right | done]].
  apply or_insert_inv in Hx as [Hx|[-> ->]]; [by left | right; split; [left | done]].
Qed.

(** ** What a declaration asks for *)

(** The edge of a declaration: a function of the declaration alone. *)
Definition edge_of (raw : Pom.RawDependency) : option (Coords * VersionSpec.VersionSpec) :=
  match Coords.new (Pom.d_group_id raw) (Pom.d_artifact_id raw), Pom.d_version raw with
  | Ok c, Some text =>
      match VersionSpec.parse text with
      | Ok spec => Some (c, spec)
      | Err _ => None
      end
  | _, _ => None
  end.

Definition to_edge (e : Coords * VersionSpec.VersionSpec) : SnapshotEdge := (Real e.1, spec_to_range e.2).

(** The edges of a list of declarations, none of which is malformed. *)
Definition edges_of (deps : list Pom.RawDependency) (edges : list SnapshotEdge) : Prop :=
  Forall2 (fun raw e => exists x, edge_of raw = Some x /\ e = to_edge x) deps edges.

(** The texts of the versions that a repository lists. *)
Definition listed (c : Coords) (t : string) : Prop :=
  exists meta o, Source.fetch_metadata c = Ok (meta, o) /\ t ∈ Source.versions meta.

(** A declaration of the root or of a POM of the repository. *)
Definition declared (raw : Pom.RawDependency) : Prop :=
  raw ∈ Pom.dependencies (Profile.pom root)
  \/ exists c t pom o, Source.fetch_pom c t = Ok (pom, o) /\ raw ∈ Pom.dependencies pom.

(** The version of a soft requirement. *)
Definition preferred (c : Coords) (v : Version.Version) : Prop :=
  exists raw t, declared raw /\ edge_of raw = Some (c, VersionSpec.Soft t) /\ v = Version.parse t.

(** ** The invariant of the prefetch *)

(** Keys seen or queued. *)
Definition pending (V : gset Key) (Q : Queue) (k : Key) : Prop :=
  k ∈ V \/ exists c v, (c, v) ∈ Q /\ k = key c v.

(** The versions of [c] that lie in a range are seen or queued. *)
Definition covered (V : gset Key) (Q : Queue) (s : Snapshot) (c : Coords) (r : Range) : Prop :=
  exists vs, versions_by_coords s !! c = Some vs /\
    forall v, v ∈ vs -> contains r v = true -> pending V Q (key c v).

Definition edge_covered (V : gset Key) (Q : Queue) (s : Snapshot) (e : SnapshotEdge) : Prop :=
  exists c, e.1 = Real c /\ covered V Q s c e.2.

Record Inv (V : gset Key) (Q : Queue) (s : Snapshot) : Prop := {
  i_versions : forall c vs, versions_by_coords s !! c = Some vs ->
    forall v, v ∈ vs -> (exists t, v = Version.parse t /\ listed c t) /\ is_Some (version_strings s !! key c v);
  i_strings : forall c k t, version_strings s !! (c, k) = Some t ->
    k = Version.canonical (Version.parse t) /\ listed c t;
  i_prefs : forall c v, v ∈ default [] (soft_preferences s !! c) -> preferred c v /\
    exists vs u, versions_by_coords s !! c = Some vs /\ u ∈ vs /\ Version.canonical u = Version.canonical v /\
      forall w, w ∈ vs -> pending V Q (key c w);
  i_root : Forall (edge_covered V Q s) (root_deps s);
  i_queue : forall c v, (c, v) ∈ Q -> exists vs, versions_by_coords s !! c = Some vs /\ v ∈ vs;
  i_visited : forall k, k ∈ V <-> is_Some (dependencies s !! k);
  i_deps : forall c k edges, dependencies s !! (c, k) = Some edges ->
    Forall (edge_covered V Q s) edges /\
    exists t pom o, version_strings s !! (c, k) = Some t /\ Source.fetch_pom c t = Ok (pom, o) /\
      edges_of (List.filter counts (Pom.dependencies pom)) edges
}.

(** A snapshot that only gained versions and strings. *)
Record grows (s s' : Snapshot) : Prop := {
  g_versions : forall c vs, versions_by_coords s !! c = Some vs -> versions_by_coords s' !! c = Some vs;
  g_strings : forall k t, version_strings s !! k = Some t -> version_strings s' !! k = Some t
}.

#[export] Instance grows_preorder : PreOrder grows.
Proof.
  split; [by split |]. intros s1 s2 s3 [A1 B1] [A2 B2]. split; eauto.
Qed.

Lemma pending_mono V Q Q' k : pending V Q k -> pending V (Q ++ Q') k.
Proof. intros [H|(c & v & H & E)]; [by left | right; exists c, v; split; [| done]; by apply elem_of_app; left]. Qed.

Lemma covered_mono V Q Q' s s' c r :
  grows s s' -> covered V Q s c r -> covered V (Q ++ Q') s' c r.
Proof.
  intros Hg (vs & Hv & H). exists vs. split; [by apply Hg |]. intros v Hin Hc. by apply pending_mono, H.
Qed.

Lemma edge_covered_mono V Q Q' s s' e :
  grows s s' -> edge_covered V Q s e -> edge_covered V (Q ++ Q') s' e.
Proof. intros Hg (c & E & H). exists c. split; [done | by eapply covered_mono]. Qed.

Lemma edges_covered_mono V Q Q' s s' es :
  grows s s' -> Forall (edge_covered V Q s) es -> Forall (edge_covered V (Q ++ Q') s') es.
Proof. intros Hg. apply Forall_impl. intros e. by apply edge_covered_mono. Qed.

Definition versions_ok (s : Snapshot) : Prop :=
  forall c vs, versions_by_coords s !! c = Some vs ->
    forall v, v ∈ vs -> (exists t, v = Version.parse t /\ listed c t) /\ is_Some (version_strings s !! key c v).

Definition strings_ok (s : Snapshot) : Prop :=
  forall c k t, version_strings s !! (c, k) = Some t ->
    k = Version.canonical (Version.parse t) /\ listed c t.

Definition queue_ok (Q : Queue) (s : Snapshot) : Prop :=
  forall c v, (c, v) ∈ Q -> exists vs, versions_by_coords s !! c = Some vs /\ v ∈ vs.

Definition pref_ok (V : gset Key) (Q : Queue) (s : Snapshot) (c : Coords) (v : Version.Version) : Prop :=
  preferred c v /\ exists vs u, versions_by_coords s !! c = Some vs /\ u ∈ vs /\ Version.canonical u = Version.canonical v /\
    forall w, w ∈ vs -> pending V Q (key c w).

Lemma pref_ok_mono V Q Q' s s' c v : grows s s' -> pref_ok V Q s c v -> pref_ok V (Q ++ Q') s' c v.
Proof.
  intros Hg (Hpr & vs & u & Hv & Hu & Hc & H). split; [done |]. exists vs, u. split_and!; [by apply Hg | done | done |].
  intros w Hw. by apply pending_mono, H.
Qed.

Lemma queue_ok_grows Q s s' : grows s s' -> queue_ok Q s -> queue_ok Q s'.
Proof. intros Hg H c v (vs & Hv & Hin)%H. exists vs. split; [by apply Hg | done]. Qed.

(** A step that looks up versions, adds preferences and enqueues. *)
Lemma Inv_grow V Q Q' s s' :
  Inv V Q s -> grows s s' -> dependencies s' = dependencies s -> root_deps s' = root_deps s ->
  versions_ok s' -> strings_ok s' -> queue_ok Q' s' ->
  (forall c v, v ∈ default [] (soft_preferences s' !! c) ->
    v ∈ default [] (soft_preferences s !! c) \/ pref_ok V (Q ++ Q') s' c v) ->
  Inv V (Q ++ Q') s'.
Proof.
  intros HI Hg Hd Hr Hv Hs Hq Hp. split; [done | done | | | | |].
  - intros c v [Ho|Hn]%Hp; [| done]. apply (pref_ok_mono _ _ _ s); [done | by apply (i_prefs _ _ _ HI)].
  - rewrite Hr. eapply edges_covered_mono; [done | apply HI].
  - intros c v [Hin|Hin]%elem_of_app; [| by apply Hq].
    apply (queue_ok_grows Q s); [done | exact (i_queue _ _ _ HI) | done].
  - rewrite Hd. apply HI.
  - rewrite Hd. intros c k es He. destruct (i_deps _ _ _ HI c k es He) as (H1 & t & pom & o & H2 & H3 & H4).
    split; [by eapply edges_covered_mono |]. exists t, pom, o. split_and!; [by apply Hg | done | done].
Qed.

Lemma list_versions_ok V Q s c vs s' :
  Inv V Q s -> list_versions c s = Ok (vs, s') ->
  Inv V Q s' /\ grows s s' /\ versions_by_coords s' !! c = Some vs /\
  dependencies s' = dependencies s /\ root_deps s' = root_deps s.
Proof.
  intros HI. unfold list_versions. destruct (versions_by_coords s !! c) as [cached|] eqn:Hc.
  { intros [= <- <-]. split_and!; done || reflexivity. }
  destruct (Source.fetch_metadata c) as [[meta o]|] eqn:Hm; [| done]. intros [= <- <-].
  set (vs := sort_versions _). set (s' := set_versions _ _).
  assert (Hg : grows s s').
  { split; cbn; [| intros k t; apply record_strings_old].
    intros c' vs' Hv'. rewrite lookup_insert_ne; [done | congruence]. }
  split_and!; [| done | cbn; by rewrite lookup_insert_eq | done | done].
  rewrite <- (app_nil_r Q). eapply Inv_grow; try done.
  - intros c' vs' Hv' v Hin. cbn in Hv'. apply lookup_insert_Some in Hv' as [[<- <-]|[_ Hv']].
    + apply elem_of_sort, list_elem_of_fmap in Hin as (t & -> & Ht).
      split; [exists t; split; [done |]; by exists meta, o |]. cbn. by apply record_strings_new.
    + destruct (i_versions _ _ _ HI c' vs' Hv' v Hin) as [Ht [x Hx]]. split; [done |]. exists x. by apply Hg.
  - intros c' k t. cbn. intros [Ht|[Ht [= -> ->]]]%record_strings_inv; [by apply (i_strings _ _ _ HI c') |].
    split; [done | by exists meta, o].
  - intros c' v Hin. by apply not_elem_of_nil in Hin.
  - intros c' v Hin. by left.
Qed.

Lemma in_enqueue c c' v r l : (c', v) ∈ enqueue c r l <-> c' = c /\ v ∈ l /\ contains r v = true.
Proof.
  unfold enqueue. rewrite list_elem_of_fmap. setoid_rewrite list_elem_of_In. setoid_rewrite filter_In.
  split; [intros (x & [= -> ->] & ? & ?) | intros (-> & ? & ?); exists v]; done.
Qed.

(** Compiling a declaration keeps the invariant once its versions are
    queued, and yields the edge of the declaration. *)
Lemma compile_dep_ok V Q s raw c range chosen s' :
  Inv V Q s -> declared raw -> compile_dep raw s = Ok ((c, range, chosen), s') ->
  exists spec, edge_of raw = Some (c, spec) /\ range = spec_to_range spec /\
    Inv V (Q ++ enqueue c range chosen) s' /\ grows s s' /\
    covered V (Q ++ enqueue c range chosen) s' c range /\
    dependencies s' = dependencies s /\ root_deps s' = root_deps s.
Proof.
  intros HI Hdecl. unfold compile_dep, mbind, M_bind, lift.
  destruct (edge_of raw) as [[c' spec']|] eqn:Hedge; unfold edge_of in Hedge;
    (destruct (Coords.new _ _) as [c0|] eqn:Hnew; [| done]); cbn;
    (destruct (Pom.d_version raw) as [text|] eqn:Hver; [| done]); cbn;
    (destruct (VersionSpec.parse text) as [spec|] eqn:Hspec; [| done]); [| done].
  injection Hedge as <- <-. cbn.
  destruct (list_versions c0 s) as [[vs s1]|] eqn:Hl; [| done]. unfold modify, mret, M_ret.
  intros [= <- <- <- <-]. exists spec. split; [done |]. split; [done |].
  destruct (list_versions_ok _ _ _ _ _ _ HI Hl) as (HI1 & Hg1 & Hv & Hd & Hr).
  set (r := spec_to_range spec). set (s2 := extend_preferences _ _ _).
  assert (Hg2 : grows s1 s2) by by split.
  assert (Hcov : forall w, w ∈ vs -> contains r w = true -> pending V (Q ++ enqueue c0 r (List.filter (contains r) vs)) (key c0 w)).
  { intros w Hw Hc. right. exists c0, w. split; [| done]. apply elem_of_app. right. apply in_enqueue.
    split_and!; [done | | done]. by rewrite list_elem_of_In, filter_In, <- list_elem_of_In. }
  split_and!; [| by transitivity s1 | by exists vs | done | done].
  eapply Inv_grow; try done; [exact (i_versions _ _ _ HI1) | exact (i_strings _ _ _ HI1) | |].
  - intros c v (-> & Hin & _)%in_enqueue. exists vs. split; [done |].
    rewrite list_elem_of_In, filter_In, <- list_elem_of_In in Hin. apply Hin.
  - intros c v. cbn. destruct (decide (c0 = c)) as [->|Hne].
    2: { rewrite lookup_insert_ne by done. by left. }
    rewrite lookup_insert_eq. cbn. intros [Hin|Hin]%elem_of_app; [by left | right].
    unfold soft_preferences_for in Hin. destruct spec as [text'| | |]; try by apply not_elem_of_nil in Hin.
    destruct (existsb _ vs) eqn:He; [| by apply not_elem_of_nil in Hin].
    apply list_elem_of_singleton in Hin as ->. apply existsb_exists in He as (u & Hu & Heq).
    apply String.eqb_eq in Heq. split.
    { exists raw, text'. split_and!; [done | | done]. unfold edge_of. by rewrite Hnew, Hver, Hspec. }
    exists vs, u. split_and!; [done | by apply list_elem_of_In | done |].
    intros w Hw. apply Hcov; [done |]. apply contains_full.
Qed.

Lemma Inv_scope V Q c sc s : Inv V Q s -> Inv V Q (note_scope c sc s).
Proof.
  intros HI. split; [exact (i_versions _ _ _ HI) | exact (i_strings _ _ _ HI) | exact (i_prefs _ _ _ HI)
    | exact (i_root _ _ _ HI) | exact (i_queue _ _ _ HI) | exact (i_visited _ _ _ HI) | exact (i_deps _ _ _ HI)].
Qed.

Lemma grows_scope s c sc : grows s (note_scope c sc s).
Proof. by split. Qed.

Lemma edge_loop_ok V deps : forall Q s edges more s',
  Inv V Q s -> Forall declared deps -> edge_loop deps s = Ok ((edges, more), s') ->
  Inv V (Q ++ more) s' /\ grows s s' /\ Forall (edge_covered V (Q ++ more) s') edges /\
  edges_of (List.filter counts deps) edges /\
  dependencies s' = dependencies s /\ root_deps s' = root_deps s.
Proof.
  induction deps as [|raw deps IH]; intros Q s edges more s' HI HD; cbn [edge_loop List.filter].
  { intros [= <- <- <-]. rewrite app_nil_r. split_and!; try done; constructor. }
  apply list.Forall_cons in HD as [Hraw HD].
  destruct (counts raw); cbn [negb]; [| by apply IH].
  unfold mbind, M_bind, compile_dep_transitive, compile_dep_for_root.
  destruct (compile_dep raw s) as [[[[c range] chosen] s1]|] eqn:Hc; [| done].
  unfold modify. destruct (edge_loop deps _) as [[[es rest] s2]|] eqn:He; [| done].
  intros [= <- <- <-].
  destruct (compile_dep_ok _ _ _ _ _ _ _ _ HI Hraw Hc) as (spec & Hs & Hr & HI1 & Hg1 & Hcov & Hd1 & Hr1).
  destruct (IH _ _ _ _ _ (Inv_scope _ _ c (scope_or_default raw) _ HI1) HD He)
    as (HI2 & Hg2 & Hes & Heo & Hd2 & Hr2).
  assert (Hg2' : grows s1 s2) by (etransitivity; [apply grows_scope | exact Hg2]).
  rewrite app_assoc. split_and!; [done | by transitivity s1 | | | by rewrite Hd2, <- Hd1 | by rewrite Hr2, <- Hr1].
  - constructor; [| done]. exists c. split; [done |]. by eapply covered_mono.
  - constructor; [| done]. exists (c, spec). split; [done |]. by rewrite Hr.
Qed.

Lemma root_loop_ok V deps : forall Q s more s',
  Inv V Q s -> Forall declared deps -> root_loop deps s = Ok (more, s') ->
  Inv V (Q ++ more) s' /\ dependencies s' = dependencies s /\
  exists edges, root_deps s' = root_deps s ++ edges /\
    edges_of (List.filter (fun raw => negb (is_import_scope raw)) deps) edges.
Proof.
  induction deps as [|raw deps IH]; intros Q s more s' HI HD; cbn [root_loop List.filter].
  { intros [= <- <-]. rewrite app_nil_r. split_and!; [done | done |]. exists []. rewrite app_nil_r.
    split; [done | constructor]. }
  apply list.Forall_cons in HD as [Hraw HD].
  destruct (is_import_scope raw); cbn [negb]; [by apply IH |].
  unfold mbind, M_bind, compile_dep_transitive, compile_dep_for_root.
  destruct (compile_dep raw s) as [[[[c range] chosen] s1]|] eqn:Hc; [| done].
  unfold modify. destruct (root_loop deps _) as [[rest s2]|] eqn:He; [| done]. intros [= <- <-].
  destruct (compile_dep_ok _ _ _ _ _ _ _ _ HI Hraw Hc) as (spec & Hs & Hr & HI1 & Hg1 & Hcov & Hd1 & Hr1).
  assert (HI1' : Inv V (Q ++ enqueue c range chosen) (push_root (Real c, range) s1)).
  { destruct HI1 as [A1 A2 A3 A4 A5 A6 A7]. split; try done. cbn. apply Forall_app. split; [done |].
    constructor; [| constructor]. by exists c. }
  destruct (IH _ _ _ _ (Inv_scope _ _ c (scope_or_default raw) _ HI1') HD He)
    as (HI2 & Hd2 & edges & Hr2 & Heo).
  rewrite app_assoc. split_and!; [done | by rewrite Hd2, <- Hd1 |].
  exists ((Real c, range) :: edges). split.
  - rewrite Hr2. cbn. by rewrite Hr1, <- app_assoc.
  - constructor; [| done]. exists (c, spec). split; [done |]. by rewrite Hr.
Qed.

(** *** The loop *)

Lemma pending_pop V c v Q k : key c v ∈ V -> pending V ((c, v) :: Q) k -> pending V Q k.
Proof.
  intros Hk [H|(c' & v' & H & E)]; [by left |].
  apply elem_of_cons in H as [[= -> ->]|H]; [left; by rewrite E | right; by exists c', v'].
Qed.

(** The invariant only uses what is pending. *)
Lemma Inv_pending V V' Q Q' s s' :
  Inv V Q s -> (forall k, pending V Q k -> pending V' Q' k) ->
  versions_by_coords s' = versions_by_coords s -> version_strings s' = version_strings s ->
  soft_preferences s' = soft_preferences s -> root_deps s' = root_deps s ->
  queue_ok Q' s' -> (forall k, k ∈ V' <-> is_Some (dependencies s' !! k)) ->
  (forall c k edges, dependencies s' !! (c, k) = Some edges -> dependencies s !! (c, k) = Some edges \/
    (Forall (edge_covered V Q s) edges /\
     exists t pom o, version_strings s !! (c, k) = Some t /\ Source.fetch_pom c t = Ok (pom, o) /\
       edges_of (List.filter counts (Pom.dependencies pom)) edges)) ->
  Inv V' Q' s'.
Proof.
  intros HI Hp Ev Es Ep Er Hq Hd Hnew.
  assert (Hedge : forall e, edge_covered V Q s e -> edge_covered V' Q' s' e).
  { intros e (c & E & vs & H1 & H2). exists c. split; [done |]. exists vs. rewrite Ev. eauto. }
  split.
  - rewrite Ev, Es. apply HI.
  - rewrite Es. apply HI.
  - rewrite Ev, Ep. intros c v (Hpr & vs & u & H1 & H2 & H3 & H4)%(i_prefs _ _ _ HI). split; [done |]. exists vs, u. eauto 6.
  - rewrite Er. eapply List.Forall_impl; [exact Hedge | exact (i_root _ _ _ HI)].
  - exact Hq.
  - exact Hd.
  - intros c k es He. rewrite Es.
    assert (Hes : Forall (edge_covered V Q s) es /\ exists t pom o, version_strings s !! (c, k) = Some t /\
      Source.fetch_pom c t = Ok (pom, o) /\ edges_of (List.filter counts (Pom.dependencies pom)) es).
    { destruct (Hnew c k es He) as [Ho|Hn]; [by apply (i_deps _ _ _ HI) | done]. }
    destruct Hes as [H1 H2]. split; [| done]. eapply List.Forall_impl; [exact Hedge | done].
Qed.

Lemma Inv_pop V c v Q s : Inv V ((c, v) :: Q) s -> key c v ∈ V -> Inv V Q s.
Proof.
  intros HI Hk. eapply Inv_pending; [exact HI | | done | done | done | done | | exact (i_visited _ _ _ HI) | by left].
  - intros k. by apply pending_pop.
  - intros c' v' Hin. apply (i_queue _ _ _ HI). by right.
Qed.

Lemma visit_ok V c v Q s more s' :
  Inv V ((c, v) :: Q) s -> key c v ∉ V -> visit c v s = Ok (more, s') ->
  Inv ({[key c v]} ∪ V) (Q ++ more) s' /\ root_deps s' = root_deps s.
Proof.
  intros HI Hnew. unfold visit, mbind, M_bind, fetch_pom_versioned.
  destruct (i_queue _ _ _ HI c v ltac:(left)) as (vs & Hvs & Hin).
  destruct (i_versions _ _ _ HI c vs Hvs v Hin) as [_ [t Ht]]. rewrite Ht. cbn [default from_option id].
  destruct (Source.fetch_pom c t) as [[pom o]|] eqn:Hf; [| done].
  assert (or_insert (key c v) t (version_strings s) = version_strings s) as ->
    by (unfold or_insert; by rewrite Ht).
  unfold modify.
  destruct (edge_loop _ _) as [[[edges more'] s2]|] eqn:He; [| done]. intros [= <- <-].
  assert (HI1 : Inv V ((c, v) :: Q) (set_strings (version_strings s) s)) by by destruct s.
  assert (HD : Forall declared (Pom.dependencies pom)).
  { apply list.Forall_forall. intros raw Hraw. right. by exists c, t, pom, o. }
  destruct (edge_loop_ok _ _ _ _ _ _ _ HI1 HD He) as (HI2 & Hg & Hcov & Heo & Hd & Hr).
  split; [| exact Hr].
  apply (Inv_pop _ c v); [| by apply elem_of_union_l, elem_of_singleton].
  eapply Inv_pending; [exact HI2 | | done | done | done | done | exact (i_queue _ _ _ HI2) | |].
  - intros k [H|H]; [left; by apply elem_of_union_r | by right].
  - intros k. cbn. rewrite elem_of_union, elem_of_singleton, (i_visited _ _ _ HI2 k).
    destruct (decide (key c v = k)) as [<-|Hne].
    + rewrite lookup_insert_eq. split; [by eexists | by left].
    + rewrite lookup_insert_ne by done. split; [intros [->|H]; done | by right].
  - intros c' k es. cbn. intros [[[= <- <-] <-]|[_ H]]%lookup_insert_Some; [right | by left].
    split; [done |]. exists t, pom, o. split_and!; [by apply Hg | done | done].
Qed.

Lemma bfs_ok fuel : forall V Q s snap,
  Inv V Q s -> bfs fuel V Q s = Some (Ok snap) ->
  (exists V', Inv V' [] snap) /\ root_deps snap = root_deps s.
Proof.
  induction fuel as [|fuel IH]; intros V [|[c v] Q] s snap HI; cbn [bfs]; try done.
  1, 2: intros [= <-]; by eauto.
  destruct (decide (key c v ∈ V)) as [Hk|Hk]; [intros H; by eapply IH, H; eapply Inv_pop |].
  destruct (visit c v s) as [[more s']|] eqn:Hv; [| done]. intros H.
  destruct (visit_ok _ _ _ _ _ _ _ HI Hk Hv) as [HI' Hr].
  destruct (IH _ _ _ _ HI' H) as [H1 H2]. split; [done | by rewrite H2].
Qed.

Lemma Inv_empty : Inv ∅ [] empty_snapshot.
Proof.
  split; cbn.
  - intros c vs H. by rewrite lookup_empty in H.
  - intros c k t H. by rewrite lookup_empty in H.
  - intros c v H. rewrite lookup_empty in H. by apply not_elem_of_nil in H.
  - apply List.Forall_nil.
  - intros c v H. by apply not_elem_of_nil in H.
  - intros k. rewrite lookup_empty. split; [intros H; by apply not_elem_of_empty in H | intros [x H]; done].
  - intros c k es H. by rewrite lookup_empty in H.
Qed.

(** What the prefetch leaves. *)
Lemma root_declared : Forall declared (Pom.dependencies (Profile.pom root)).
Proof. apply list.Forall_forall. intros raw Hraw. by left. Qed.

(** The declarations of the root that count. *)
Definition root_counts (raw : Pom.RawDependency) : bool := negb (is_import_scope raw).

Lemma build_snapshot_ok fuel snap :
  build_snapshot fuel root = Some (Ok snap) ->
  (exists V, Inv V [] snap) /\
  edges_of (List.filter root_counts (Pom.dependencies (Profile.pom root))) (root_deps snap).
Proof.
  unfold build_snapshot. destruct (root_loop _ _) as [[queue s]|] eqn:Hl; [| done]. intros Hb.
  destruct (root_loop_ok _ _ _ _ _ _ Inv_empty root_declared Hl) as (HI & _ & edges & Hr & Heo).
  destruct (bfs_ok _ _ _ _ _ HI Hb) as [HV Hr']. split; [done |]. by rewrite Hr', Hr.
Qed.

(** ** Ranges are requirements *)

Section Ordered.
Context (ok : Version.Version -> Prop) `{RL : @RangeLaws R ok} (HO : orderly ok).

Definition bound_ok (b : VersionSpec.Bound Version.Version) : Prop :=
  match b with
  | VersionSpec.Unbounded => True
  | VersionSpec.Included v | VersionSpec.Excluded v => ok v
  end.

(** The versions a requirement names. *)
Definition spec_ok (spec : VersionSpec.VersionSpec) : Prop :=
  match spec with
  | VersionSpec.Soft t => ok (Version.parse t)
  | VersionSpec.Hard ivs =>
      Forall (fun iv => bound_ok (VersionSpec.lower iv) /\ bound_ok (VersionSpec.upper iv)) ivs
  | _ => True
  end.

(** Equal versions compare alike. *)
Lemma cmp_equal a b w : ok a -> ok b -> ok w -> Version.cmp a b = Eq -> Version.cmp a w = Version.cmp b w.
Proof.
  intros Ha Hb Hw E. pose proof (Version.cmp_antisym a b) as E'. rewrite E in E'.
  pose proof (o_trans _ HO a b w Ha Hb Hw) as H1. pose proof (o_trans _ HO b a w Hb Ha Hw) as H2.
  pose proof (o_trans _ HO w a b Hw Ha Hb) as H3. pose proof (o_trans _ HO w b a Hw Hb Ha) as H4.
  unfold Version.le in *. rewrite E in *. rewrite E' in *. cbn in *.
  rewrite (Version.cmp_antisym a w), (Version.cmp_antisym b w) in *.
  destruct (Version.cmp a w), (Version.cmp b w); cbn in *; naive_solver.
Qed.

Lemma cmp_equal_r a b w : ok a -> ok b -> ok w -> Version.cmp a b = Eq -> Version.cmp w a = Version.cmp w b.
Proof. intros. rewrite (Version.cmp_antisym a w), (Version.cmp_antisym b w). f_equal. by apply cmp_equal. Qed.

Lemma interval_over iv :
  bound_ok (VersionSpec.lower iv) -> bound_ok (VersionSpec.upper iv) -> over ok (interval_to_range iv).
Proof.
  destruct iv as [[|l|l] [|h|h]]; cbn; unfold interval_to_range; cbn; intros;
    try match goal with |- context [if ?b then _ else _] => destruct b end; repeat constructor; done.
Qed.

Lemma interval_range iv v :
  ok v -> bound_ok (VersionSpec.lower iv) -> bound_ok (VersionSpec.upper iv) ->
  contains (interval_to_range iv) v = VersionSpec.contains iv v.
Proof.
  destruct iv as [lo hi]. unfold interval_to_range, VersionSpec.contains. cbn. intros Hv Hl Hh.
  assert (Hlo : match lo with
      | VersionSpec.Included l => contains (higher_than l) v = Version.ge v l
      | VersionSpec.Excluded l => contains (strictly_higher_than l) v = Version.gt v l
      | _ => contains full v = true end).
  { destruct lo; cbn in Hl; [apply contains_full | by apply contains_higher | by apply contains_strictly_higher]. }
  assert (Hhi : match hi with
      | VersionSpec.Included h => contains (lower_than h) v = Version.le v h
      | VersionSpec.Excluded h => contains (strictly_lower_than h) v = Version.lt v h
      | _ => contains full v = true end).
  { destruct hi; cbn in Hh; [apply contains_full | by apply contains_lower | by apply contains_strictly_lower]. }
  destruct lo as [|l|l], hi as [|h|h]; cbn in Hl, Hh;
    try (rewrite contains_intersection by (done || by constructor); by rewrite ?Hlo, ?Hhi).
  destruct (Version.eq l h) eqn:E.
  - rewrite contains_singleton by done. unfold Version.ge, Version.le.
    rewrite <- (cmp_equal_r l h v) by (done || by apply (o_eq _ HO)). by destruct (Version.cmp v l).
  - rewrite contains_intersection by (done || by constructor). by rewrite Hlo, Hhi.
Qed.

Lemma spec_range spec v : ok v -> spec_ok spec -> contains (spec_to_range spec) v = VersionSpec.satisfies spec v.
Proof.
  intros Hv. destruct spec as [t|ivs| |]; cbn; intros Hs; try apply contains_full.
  assert (H : forall acc, over ok acc ->
    contains (foldl (fun acc iv => union acc (interval_to_range iv)) acc ivs) v
    = contains acc v || existsb (fun i => VersionSpec.contains i v) ivs).
  { induction Hs as [|iv ivs [Hl Hh] _ IH]; intros acc Ha; cbn; [by rewrite orb_false_r |].
    pose proof (interval_over iv Hl Hh) as Hi.
    rewrite IH by by constructor. rewrite contains_union by done. rewrite interval_range by done.
    by rewrite orb_assoc. }
  rewrite H by constructor. by rewrite contains_empty.
Qed.

(** A requirement does not tell two spellings of a version apart. *)
Lemma satisfies_equal spec u v :
  ok u -> ok v -> spec_ok spec -> Version.eq u v = true ->
  VersionSpec.satisfies spec u = VersionSpec.satisfies spec v.
Proof.
  intros Hu Hv Hs E. apply (o_eq _ HO) in E; [|done..]. destruct spec as [t|ivs| |]; cbn; try done.
  induction Hs as [|iv ivs [Hl Hh] _ IH]; cbn; [done |]. rewrite IH. f_equal.
  unfold VersionSpec.contains, Version.ge, Version.gt, Version.le, Version.lt.
  destruct (VersionSpec.lower iv) as [|l|l], (VersionSpec.upper iv) as [|h|h]; cbn in Hl, Hh;
    rewrite ?(cmp_equal u v l) by done; rewrite ?(cmp_equal u v h) by done; done.
Qed.

(** The versions that the repository lists and the declarations name. *)
Definition sane : Prop :=
  (forall c t, listed c t -> ok (Version.parse t))
  /\ forall raw c spec, declared raw -> edge_of raw = Some (c, spec) -> spec_ok spec.

End Ordered.

(** ** The solver *)

Section Solver.
Context `{PG : @PubGrub R}.

(** An edge of the snapshot. *)
Definition recorded (snap : Snapshot) (e : SnapshotEdge) : Prop :=
  e ∈ root_deps snap \/ exists k edges, dependencies snap !! k = Some edges /\ e ∈ edges.

Lemma find_some {A} (f : A -> bool) l x : List.find f l = Some x -> x ∈ l /\ f x = true.
Proof. intros [H1 H2]%List.find_some. by rewrite list_elem_of_In. Qed.

Lemma get_dependencies_real snap c v edges :
  dependencies snap !! key c v = Some edges ->
  get_dependencies snap (Real c) v = Available (collect edges).
Proof.
  intros H. exact (f_equal (fun o => match o with
    | Some edges => Available (collect edges)
    | None => Unavailable ("no POM in snapshot for " +:+ Coords.display c +:+ ":" +:+ Version.original v)
    end) H).
Qed.

(** What the snapshot holds of the repository: the edges of the root are the
    requirements of its declarations, and those of a version are the
    requirements of the declarations of its POM that count. *)
Definition faithful (snap : Snapshot) : Prop :=
  edges_of (List.filter root_counts (Pom.dependencies (Profile.pom root))) (root_deps snap)
  /\ forall c k edges, dependencies snap !! (c, k) = Some edges ->
       exists t pom o, k = Version.canonical (Version.parse t) /\ listed c t
         /\ Source.fetch_pom c t = Ok (pom, o)
         /\ edges_of (List.filter counts (Pom.dependencies pom)) edges.

Lemma recorded_covered V snap c e : Inv V [] snap -> recorded snap (Real c, e) -> covered V [] snap c e.
Proof.
  intros HI He. assert (edge_covered V [] snap (Real c, e)) as (c' & [= <-] & H); [| done].
  destruct He as [He|([c' k] & edges & Hk & He)].
  - pose proof (i_root _ _ _ HI) as H. rewrite list.Forall_forall in H. by apply H.
  - destruct (i_deps _ _ _ HI _ _ _ Hk) as [H _]. rewrite list.Forall_forall in H. by apply H.
Qed.

(** C7. What the solver sees is complete.  When the prefetch succeeds, the
    edges it recorded are, one for one and in order, the requirements of the
    declarations of the root (imports apart) and of the POMs it fetched (their
    compile and runtime declarations that are not optional); and whenever the
    solver narrows an edge to a smaller range and asks for a version, the
    version it gets lies in that range, is listed by the repository (in the
    same canonical form), and has its POM in the snapshot: the answer to the
    next question is never [Unavailable], so a reported conflict is a conflict
    of requirements.  Of the library's ranges only that the full one holds
    every version is assumed. *)
Theorem solver_view fuel snap :
  build_snapshot fuel root = Some (Ok snap) ->
  faithful snap
  /\ forall c e r v, recorded snap (Real c, e) ->
       (forall u, contains r u = true -> contains e u = true) ->
       choose_version snap (Real c) r = Some v ->
       contains r v = true
       /\ (exists t, Version.canonical (Version.parse t) = Version.canonical v /\ listed c t)
       /\ exists constraints, get_dependencies snap (Real c) v = Available constraints.
Proof.
  intros Hb. destruct (build_snapshot_ok _ _ Hb) as [[V HI] Hroot]. split.
  { split; [done |]. intros c k edges Hk. destruct (i_deps _ _ _ HI _ _ _ Hk) as (_ & t & pom & o & Ht & Hf & He).
    destruct (i_strings _ _ _ HI _ _ _ Ht) as [Hc Hl]. by exists t, pom, o. }
  intros c e r v He Hsub Hch. apply (recorded_covered V) in He as Hcov; [|done].
  assert (Hdone : forall k, pending V [] k -> is_Some (dependencies snap !! k)).
  { intros k [H|(? & ? & H & _)]; [by apply (i_visited _ _ _ HI) | by apply not_elem_of_nil in H]. }
  assert (Hget : forall u, Version.canonical u = Version.canonical v -> is_Some (dependencies snap !! key c u) ->
    exists constraints, get_dependencies snap (Real c) v = Available constraints).
  { intros u Hu [edges Hk]. exists (collect edges). apply get_dependencies_real.
    by replace (key c v) with (key c u) by (unfold key; by rewrite Hu). }
  destruct Hcov as (vs & Hvs & Hcov). unfold choose_version in Hch.
  destruct (List.find _ (default _ _)) as [p|] eqn:Hp.
  - injection Hch as ->. apply find_some in Hp as [Hin Hc]. split; [done |].
    destruct (i_prefs _ _ _ HI c v Hin) as (_ & vs' & u & Hvs' & Hu & Heq & Hall).
    destruct (i_versions _ _ _ HI c vs' Hvs' u Hu) as [(t & -> & Ht) _].
    split; [by exists t |]. apply (Hget (Version.parse t)); [done |]. by apply Hdone, Hall.
  - rewrite Hvs in Hch. apply find_some in Hch as [Hin Hc]. split; [done |].
    rewrite list_elem_of_In, <- in_rev, <- list_elem_of_In in Hin.
    destruct (i_versions _ _ _ HI c vs Hvs v Hin) as [(t & -> & Ht) _].
    split; [by exists t |]. apply (Hget (Version.parse t)); [done |]. by apply Hdone, Hcov, Hsub.
Qed.

(** What pubgrub documents of a solution: one version for each package, the
    root among them, and the dependencies of every package met. *)
Definition solution (choose : StrictPackage -> Range -> option Version.Version)
    (deps : StrictPackage -> Version.Version -> Dependencies)
    (sel : list (StrictPackage * Version.Version)) : Prop :=
  NoDup sel.*1 /\ (Root, root_version) ∈ sel /\
  forall p v, (p, v) ∈ sel ->
    (p = Root \/ exists r, choose p r = Some v) /\
    exists cs, deps p v = Available cs /\
      forall q r, (q, r) ∈ cs -> exists u, (q, u) ∈ sel /\ contains r u = true.

Class PubGrubLaws : Prop := {
  resolve_solves : forall choose deps sel,
    resolve choose deps Root root_version = Ok sel -> solution choose deps sel;
  collect_keeps : forall l p r, (p, r) ∈ l -> (forall r', (p, r') ∈ l -> r' = r) -> (p, r) ∈ collect l
}.

Context `{PL : PubGrubLaws}.

Lemma resolved_map_lookup snap sel m c v :
  NoDup sel.*1 -> (Real c, v) ∈ sel ->
  foldl (add_selected snap) m sel !! c
  = Some (resolved_entry snap c v).
Proof.
  revert m. induction sel as [|[p u] sel IH] using rev_ind; intros m Hnd Hin.
  { by apply not_elem_of_nil in Hin. }
  rewrite foldl_app. cbn [foldl]. unfold add_selected at 1. cbn [fst snd]. rewrite fmap_app in Hnd. apply list.NoDup_app in Hnd as (Hnd & Hdis & _).
  apply elem_of_app in Hin as [Hin|[= <- <-]%list_elem_of_singleton]; [| by rewrite lookup_insert_eq].
  destruct p as [|c']; [by apply IH |]. rewrite lookup_insert_ne; [by apply IH |].
  intros ->. apply (Hdis (Real c)); [| by apply list_elem_of_singleton].
  apply list_elem_of_fmap. by exists (Real c, v).
Qed.

Lemma resolved_map_inv snap sel m c d :
  foldl (add_selected snap) m sel !! c
  = Some d -> m !! c = Some d \/ exists v, (Real c, v) ∈ sel /\ d = resolved_entry snap c v.
Proof.
  induction sel as [|[p u] sel IH] using rev_ind; [by left |]. rewrite foldl_app. cbn [foldl]. unfold add_selected at 1. cbn [fst snd].
  assert (Hmono : (exists v, (Real c, v) ∈ sel /\ d = resolved_entry snap c v) ->
    exists v, (Real c, v) ∈ sel ++ [(p, u)] /\ d = resolved_entry snap c v).
  { intros (v & H & E). exists v. split; [| done]. apply elem_of_app. by left. }
  destruct p as [|c']; [intros [H|H]%IH; auto |].
  intros [[-> <-]|[_ H]]%lookup_insert_Some; [| apply IH in H as [H|H]; auto].
  right. exists u. split; [| done]. apply elem_of_app. right. by apply list_elem_of_singleton.
Qed.

(** No other declaration of the list asks for the same artifact in another
    way. *)
Definition sole (raw : Pom.RawDependency) (deps : list Pom.RawDependency) : Prop :=
  forall raw' c spec spec', raw' ∈ deps -> edge_of raw = Some (c, spec) ->
    edge_of raw' = Some (c, spec') -> spec' = spec.

(** The resolution has a version for the declaration, listed by the
    repository, and it satisfies the requirement. *)
Definition meets (raw : Pom.RawDependency) (m : gmap Coords ResolvedStrictDep) : Prop :=
  exists c spec d, edge_of raw = Some (c, spec) /\ m !! c = Some d /\ listed c (sd_version d)
    /\ VersionSpec.satisfies spec (Version.parse (sd_version d)) = true.

Lemma edges_met deps edges (sel : list (StrictPackage * Version.Version)) raw :
  edges_of deps edges -> raw ∈ deps -> sole raw deps ->
  (forall q r, (q, r) ∈ collect edges -> exists u, (q, u) ∈ sel /\ contains r u = true) ->
  exists c spec u, edge_of raw = Some (c, spec) /\ (Real c, u) ∈ sel /\
    contains (spec_to_range spec) u = true.
Proof.
  intros He Hin Hsole Hsel. unfold edges_of in He.
  apply list_elem_of_lookup in Hin as [i Hi].
  destruct (Forall2_lookup_l _ _ _ _ _ He Hi) as (e & Hei & (c & spec) & Hraw & ->).
  destruct (Hsel (Real c) (spec_to_range spec)) as (u & Hu & Hc).
  - apply collect_keeps; [by eapply list_elem_of_lookup_2 |]. intros r' Hr'.
    apply list_elem_of_lookup in Hr' as [j Hj].
    destruct (Forall2_lookup_r _ _ _ _ _ He Hj) as (raw' & Hj' & (c' & spec') & Hraw' & [= <- ->]).
    f_equal. eapply Hsole; [by eapply list_elem_of_lookup_2 | exact Hraw | exact Hraw'].
  - by exists c, spec, u.
Qed.

Section Selected.
Context (ok : Version.Version -> Prop) `{RL : @RangeLaws R ok}.
Hypothesis HO : orderly ok.
Hypothesis HS : sane ok.
Variables (snap : Snapshot) (V : gset Key) (sel : list (StrictPackage * Version.Version)).
Hypothesis HI : Inv V [] snap.
Hypothesis Hsol : solution (choose_version snap) (get_dependencies snap) sel.

(** The text of a selected version. *)
Lemma selected_text c u :
  (Real c, u) ∈ sel ->
  ok u /\ exists t, version_strings snap !! key c u = Some t /\
    Version.eq u (Version.parse t) = true /\ listed c t.
Proof.
  intros Hin. destruct Hsol as (_ & _ & Hs). destruct (Hs _ _ Hin) as [[?|[r Hch]] _]; [done |].
  destruct HS as [HSl HSd].
  assert (ok u /\ is_Some (version_strings snap !! key c u)) as [Hok [t Ht]].
  { unfold choose_version in Hch. destruct (List.find _ (default _ _)) as [p|] eqn:Hp.
    - injection Hch as ->. apply find_some in Hp as [Hp _].
      destruct (i_prefs _ _ _ HI c u Hp) as ((raw & t & Hd & He & ->) & vs & w & Hvs & Hw & Heq & _).
      split; [exact (HSd raw c _ Hd He) |].
      replace (key c (Version.parse t)) with (key c w) by (unfold key; by rewrite Heq).
      by apply (i_versions _ _ _ HI c vs Hvs w).
    - destruct (versions_by_coords snap !! c) as [vs|] eqn:Hvs; [| done].
      apply find_some in Hch as [Hw _]. rewrite list_elem_of_In, <- in_rev, <- list_elem_of_In in Hw.
      destruct (i_versions _ _ _ HI c vs Hvs u Hw) as [(t & -> & Hl) Ht]. split; [by apply (HSl c) | done]. }
  split; [done |]. exists t. split; [done |]. destruct (i_strings _ _ _ HI c _ t Ht) as [Hk Hl].
  split; [unfold Version.eq; by rewrite Hk, String.eqb_refl | done].
Qed.

Lemma selected_entry c u t :
  (Real c, u) ∈ sel -> version_strings snap !! key c u = Some t ->
  exists d, resolved_map snap sel !! c = Some d /\ sd_version d = t.
Proof.
  intros Hin Ht. exists (resolved_entry snap c u).
  split; [by apply resolved_map_lookup; [apply Hsol |] |].
  exact (f_equal (default (Version.original u)) Ht).
Qed.

Lemma selected_meets deps edges raw :
  Forall declared deps -> edges_of deps edges -> raw ∈ deps -> sole raw deps ->
  (forall q r, (q, r) ∈ collect edges -> exists u, (q, u) ∈ sel /\ contains r u = true) ->
  meets raw (resolved_map snap sel).
Proof.
  intros HD He Hin Hsole Hsel. rewrite list.Forall_forall in HD.
  destruct (edges_met _ _ _ _ He Hin Hsole Hsel) as (c & spec & u & Hraw & Hu & Hc).
  destruct (selected_text c u Hu) as (Hok & t & Ht & Heq & Hl).
  destruct (selected_entry c u t Hu Ht) as (d & Hd & <-).
  pose proof (proj2 HS raw c spec (HD _ Hin) Hraw) as Hspec.
  exists c, spec, d. split_and!; try done.
  rewrite <- (satisfies_equal ok HO spec u) by (done || by apply (proj1 HS c)).
  by rewrite <- (spec_range ok HO).
Qed.

Lemma declared_filter (f : Pom.RawDependency -> bool) deps :
  Forall declared deps -> Forall declared (List.filter f deps).
Proof.
  rewrite !list.Forall_forall. intros H raw. rewrite list_elem_of_In, filter_In, <- list_elem_of_In.
  intros [Hin _]. by apply H.
Qed.

Lemma selected_pom c u :
  (Real c, u) ∈ sel ->
  exists t pom o, version_strings snap !! key c u = Some t /\ Source.fetch_pom c t = Ok (pom, o) /\
    forall raw, raw ∈ List.filter counts (Pom.dependencies pom) ->
      sole raw (List.filter counts (Pom.dependencies pom)) -> meets raw (resolved_map snap sel).
Proof.
  intros Hin. destruct Hsol as (_ & _ & Hs). destruct (Hs _ _ Hin) as [_ (cs & Hd & Hcs)].
  destruct (dependencies snap !! key c u) as [edges|] eqn:Hk.
  - rewrite (get_dependencies_real _ _ _ _ Hk) in Hd. injection Hd as <-.
    destruct (i_deps _ _ _ HI c _ edges Hk) as (_ & t & pom & o & Ht & Hf & He).
    exists t, pom, o. split_and!; [done | done |]. intros raw Hraw Hsole.
    eapply selected_meets; [| done..]. apply declared_filter, list.Forall_forall. intros x Hx. right.
    by exists c, t, pom, o.
  - exfalso. revert Hd. unfold get_dependencies.
    assert (E : forall (o : option (list SnapshotEdge)) x, o = None ->
      match o with Some es => Available (collect es) | None => Unavailable x end <> Available cs)
      by by intros ? ? ->.
    apply E. exact Hk.
Qed.

End Selected.

(** C6. Strict resolution honours every requirement.  When it answers with a
    set of versions, each declared dependency of the root (imports apart) has a
    version the repository lists, and that version, as it is written in the
    answer, satisfies the declared requirement: it lies in the declared range
    (a soft requirement admits every version); and for every artifact of the
    answer the repository has a POM at exactly that version whose own compile
    and runtime dependencies (not the optional ones) are met the same way, so
    the answer is closed under dependencies.  Two declarations of one POM that
    ask for the same artifact in different ways are left out.  Assumed: the
    documented contracts of pubgrub ([PubGrubLaws]) and of version-ranges
    ([RangeTop], [RangeLaws]); and, since the order of versions is not
    transitive in general, a set [ok] of versions on which it is a total order
    that agrees with equality ([orderly]), to which the listed versions and
    those that the declarations name belong ([sane]).  [RangeLaws] is asked of
    that set only. *)
Theorem strict_sound (ok : Version.Version -> Prop) `{RL : @RangeLaws R ok} fuel m :
  orderly ok -> sane ok ->
  resolve_strict fuel root = Some (Ok (Resolved m)) ->
  (forall raw, raw ∈ List.filter root_counts (Pom.dependencies (Profile.pom root)) ->
    sole raw (List.filter root_counts (Pom.dependencies (Profile.pom root))) -> meets raw m) /\
  (forall c d, m !! c = Some d ->
    sd_coords d = c /\ listed c (sd_version d) /\
    exists pom o, Source.fetch_pom c (sd_version d) = Ok (pom, o) /\
      forall raw, raw ∈ List.filter counts (Pom.dependencies pom) ->
        sole raw (List.filter counts (Pom.dependencies pom)) -> meets raw m).
Proof.
  intros HO HS. unfold resolve_strict. destruct (build_snapshot fuel root) as [[snap|]|] eqn:Hb; [| done..].
  destruct (build_snapshot_ok _ _ Hb) as [[V HI] Hroot]. cbn. unfold run_pubgrub.
  destruct (resolve _ _ _ _) as [sel|[]] eqn:Hr; [| done..]. intros [= <-].
  pose proof (resolve_solves _ _ _ Hr) as Hsol. split.
  - intros raw Hin Hsole. pose proof Hsol as (_ & Hrt & Hs).
    destruct (Hs _ _ Hrt) as [_ (cs & Hd & Hcs)].
    unfold get_dependencies, Version.eq in Hd. rewrite String.eqb_refl in Hd. injection Hd as <-.
    eapply (selected_meets ok HO HS snap V sel HI Hsol); [| done..]. apply declared_filter, root_declared.
  - intros c d Hd. destruct (resolved_map_inv _ _ _ _ _ Hd) as [H|(u & Hu & ->)]; [by rewrite lookup_empty in H |].
    destruct (selected_pom ok HO HS snap V sel HI Hsol c u Hu) as (t & pom & o & Ht & Hf & Hm).
    destruct (selected_text ok HS snap V sel HI Hsol c u Hu) as (_ & t' & Ht' & _ & Hl).
    assert (sd_version (resolved_entry snap c u) = t) as ->
      by exact (f_equal (default (Version.original u)) Ht).
    split_and!; [done | congruence |]. by exists pom, o.
Qed.

End Solver.

(** ** The prefetch ends *)

Section Termination.
Variables (U : gset Coords) (K : gset Key) (D W : nat).

(** A declaration stays inside [U]. *)
Definition inside (raw : Pom.RawDependency) : Prop :=
  forall c spec, edge_of raw = Some (c, spec) -> c ∈ U.

(** The part of the repository that can be reached: coordinates [U] with at
    most [W] versions each, all of them in [K], whose POMs declare at most
    [D] dependencies, all inside. *)
Record bounded : Prop := {
  b_versions : forall c meta o, c ∈ U -> Source.fetch_metadata c = Ok (meta, o) ->
    length (Source.versions meta) <= W;
  b_keys : forall c t, c ∈ U -> listed c t -> key c (Version.parse t) ∈ K;
  b_poms : forall c t pom o, c ∈ U -> Source.fetch_pom c t = Ok (pom, o) ->
    length (Pom.dependencies pom) <= D /\ Forall inside (Pom.dependencies pom)
}.

Hypothesis B : bounded.

Definition sized (s : Snapshot) : Prop :=
  forall c vs, c ∈ U -> versions_by_coords s !! c = Some vs -> length vs <= W.

Definition within (Q : Queue) : Prop := Forall (fun cv => cv.1 ∈ U) Q.

Lemma filter_length_le {A} (f : A -> bool) l : length (List.filter f l) <= length l.
Proof. induction l as [|a l IH]; cbn; [done |]. destruct (f a); cbn; lia. Qed.

Lemma compile_dep_sized raw c range chosen s s' :
  sized s -> inside raw -> compile_dep raw s = Ok ((c, range, chosen), s') ->
  sized s' /\ c ∈ U /\ length (enqueue c range chosen) <= W /\ within (enqueue c range chosen).
Proof.
  intros Hs Hin. unfold compile_dep, mbind, M_bind, lift.
  unfold inside, edge_of in Hin. destruct (Coords.new _ _) as [c0|]; [| done]. cbn.
  destruct (Pom.d_version raw) as [text|]; [| done]. cbn.
  destruct (VersionSpec.parse text) as [spec|]; [| done]. cbn. pose proof (Hin c0 spec eq_refl) as HU.
  destruct (list_versions c0 s) as [[vs s1]|] eqn:Hl; [| done]. unfold modify, mret, M_ret.
  intros [= <- <- <- <-].
  assert (Hv : sized s1 /\ length vs <= W).
  { unfold list_versions in Hl. destruct (versions_by_coords s !! c0) as [cached|] eqn:Hc.
    { injection Hl as <- <-. split; [done | by eapply Hs]. }
    destruct (Source.fetch_metadata c0) as [[meta o]|] eqn:Hm; [| done]. injection Hl as <- <-.
    assert (Hlen : length (sort_versions (Version.parse <$> Source.versions meta)) <= W).
    { rewrite sort_versions_perm, length_fmap. by eapply (b_versions B). }
    split; [| done]. intros c vs' Hc' Hvs'. cbn in Hvs'.
    apply lookup_insert_Some in Hvs' as [[_ <-]|[_ Hvs']]; [done | by eapply Hs]. }
  split_and!; [apply Hv | done | |].
  - unfold enqueue. rewrite length_fmap. etransitivity; [apply filter_length_le |].
    etransitivity; [apply filter_length_le | apply Hv].
  - apply list.Forall_forall. intros [c v] (-> & _)%in_enqueue. done.
Qed.

Lemma sized_scope c sc s : sized s -> sized (note_scope c sc s).
Proof. done. Qed.

Lemma edge_loop_sized deps : forall s edges more s',
  sized s -> Forall inside deps -> edge_loop deps s = Ok ((edges, more), s') ->
  sized s' /\ length more <= length deps * W /\ within more.
Proof.
  induction deps as [|raw deps IH]; intros s edges more s' Hs Hd; cbn [edge_loop].
  { intros [= <- <- <-]. split_and!; [done | done | apply List.Forall_nil]. }
  apply list.Forall_cons in Hd as [Hraw Hd].
  destruct (counts raw); cbn [negb length].
  2: { intros H. destruct (IH _ _ _ _ Hs Hd H) as (? & ? & ?). split_and!; [done | lia | done]. }
  unfold mbind, M_bind, compile_dep_transitive, compile_dep_for_root.
  destruct (compile_dep raw s) as [[[[c range] chosen] s1]|] eqn:Hc; [| done].
  unfold modify. destruct (edge_loop deps _) as [[[es rest] s2]|] eqn:He; [| done]. intros [= <- <- <-].
  destruct (compile_dep_sized _ _ _ _ _ _ Hs Hraw Hc) as (Hs1 & _ & Hl & Hw).
  destruct (IH _ _ _ _ (sized_scope c (scope_or_default raw) _ Hs1) Hd He) as (Hs2 & Hl2 & Hw2).
  split_and!; [done | rewrite length_app; lia | by apply Forall_app].
Qed.

Lemma root_loop_sized deps : forall s more s',
  sized s -> Forall inside deps -> root_loop deps s = Ok (more, s') ->
  sized s' /\ length more <= length deps * W /\ within more.
Proof.
  induction deps as [|raw deps IH]; intros s more s' Hs Hd; cbn [root_loop].
  { intros [= <- <-]. split_and!; [done | done | apply List.Forall_nil]. }
  apply list.Forall_cons in Hd as [Hraw Hd].
  destruct (is_import_scope raw); cbn [length].
  { intros H. destruct (IH _ _ _ Hs Hd H) as (? & ? & ?). split_and!; [done | lia | done]. }
  unfold mbind, M_bind, compile_dep_transitive, compile_dep_for_root.
  destruct (compile_dep raw s) as [[[[c range] chosen] s1]|] eqn:Hc; [| done].
  unfold modify. destruct (root_loop deps _) as [[rest s2]|] eqn:He; [| done]. intros [= <- <-].
  destruct (compile_dep_sized _ _ _ _ _ _ Hs Hraw Hc) as (Hs1 & _ & Hl & Hw).
  assert (Hs1' : sized (note_scope c (scope_or_default raw) (push_root (Real c, range) s1))) by exact Hs1.
  destruct (IH _ _ _ Hs1' Hd He) as (Hs2 & Hl2 & Hw2).
  split_and!; [done | rewrite length_app; lia | by apply Forall_app].
Qed.

Lemma visit_sized c v s more s' :
  sized s -> c ∈ U -> visit c v s = Ok (more, s') ->
  sized s' /\ length more <= D * W /\ within more.
Proof.
  intros Hs Hc. unfold visit, mbind, M_bind, fetch_pom_versioned.
  destruct (Source.fetch_pom c _) as [[pom o]|] eqn:Hf; [| done]. unfold modify.
  destruct (edge_loop _ _) as [[[edges more'] s2]|] eqn:He; [| done]. intros [= <- <-].
  destruct (b_poms B _ _ _ _ Hc Hf) as [Hd Hin].
  match type of He with edge_loop _ ?s1 = _ => assert (Hs1 : sized s1) by exact Hs end.
  destruct (edge_loop_sized _ _ _ _ _ Hs1 Hin He) as (Hs2 & Hl & Hw).
  split_and!; [done | | done]. etransitivity; [exact Hl |]. by apply Nat.mul_le_mono_r.
Qed.

Lemma bfs_ends fuel : forall V Q s,
  Inv V Q s -> sized s -> within Q -> V ⊆ K -> length Q + D * W * (size K - size V) <= fuel ->
  bfs fuel V Q s <> None.
Proof.
  induction fuel as [|fuel IH]; intros V [|[c v] Q] s HI Hs Hw HV Hm; cbn [bfs]; try done.
  { exfalso. by apply Nat.le_0_r, Nat.eq_add_0 in Hm as [Hm _]. }
  apply list.Forall_cons in Hw as [Hc Hw]. cbn [fst] in Hc. cbn [length] in Hm.
  destruct (decide (key c v ∈ V)) as [Hk|Hk].
  { apply IH; [by eapply Inv_pop | done | done | done | lia]. }
  destruct (visit c v s) as [[more s']|] eqn:Hv; [| done].
  destruct (visit_ok _ _ _ _ _ _ _ HI Hk Hv) as [HI' _].
  destruct (visit_sized _ _ _ _ _ Hs Hc Hv) as (Hs' & Hl & Hw').
  assert (HkK : key c v ∈ K).
  { destruct (i_queue _ _ _ HI c v ltac:(left)) as (vs & Hvs & Hin).
    destruct (i_versions _ _ _ HI c vs Hvs v Hin) as [(t & -> & Ht) _]. by apply (b_keys B). }
  assert (HV' : {[key c v]} ∪ V ⊆ K) by set_solver.
  assert (Hsz : size ({[key c v]} ∪ V) = S (size V)) by (rewrite size_union by set_solver; by rewrite size_singleton).
  pose proof (subseteq_size _ _ HV') as Hle. rewrite Hsz in Hle.
  apply IH; [done | done | by apply Forall_app | done |]. rewrite length_app, Hsz.
  assert (size K - size V = S (size K - S (size V))) as E by lia. rewrite E, Nat.mul_succ_r in Hm. lia.
Qed.

(** The prefetch ends, cycles or not: when what the root can reach lies
    in a finite part of the repository, [|declarations| * W + D * W * |K|]
    rounds are enough for [resolve_strict] to answer. *)
Theorem prefetch_terminates `{PG : @PubGrub R} fuel :
  Forall inside (Pom.dependencies (Profile.pom root)) ->
  length (Pom.dependencies (Profile.pom root)) * W + D * W * size K <= fuel ->
  exists r, resolve_strict fuel root = Some r.
Proof.
  intros Hroot Hf. unfold resolve_strict, build_snapshot.
  destruct (root_loop _ _) as [[queue s]|] eqn:Hl; [| by eexists].
  destruct (root_loop_ok _ _ _ _ _ _ Inv_empty root_declared Hl) as (HI & _).
  assert (H0 : sized empty_snapshot) by (intros c vs _ H; cbn in H; by rewrite lookup_empty in H).
  destruct (root_loop_sized _ _ _ _ H0 Hroot Hl) as (Hs & Hlen & Hw).
  destruct (bfs fuel ∅ queue s) as [r|] eqn:Hb; [by eexists |].
  exfalso. revert Hb. apply bfs_ends; [done | done | done | set_solver |].
  rewrite size_empty, Nat.sub_0_r. lia.
Qed.

End Termination.
End Facts.
End StrictFacts.
