(* ===== verification/StrictRuns.v ===== *)
(** * Strict resolution at work

    Instances of [Ranges] and [PubGrub] with their laws: sets of versions as
    predicates, and a solver that extends a partial solution without going
    back and keeps the result only if it is one.  The theorems of
    [StrictFacts] are applied to a small repository, and strict resolution is
    compared with the breadth-first walker on it. *)

From S2P Require Import Prelude Version Coords VersionSpec Pom Effective Profile Source Skipper Oreq.
From S2P Require Import Walker WalkerFacts WalkerGraph Strict StrictFacts.

Module StrictRuns.
Import Coords WalkerGraph Strict StrictFacts.

(** ** Sets of versions *)

#[export] Instance predicates : Ranges := {|
  Range := Version.Version -> bool;
  full := fun _ => true;
  empty := fun _ => false;
  singleton := fun u v => match Version.cmp v u with Eq => true | _ => false end;
  higher_than := fun u v => Version.ge v u;
  strictly_higher_than := fun u v => Version.gt v u;
  lower_than := fun u v => Version.le v u;
  strictly_lower_than := fun u v => Version.lt v u;
  union := fun a b v => a v || b v;
  intersection := fun a b v => a v && b v;
  contains := fun r v => r v;
  range_display := fun _ => "range"
|}.

#[export] Instance predicates_top : RangeTop.
Proof. by split. Qed.

#[export] Instance predicates_laws ok : RangeLaws ok.
Proof. by split. Qed.

(** ** A solver *)

Section Naive.
Variable choose : StrictPackage -> Range -> option Version.Version.
Variable deps : StrictPackage -> Version.Version -> Dependencies.

(** Packages to look at, and the choices made so far. *)
Fixpoint extend (fuel : nat) (todo : list (StrictPackage * Range))
    (sel : list (StrictPackage * Version.Version)) : list (StrictPackage * Version.Version) :=
  match fuel, todo with
  | S fuel', (p, r) :: todo' =>
      if decide (p ∈ sel.*1) then extend fuel' todo' sel
      else
        match choose p r with
        | Some v =>
            let more := match deps p v with Available cs => cs | Unavailable _ => [] end in
            extend fuel' (todo' ++ more) (sel ++ [(p, v)])
        | None => sel
        end
  | _, _ => sel
  end.

(** The requirements of a choice are met. *)
Definition met (sel : list (StrictPackage * Version.Version)) (pv : StrictPackage * Version.Version) : bool :=
  match deps pv.1 pv.2 with
  | Available cs =>
      forallb (fun qr => existsb (fun qu => bool_decide (qu.1 = qr.1) && contains qr.2 qu.2) sel) cs
  | Unavailable _ => false
  end.

Definition naive (v : Version.Version) : list (StrictPackage * Version.Version) :=
  extend 1000 (match deps Root v with Available cs => cs | Unavailable _ => [] end) [(Root, v)].

Definition chosen (pv : StrictPackage * Version.Version) : Prop :=
  pv.1 = Root \/ exists r, choose pv.1 r = Some pv.2.

Lemma extend_ok fuel : forall todo sel,
  NoDup sel.*1 -> Forall chosen sel ->
  NoDup (extend fuel todo sel).*1 /\ Forall chosen (extend fuel todo sel) /\ sel ⊆ extend fuel todo sel.
Proof.
  induction fuel as [|fuel IH]; intros [|[p r] todo] sel Hn Hc; cbn; try done.
  destruct (decide (p ∈ sel.*1)) as [|Hp]; [by apply IH |].
  destruct (choose p r) as [v|] eqn:Hv; [| done].
  match goal with |- context [extend fuel ?todo' (sel ++ _)] =>
    destruct (IH todo' (sel ++ [(p, v)])) as (H1 & H2 & H3) end.
  - rewrite fmap_app. apply list.NoDup_app. split_and!; [done | | apply list.NoDup_singleton].
    intros q Hq ->%list_elem_of_singleton. done.
  - apply Forall_app. split; [done |]. constructor; [right; by exists r | constructor].
  - split_and!; [done | done |]. intros x Hx. apply H3, elem_of_app. by left.
Qed.

End Naive.

Definition solve choose deps (p : StrictPackage) (v : Version.Version)
    : result PubGrubError (list (StrictPackage * Version.Version)) :=
  let sel := naive choose deps v in
  if bool_decide (p = Root) && forallb (met deps sel) sel then Ok sel else Err ErrorInShouldCancel.

Lemma solve_ok choose deps v sel : solve choose deps Root v = Ok sel ->
  NoDup sel.*1 /\ Forall (chosen choose) sel /\ (Root, v) ∈ sel /\ forallb (met deps sel) sel = true.
Proof.
  unfold solve, naive.
  destruct (extend_ok choose deps 1000
    (match deps Root v with Available cs => cs | Unavailable _ => [] end) [(Root, v)]) as (H1 & H2 & H3).
  { apply list.NoDup_singleton. }
  { constructor; [by left | constructor]. }
  revert H1 H2 H3. generalize (extend choose deps 1000
    (match deps Root v with Available cs => cs | Unavailable _ => [] end) [(Root, v)]) as l.
  intros l H1 H2 H3. rewrite bool_decide_eq_true_2 by reflexivity. cbn [andb].
  destruct (forallb (met deps l) l) eqn:Hm; [| discriminate]. intros [= <-].
  split_and!; [done | done | apply H3; left | done].
Qed.

#[export] Instance naive_solver : PubGrub := {| collect := id; resolve := solve |}.

Lemma solve_solution choose deps v sel : solve choose deps Root v = Ok sel ->
  NoDup sel.*1 /\ (Root, v) ∈ sel /\
  forall p u, (p, u) ∈ sel ->
    (p = Root \/ exists r, choose p r = Some u) /\
    exists cs, deps p u = Available cs /\
      forall q r, (q, r) ∈ cs -> exists w, (q, w) ∈ sel /\ contains r w = true.
Proof.
  intros (H1 & H2 & H3 & Hm)%solve_ok. split; [exact H1 | split; [exact H3 |]].
  intros p u Hin. rewrite list.Forall_forall in H2. split; [exact (H2 (p, u) Hin) |].
  rewrite forallb_forall in Hm. specialize (Hm (p, u)). rewrite <- list_elem_of_In in Hm.
  specialize (Hm Hin). unfold met in Hm.
  cbn [fst snd] in Hm. destruct (deps p u) as [|cs]; [discriminate |]. exists cs. split; [reflexivity |].
  intros q r Hqr. rewrite forallb_forall in Hm. specialize (Hm (q, r)). rewrite <- list_elem_of_In in Hm.
  specialize (Hm Hqr). apply existsb_exists in Hm as ([q' w] & Hw & Hb). cbn [fst snd] in Hb.
  apply andb_true_iff in Hb as [->%bool_decide_eq_true Hb]. exists w. split; [| exact Hb].
  by rewrite list_elem_of_In.
Qed.

Lemma resolve_solve choose deps p v : resolve choose deps p v = solve choose deps p v.
Proof. reflexivity. Qed.

#[export] Instance naive_laws : PubGrubLaws.
Proof.
  split; [| intros l p r H _; exact H]. intros choose deps sel. unfold solution.
  generalize root_version as v. intros v H. rewrite resolve_solve in H.
  exact (solve_solution choose deps v sel H).
Qed.

(** ** A repository *)

(** [A] and [B] depend on each other; [B] has three versions and [A] asks for
    one below 2.0. *)
Definition repo : Source.MetadataSource :=
  Source.fixture_source
    (list_to_map [((co "A", "1.0"), ex_pom "A" "1.0" [ex_dep "B" "[1.0,2.0)"]);
                  ((co "B", "1.0"), ex_pom "B" "1.0" [ex_dep "A" "1.0"]);
                  ((co "B", "1.5"), ex_pom "B" "1.5" [ex_dep "A" "1.0"]);
                  ((co "B", "2.0"), ex_pom "B" "2.0" [])])
    (list_to_map [(co "A", ["1.0"]); (co "B", ["1.0"; "2.0"; "1.5"])]).

Definition project : Profile.ResolvedPom := ex_root [ex_dep "A" "1.0"].

Definition answer (o : option (result StrictError StrictOutcome)) : option (list (option string)) :=
  match o with
  | Some (Ok (Resolved m)) => Some [sd_version <$> m !! co "A"; sd_version <$> m !! co "B"]
  | _ => None
  end.

Definition run : option (result StrictError StrictOutcome) := resolve_strict (SRC := repo) 20 project.

Example strict_run : answer run = Some [Some "1.0"; Some "1.5"].
Proof. vm_compute. reflexivity. Qed.

Lemma repo_metadata c meta o :
  Source.fetch_metadata (MetadataSource := repo) c = Ok (meta, o) ->
  (c = co "A" /\ Source.versions meta = ["1.0"]) \/ (c = co "B" /\ Source.versions meta = ["1.0"; "2.0"; "1.5"]).
Proof.
  cbn. intros H. destruct (_ !! c) as [vs|] eqn:E; [| done]. injection H as <- _. cbn.
  apply lookup_insert_Some in E as [[<- <-]|[_ E]]; [by left |].
  apply lookup_insert_Some in E as [[<- <-]|[_ E]]; [by right | by rewrite lookup_empty in E].
Qed.

Lemma repo_pom c t pom o :
  Source.fetch_pom (MetadataSource := repo) c t = Ok (pom, o) ->
  Pom.dependencies pom = [ex_dep "B" "[1.0,2.0)"] \/ Pom.dependencies pom = [ex_dep "A" "1.0"]
  \/ Pom.dependencies pom = [].
Proof.
  cbn. intros H. destruct (_ !! (c, t)) as [p|] eqn:E; [| done]. injection H as <- _.
  repeat (apply lookup_insert_Some in E as [[_ <-]|[_ E]]; [cbn; by auto |]).
  by rewrite lookup_empty in E.
Qed.

(** The versions it lists are in order. *)
Definition known (v : Version.Version) : Prop :=
  v ∈ Version.parse <$> ["1.0"; "1.5"; "2.0"].

Lemma known_orderly : orderly known.
Proof.
  assert (Hinv : forall v, known v -> v = Version.parse "1.0" \/ v = Version.parse "1.5" \/ v = Version.parse "2.0").
  { intros v (t & -> & Ht)%list_elem_of_fmap. set_solver. }
  split.
  - intros a b [->|[->| ->]]%Hinv [->|[->| ->]]%Hinv; vm_compute; done.
  - intros a b c [->|[->| ->]]%Hinv [->|[->| ->]]%Hinv [->|[->| ->]]%Hinv; vm_compute; done.
Qed.

Lemma known_parse t : t ∈ ["1.0"; "1.5"; "2.0"] -> known (Version.parse t).
Proof. intros Ht. apply list_elem_of_fmap. by exists t. Qed.

Lemma known_spec raw c spec :
  raw = ex_dep "B" "[1.0,2.0)" \/ raw = ex_dep "A" "1.0" -> edge_of raw = Some (c, spec) -> spec_ok known spec.
Proof.
  intros Hraw He. assert (H : exists c', edge_of raw = Some (c', VersionSpec.Soft "1.0")
    \/ edge_of raw = Some (c', VersionSpec.Hard [VersionSpec.mkInterval
         (VersionSpec.Included (Version.parse "1.0")) (VersionSpec.Excluded (Version.parse "2.0"))])).
  { destruct Hraw as [-> | ->]; eexists; [right | left]; vm_compute; reflexivity. }
  destruct H as (c' & [H|H]); rewrite H in He; injection He as _ <-.
  - apply known_parse. set_solver.
  - constructor; [split; apply known_parse; set_solver | constructor].
Qed.

Lemma project_sane : sane (SRC := repo) project known.
Proof.
  split.
  - intros c t (meta & o & Hm & Ht). apply known_parse.
    apply repo_metadata in Hm as [[_ E]|[_ E]]; rewrite E in Ht; set_solver.
  - intros raw c spec Hraw. apply known_spec. destruct Hraw as [Hr|(c' & t & pom & o & Hf & Hr)].
    + apply list_elem_of_singleton in Hr as ->. by right.
    + apply repo_pom in Hf as [E|[E|E]]; rewrite E in Hr; set_solver.
Qed.

(** What the run is an instance of: the version of [B] is in the range that
    [A] declares. *)
Lemma strict_sound_witness :
  exists m d, run = Some (Ok (Resolved m)) /\ m !! co "B" = Some d /\
    exists pom o, Source.fetch_pom (MetadataSource := repo) (co "B") (sd_version d) = Ok (pom, o) /\
    meets (SRC := repo) (ex_dep "A" "1.0") m.
Proof.
  pose proof strict_run as E. unfold answer in E.
  destruct run as [[[m|d]|e]|] eqn:H; try discriminate E. unfold run in H.
  injection E as _ E. destruct (m !! co "B") as [d|] eqn:Hd; [| discriminate E].
  destruct (strict_sound (SRC := repo) project known 20 m known_orderly project_sane H) as [H1 H2].
  destruct (H2 (co "B") d Hd) as (_ & _ & pom & o & Hp & _).
  exists m, d. split; [reflexivity |]. split; [exact Hd |]. exists pom, o. split; [exact Hp |].
  apply H1; [left |]. intros raw' c spec spec' Hin. apply list_elem_of_singleton in Hin as ->.
  intros E1 E2. rewrite E1 in E2. injection E2 as <-. reflexivity.
Defined.

(** A project with a range of its own; the solver narrows it to what lies
    below 1.2. *)
Definition text : string := "[1.0,2.0)".
Definition spec : VersionSpec.VersionSpec :=
  match VersionSpec.parse text with Ok s => s | Err _ => VersionSpec.Latest end.

Definition snap : option (result StrictError Snapshot) :=
  build_snapshot (SRC := repo) 20 (ex_root [ex_dep "B" text]).

Definition narrowed : Range := intersection (spec_to_range spec) (strictly_lower_than (Version.parse "1.2")).

Example narrowed_choice :
  match snap with
  | Some (Ok s) => Version.original <$> choose_version s (Real (co "B")) narrowed
  | _ => None
  end = Some "1.0".
Proof. vm_compute. reflexivity. Qed.

Lemma root_edge s : snap = Some (Ok s) -> recorded s (Real (co "B"), spec_to_range spec).
Proof.
  intros H. destruct (build_snapshot_ok _ _ _ H) as [_ He].
  apply list.Forall2_cons_inv_l in He as (e & l & (x & Hx & ->) & _ & Hl).
  assert (edge_of (ex_dep "B" text) = Some (co "B", spec)) as E by (vm_compute; reflexivity).
  rewrite E in Hx. injection Hx as <-. left. rewrite Hl. left.
Qed.

Lemma solver_view_witness :
  exists s v constraints, snap = Some (Ok s) /\ choose_version s (Real (co "B")) narrowed = Some v /\
    get_dependencies s (Real (co "B")) v = Available constraints.
Proof.
  pose proof narrowed_choice as E. destruct snap as [[s|e]|] eqn:Hs; try discriminate E.
  destruct (choose_version s (Real (co "B")) narrowed) as [v|] eqn:Hv; [| discriminate E].
  destruct (solver_view (SRC := repo) (ex_root [ex_dep "B" text]) 20 s Hs) as [_ H].
  destruct (H (co "B") (spec_to_range spec) narrowed v (root_edge s Hs)) as (_ & _ & cs & Hc).
  - intros u Hu. apply andb_true_iff in Hu. exact (proj1 Hu).
  - exact Hv.
  - exists s, v, cs. split; [reflexivity |]. split; [exact Hv | exact Hc].
Defined.

(** ** The reach of the repository *)

Definition reach : gset Coords := {[co "A"; co "B"]}.
Definition keys : gset Key :=
  {[key (co "A") (Version.parse "1.0"); key (co "B") (Version.parse "1.0");
    key (co "B") (Version.parse "1.5"); key (co "B") (Version.parse "2.0")]}.

Lemma inside_reach a v : a = "A" \/ a = "B" -> inside reach (ex_dep a v).
Proof.
  intros Ha c sp H. assert (c = co a) as ->.
  { unfold edge_of in H. cbn in H. destruct Ha as [-> | ->]; cbn in H;
      destruct (VersionSpec.parse v); try discriminate H; injection H as <- _; reflexivity. }
  destruct Ha as [-> | ->]; set_solver.
Qed.

Lemma repo_bounded : StrictFacts.bounded (SRC := repo) reach keys 1 3.
Proof.
  split.
  - intros c meta o _ [[_ E]|[_ E]]%repo_metadata; rewrite E; cbn; lia.
  - intros c t _ (meta & o & Hm & Ht). apply repo_metadata in Hm as [[-> E]|[-> E]]; rewrite E in Ht;
      unfold keys; repeat (apply elem_of_cons in Ht as [->|Ht]; [set_solver |]); by apply not_elem_of_nil in Ht.
  - intros c t pom o _ [E|[E|E]]%repo_pom; rewrite E; (split; [cbn; lia |]); repeat constructor;
      apply inside_reach; auto.
Qed.

Lemma prefetch_terminates_witness : exists r, resolve_strict (SRC := repo) 15 project = Some r.
Proof.
  apply (prefetch_terminates (SRC := repo) project reach keys 1 3 repo_bounded).
  - repeat constructor. apply inside_reach. auto.
  - vm_compute. lia.
Defined.

(** ** Strict resolution and the walker *)

(** [A] leaves the version of [B] to its own [dependencyManagement]. *)
Definition managed_pom : Pom.RawPom :=
  Pom.mkPom "4.0.0" None (Some "ex") "A" (Some "1.0") "jar" None None None None []
    (Some (Pom.mkDepMgt [ex_dep "B" "1.0"]))
    [Pom.mkDependency "ex" "B" None None None None None None []] [] None [] [] [].

Definition managed_repo : Source.MetadataSource :=
  Source.fixture_source
    (list_to_map [((co "A", "1.0"), managed_pom); ((co "B", "1.0"), ex_pom "B" "1.0" [])])
    (list_to_map [(co "A", ["1.0"]); (co "B", ["1.0"])]).

(** The walker resolves the effective POM of a transitive dependency; strict
    resolution reads the declarations of the raw POM, so a managed version
    ends it. *)
Lemma strict_ignores_management :
  summary (Walker.walk (SRC := managed_repo) Walker.WalkOptions_default 10 (ex_root [ex_dep "A" "1.0"]) None)
  = Some (Ok [("ex:A", "1.0", 1%Z); ("ex:B", "1.0", 2%Z)])
  /\ match resolve_strict (SRC := managed_repo) 10 (ex_root [ex_dep "A" "1.0"]) with
     | Some (Err e) => Some e
     | _ => None
     end = Some (MissingVersion "ex:B").
Proof. split; vm_compute; reflexivity. Qed.

End StrictRuns.
