(* ===== verification/Cas.v ===== *)
(** * barista-cache: content hashes and the content-addressed store

    Models crates/barista-cache/src/cas.rs.  Bytes are integers in [0, 256).
    SHA-256 is the class [Digest].  The store is the set of objects under
    [objects/]; an object appears there by one [rename], so a write is one
    step.  Each object carries the link count of its file. *)

From S2P Require Import Prelude.

Module Cas.

Definition Bytes : Type := list Z.

Record ContentHash := mkHash { hash_bytes : Bytes }.

#[export] Instance ContentHash_eq_dec : EqDecision ContentHash.
Proof. solve_decision. Defined.

#[export] Instance ContentHash_countable : Countable ContentHash.
Proof. refine (inj_countable' hash_bytes mkHash _). by intros []. Defined.

(** The [detail] of [HashFormat]. *)
Inductive HashDetail : Type :=
  | WrongLength (n : nat)
  | NonHexByte (b : Z).

Inductive CasError : Type := HashFormat (detail : HashDetail).

Definition byte_of (a : ascii) : Z := Z.of_N (code a).

Definition decode_hex_nibble (a : ascii) : result CasError Z :=
  let b := byte_of a in
  if ((48 <=? b) && (b <=? 57))%Z then Ok (b - 48)%Z
  else if ((97 <=? b) && (b <=? 102))%Z then Ok (b - 97 + 10)%Z
  else if ((65 <=? b) && (b <=? 70))%Z then Ok (b - 65 + 10)%Z
  else Err (HashFormat (NonHexByte b)).

(** The loop of [from_hex] over the pairs of digits. *)
Fixpoint decode_hex (s : string) : result CasError Bytes :=
  match s with
  | String a (String b s') =>
      hi ← decode_hex_nibble a; lo ← decode_hex_nibble b;
      rest ← decode_hex s';
      Ok (Z.lor (Z.shiftl hi 4) lo :: rest)
  | _ => Ok []
  end.

Definition from_hex (s : string) : result CasError ContentHash :=
  if negb (String.length s =? 64)%nat then Err (HashFormat (WrongLength (String.length s)))
  else mkHash <$> decode_hex s.

Definition HEX : string := "0123456789abcdef".

Definition hex_digit (n : Z) : ascii := default "0"%char (String.get (Z.to_nat n) HEX).

Fixpoint encode_hex (l : Bytes) : string :=
  match l with
  | [] => ""
  | b :: l' => String (hex_digit (Z.shiftr b 4)) (String (hex_digit (Z.land b 15)) (encode_hex l'))
  end.

Definition to_hex (h : ContentHash) : string := encode_hex (hash_bytes h).

(** The path of an object below the root: [objects/<aa>/<hex>]. *)
Definition path_for (h : ContentHash) : string :=
  let hex := to_hex h in "objects/" +:+ str_take 2 hex +:+ "/" +:+ hex.

(** ** The store *)

(** SHA-256. *)
Class Digest := sha256 : Bytes -> ContentHash.

Record Blob := mkBlob { data : Bytes; nlink : Z }.

Abbreviation Store := (gmap ContentHash Blob).

Definition contains (h : ContentHash) (st : Store) : bool := bool_decide (is_Some (st !! h)).

Definition get (h : ContentHash) (st : Store) : option Bytes := data <$> st !! h.

(** [finalize_tmp]: the rename creates or replaces the object. *)
Definition finalize_tmp (h : ContentHash) (bytes : Bytes) (st : Store) : Store :=
  <[h := mkBlob bytes 1]> st.

Definition put `{Digest} (bytes : Bytes) (st : Store) : ContentHash * Store :=
  let h := sha256 bytes in
  if contains h st then (h, st) else (h, finalize_tmp h bytes st).

(** [put_stream] over the chunks its reader returns; also the byte count. *)
Definition put_stream `{Digest} (chunks : list Bytes) (st : Store) : ContentHash * Store * Z :=
  let bytes := List.concat chunks in
  let total := Z.of_nat (length bytes) in
  let h := sha256 bytes in
  if contains h st then (h, st, total) else (h, finalize_tmp h bytes st, total).

(** ** Hexadecimal *)

Definition byte (b : Z) : Prop := (0 <= b < 256)%Z.

Definition hash_wf (h : ContentHash) : Prop :=
  length (hash_bytes h) = 32 /\ Forall byte (hash_bytes h).

(** A property of every byte, checked on all of them. *)
Lemma all_bytes (P : Z -> bool) :
  forallb P (map Z.of_nat (seq 0 256)) = true -> forall b, byte b -> P b = true.
Proof.
  rewrite forallb_forall. intros H b Hb. apply H. apply in_map_iff. exists (Z.to_nat b).
  unfold byte in Hb. split; [lia |]. apply in_seq. lia.
Qed.

Definition nibbles_ok (b : Z) : bool :=
  match decode_hex_nibble (hex_digit (Z.shiftr b 4)), decode_hex_nibble (hex_digit (Z.land b 15)) with
  | Ok hi, Ok lo => (Z.lor (Z.shiftl hi 4) lo =? b)%Z
  | _, _ => false
  end.

Lemma decode_encode l : Forall byte l -> decode_hex (encode_hex l) = Ok l.
Proof.
  induction 1 as [|b l Hb Hl IH]; [done |]. cbn.
  assert (Hn : nibbles_ok b = true) by (revert b Hb; apply all_bytes; vm_compute; done).
  unfold nibbles_ok in Hn.
  destruct (decode_hex_nibble _) as [hi|]; [|done]. destruct (decode_hex_nibble _) as [lo|]; [|done].
  apply Z.eqb_eq in Hn. cbn. rewrite IH. cbn. by rewrite Hn.
Qed.

Lemma encode_length l : String.length (encode_hex l) = 2 * length l.
Proof. induction l as [|b l IH]; cbn; [done |]. rewrite IH. lia. Qed.

(** Two hex digits make a byte whose digits are theirs in lower case. *)
Lemma nibble_lower a b hi lo :
  decode_hex_nibble a = Ok hi -> decode_hex_nibble b = Ok lo ->
  let x := Z.lor (Z.shiftl hi 4) lo in
  byte x /\ hex_digit (Z.shiftr x 4) = ascii_lower a /\ hex_digit (Z.land x 15) = ascii_lower b.
Proof.
  assert (H1 : forall a hi, decode_hex_nibble a = Ok hi -> (0 <= hi < 16)%Z /\ hex_digit hi = ascii_lower a).
  { intros [[] [] [] [] [] [] [] []] n; vm_compute; intros [= <-]; split; done || (split; done). }
  intros [Ha Hla]%H1 [Hb Hlb]%H1. cbn zeta.
  assert (E : Z.lor (Z.shiftl hi 4) lo = (hi * 16 + lo)%Z).
  { assert (forallb (fun p => Z.lor (Z.shiftl p.1 4) p.2 =? p.1 * 16 + p.2)%Z
      (list_prod (map Z.of_nat (seq 0 16)) (map Z.of_nat (seq 0 16))) = true) as H by (vm_compute; done).
    rewrite forallb_forall in H. apply Z.eqb_eq, (H (hi, lo)), in_prod; apply in_map_iff;
      [exists (Z.to_nat hi) | exists (Z.to_nat lo)]; (split; [lia | apply in_seq; lia]). }
  rewrite E. split; [unfold byte; lia |].
  rewrite Z.shiftr_div_pow2 by lia. change 15%Z with (Z.ones 4). rewrite Z.land_ones by lia.
  replace ((hi * 16 + lo) `div` 2 ^ 4)%Z with hi by (apply (Z.div_unique _ _ _ lo); lia).
  replace ((hi * 16 + lo) `mod` 2 ^ 4)%Z with lo by (apply (Z.mod_unique _ _ hi); lia).
  done.
Qed.

Lemma encode_decode n s l :
  String.length s = 2 * n -> decode_hex s = Ok l ->
  encode_hex l = to_ascii_lowercase s /\ length l = n /\ Forall byte l.
Proof.
  revert s l. induction n as [|n IH]; intros s l Hlen.
  - destruct s; [|done]. intros [= <-]. by split_and!.
  - destruct s as [|a [|b s]]; cbn in Hlen; [lia.. |]. cbn [decode_hex].
    intros (hi & Hhi & H)%bind_ok_inv. apply bind_ok_inv in H as (lo & Hlo & H).
    apply bind_ok_inv in H as (rest & Hr & [= <-]).
    destruct (IH s rest ltac:(lia) Hr) as (H1 & H2 & H3).
    destruct (nibble_lower a b hi lo Hhi Hlo) as (Hb & Ha' & Hb').
    split_and!; [|cbn; lia | by constructor]. cbn [encode_hex]. rewrite Ha', Hb', H1. done.
Qed.

(** Content hashes round-trip through hexadecimal: printing and parsing a
    32-byte hash gives it back, and any string [from_hex] accepts is, in lower
    case, the text of the hash it yields, so a hash has one path in the
    store. *)
Theorem hex_roundtrip :
  (forall h, hash_wf h -> from_hex (to_hex h) = Ok h)
  /\ (forall s h, from_hex s = Ok h -> hash_wf h /\ to_hex h = to_ascii_lowercase s)
  /\ (forall h1 h2, hash_wf h1 -> hash_wf h2 -> path_for h1 = path_for h2 -> h1 = h2).
Proof.
  assert (H1 : forall h, hash_wf h -> from_hex (to_hex h) = Ok h).
  { intros [l] [Hl Hb]. unfold from_hex, to_hex. cbn in *. rewrite encode_length, Hl. cbn.
    rewrite decode_encode by done. done. }
  split; [done |]. split.
  - intros s h. unfold from_hex. destruct (String.length s =? 64) eqn:E; [|done]. cbn.
    apply Nat.eqb_eq in E. destruct (decode_hex s) as [l|] eqn:Ed; [|done]. intros [= <-].
    destruct (encode_decode 32 s l ltac:(lia) Ed) as (H2 & H3 & H4). by split.
  - intros h1 h2 W1 W2 E. unfold path_for in E. apply (f_equal (str_drop 11)) in E.
    assert (Hd : forall h, hash_wf h -> str_drop 11 ("objects/" +:+ str_take 2 (to_hex h) +:+ "/" +:+ to_hex h) = to_hex h).
    { intros [l] [Hl _]. unfold to_hex. cbn in *. destruct l as [|b l]; [done |]. done. }
    rewrite !Hd in E by done. pose proof (H1 h1 W1) as A. rewrite E, (H1 h2 W2) in A. congruence.
Qed.

(** ** Integrity of the store *)

Section Integrity.
Context `{Digest}.

(** Every object's content hashes to its name. *)
Definition intact (st : Store) : Prop := forall h b, st !! h = Some b -> sha256 (data b) = h.

Lemma finalize_intact bytes st : intact st -> intact (finalize_tmp (sha256 bytes) bytes st).
Proof. unfold finalize_tmp. intros HI h b [[<- <-]|[_ Hb]]%lookup_insert_Some; [done | by apply HI]. Qed.

(** C19. The store keeps its integrity under writes, streamed or not: every
    object still hashes to its name, what was written can be read back with
    its hash (as the very bytes, unless an object of that hash was already
    there), no other object changes, and writing again changes nothing. *)
Theorem cas_put_get bytes st h st' :
  intact st -> put bytes st = (h, st') ->
  intact st'
  /\ (exists d, get h st' = Some d /\ sha256 d = sha256 bytes /\ (st !! h = None -> d = bytes))
  /\ (forall h', h' <> h -> st' !! h' = st !! h')
  /\ put bytes st' = (h, st')
  /\ forall chunks, List.concat chunks = bytes -> (put_stream chunks st).1 = (h, st').
Proof.
  intros HI. unfold put, put_stream, contains, get. case_bool_decide as Hin.
  - intros [= <- <-]. destruct Hin as [b Hb]. split_and!; try done.
    + exists (data b). rewrite Hb. split_and!; [done | by apply HI | done].
    + rewrite bool_decide_eq_true_2; [done | by exists b].
    + intros chunks ->. rewrite bool_decide_eq_true_2; [done | by exists b].
  - intros [= <- <-]. split_and!.
    + by apply finalize_intact.
    + exists bytes. unfold finalize_tmp. by rewrite lookup_insert_eq.
    + intros h' Hne. unfold finalize_tmp. by rewrite lookup_insert_ne.
    + rewrite bool_decide_eq_true_2; [done |]. unfold finalize_tmp. rewrite lookup_insert_eq. by eexists.
    + intros chunks ->. by rewrite bool_decide_eq_false_2.
Qed.
End Integrity.

(** A digest for examples: the first 32 bytes, padded. *)
Definition pad_digest : Digest := fun l => mkHash (take 32 (l ++ repeat 0%Z 32)).

Lemma cas_put_get_witness :
  get (pad_digest [1; 2]%Z) (put (H := pad_digest) [1; 2]%Z ∅).2 = Some [1; 2]%Z.
Proof.
  destruct (cas_put_get (H := pad_digest) [1; 2]%Z ∅ (pad_digest [1; 2]%Z)
    (put (H := pad_digest) [1; 2]%Z ∅).2 ltac:(intros h b Hb; rewrite lookup_empty in Hb; discriminate Hb) ltac:(reflexivity))
    as (_ & (d & Hd & _ & Hn) & _).
  pose proof (Hn ltac:(reflexivity)) as E. rewrite E in Hd. exact Hd.
Defined.

End Cas.
