(* ===== verification/Journal.v ===== *)
(** * barista-cache: the journal of the index

    Models crates/barista-cache/src/journal.rs and the index's data types.
    A file is its list of bytes.  bincode and CRC-32 are the class [Codec],
    whose law is that decoding an encoded record gives it back.  Reads go
    through std's [BufReader] of 8192 bytes over a regular file, whose [read]
    returns what is left in the buffer; the cross-process lock makes each
    mutation of the file one step. *)

From S2P Require Import Prelude Coords Cas.

Module Journal.
Import Coords Cas.

(** ** Index data *)

Record IndexKey := mkKey {
  k_coords : Coords;
  k_version : string;
  k_type : string;
  k_classifier : option string
}.

#[export] Instance IndexKey_eq_dec : EqDecision IndexKey.
Proof. solve_decision. Defined.

#[export] Instance IndexKey_countable : Countable IndexKey.
Proof.
  refine (inj_countable' (fun k => (k_coords k, k_version k, k_type k, k_classifier k))
            (fun '(c, v, t, cl) => mkKey c v t cl) _). by intros [].
Defined.

Inductive OriginTier : Type := Upstream | Roastery.

#[export] Instance OriginTier_eq_dec : EqDecision OriginTier.
Proof. solve_decision. Defined.

Record Origin := mkOrigin {
  repository_url : string;
  etag : option string;
  last_modified : option string;
  upstream_last_updated : option string;
  tier : OriginTier
}.

#[export] Instance Origin_eq_dec : EqDecision Origin.
Proof. solve_decision. Defined.

Record IndexEntry := mkIndexEntry {
  hash : ContentHash;
  size_bytes : Z;
  sha1_hex : option string;
  origin : Origin;
  atime_unix : Z;
  created_unix : Z
}.

#[export] Instance IndexEntry_eq_dec : EqDecision IndexEntry.
Proof. solve_decision. Defined.

Inductive JournalEntry : Type :=
  | Put (key : IndexKey) (entry : IndexEntry)
  | Remove (key : IndexKey)
  | Touch (key : IndexKey) (atime : Z).

#[export] Instance JournalEntry_eq_dec : EqDecision JournalEntry.
Proof. solve_decision. Defined.

(** ** The file format *)

Definition FILE_MAGIC : Bytes := [66; 67; 65; 83]%Z.
Definition JOURNAL_VERSION : Z := 1.
Definition SNAPSHOT_VERSION : Z := 1.
Definition HEADER_LEN : nat := 10.

(** [u32::to_le_bytes] and [u32::from_le_bytes]. *)
Definition to_le_bytes (n : Z) : Bytes :=
  [n mod 256; (n / 256) mod 256; (n / 65536) mod 256; (n / 16777216) mod 256]%Z.

Definition from_le_bytes (l : Bytes) : Z :=
  match l with
  | [a; b; c; d] => (a + 256 * b + 65536 * c + 16777216 * d)%Z
  | _ => 0%Z
  end.

Definition write_header (version : Z) : Bytes := FILE_MAGIC ++ to_le_bytes version ++ [0; 0]%Z.

Inductive JournalError : Type :=
  | UnexpectedEof
  | BadMagic (got : Bytes)
  | UnsupportedVersion (version : Z)
  | Truncated
  | BadChecksum (offset : Z)
  | Bincode (offset : Z).

(** [validate_header]: the file after its header. *)
Definition validate_header (file : Bytes) (expected : Z) : result JournalError Bytes :=
  if (length file <? HEADER_LEN)%nat then Err UnexpectedEof
  else if negb (bool_decide (take 4 file = FILE_MAGIC)) then Err (BadMagic (take 4 file))
  else if negb (from_le_bytes (take 4 (drop 4 file)) =? expected)%Z
       then Err (UnsupportedVersion (from_le_bytes (take 4 (drop 4 file))))
       else Ok (drop HEADER_LEN file).

(** bincode's encoder and decoder of journal records and of snapshots
    ([None] is its error), and [crc32fast::hash], a [u32]. *)
Class Codec := {
  bincode_encode : JournalEntry -> option Bytes;
  bincode_decode : Bytes -> option JournalEntry;
  bincode_encode_snapshot : list (IndexKey * IndexEntry) -> option Bytes;
  bincode_decode_snapshot : Bytes -> option (list (IndexKey * IndexEntry));
  crc32 : Bytes -> Z;
  bincode_roundtrip : forall e p, bincode_encode e = Some p -> bincode_decode p = Some e;
  bincode_snapshot_roundtrip : forall l p,
    bincode_encode_snapshot l = Some p -> bincode_decode_snapshot p = Some l;
  crc32_range : forall p, (0 <= crc32 p <= U32_MAX)%Z
}.

(** ** std's BufReader *)

Definition BUF_CAPACITY : nat := Z.to_nat 8192.
#[global] Arguments BUF_CAPACITY : simpl never.

Record Reader := mkReader { buf : Bytes; rest : Bytes }.

Definition fill_buf (r : Reader) : Reader :=
  match buf r with
  | [] => mkReader (take BUF_CAPACITY (rest r)) (drop BUF_CAPACITY (rest r))
  | _ => r
  end.

(** [Read::read] into a slice of [n] bytes: a large read bypasses an empty
    buffer; any other returns what the buffer holds, up to [n]. *)
Definition read (n : nat) (r : Reader) : Bytes * Reader :=
  match buf r with
  | [] => if BUF_CAPACITY <=? n then (take n (rest r), mkReader [] (drop n (rest r)))
          else let r := fill_buf r in (take n (buf r), mkReader (drop n (buf r)) (rest r))
  | _ => (take n (buf r), mkReader (drop n (buf r)) (rest r))
  end.

(** [Read::read_exact]: reads until the slice is full; [None] is end of
    file.  Every round reads at least a byte, so [n] rounds are enough. *)
Fixpoint read_exact_loop (fuel n : nat) (acc : Bytes) (r : Reader) : option Bytes * Reader :=
  match n with
  | O => (Some acc, r)
  | S _ =>
      match fuel with
      | O => (None, r)
      | S fuel' =>
          let '(bs, r') := read n r in
          match bs with
          | [] => (None, r')
          | _ => read_exact_loop fuel' (n - length bs) (acc ++ bs) r'
          end
      end
  end.

Definition read_exact (n : nat) (r : Reader) : option Bytes * Reader := read_exact_loop n n [] r.

(** ** The journal *)

Section Journal.
Context `{C : Codec}.

Definition encode_payload (e : JournalEntry) (offset : Z) : result JournalError Bytes :=
  ok_or (bincode_encode e) (Bincode offset).

Definition decode_payload (bytes : Bytes) (offset : Z) : result JournalError JournalEntry :=
  ok_or (bincode_decode bytes) (Bincode offset).

(** The bytes [append] writes for an entry: length, payload, checksum. *)
Definition record (payload : Bytes) : Bytes :=
  to_le_bytes (Z.of_nat (length payload)) ++ payload ++ to_le_bytes (crc32 payload).

(** [Journal::open]: a fresh file gets its header. *)
Definition journal_open (file : Bytes) : result JournalError Bytes :=
  match file with
  | [] => Ok (write_header JOURNAL_VERSION)
  | _ => _ ← validate_header file JOURNAL_VERSION; Ok file
  end.

(** [Journal::append]: the offset of the record and the new file. *)
Definition append (e : JournalEntry) (file : Bytes) : result JournalError (nat * Bytes) :=
  payload ← encode_payload e 0;
  if (U32_MAX <? Z.of_nat (length payload))%Z then Err (Bincode 0)
  else Ok (length file, file ++ record payload).

(** [Journal::truncate_to] and [Journal::truncate]. *)
Definition truncate_to (offset : nat) (file : Bytes) : Bytes :=
  let target := Nat.max offset HEADER_LEN in
  take target file ++ repeat 0%Z (target - length file).

Definition truncate : Bytes := write_header JOURNAL_VERSION.

Record JournalIter := mkIter { reader : Reader; position : nat; done_ : bool }.

Definition iter_entries (file : Bytes) : result JournalError JournalIter :=
  body ← validate_header file JOURNAL_VERSION; Ok (mkIter (mkReader [] body) HEADER_LEN false).

(** [JournalIter::next]. *)
Definition next (it : JournalIter) : option (result JournalError JournalEntry) * JournalIter :=
  if done_ it then (None, it)
  else
    let stop e r := (Some (Err e), mkIter r (position it) true) in
    let '(len_buf, r1) := read 4 (reader it) in
    match length len_buf with
    | O => (None, mkIter r1 (position it) true)
    | S _ =>
        if (length len_buf <? 4)%nat then stop Truncated r1
        else
          let payload_len := Z.to_nat (from_le_bytes len_buf) in
          match read_exact payload_len r1 with
          | (None, r2) => stop Truncated r2
          | (Some payload, r2) =>
              match read_exact 4 r2 with
              | (None, r3) => stop Truncated r3
              | (Some crc_buf, r3) =>
                  if negb (from_le_bytes crc_buf =? crc32 payload)%Z
                  then stop (BadChecksum (Z.of_nat (position it))) r3
                  else
                    (Some (decode_payload payload (Z.of_nat (position it + 4))),
                     mkIter r3 (position it + (4 + payload_len + 4)) false)
              end
          end
    end.

(** The iterator run to its end: the results it yields and its final state.
    A record takes at least eight bytes, so the length of the file is enough
    fuel; [None] is fuel exhaustion. *)
Fixpoint run (fuel : nat) (it : JournalIter)
    : option (list (result JournalError JournalEntry) * JournalIter) :=
  match fuel with
  | O => None
  | S fuel' =>
      match next it with
      | (None, it') => Some ([], it')
      | (Some x, it') =>
          match run fuel' it' with
          | Some (xs, it'') => Some (x :: xs, it'')
          | None => None
          end
      end
  end.

(** ** The reader *)

Definition unread (r : Reader) : Bytes := buf r ++ rest r.

(** The fill of the buffer after [read_exact n] with [b] bytes buffered and
    [rem] unread. *)
Definition level_after (b rem n : nat) : nat :=
  if n <=? b then b - n
  else if BUF_CAPACITY <=? n - b then 0
  else Nat.min BUF_CAPACITY (rem - b) - (n - b).

Lemma BUF_CAPACITY_pos : 4 < BUF_CAPACITY.
Proof. unfold BUF_CAPACITY. lia. Qed.

Lemma take_nonempty {A} n (l : list A) : 0 < n -> l <> [] -> take n l <> [].
Proof. by destruct n, l; try lia. Qed.

Lemma read_spec n r bs r' :
  read n r = (bs, r') ->
  unread r = bs ++ unread r' /\ length bs <= n /\ (0 < n -> unread r <> [] -> bs <> []).
Proof.
  pose proof BUF_CAPACITY_pos as Hcap.
  unfold read, fill_buf, unread. destruct r as [[|x b] rs]; cbn [buf rest app].
  - case_match; intros [= <- <-]; cbn [buf rest app]; rewrite length_take.
    + split_and!; [by rewrite take_drop | lia | apply take_nonempty].
    + split_and!; [by rewrite app_assoc, !take_drop | lia |].
      intros Hn Hr. apply take_nonempty; [lia |]. apply take_nonempty; [lia | done].
  - intros [= <- <-]; cbn [buf rest app]. rewrite length_take.
    split_and!; [by rewrite app_assoc, take_drop | lia |]. intros Hn _. by apply take_nonempty.
Qed.

(** One [read] leaves the level the whole [read_exact] ends with. *)
Lemma read_level n r bs r' :
  read n r = (bs, r') -> 0 < n <= length (unread r) ->
  level_after (length (buf r')) (length (unread r')) (n - length bs)
  = level_after (length (buf r)) (length (unread r)) n.
Proof.
  pose proof BUF_CAPACITY_pos as Hcap.
  unfold read, fill_buf, unread, level_after. destruct r as [[|x b] rs]; cbn [buf rest app].
  - case_match; intros [= <- <-] Hn; cbn [buf rest app] in *;
      rewrite ?length_app, ?length_drop, ?length_take; cbn [length] in *;
      repeat (case_match; rewrite ?Nat.leb_le, ?Nat.leb_gt in *; try lia).
  - intros [= <- <-] Hn; cbn [buf rest] in *. rewrite app_comm_cons in *. set (xb := x :: b) in *.
    rewrite !length_app, ?length_drop, ?length_take in *.
    repeat (case_match; rewrite ?Nat.leb_le, ?Nat.leb_gt in *; try lia).
Qed.

Lemma read_exact_eof fuel n acc r :
  length (unread r) < n -> (read_exact_loop fuel n acc r).1 = None.
Proof.
  revert n acc r. induction fuel as [|fuel IH]; intros [|n] acc r Hn; cbn; try done; try lia.
  destruct (read (S n) r) as [bs r'] eqn:E. apply read_spec in E as (E & _ & _).
  destruct bs as [|x bs]; [done |]. apply IH. rewrite E, length_app in Hn. cbn in *. lia.
Qed.

Lemma read_exact_ok fuel n acc r :
  n <= fuel -> n <= length (unread r) ->
  exists r', read_exact_loop fuel n acc r = (Some (acc ++ take n (unread r)), r')
    /\ unread r' = drop n (unread r)
    /\ length (buf r') = level_after (length (buf r)) (length (unread r)) n.
Proof.
  assert (Hz : forall r : Reader, level_after (length (buf r)) (length (unread r)) 0 = length (buf r)).
  { intros. unfold level_after. cbn. lia. }
  revert n acc r. induction fuel as [|fuel IH]; intros [|n] acc r Hf Hn; try lia.
  1, 2: exists r; cbn [read_exact_loop]; by rewrite take_0, app_nil_r, drop_0, Hz.
  cbn [read_exact_loop]. destruct (read (S n) r) as [bs r1] eqn:E.
  pose proof (read_level _ _ _ _ E ltac:(lia)) as Hl. apply read_spec in E as (Eu & Hlen & Hne).
  specialize (Hne ltac:(lia)). destruct bs as [|x bs0] eqn:Ebs.
  { destruct Hne; [| done]. by destruct (unread r); cbn in Hn; [lia |]. }
  rewrite <- Ebs in *. assert (Hpos : 0 < length bs) by (rewrite Ebs; cbn; lia).
  clear Ebs. rewrite <- Hl, Eu in *. rewrite length_app in Hn.
  destruct (IH (S n - length bs) (acc ++ bs) r1) as (r' & -> & Hu' & Hb'); [lia.. |].
  exists r'. rewrite take_app_ge, drop_app_ge, app_assoc by lia. auto.
Qed.

(** ** The level of the buffer

    Below 8192 bytes a payload never bypasses the buffer, so the buffer is
    refilled at the multiples of its capacity, counted from the end of the
    header; [level off rem] is its fill at offset [off] with [rem] bytes to
    the end of the file. *)

Definition level (off rem : nat) : nat :=
  if (off mod BUF_CAPACITY =? 0)%nat then 0
  else Nat.min (BUF_CAPACITY - off mod BUF_CAPACITY) rem.

(** The four bytes at [off] cross the end of a buffer. *)
Definition straddles (off : nat) : bool := BUF_CAPACITY - 4 <? off mod BUF_CAPACITY.

Lemma mod_step off n :
  n < BUF_CAPACITY ->
  (off + n) mod BUF_CAPACITY
  = if off mod BUF_CAPACITY + n <? BUF_CAPACITY then off mod BUF_CAPACITY + n
    else off mod BUF_CAPACITY + n - BUF_CAPACITY.
Proof.
  pose proof BUF_CAPACITY_pos. intros Hn. rewrite <- Nat.Div0.add_mod_idemp_l.
  pose proof (Nat.mod_upper_bound off BUF_CAPACITY ltac:(lia)) as Hm.
  destruct (Nat.ltb_spec (off mod BUF_CAPACITY + n) BUF_CAPACITY).
  - by apply Nat.mod_small.
  - symmetry. apply (Nat.mod_unique _ _ 1); lia.
Qed.

Lemma level_step off rem n :
  n < BUF_CAPACITY -> n <= rem -> level_after (level off rem) rem n = level (off + n) (rem - n).
Proof.
  intros Hn Hr. unfold level, level_after. rewrite mod_step by done.
  pose proof (Nat.mod_upper_bound off BUF_CAPACITY ltac:(lia)) as Hm.
  repeat (case_match; rewrite ?Nat.leb_le, ?Nat.leb_gt, ?Nat.eqb_eq, ?Nat.eqb_neq, ?Nat.ltb_lt,
            ?Nat.ltb_ge in *; try lia).
Qed.

Lemma level_whole off rem : straddles off = false -> 4 <= rem -> level off rem = 0 \/ 4 <= level off rem.
Proof.
  unfold straddles, level. rewrite Nat.ltb_ge. pose proof BUF_CAPACITY_pos.
  intros. case_match; lia.
Qed.

Lemma level_straddles off rem : straddles off = true -> 4 <= rem -> 0 < level off rem < 4.
Proof.
  unfold straddles, level. rewrite Nat.ltb_lt. pose proof BUF_CAPACITY_pos. intros.
  pose proof (Nat.mod_upper_bound off BUF_CAPACITY ltac:(lia)).
  case_match eqn:E; [apply Nat.eqb_eq in E; lia |]. lia.
Qed.

(** [read 4] is whole exactly when the buffer is empty or holds four bytes. *)
Lemma read_four r bs r' :
  read 4 r = (bs, r') -> 4 <= length (unread r) ->
  length bs = if (length (buf r) =? 0)%nat then 4 else Nat.min 4 (length (buf r)).
Proof.
  pose proof BUF_CAPACITY_pos. unfold read, fill_buf, unread.
  destruct r as [[|x b] rs]; cbn [buf rest app].
  - destruct (Nat.leb_spec BUF_CAPACITY 4); [lia |]. intros [= <- <-] Hl. cbn [buf] in *.
    rewrite !length_take. cbn [length Nat.eqb]. lia.
  - intros [= <- <-] _. cbn [length take buf Nat.eqb]. rewrite length_take. lia.
Qed.

(** ** Records *)

Lemma le_bytes_roundtrip n : (0 <= n <= U32_MAX)%Z -> from_le_bytes (to_le_bytes n) = n.
Proof.
  unfold U32_MAX. intros Hn. cbn. change 16777216%Z with (256 * 65536)%Z.
  change 65536%Z with (256 * 256)%Z. Z.to_euclidean_division_equations. lia.
Qed.

Lemma length_record p : length (record p) = length p + 8.
Proof. unfold record. rewrite !length_app. cbn. lia. Qed.

(** The iterator [it] is at offset [off] of the records, with [bs] to read. *)
Definition at_offset (it : JournalIter) (off : nat) (bs : Bytes) : Prop :=
  done_ it = false /\ unread (reader it) = bs /\ length (buf (reader it)) = level off (length bs).

Lemma read_prefix it off bs :
  at_offset it off bs -> straddles off = false -> 4 <= length bs ->
  exists r', read 4 (reader it) = (take 4 bs, r') /\ unread r' = drop 4 bs
    /\ length (buf r') = level (off + 4) (length bs - 4).
Proof.
  pose proof BUF_CAPACITY_pos. intros (_ & Hu & Hb) Hs Hl. destruct (read 4 (reader it)) as [l r'] eqn:E.
  pose proof (read_four _ _ _ E ltac:(rewrite Hu; lia)) as H4.
  pose proof (read_level _ _ _ _ E ltac:(rewrite Hu; lia)) as Hlev.
  apply read_spec in E as (Eu & _ & _). rewrite Hb in H4.
  assert (length l = 4) as Hl4.
  { destruct (level_whole off (length bs) Hs Hl) as [H0|H0]; [by rewrite H0 in H4 |].
    rewrite H4. destruct (Nat.eqb_spec (level off (length bs)) 0); lia. }
  rewrite Hl4, Hb, Hu, level_step in Hlev by lia. exists r'. rewrite <- Hlev. rewrite Hu in Eu.
  rewrite Eu, take_app_length', drop_app_length' by done.
  split_and!; [done.. |]. unfold level_after. cbn. lia.
Qed.

Lemma read_exact_at r off n bs :
  unread r = bs -> length (buf r) = level off (length bs) -> n <= length bs -> n < BUF_CAPACITY ->
  exists r', read_exact n r = (Some (take n bs), r') /\ unread r' = drop n bs
    /\ length (buf r') = level (off + n) (length bs - n).
Proof.
  intros <- Hb Hn Hc. destruct (read_exact_ok n n [] r) as (r' & E & Hu & Hl); [lia.. |].
  exists r'. unfold read_exact. rewrite E, Hu, Hl, Hb. by rewrite level_step by lia.
Qed.

Lemma next_record it off p e tl :
  at_offset it off (record p ++ tl) -> straddles off = false ->
  length p < BUF_CAPACITY -> bincode_decode p = Some e ->
  exists it', next it = (Some (Ok e), it') /\ at_offset it' (off + (length p + 8)) tl
    /\ position it' = position it + (length p + 8).
Proof.
  pose proof BUF_CAPACITY_pos as Hcap. intros Hat Hs Hp He. pose proof Hat as (Hd & _ & _).
  destruct (read_prefix _ _ _ Hat Hs) as (r1 & E1 & Hu1 & Hb1).
  { rewrite length_app, length_record. lia. }
  unfold record in Hu1, E1, Hb1. rewrite <- !app_assoc in Hu1, E1, Hb1.
  rewrite take_app_length' in E1 by done. rewrite drop_app_length' in Hu1 by done.
  rewrite length_app in Hb1. replace (_ + _ - 4) with (length (p ++ to_le_bytes (crc32 p) ++ tl)) in Hb1
    by (change (length (to_le_bytes _)) with 4; lia).
  destruct (read_exact_at r1 (off + 4) (length p) _ Hu1 Hb1) as (r2 & E2 & Hu2 & Hb2); [|done|].
  { rewrite length_app. lia. }
  rewrite take_app_length in E2. rewrite drop_app_length in Hu2.
  rewrite length_app in Hb2. rewrite (Nat.add_comm (length p)), Nat.add_sub in Hb2.
  destruct (read_exact_at r2 (off + 4 + length p) 4 _ Hu2 Hb2) as (r3 & E3 & Hu3 & Hb3);
    [rewrite length_app; cbn; lia | lia |].
  rewrite take_app_length' in E3 by done. rewrite drop_app_length' in Hu3 by done.
  unfold next. rewrite Hd, E1. cbn [length to_le_bytes Nat.ltb Nat.leb].
  fold (to_le_bytes (Z.of_nat (length p))).
  rewrite le_bytes_roundtrip by (unfold BUF_CAPACITY, U32_MAX in *; lia). rewrite Nat2Z.id, E2, E3.
  rewrite le_bytes_roundtrip by apply crc32_range. rewrite Z.eqb_refl. cbn [negb].
  eexists. split; [unfold decode_payload; by rewrite He |]. cbn [position]. split; [| lia].
  split_and!; [done | done |]. cbn [reader]. rewrite Hb3, length_app. cbn [length to_le_bytes].
  f_equal; lia.
Qed.

(** The three ways a walk ends: at the end of the file, at a length prefix
    that crosses the buffer, and in a record cut short. *)
Definition stops (it : JournalIter) (x : option (result JournalError JournalEntry)) : Prop :=
  (next it).1 = x /\ done_ (next it).2 = true /\ position (next it).2 = position it.

Lemma next_end it off : at_offset it off [] -> stops it None.
Proof.
  intros (Hd & Hu & _). unfold stops, next. rewrite Hd.
  destruct (read 4 (reader it)) as [l r'] eqn:E. apply read_spec in E as (Eu & _ & _).
  rewrite Hu in Eu. symmetry in Eu. apply app_nil in Eu as [-> _]. done.
Qed.

Lemma next_short it l r' :
  done_ it = false -> read 4 (reader it) = (l, r') -> 0 < length l < 4 -> stops it (Some (Err Truncated)).
Proof.
  intros Hd E Hl. unfold stops, next. rewrite Hd, E. destruct (length l) as [|n] eqn:El; [lia |].
  destruct (Nat.ltb_spec (S n) 4); [done | lia].
Qed.

Lemma next_straddle it off bs :
  at_offset it off bs -> straddles off = true -> 4 <= length bs -> stops it (Some (Err Truncated)).
Proof.
  intros (Hd & Hu & Hb) Hs Hl. destruct (read 4 (reader it)) as [l r'] eqn:E.
  apply (next_short _ _ _ Hd E). apply read_four in E as ->; [| by rewrite Hu]. rewrite Hb.
  pose proof (level_straddles _ _ Hs Hl). destruct (Nat.eqb_spec (level off (length bs)) 0); lia.
Qed.

Lemma next_torn it off p k :
  at_offset it off (take k (record p)) -> length p < BUF_CAPACITY -> 0 < k < length (record p) ->
  stops it (Some (Err Truncated)).
Proof.
  intros Hat Hp Hk. set (bs := take k (record p)) in *. pose proof Hat as (Hd & Hu & Hb).
  assert (Hl : length bs = k) by (subst bs; rewrite length_take; lia). rewrite length_record in Hk.
  destruct (decide (k < 4)) as [H4|H4].
  { destruct (read 4 (reader it)) as [l r'] eqn:E. apply (next_short _ _ _ Hd E).
    apply read_spec in E as (Eu & _ & Hne). rewrite Hu in *. apply (f_equal length) in Eu.
    rewrite length_app in Eu. assert (l <> []) by (apply Hne; [lia |]; destruct bs; cbn in Hl; [lia | done]).
    destruct l; cbn in *; [done | lia]. }
  destruct (straddles off) eqn:Hs; [apply (next_straddle _ _ _ Hat Hs); lia |].
  destruct (read_prefix _ _ _ Hat Hs) as (r1 & E1 & Hu1 & Hb1); [lia |].
  assert (take 4 bs = to_le_bytes (Z.of_nat (length p))) as Ht.
  { subst bs. rewrite take_take. replace (4 `min` k) with 4 by lia. unfold record.
    by rewrite take_app_length'. }
  rewrite Ht in E1. unfold stops, next. rewrite Hd, E1. cbn [length to_le_bytes Nat.ltb Nat.leb].
  fold (to_le_bytes (Z.of_nat (length p))).
  rewrite le_bytes_roundtrip by (unfold BUF_CAPACITY, U32_MAX in *; lia). rewrite Nat2Z.id.
  destruct (decide (length bs - 4 < length p)) as [Hlt|Hge].
  { pose proof (read_exact_eof (length p) (length p) [] r1) as H. unfold read_exact.
    destruct (read_exact_loop _ _ _ _) as [o r2]. cbn in H.
    rewrite H by (rewrite Hu1, length_drop; lia). done. }
  pose proof BUF_CAPACITY_pos.
  destruct (read_exact_at r1 (off + 4) (length p) _ Hu1) as (r2 & E2 & Hu2 & _);
    [by rewrite length_drop | rewrite length_drop; lia | done |].
  rewrite E2. pose proof (read_exact_eof 4 4 [] r2) as H'. unfold read_exact.
  destruct (read_exact_loop _ _ _ _) as [o r3]. cbn in H'.
  rewrite H' by (rewrite Hu2, !length_drop; lia). done.
Qed.

(** ** Walking a whole journal *)

(** The payloads of [es], each smaller than the read buffer. *)
Definition encoded (es : list JournalEntry) (ps : list Bytes) : Prop :=
  Forall2 (fun e p => bincode_encode e = Some p /\ length p < BUF_CAPACITY) es ps.

Definition records (ps : list Bytes) : Bytes := List.concat (record <$> ps).

(** Entries appended one after the other. *)
Fixpoint append_all (es : list JournalEntry) (file : Bytes) : result JournalError Bytes :=
  match es with
  | [] => Ok file
  | e :: es => '(_, file) ← append e file; append_all es file
  end.

(** The walk of a file from its header to the end of the iterator. *)
Definition replay (file : Bytes)
    : result JournalError (option (list (result JournalError JournalEntry) * JournalIter)) :=
  it ← iter_entries file; Ok (run (S (S (length file))) it).

(** The number of records before the first whose length prefix crosses the
    end of a read buffer. *)
Fixpoint readable (off : nat) (ps : list Bytes) : nat :=
  match ps with
  | [] => 0
  | p :: ps => if straddles off then 0 else S (readable (off + (length p + 8)) ps)
  end.

(** What an interrupted [append] leaves: a proper prefix of a record. *)
Definition torn (tl : Bytes) : Prop :=
  exists p k, tl = take k (record p) /\ length p < BUF_CAPACITY /\ k < length (record p).

Definition walked (es : list JournalEntry) (n : nat) (tl : Bytes) : list (result JournalError JournalEntry) :=
  (Ok <$> take n es) ++ (if (n <? length es)%nat || negb (bool_decide (tl = [])) then [Err Truncated] else []).

Lemma run_stops fuel it x :
  stops it x -> 2 <= fuel ->
  exists it', run fuel it = Some (option_list x, it') /\ position it' = position it.
Proof.
  intros (Hx & Hd & Hp) Hf. destruct fuel as [|[|fuel]]; [lia.. |]. cbn [run].
  destruct (next it) as [o it'] eqn:E. cbn in *. subst o. exists it'. destruct x; [| done].
  unfold next. by rewrite Hd.
Qed.

Lemma torn_stops it off tl :
  at_offset it off tl -> torn tl -> stops it (if bool_decide (tl = []) then None else Some (Err Truncated)).
Proof.
  intros Hat (p & k & -> & Hp & Hk). case_bool_decide as E.
  - rewrite E in Hat. by apply next_end in Hat.
  - apply (next_torn _ _ _ _ Hat Hp). split; [| done]. destruct k; [done | lia].
Qed.

Lemma records_cons p ps : records (p :: ps) = record p ++ records ps.
Proof. done. Qed.

Lemma run_records es ps tl fuel it off :
  encoded es ps -> torn tl -> at_offset it off (records ps ++ tl) -> length ps + 2 <= fuel ->
  exists it', run fuel it = Some (walked es (readable off ps) tl, it')
    /\ position it' = position it + length (records (take (readable off ps) ps)).
Proof.
  intros He Ht. revert fuel it off. induction He as [|e p es ps [He Hp] Hes IH]; intros fuel it off Hat Hf.
  - cbn [records fmap list_fmap List.concat app] in Hat. cbn in Hf.
    destruct (run_stops fuel _ _ (torn_stops _ _ _ Hat Ht) Hf) as (it' & E & Hpos).
    exists it'. rewrite E, Hpos. cbn. unfold walked. cbn. split; [by case_bool_decide | lia].
  - rewrite records_cons, <- app_assoc in Hat.
    cbn [readable]. destruct (straddles off) eqn:Hs.
    + destruct (run_stops fuel it (Some (Err Truncated))) as (it' & E & Hpos).
      { apply (next_straddle _ _ _ Hat Hs). rewrite length_app, length_record. lia. }
      { cbn in Hf. lia. }
      exists it'. rewrite E, Hpos. cbn. split; [done | lia].
    + destruct (next_record it off p e _ Hat Hs Hp) as (it1 & E & Hat1 & Hpos).
      { by apply bincode_roundtrip. }
      destruct fuel as [|fuel]; [lia |]. cbn in Hf.
      destruct (IH fuel it1 _ Hat1 ltac:(lia)) as (it' & E' & Hpos').
      exists it'. cbn [run]. rewrite E, E'. split; [done |]. rewrite Hpos', Hpos. cbn [take].
      rewrite records_cons, length_app, length_record. lia.
Qed.

Lemma validate_written version body :
  (0 <= version <= U32_MAX)%Z -> validate_header (write_header version ++ body) version = Ok body.
Proof.
  intros Hv. unfold validate_header. rewrite length_app. cbn [write_header FILE_MAGIC length to_le_bytes app].
  cbn [Nat.add Nat.ltb Nat.leb HEADER_LEN take drop app].
  rewrite bool_decide_true by done. cbn [negb].
  fold (to_le_bytes version). rewrite le_bytes_roundtrip, Z.eqb_refl by done. done.
Qed.

Definition journal_file (ps : list Bytes) : Bytes := write_header JOURNAL_VERSION ++ records ps.

Lemma journal_start body : at_offset (mkIter (mkReader [] body) HEADER_LEN false) 0 body.
Proof.
  by split_and!.
Qed.

Lemma length_records ps : length ps <= length (records ps).
Proof.
  induction ps as [|p ps IH]; [done |].
  rewrite records_cons, length_app, length_record. cbn. lia.
Qed.

Lemma journal_file_valid ps tl :
  validate_header (journal_file ps ++ tl) JOURNAL_VERSION = Ok (records ps ++ tl).
Proof. unfold journal_file. rewrite <- app_assoc. apply validate_written. unfold JOURNAL_VERSION, U32_MAX. lia. Qed.

Lemma run_file es ps tl :
  encoded es ps -> torn tl ->
  exists it, run (S (S (length (journal_file ps ++ tl))))
               (mkIter (mkReader [] (records ps ++ tl)) HEADER_LEN false)
             = Some (walked es (readable 0 ps) tl, it)
    /\ position it = length (journal_file (take (readable 0 ps) ps)).
Proof.
  intros He Ht.
  destruct (run_records es ps tl (S (S (length (journal_file ps ++ tl)))) _ 0 He Ht (journal_start _))
    as (it & E & Hpos).
  { unfold journal_file. rewrite !length_app. pose proof (length_records ps). lia. }
  exists it. rewrite E, Hpos. unfold journal_file. rewrite length_app. done.
Qed.

Lemma replay_file es ps tl :
  encoded es ps -> torn tl ->
  exists it, replay (journal_file ps ++ tl) = Ok (Some (walked es (readable 0 ps) tl, it))
    /\ position it = length (journal_file (take (readable 0 ps) ps)).
Proof.
  intros He Ht. destruct (run_file es ps tl He Ht) as (it & E & Hpos). exists it.
  unfold replay, iter_entries. rewrite journal_file_valid. cbn [mbind result_mbind]. by rewrite E.
Qed.

Lemma append_all_file es ps file : encoded es ps -> append_all es file = Ok (file ++ records ps).
Proof.
  intros He. revert file. induction He as [|e p es ps [He Hp] Hes IH]; intros file; cbn.
  { by rewrite app_nil_r. }
  unfold append, encode_payload. rewrite He. cbn.
  destruct (Z.ltb_spec U32_MAX (Z.of_nat (length p))); [unfold BUF_CAPACITY, U32_MAX in *; lia |].
  cbn. by rewrite IH, <- app_assoc.
Qed.

(** [journal.rs] Replaying a journal.  Entries appended to a fresh journal,
    their payloads below the 8192 bytes of the read buffer, followed by
    nothing or by a record torn at any byte: the walk ends, and yields, in
    order, the entries before the first record whose length prefix crosses
    the end of a read buffer (all of them when none does), then [Truncated]
    exactly when a record or a torn tail is left; [last_good_offset] is the
    end of the last record yielded. *)
Theorem journal_replay_exact es ps tl :
  encoded es ps -> torn tl ->
  exists file it,
    append_all es (write_header JOURNAL_VERSION) = Ok file
    /\ replay (file ++ tl) = Ok (Some (walked es (readable 0 ps) tl, it))
    /\ position it = length (journal_file (take (readable 0 ps) ps)).
Proof.
  intros He Ht. destruct (replay_file es ps tl He Ht) as (it & E & Hpos).
  exists (journal_file ps), it. split; [by apply append_all_file | done].
Qed.

End Journal.

(** ** A codec

    A prefix code over the binary expansion of the records, with padding of
    any length, which the decoder ignores as bincode's ignores what follows
    a value: an instance of [Codec] for concrete journals. *)

#[export] Instance OriginTier_countable : Countable OriginTier.
Proof.
  refine (inj_countable' (fun t => match t with Upstream => true | Roastery => false end)
            (fun b : bool => if b then Upstream else Roastery) _). by intros [].
Defined.

#[export] Instance Origin_countable : Countable Origin.
Proof.
  refine (inj_countable' (fun o => (repository_url o, etag o, last_modified o, upstream_last_updated o, tier o))
            (fun '(r, e, l, u, t) => mkOrigin r e l u t) _). by intros [].
Defined.

#[export] Instance IndexEntry_countable : Countable IndexEntry.
Proof.
  refine (inj_countable' (fun e => (hash e, size_bytes e, sha1_hex e, origin e, atime_unix e, created_unix e))
            (fun '(h, s, x, o, a, c) => mkIndexEntry h s x o a c) _). by intros [].
Defined.

#[export] Instance JournalEntry_countable : Countable JournalEntry.
Proof.
  refine (inj_countable'
            (fun e => match e with
                      | Put k v => inl (inl (k, v))
                      | Remove k => inl (inr k)
                      | Touch k a => inr (k, a)
                      end)
            (fun s : (IndexKey * IndexEntry + IndexKey) + IndexKey * Z =>
               match s with
               | inl (inl (k, v)) => Put k v
               | inl (inr k) => Remove k
               | inr (k, a) => Touch k a
               end) _). by intros [].
Defined.

Fixpoint bits (p : positive) : Bytes :=
  match p with
  | xH => [2%Z]
  | xO p => 0%Z :: bits p
  | xI p => 1%Z :: bits p
  end.

Fixpoint unbits (l : Bytes) : option positive :=
  match l with
  | 0%Z :: l => xO <$> unbits l
  | 1%Z :: l => xI <$> unbits l
  | 2%Z :: _ => Some xH
  | _ => None
  end.

Lemma unbits_bits p tl : unbits (bits p ++ tl) = Some p.
Proof. induction p as [p IH|p IH|]; cbn; by rewrite ?IH. Qed.

Program Definition bit_codec (pad : JournalEntry -> nat) : Codec := {|
  bincode_encode e := Some (bits (encode e) ++ repeat 0%Z (pad e));
  bincode_decode l := unbits l ≫= decode;
  bincode_encode_snapshot l := Some (bits (encode l));
  bincode_decode_snapshot l := unbits l ≫= decode;
  crc32 l := (foldr Z.add 0 l mod 4294967296)%Z
|}.
Next Obligation. intros pad e p [= <-]. cbn. rewrite unbits_bits. cbn. apply countable.decode_encode. Qed.
Next Obligation.
  intros pad l p [= <-]. cbn. rewrite <- (app_nil_r (bits _)), unbits_bits. cbn. apply countable.decode_encode.
Qed.
Next Obligation. intros pad l. unfold U32_MAX. pose proof (Z.mod_pos_bound (foldr Z.add 0%Z l) 4294967296). lia. Qed.

Definition sample_key (a : string) : IndexKey := mkKey (mkCoords "g" a) "1" "jar" None.

(** Two removals, the second torn after its first byte. *)
Lemma journal_replay_exact_witness :
  let c := bit_codec (fun _ => 3) in
  exists file it,
    append_all [Remove (sample_key "a")] (write_header JOURNAL_VERSION) = Ok file
    /\ replay (file ++ [1%Z]) = Ok (Some ([Ok (Remove (sample_key "a")); Err Truncated], it)).
Proof.
  intros c.
  destruct (journal_replay_exact [Remove (sample_key "a")] [bits (encode (Remove (sample_key "a"))) ++ repeat 0%Z 3] [1%Z])
    as (file & it & Hf & Hr & _).
  - constructor; [| constructor]. split; [done |]. unfold BUF_CAPACITY. vm_compute; lia.
  - exists [0%Z], 1. unfold BUF_CAPACITY. split_and!; [done | cbn; lia..].
  - exists file, it. split; [done |]. rewrite Hr. vm_compute. done.
Defined.

End Journal.
