(* ===== verification/JournalFacts.v ===== *)
(** * The journal cut at a record boundary

    Facts on the iterator of journal.rs over arbitrary bytes: a step that
    yields an entry consumes its record, and the same step on the file cut
    at any later point yields the same entry.  They carry the theorems on
    recovery. *)

From S2P Require Import Prelude Coords Cas Journal.

Module JournalFacts.
Import Coords Cas Journal.

(** The reader of the file cut [m] bytes ahead. *)
Definition cut (m : nat) (r : Reader) : Reader :=
  mkReader (take m (buf r)) (take (m - length (buf r)) (rest r)).

Lemma unread_cut m r : unread (cut m r) = take m (unread r).
Proof. unfold unread, cut. cbn. by rewrite take_app. Qed.

(** Equality of lists built by [take] and [drop], position by position. *)
Ltac slices :=
  apply list_eq; intros ?i; repeat first [rewrite lookup_take | rewrite lookup_drop];
  rewrite ?length_take, ?length_drop, ?length_take;
  repeat case_decide; try done; try lia; try (f_equal; lia);
  first [symmetry; apply lookup_ge_None_2 | apply lookup_ge_None_2]; lia.

Lemma read_cut n m r bs r' :
  0 < n <= m -> read n r = (bs, r') -> read n (cut m r) = (bs, cut (m - length bs) r').
Proof.
  pose proof BUF_CAPACITY_pos as Hcap. intros Hn. unfold read, fill_buf, cut.
  destruct r as [[|x b] rs]; cbn [buf rest length].
  - rewrite take_nil, Nat.sub_0_r. case_match eqn:Hc; intros [= <- <-]; cbn [buf rest length];
      rewrite ?take_nil; repeat (f_equal; try slices).
  - destruct m as [|m]; [lia |]. cbn [take].
    change (x :: take m b) with (take (S m) (x :: b)). set (l := x :: b).
    change (S (length b)) with (length l). intros [= <- <-]; cbn [buf rest].
    repeat (f_equal; try slices).
Qed.

Lemma cut_0 m r : cut (m - 0) r = cut m r.
Proof. by rewrite Nat.sub_0_r. Qed.

Lemma read_exact_cut fuel n acc m r bs r' :
  n <= m -> read_exact_loop fuel n acc r = (Some bs, r') ->
  read_exact_loop fuel n acc (cut m r) = (Some bs, cut (m - n) r')
  /\ length (unread r) = n + length (unread r').
Proof.
  revert n acc m r. induction fuel as [|fuel IH]; intros [|n] acc m r Hm; cbn [read_exact_loop];
    try done; try (intros [= <- <-]; by rewrite cut_0).
  destruct (read (S n) r) as [l r1] eqn:E. rewrite (read_cut (S n) m _ _ _ ltac:(lia) E).
  apply read_spec in E as (Eu & Hl & _). destruct l as [|x l]; [done |].
  intros Hr. apply (IH _ _ (m - length (x :: l))) in Hr as [-> Hlen]; [| lia].
  rewrite Eu, length_app, Hlen. split; [| lia].
  by replace (m - length (x :: l) - (S n - length (x :: l))) with (m - S n) by lia.
Qed.

Definition cut_iter (m : nat) (it : JournalIter) : JournalIter :=
  mkIter (cut m (reader it)) (position it) (done_ it).

Section Next.
Context `{C : Codec}.

(** A step that does not end the walk consumes a record of [c] bytes, and
    does the same on the file cut after it. *)
Lemma next_consumes it x it' :
  next it = (Some x, it') -> done_ it' = false ->
  exists c, 8 <= c /\ position it' = position it + c
    /\ length (unread (reader it)) = c + length (unread (reader it'))
    /\ forall m, c <= m -> next (cut_iter m it) = (Some x, cut_iter (m - c) it').
Proof.
  unfold next. destruct (done_ it) eqn:Hd; [done |].
  destruct (read 4 (reader it)) as [l r1] eqn:E1. destruct (length l) as [|k] eqn:Hl; [done |].
  destruct (Nat.ltb_spec (S k) 4) as [Hk|Hk]; [by intros [= <- <-] |].
  set (n := Z.to_nat (from_le_bytes l)).
  destruct (read_exact n r1) as [[p|] r2] eqn:E2; [| by intros [= <- <-]].
  destruct (read_exact 4 r2) as [[c|] r3] eqn:E3; [| by intros [= <- <-]].
  case_match eqn:Hcrc; [by intros [= <- <-] |]. intros [= <- <-] _. cbn [position reader].
  pose proof (read_spec _ _ _ _ E1) as (Eu1 & Hl4 & _). assert (k = 3) as -> by lia.
  exists (4 + n + 4). split_and!; [lia.. | |].
  - destruct (read_exact_cut n n [] n _ _ _ ltac:(lia) E2) as [_ Hu2].
    destruct (read_exact_cut 4 4 [] 4 _ _ _ ltac:(lia) E3) as [_ Hu3].
    rewrite Eu1, length_app, Hl, Hu2, Hu3. lia.
  - intros m Hm. unfold cut_iter. cbn [done_ reader position]. rewrite Hd.
    rewrite (read_cut 4 m _ _ _ ltac:(lia) E1), Hl. cbn [Nat.ltb Nat.leb]. fold n. unfold read_exact.
    destruct (read_exact_cut n n [] (m - 4) _ _ _ ltac:(lia) E2) as [-> _].
    destruct (read_exact_cut 4 4 [] (m - 4 - n) _ _ _ ltac:(lia) E3) as [-> _].
    rewrite Hcrc. by replace (m - 4 - n - 4) with (m - (4 + n + 4)) by lia.
Qed.

End Next.
End JournalFacts.
