(* ===== verification/Index.v ===== *)
(** * barista-cache: the index and its recovery

    Models crates/barista-cache/src/index.rs and [is_recoverable] of
    recovery.rs.  The two files of the index are the record [Disk]; an
    [Index] is an open handle together with the disk it mutates, and its
    operations are a state and error monad over it: an operation that fails
    keeps the changes made before the failure.  The [BTreeMap] is a [gmap],
    listed in key order by [entries].  The counter of journal entries is a
    [u64] that no run can overflow, so it is an unbounded integer. *)

From S2P Require Import Prelude Coords Cas Journal.
From stdpp Require Import sorting.

Module Index.
Import Coords Cas Journal.

(** ** Data *)

Record IndexState := mkState {
  entries_map : gmap IndexKey IndexEntry;
  journal_entries_since_compact : Z
}.

Definition IndexState_default : IndexState := mkState ∅ 0.

(** [snapshot.bin], absent or present, and [journal.log], empty when new. *)
Record Disk := mkDisk { snapshot : option Bytes; journal : Bytes }.

Inductive IndexError : Type :=
  | JournalErr (e : JournalError)
  | SnapshotMalformed.

Record OpenReport := mkReport {
  journal_truncated : bool;
  journal_truncated_at : option nat
}.

Definition OpenReport_default : OpenReport := mkReport false None.

Record Index := mkIndex {
  inner : IndexState;
  compact_threshold : Z;
  disk : Disk
}.

Definition DEFAULT_COMPACT_THRESHOLD : Z := 10000.

Definition is_recoverable (e : JournalError) : bool :=
  match e with
  | Truncated | BadChecksum _ => true
  | _ => false
  end.

(** The derived [Ord] of [IndexKey]. *)
Definition then_with (c d : comparison) : comparison := match c with Eq => d | _ => c end.

Definition option_compare (a b : option string) : comparison :=
  match a, b with
  | None, None => Eq
  | None, Some _ => Lt
  | Some _, None => Gt
  | Some a, Some b => String.compare a b
  end.

Definition key_compare (a b : IndexKey) : comparison :=
  then_with (String.compare (group (k_coords a)) (group (k_coords b)))
  (then_with (String.compare (artifact (k_coords a)) (artifact (k_coords b)))
  (then_with (String.compare (k_version a) (k_version b))
  (then_with (String.compare (k_type a) (k_type b))
             (option_compare (k_classifier a) (k_classifier b))))).

Definition key_le (a b : IndexKey * IndexEntry) : Prop := key_compare a.1 b.1 <> Gt.

#[export] Instance key_le_dec : RelDecision key_le.
Proof. intros a b. unfold key_le. destruct (key_compare a.1 b.1); solve_decision. Defined.

(** ** Mutations *)

Definition set_atime (a : Z) (e : IndexEntry) : IndexEntry :=
  mkIndexEntry (hash e) (size_bytes e) (sha1_hex e) (origin e) a (created_unix e).

Definition apply_entry (e : JournalEntry) (m : gmap IndexKey IndexEntry) : gmap IndexKey IndexEntry :=
  match e with
  | Put key entry => <[key := entry]> m
  | Remove key => delete key m
  | Touch key atime => alter (set_atime atime) key m
  end.

Definition apply_state (e : JournalEntry) (st : IndexState) : IndexState :=
  mkState (apply_entry e (entries_map st)) (journal_entries_since_compact st + 1).

(** ** The monad *)

Definition M (A : Type) : Type := Index -> result IndexError A * Index.

#[export] Instance M_ret : MRet M := fun A a ix => (Ok a, ix).
#[export] Instance M_bind : MBind M := fun A B k m ix =>
  match m ix with
  | (Ok a, ix') => k a ix'
  | (Err e, ix') => (Err e, ix')
  end.

Definition modify (f : IndexState -> IndexState) : M unit :=
  fun ix => (Ok tt, mkIndex (f (inner ix)) (compact_threshold ix) (disk ix)).

Definition gets {A} (f : IndexState -> A) : M A := fun ix => (Ok (f (inner ix)), ix).

Definition get (key : IndexKey) (ix : Index) : option IndexEntry := entries_map (inner ix) !! key.

Definition len (ix : Index) : nat := size (entries_map (inner ix)).

(** [Index::entries]: the live entries in key order. *)
Definition entries (st : IndexState) : list (IndexKey * IndexEntry) :=
  merge_sort key_le (map_to_list (entries_map st)).

Definition set_compact_threshold (n : Z) (ix : Index) : Index := mkIndex (inner ix) n (disk ix).

Section Index.
Context `{C : Codec}.

(** ** Snapshots *)

Definition insert_all (l : list (IndexKey * IndexEntry)) : gmap IndexKey IndexEntry :=
  foldl (fun m kv => <[kv.1 := kv.2]> m) ∅ l.

Definition load_snapshot (file : Bytes) : result IndexError IndexState :=
  buf ← map_err JournalErr (validate_header file SNAPSHOT_VERSION);
  l ← ok_or (bincode_decode_snapshot buf) SnapshotMalformed;
  Ok (mkState (insert_all l) 0).

(** The bytes renamed over the snapshot file. *)
Definition write_snapshot (st : IndexState) : result IndexError Bytes :=
  body ← ok_or (bincode_encode_snapshot (entries st)) SnapshotMalformed;
  Ok (write_header SNAPSHOT_VERSION ++ body).

(** ** Operations *)

Definition journal_append (e : JournalEntry) : M unit := fun ix =>
  match append e (journal (disk ix)) with
  | Ok (_, file) => (Ok tt, mkIndex (inner ix) (compact_threshold ix) (mkDisk (snapshot (disk ix)) file))
  | Err err => (Err (JournalErr err), ix)
  end.

Definition compact : M unit := fun ix =>
  match write_snapshot (inner ix) with
  | Ok file =>
      (Ok tt, mkIndex (mkState (entries_map (inner ix)) 0) (compact_threshold ix)
                (mkDisk (Some file) truncate))
  | Err e => (Err e, ix)
  end.

Definition maybe_compact : M unit := fun ix =>
  if (compact_threshold ix <=? journal_entries_since_compact (inner ix))%Z then compact ix
  else (Ok tt, ix).

Definition put (key : IndexKey) (entry : IndexEntry) : M unit :=
  _ ← journal_append (Put key entry);
  _ ← modify (apply_state (Put key entry));
  maybe_compact.

Definition remove (key : IndexKey) : M bool :=
  _ ← journal_append (Remove key);
  removed ← gets (fun st => bool_decide (is_Some (entries_map st !! key)));
  _ ← modify (apply_state (Remove key));
  _ ← maybe_compact;
  mret removed.

Definition touch (key : IndexKey) (atime : Z) : M bool :=
  _ ← journal_append (Touch key atime);
  touched ← gets (fun st => bool_decide (is_Some (entries_map st !! key)));
  _ ← modify (apply_state (Touch key atime));
  _ ← maybe_compact;
  mret touched.

(** ** Opening *)

(** The replay loop: the state, the error that broke it, and the iterator;
    [None] is fuel exhaustion. *)
Fixpoint replay_loop (fuel : nat) (it : JournalIter) (st : IndexState)
    : option (IndexState * option JournalError * JournalIter) :=
  match fuel with
  | O => None
  | S fuel' =>
      match next it with
      | (None, it') => Some (st, None, it')
      | (Some (Ok e), it') => replay_loop fuel' it' (apply_state e st)
      | (Some (Err err), it') => Some (st, Some err, it')
      end
  end.

Definition load_base (snap : option Bytes) : result IndexError IndexState :=
  match snap with
  | Some file => load_snapshot file
  | None => Ok IndexState_default
  end.

(** What [open_inner] makes of the loop's outcome on the journal [file]. *)
Definition settle (recover : bool) (file : Bytes) (out : IndexState * option JournalError * JournalIter)
    : result IndexError (IndexState * Bytes * OpenReport) :=
  match out with
  | (st, None, _) => Ok (st, file, OpenReport_default)
  | (st, Some err, it) =>
      if recover && is_recoverable err
      then Ok (st, truncate_to (position it) file, mkReport true (Some (position it)))
      else Err (JournalErr err)
  end.

(** [open_inner]; [None] is fuel exhaustion of the replay. *)
Definition open_inner (recover : bool) (d : Disk)
    : option (result IndexError (Index * OpenReport)) :=
  let setup :=
    st ← load_base (snapshot d);
    file ← map_err JournalErr (journal_open (journal d));
    it ← map_err JournalErr (iter_entries file);
    Ok (st, file, it) in
  match setup with
  | Err e => Some (Err e)
  | Ok (st, file, it) =>
      out ← replay_loop (S (length file)) it st;
      Some ('(st, file', report) ← settle recover file out;
            Ok (mkIndex st DEFAULT_COMPACT_THRESHOLD (mkDisk (snapshot d) file'), report))
  end.

Definition open (d : Disk) : option (result IndexError (Index * OpenReport)) := open_inner false d.
Definition open_with_recovery (d : Disk) : option (result IndexError (Index * OpenReport)) :=
  open_inner true d.

End Index.
End Index.
