(* ===== verification/IndexFacts.v ===== *)
(** * The index on disk: replay, crashes and recovery

    Theorems on index.rs: opening ends on every pair of files, recovery is
    idempotent, a closed index reopens to the state it had, the crash points
    of an operation are harmless, and the cases in which entries are lost. *)

From S2P Require Import Prelude Coords Cas Journal JournalFacts Index.
From stdpp Require Import sorting.

Module IndexFacts.
Import Coords Cas Journal JournalFacts Index.

Section Replay.
Context `{C : Codec}.

(** ** The replay loop *)

Lemma next_ok_alive it e it' : next it = (Some (Ok e), it') -> done_ it' = false.
Proof.
  unfold next. intros H. repeat case_match; simplify_eq; done.
Qed.

(** A step that ends the walk stays at the last record. *)
Lemma next_ends it x it' :
  next it = (x, it') ->
  match x with Some (Ok _) => False | Some (Err e) => is_recoverable e = true | None => True end ->
  position it' = position it.
Proof.
  unfold next, decode_payload, ok_or. intros H Hx. repeat case_match; simplify_eq; try done.
Qed.

Lemma next_cut_end it : next (cut_iter 0 it) = (None, (next (cut_iter 0 it)).2).
Proof.
  assert ((next (cut_iter 0 it)).1 = None) as H.
  { destruct (done_ it) eqn:Hd; [unfold next, cut_iter; cbn [done_]; by rewrite Hd |].
    apply (next_end _ 0). by split_and!. }
  by destruct (next (cut_iter 0 it)); cbn in *; subst.
Qed.

Lemma loop_total fuel it st :
  length (unread (reader it)) < fuel -> is_Some (replay_loop fuel it st).
Proof.
  revert it st. induction fuel as [|fuel IH]; intros it st Hf; [lia |]. cbn.
  destruct (next it) as [[[e|err]|] it'] eqn:E; try by eexists.
  apply IH. destruct (next_consumes _ _ _ E (next_ok_alive _ _ _ E)) as (c & Hc & _ & Hu & _). lia.
Qed.

Lemma loop_mono fuel fuel' it st o :
  replay_loop fuel it st = Some o -> fuel <= fuel' -> replay_loop fuel' it st = Some o.
Proof.
  revert fuel' it st. induction fuel as [|fuel IH]; intros [|fuel'] it st H Hf; try done; try lia.
  cbn in *. destruct (next it) as [[[e|err]|] it']; try done. apply IH; [done | lia].
Qed.

Lemma loop_cut_0 fuel it st :
  exists it2, replay_loop (S fuel) (cut_iter 0 it) st = Some (st, None, it2).
Proof. cbn. rewrite next_cut_end. eauto. Qed.

(** The file cut where the replay stopped replays to the same state. *)
Lemma loop_cut fuel it st st' bad it' :
  replay_loop fuel it st = Some (st', bad, it') ->
  match bad with Some e => is_recoverable e = true | None => True end ->
  position it <= position it' <= position it + length (unread (reader it))
  /\ exists it2, replay_loop fuel (cut_iter (position it' - position it) it) st = Some (st', None, it2).
Proof.
  revert it st. induction fuel as [|fuel IH]; intros it st H Hb; [done |]. cbn [replay_loop] in H.
  destruct (next it) as [[[e|err]|] it1] eqn:E.
  2, 3: injection H as <- <- <-; apply next_ends in E as ->; [| done];
    split; [lia |]; rewrite Nat.sub_diag; apply loop_cut_0.
  destruct (next_consumes _ _ _ E (next_ok_alive _ _ _ E)) as (c & Hc & Hp & Hu & Hcut).
  destruct (IH _ _ H Hb) as [Hpos [it2 H2]]. split; [lia |]. exists it2. cbn [replay_loop].
  rewrite Hcut by lia. by replace (position it' - position it - c) with (position it' - position it1) by lia.
Qed.

(** ** The header *)

Lemma validate_split file v body :
  validate_header file v = Ok body -> exists h, file = h ++ body /\ length h = HEADER_LEN.
Proof.
  unfold validate_header. destruct (Nat.ltb_spec (length file) HEADER_LEN); [done |].
  repeat case_match; intros; simplify_eq. exists (take HEADER_LEN file).
  rewrite take_drop, length_take. split; [done | lia].
Qed.

Lemma validate_cut file v body n :
  validate_header file v = Ok body -> HEADER_LEN <= n <= length file ->
  validate_header (take n file) v = Ok (take (n - HEADER_LEN) body).
Proof.
  unfold HEADER_LEN, validate_header in *. intros H Hn. rewrite length_take, Nat.min_l by lia.
  destruct (Nat.ltb_spec (length file) HEADER_LEN); [done |].
  destruct (Nat.ltb_spec n HEADER_LEN); [unfold HEADER_LEN in *; lia |].
  assert (Ht : take 4 (take n file) = take 4 file) by (rewrite take_take; f_equal; lia).
  assert (Hd : take 4 (drop 4 (take n file)) = take 4 (drop 4 file)) by slices.
  rewrite Ht, Hd. repeat case_match; simplify_eq. f_equal. unfold HEADER_LEN. slices.
Qed.

Lemma journal_open_valid file file' :
  journal_open file = Ok file' -> exists body, validate_header file' JOURNAL_VERSION = Ok body.
Proof.
  unfold journal_open. destruct file as [|x l]; [intros [= <-] |].
  - rewrite <- (app_nil_r (write_header _)).
    rewrite validate_written by (unfold JOURNAL_VERSION, U32_MAX; lia). eauto.
  - destruct (validate_header (x :: l) JOURNAL_VERSION) as [b|] eqn:E; cbn; [| done].
    intros [= <-]. eauto.
Qed.

Lemma journal_open_reopens file body :
  validate_header file JOURNAL_VERSION = Ok body -> journal_open file = Ok file.
Proof. intros H. unfold journal_open. destruct file as [|x l]; [done |]. by rewrite H. Qed.

(** ** Opening *)

Definition start (body : Bytes) : JournalIter := mkIter (mkReader [] body) HEADER_LEN false.

Lemma open_inner_eq recover d st file body :
  load_base (snapshot d) = Ok st -> journal_open (journal d) = Ok file ->
  validate_header file JOURNAL_VERSION = Ok body ->
  open_inner recover d =
    out ← replay_loop (S (length file)) (start body) st;
    Some ('(st, file', report) ← settle recover file out;
          Ok (mkIndex st DEFAULT_COMPACT_THRESHOLD (mkDisk (snapshot d) file'), report)).
Proof.
  intros Hb Ho Hv. unfold open_inner, iter_entries. rewrite Hb. cbn. rewrite Ho. cbn. by rewrite Hv.
Qed.

(** The three steps before the replay, which fail together or give its input. *)
Lemma open_inner_cases recover d :
  (exists e, open_inner recover d = Some (Err e)) \/
  (exists st file body, load_base (snapshot d) = Ok st /\ journal_open (journal d) = Ok file
     /\ validate_header file JOURNAL_VERSION = Ok body).
Proof.
  unfold open_inner. destruct (load_base (snapshot d)) as [st|]; [| cbn; eauto].
  destruct (journal_open (journal d)) as [file|] eqn:E; [| cbn; eauto].
  destruct (journal_open_valid _ _ E) as [body Hv]. right. eauto 8.
Qed.

Lemma length_body file body :
  validate_header file JOURNAL_VERSION = Ok body -> length file = HEADER_LEN + length body.
Proof. intros (h & -> & Hh)%validate_split. by rewrite length_app, Hh. Qed.

Lemma start_total file body st :
  validate_header file JOURNAL_VERSION = Ok body ->
  is_Some (replay_loop (S (length file)) (start body) st).
Proof. intros Hv. apply loop_total. apply length_body in Hv. unfold unread. cbn. lia. Qed.

(** [index.rs: open_inner] Opening ends on every snapshot and journal
    file, whatever their bytes, with or without recovery: the replay of the
    journal never runs out of steps. *)
Theorem open_terminates recover d : is_Some (open_inner recover d).
Proof.
  destruct (open_inner_cases recover d) as [[e ->]|(st & file & body & Hb & Ho & Hv)]; [by eexists |].
  rewrite (open_inner_eq _ _ _ _ _ Hb Ho Hv). destruct (start_total file body st Hv) as [out ->]. by eexists.
Qed.

(** [index.rs: open_with_recovery] Recovery is idempotent.  Whatever the
    bytes of the files, when opening with recovery succeeds, the disk it
    leaves opens again without recovery and without truncation to the same
    index: the cut is at a record boundary, keeps every entry that was
    replayed, and nothing unreadable is left. *)
Theorem recovery_idempotent d ix report :
  open_with_recovery d = Some (Ok (ix, report)) ->
  open (disk ix) = Some (Ok (ix, OpenReport_default)).
Proof.
  intros H. unfold open_with_recovery, open in *.
  destruct (open_inner_cases true d) as [[e E]|(st & file & body & Hb & Ho & Hv)]; [congruence |].
  rewrite (open_inner_eq _ _ _ _ _ Hb Ho Hv) in H.
  destruct (replay_loop _ _ _) as [[[st' bad] it']|] eqn:El; [| done]. cbn in H.
  pose proof (length_body _ _ Hv) as Hlen. destruct bad as [err|]; cbn in H.
  - destruct (is_recoverable err) eqn:Hr; cbn in H; [| done]. injection H as <- <-. cbn [disk].
    destruct (loop_cut _ _ _ _ _ _ El Hr) as [Hpos [it2 Hc]].
    assert (Hlen' : HEADER_LEN <= position it' <= length file) 
      by (unfold start, unread in Hpos; cbn [position reader buf rest app] in Hpos; lia).
    assert (Ht : truncate_to (position it') file = take (position it') file).
    { unfold truncate_to. rewrite Nat.max_l by lia. replace (_ - length file) with 0 by lia.
      by rewrite app_nil_r. }
    rewrite Ht. pose proof (validate_cut _ _ _ _ Hv Hlen') as Hv'.
    erewrite open_inner_eq; [| exact Hb | by apply (journal_open_reopens _ _ Hv') | exact Hv'].
    destruct (start_total _ _ st Hv') as [out Ho'].
    assert (replay_loop (S (length file)) (start (take (position it' - HEADER_LEN) body)) st
            = Some (st', None, it2)) as Hc'.
    { rewrite <- Hc. f_equal. unfold start, cut_iter, cut. cbn. by rewrite take_nil, Nat.sub_0_r. }
    apply (loop_mono _ (S (length file))) in Ho' as Ho''; [| rewrite length_take; lia].
    rewrite Hc' in Ho''. injection Ho'' as <-. by rewrite Ho'.
  - injection H as <- <-. cbn [disk].
    erewrite open_inner_eq; [| exact Hb | by apply (journal_open_reopens _ _ Hv) | exact Hv].
    by rewrite El.
Qed.

(** ** Replay of a well-formed journal *)

Definition apply_all (es : list JournalEntry) (m : gmap IndexKey IndexEntry) : gmap IndexKey IndexEntry :=
  foldl (fun m e => apply_entry e m) m es.

Lemma apply_all_app es es' m : apply_all (es ++ es') m = apply_all es' (apply_all es m).
Proof. apply foldl_app. Qed.

Lemma apply_all_snoc es e m : apply_all (es ++ [e]) m = apply_entry e (apply_all es m).
Proof. apply apply_all_app. Qed.

Definition apply_states (es : list JournalEntry) (st : IndexState) : IndexState :=
  mkState (apply_all es (entries_map st)) (journal_entries_since_compact st + Z.of_nat (length es)).

Lemma apply_states_cons e es st : apply_states es (apply_state e st) = apply_states (e :: es) st.
Proof. unfold apply_states, apply_state. cbn. f_equal. lia. Qed.

Lemma loop_of_run fuel it es bad it' st :
  run fuel it = Some ((Ok <$> es) ++ option_list (Err <$> bad), it') ->
  match bad with Some e => is_recoverable e = true | None => True end ->
  exists it2, replay_loop fuel it st = Some (apply_states es st, bad, it2) /\ position it2 = position it'.
Proof.
  intros Hr Hb. revert it es st Hr. induction fuel as [|fuel IH]; intros it es st Hr; [done |].
  cbn [run replay_loop] in *. destruct (next it) as [[x|] it1] eqn:E.
  - destruct (run fuel it1) as [[xs it2]|] eqn:Er; [| done]. injection Hr as Hx ->.
    destruct es as [|e es]; cbn in Hx.
    + destruct bad as [err|]; [| done]. injection Hx as -> ->. exists it1. split.
      { unfold apply_states. cbn. destruct st; cbn. by rewrite Z.add_0_r. }
      destruct fuel as [|fuel]; [done |]. cbn in Er. destruct (next it1) as [[?|] ?] eqn:E1.
      { by destruct (run fuel _) as [[??]|]. }
      injection Er as ->. symmetry. by apply (next_ends _ _ _ E1).
    + injection Hx as -> ->. destruct (IH _ _ (apply_state e st) Er) as (it3 & -> & Hp).
      exists it3. by rewrite apply_states_cons.
  - injection Hr as Hx ->. symmetry in Hx. apply app_nil in Hx as [He Hbad].
    apply fmap_nil_inv in He as ->. destruct bad; [done |]. exists it'. split; [| done].
    unfold apply_states. cbn. destruct st; cbn. by rewrite Z.add_0_r.
Qed.

Definition leftover (ps : list Bytes) (tl : Bytes) : bool :=
  (readable 0 ps <? length ps)%nat || negb (bool_decide (tl = [])).

Lemma loop_file es ps tl st :
  encoded es ps -> torn tl ->
  exists it, replay_loop (S (length (journal_file ps ++ tl))) (start (records ps ++ tl)) st
      = Some (apply_states (take (readable 0 ps) es) st,
              if leftover ps tl then Some Truncated else None, it)
    /\ position it = length (journal_file (take (readable 0 ps) ps)).
Proof.
  intros He Ht. destruct (run_file es ps tl He Ht) as (it & Er & Hp).
  assert (Hl : length es = length ps) by (by eapply Forall2_length).
  unfold walked in Er. rewrite Hl in Er. fold (leftover ps tl) in Er.
  destruct (loop_of_run (S (S (length (journal_file ps ++ tl)))) (start (records ps ++ tl))
              (take (readable 0 ps) es) (if leftover ps tl then Some Truncated else None) it st)
    as (it2 & E & Hp2).
  { unfold start. rewrite Er. by destruct (leftover ps tl). }
  { by destruct (leftover ps tl). }
  destruct (start_total _ _ st (journal_file_valid ps tl)) as [out Ho].
  pose proof (loop_mono _ _ _ _ _ Ho (Nat.le_succ_diag_r _)) as Ho'. rewrite E in Ho'.
  injection Ho' as <-. exists it2. by rewrite Hp2.
Qed.

Lemma records_app ps ps' : records (ps ++ ps') = records ps ++ records ps'.
Proof. unfold records. by rewrite fmap_app, List.concat_app. Qed.

Lemma truncate_to_file n ps tl :
  truncate_to (length (journal_file (take n ps))) (journal_file ps ++ tl) = journal_file (take n ps).
Proof.
  assert (journal_file ps ++ tl = journal_file (take n ps) ++ (records (drop n ps) ++ tl)) as ->.
  { unfold journal_file. rewrite <- (take_drop n ps) at 1. by rewrite records_app, <- !app_assoc. }
  unfold truncate_to. rewrite Nat.max_l 
    by (unfold journal_file; rewrite length_app; change (length (write_header _)) with HEADER_LEN; lia).
  rewrite take_app_length, length_app. replace (_ - _) with 0 by lia. apply app_nil_r.
Qed.

(** What opening makes of a journal of entries [es] and a torn tail. *)
Lemma open_file recover es ps tl d base :
  encoded es ps -> torn tl -> load_base (snapshot d) = Ok base -> journal d = journal_file ps ++ tl ->
  open_inner recover d = Some (
    if negb (leftover ps tl)
    then Ok (mkIndex (apply_states es base) DEFAULT_COMPACT_THRESHOLD d, OpenReport_default)
    else if recover
         then let n := readable 0 ps in
              Ok (mkIndex (apply_states (take n es) base) DEFAULT_COMPACT_THRESHOLD
                    (mkDisk (snapshot d) (journal_file (take n ps))),
                  mkReport true (Some (length (journal_file (take n ps)))))
         else Err (JournalErr Truncated)).
Proof.
  intros He Ht Hb Hj. pose proof (journal_file_valid ps tl) as Hv. rewrite <- Hj in Hv.
  rewrite (open_inner_eq _ _ _ _ _ Hb (journal_open_reopens _ _ Hv) Hv), Hj.
  destruct (loop_file es ps tl base He Ht) as (it & -> & Hp). unfold settle. cbn [mbind option_bind].
  destruct (leftover ps tl) eqn:Hl; cbn [negb].
  - rewrite Hp, truncate_to_file. by destruct recover.
  - unfold leftover in Hl. apply orb_false_iff in Hl as [Hn Ht'%negb_false_iff%bool_decide_eq_true].
    apply Nat.ltb_ge in Hn. subst tl. cbn. rewrite take_ge by (apply Forall2_length in He; lia).
    destruct d. cbn in *. by rewrite Hj.
Qed.

Lemma torn_nil : torn [].
Proof.
  exists [], 0. split_and!; [done | unfold BUF_CAPACITY; cbn; lia | rewrite length_record; lia].
Qed.

(** ** Snapshots *)

Lemma insert_all_to_map l : NoDup l.*1 -> insert_all l = list_to_map l.
Proof.
  induction l as [|[k v] l IH] using rev_ind; [done |]. rewrite fmap_app. cbn.
  intros (Hl & Hk & _)%list.NoDup_app. unfold insert_all in *. rewrite foldl_snoc, IH by done. cbn.
  rewrite list_to_map_snoc; [done |]. intros Hin. by apply (Hk _ Hin), list_elem_of_singleton.
Qed.

Lemma insert_all_entries st : insert_all (entries st) = entries_map st.
Proof.
  assert (entries st ≡ₚ map_to_list (entries_map st)) as Hp by apply merge_sort_Permutation.
  assert (NoDup (entries st).*1) as Hn by (rewrite Hp; apply NoDup_fst_map_to_list).
  rewrite insert_all_to_map, (list_to_map_proper _ _ Hn Hp) by done. apply list_to_map_to_list.
Qed.

Lemma snapshot_roundtrip st file :
  write_snapshot st = Ok file -> load_snapshot file = Ok (mkState (entries_map st) 0).
Proof.
  unfold write_snapshot. destruct (bincode_encode_snapshot (entries st)) as [body|] eqn:E; [| done].
  cbn [ok_or mbind result_mbind]. intros Hf. assert (file = write_header SNAPSHOT_VERSION ++ body) as -> by congruence.
  unfold load_snapshot. rewrite validate_written by (unfold SNAPSHOT_VERSION, U32_MAX; lia).
  cbn [map_err mbind result_mbind]. rewrite (bincode_snapshot_roundtrip _ _ E). cbn.
  by rewrite insert_all_entries.
Qed.

(** ** Replay is idempotent *)

(** What an entry does to the value of a key. *)
Definition effect (k : IndexKey) (e : JournalEntry) (o : option IndexEntry) : option IndexEntry :=
  match e with
  | Put k' v => if decide (k = k') then Some v else o
  | Remove k' => if decide (k = k') then None else o
  | Touch k' a => if decide (k = k') then set_atime a <$> o else o
  end.

Definition effects (k : IndexKey) (es : list JournalEntry) (o : option IndexEntry) : option IndexEntry :=
  foldl (fun o e => effect k e o) o es.

Lemma lookup_apply_entry k e m : apply_entry e m !! k = effect k e (m !! k).
Proof.
  destruct e as [k' v|k'|k' a]; cbn; case_decide; subst.
  - apply lookup_insert_eq.
  - by apply lookup_insert_ne.
  - apply lookup_delete_eq.
  - by apply lookup_delete_ne.
  - apply lookup_alter_eq.
  - by apply lookup_alter_ne.
Qed.

Lemma lookup_apply_all k es m : apply_all es m !! k = effects k es (m !! k).
Proof.
  revert m. induction es as [|e es IH]; intros m; [done |]. cbn.
  unfold apply_all, effects in *. cbn. by rewrite IH, lookup_apply_entry.
Qed.

(** Entries leave the value, replace it, or set its access time. *)
Lemma effects_shape k es :
  (forall o, effects k es o = o) \/ (exists c, forall o, effects k es o = c)
  \/ (exists a, forall o, effects k es o = set_atime a <$> o).
Proof.
  induction es as [|e es IH] using rev_ind; [by left |].
  assert (Hs : forall o, effects k (es ++ [e]) o = effect k e (effects k es o))
    by (intros o; unfold effects; by rewrite foldl_app).
  setoid_rewrite Hs. destruct e as [k' v|k'|k' a]; cbn; case_decide; try done; [eauto.. |].
  right. destruct IH as [H1|[[c H1]|[b H1]]]; setoid_rewrite H1; [eauto.. |].
  right. exists a. by intros [x|].
Qed.

Lemma apply_all_idem es m : apply_all es (apply_all es m) = apply_all es m.
Proof.
  apply map_eq. intros k. rewrite !lookup_apply_all.
  destruct (effects_shape k es) as [H|[[c H]|[a H]]]; rewrite !H; try done. by destruct (m !! k).
Qed.

(** ** Sequences of operations *)

Inductive Op : Type :=
  | OpPut (key : IndexKey) (entry : IndexEntry)
  | OpRemove (key : IndexKey)
  | OpTouch (key : IndexKey) (atime : Z)
  | OpCompact
  | OpSetThreshold (n : Z).

(** The index after an operation, whether it succeeded or failed. *)
Definition run_op (ix : Index) (o : Op) : Index :=
  match o with
  | OpPut k v => (put k v ix).2
  | OpRemove k => (remove k ix).2
  | OpTouch k a => (touch k a ix).2
  | OpCompact => (compact ix).2
  | OpSetThreshold n => set_compact_threshold n ix
  end.

Definition op_entry (o : Op) : option JournalEntry :=
  match o with
  | OpPut k v => Some (Put k v)
  | OpRemove k => Some (Remove k)
  | OpTouch k a => Some (Touch k a)
  | _ => None
  end.

(** The record of an entry is smaller than the read buffer. *)
Definition small (e : JournalEntry) : Prop :=
  forall p, bincode_encode e = Some p -> length p < BUF_CAPACITY.

Definition small_op (o : Op) : Prop := forall e, op_entry o = Some e -> small e.

(** The files hold the state in memory: the snapshot, then the entries [es]. *)
Definition durable (ix : Index) (es : list JournalEntry) (ps : list Bytes) : Prop :=
  encoded es ps /\ journal (disk ix) = journal_file ps
  /\ exists base, load_base (snapshot (disk ix)) = Ok base
       /\ entries_map (inner ix) = apply_all es (entries_map base).

Definition mutate (e : JournalEntry) : M unit :=
  _ ← journal_append e; _ ← modify (apply_state e); maybe_compact.

Lemma run_op_mutate ix o e : op_entry o = Some e -> run_op ix o = (mutate e ix).2.
Proof.
  destruct o; intros [= <-]; [done | |]; cbn; unfold remove, touch, mutate, mbind, M_bind, gets, modify;
    destruct (journal_append _ ix) as [[]]; cbn; try done; by destruct (maybe_compact _) as [[]].
Qed.

Lemma compact_durable ix es ps :
  durable ix es ps -> exists es' ps', durable (compact ix).2 es' ps'.
Proof.
  intros H. unfold compact. destruct (write_snapshot (inner ix)) as [file|] eqn:E; [| eauto].
  exists [], []. split; [constructor | split; [done |]].
  exists (mkState (entries_map (inner ix)) 0). split; [| done]. cbn. by apply snapshot_roundtrip.
Qed.

Lemma encoded_snoc es ps e p :
  encoded es ps -> small e -> bincode_encode e = Some p -> encoded (es ++ [e]) (ps ++ [p]).
Proof. intros He Hs Hp. apply Forall2_app; [done |]. constructor; [| constructor]. auto. Qed.

Lemma journal_file_snoc ps p : journal_file ps ++ record p = journal_file (ps ++ [p]).
Proof.
  unfold journal_file. rewrite records_app, <- app_assoc. f_equal. f_equal. unfold records. cbn.
  by rewrite app_nil_r.
Qed.

(** The index after its record was appended and applied. *)
Definition appended (ix : Index) (e : JournalEntry) (p : Bytes) : Index :=
  mkIndex (apply_state e (inner ix)) (compact_threshold ix)
    (mkDisk (snapshot (disk ix)) (journal (disk ix) ++ record p)).

Lemma appended_durable ix es ps e p :
  durable ix es ps -> small e -> bincode_encode e = Some p -> durable (appended ix e p) (es ++ [e]) (ps ++ [p]).
Proof.
  intros (He & Hj & base & Hb & Hm) Hs Hp.
  split_and!; [by apply encoded_snoc | cbn [appended disk journal]; by rewrite Hj, journal_file_snoc |].
  exists base. split; [done |]. cbn. by rewrite apply_all_app, Hm.
Qed.

Lemma mutate_durable ix es ps e :
  durable ix es ps -> small e -> exists es' ps', durable (mutate e ix).2 es' ps'.
Proof.
  intros Hd0 Hs. unfold mutate, mbind, M_bind, journal_append, modify.
  unfold append, encode_payload, ok_or. destruct (bincode_encode e) as [p|] eqn:Ep; cbn [mbind result_mbind].
  2: { exists es, ps. done. }
  destruct (Z.ltb_spec U32_MAX (Z.of_nat (length p))).
  { exists es, ps. done. }
  cbn [fst snd]. pose proof (appended_durable ix es ps e p Hd0 Hs Ep) as Hd. unfold appended in Hd.
  unfold maybe_compact. case_match; [by apply (compact_durable _ _ _ Hd) | eauto].
Qed.

Lemma run_ops_durable ops ix es ps :
  durable ix es ps -> Forall small_op ops -> exists es' ps', durable (foldl run_op ix ops) es' ps'.
Proof.
  intros Hd Hs. revert ix es ps Hd. induction Hs as [|o ops Ho Hs IH]; intros ix es ps Hd; cbn; [eauto |].
  assert (exists es' ps', durable (run_op ix o) es' ps') as (es' & ps' & Hd').
  { destruct (op_entry o) as [e|] eqn:E.
    - rewrite (run_op_mutate _ _ _ E). eapply mutate_durable; [done | by apply Ho].
    - destruct o; try done; [by eapply compact_durable |]. exists es, ps. by destruct Hd as (? & ? & ?). }
  eauto.
Qed.

Lemma readable_snoc off ps p :
  readable off ps = length ps ->
  readable off (ps ++ [p]) = length ps + (if straddles (off + length (records ps)) then 0 else 1).
Proof.
  revert off. induction ps as [|q ps IH]; intros off; cbn [readable app length].
  - change (length (records [])) with 0. rewrite Nat.add_0_r. by destruct (straddles off).
  - rewrite records_cons, length_app, length_record. destruct (straddles off); [done |]. intros [= H].
    rewrite (IH _ H). do 3 f_equal. rewrite <- Nat.add_assoc. done.
Qed.

Lemma readable_prefix off ps p : readable off (ps ++ [p]) = S (length ps) -> readable off ps = length ps.
Proof.
  revert off. induction ps as [|q ps IH]; intros off; cbn [readable app length]; [done |].
  destruct (straddles off); [done |]. intros [= H]. f_equal. by apply IH.
Qed.

(** A journal that fits one buffer is read whole. *)
Lemma readable_fits off ps :
  off + length (records ps) <= BUF_CAPACITY -> readable off ps = length ps.
Proof.
  revert off. induction ps as [|q ps IH]; intros off; cbn [readable length]; [done |].
  rewrite records_cons, length_app, length_record. pose proof BUF_CAPACITY_pos. intros Hl.
  assert (straddles off = false) as ->.
  { unfold straddles. rewrite Nat.mod_small by lia. apply Nat.ltb_ge. lia. }
  f_equal. apply IH. lia.
Qed.

Lemma open_durable recover ix es ps :
  durable ix es ps -> readable 0 ps = length ps ->
  exists ix', open_inner recover (disk ix) = Some (Ok (ix', OpenReport_default))
    /\ entries_map (inner ix') = entries_map (inner ix) /\ disk ix' = disk ix.
Proof.
  intros (He & Hj & base & Hb & Hm) Hr. eexists. split; [| split].
  - erewrite (open_file _ es ps [] _ base He torn_nil Hb); [| by rewrite app_nil_r].
    unfold leftover. rewrite Hr, Nat.ltb_irrefl, bool_decide_true by done. done.
  - done.
  - done.
Qed.

Definition fresh : Disk := mkDisk None [].

Lemma fresh_open recover :
  open_inner recover fresh
  = Some (Ok (mkIndex IndexState_default DEFAULT_COMPACT_THRESHOLD (mkDisk None (journal_file [])),
              OpenReport_default)).
Proof.
  assert (Hv : validate_header (journal_file []) JOURNAL_VERSION = Ok []).
  { pose proof (journal_file_valid [] []) as H. rewrite app_nil_r in H. exact H. }
  erewrite open_inner_eq; [| done | | exact Hv]; [| done].
  destruct (loop_file [] [] [] IndexState_default) as (it & E & _); [constructor | apply torn_nil |].
  rewrite app_nil_r in E. cbn [records app fmap list_fmap List.concat] in E.
  change (records [] ++ []) with (@nil Z) in E. rewrite E. done.
Qed.

Lemma fresh_durable :
  durable (mkIndex IndexState_default DEFAULT_COMPACT_THRESHOLD (mkDisk None (journal_file []))) [] [].
Proof. split; [constructor |]. split; [done |]. by exists IndexState_default. Qed.


(** ** Crashes *)

(** The writes to the two files, in order.  The snapshot is written beside the
    old one and renamed over it; the journal is emptied and its header written
    again. *)
Inductive Write : Type :=
  | Append (b : Bytes)
  | Rename (file : Bytes)
  | SetLen0.

Definition write (w : Write) (d : Disk) : Disk :=
  match w with
  | Append b => mkDisk (snapshot d) (journal d ++ b)
  | Rename file => mkDisk (Some file) (journal d)
  | SetLen0 => mkDisk (snapshot d) []
  end.

Definition compact_writes (st : IndexState) : list Write :=
  match write_snapshot st with
  | Ok file => [Rename file; SetLen0; Append truncate]
  | Err _ => []
  end.

Definition entry_writes (ix : Index) (e : JournalEntry) : list Write :=
  match bincode_encode e with
  | Some p =>
      if (U32_MAX <? Z.of_nat (length p))%Z then []
      else
        let st := apply_state e (inner ix) in
        Append (record p) ::
        (if (compact_threshold ix <=? journal_entries_since_compact st)%Z then compact_writes st else [])
  | None => []
  end.

Definition op_writes (ix : Index) (o : Op) : list Write :=
  match op_entry o with
  | Some e => entry_writes ix e
  | None => match o with OpCompact => compact_writes (inner ix) | _ => [] end
  end.

(** The disks a crash can leave: it stops before a write, or in the middle of
    an append, at any byte. *)
Inductive crash : list Write -> Disk -> Disk -> Prop :=
  | crash_here ws d : crash ws d d
  | crash_torn b k ws d : crash (Append b :: ws) d (write (Append (take k b)) d)
  | crash_later w ws d d' : crash ws (write w d) d' -> crash (w :: ws) d d'.

Lemma compact_disk ix : disk (compact ix).2 = foldl (fun d w => write w d) (disk ix) (compact_writes (inner ix)).
Proof. unfold compact, compact_writes. by destruct (write_snapshot _). Qed.

Lemma mutate_shape ix o e : op_entry o = Some e ->
  run_op ix o
  = match bincode_encode e with
    | Some p => if (U32_MAX <? Z.of_nat (length p))%Z then ix else (maybe_compact (appended ix e p)).2
    | None => ix
    end.
Proof.
  intros Ho. rewrite (run_op_mutate _ _ _ Ho). unfold mutate, mbind, M_bind, journal_append, modify.
  unfold append, encode_payload, ok_or. destruct (bincode_encode e) as [p|]; cbn [mbind result_mbind]; [|done].
  by destruct (U32_MAX <? _)%Z.
Qed.

(** All the writes together are what the operation does to the disk. *)
Lemma op_writes_disk ix o : disk (run_op ix o) = foldl (fun d w => write w d) (disk ix) (op_writes ix o).
Proof.
  unfold op_writes. destruct (op_entry o) as [e|] eqn:Ho.
  - rewrite (mutate_shape ix o e Ho). unfold entry_writes. destruct (bincode_encode e) as [p|]; [|done].
    destruct (U32_MAX <? _)%Z; [done |]. unfold maybe_compact. cbn [appended compact_threshold inner].
    destruct (compact_threshold ix <=? _)%Z; [apply compact_disk | done].
  - destruct o; try done. apply compact_disk.
Qed.

Lemma open_entries recover es ps d base :
  encoded es ps -> load_base (snapshot d) = Ok base -> journal d = journal_file ps ->
  readable 0 ps = length ps ->
  open_inner recover d
  = Some (Ok (mkIndex (apply_states es base) DEFAULT_COMPACT_THRESHOLD d, OpenReport_default)).
Proof.
  intros He Hb Hj Hr. rewrite (open_file _ es ps [] _ base He torn_nil Hb); [| by rewrite app_nil_r].
  unfold leftover. by rewrite Hr, Nat.ltb_irrefl, bool_decide_true.
Qed.

Lemma open_emptied recover snap : 
  open_inner recover (mkDisk snap []) = open_inner recover (mkDisk snap truncate).
Proof. reflexivity. Qed.

Definition recovers_to (d : Disk) (m : gmap IndexKey IndexEntry) : Prop :=
  exists ix report, open_with_recovery d = Some (Ok (ix, report)) /\ entries_map (inner ix) = m.

Lemma compacted_recovers st file :
  write_snapshot st = Ok file -> recovers_to (mkDisk (Some file) truncate) (entries_map st).
Proof.
  intros Hw. do 2 eexists. split; [eapply (open_entries true [] []) |].
  - constructor.
  - by apply snapshot_roundtrip.
  - done.
  - done.
  - done.
Qed.

(** The header of the emptied journal was torn: recovery refuses the file, and
    the snapshot beside it holds the entries. *)
Definition header_torn (d : Disk) (m : gmap IndexKey IndexEntry) : Prop :=
  exists k, 0 < k < HEADER_LEN /\ journal d = take k truncate
    /\ open_with_recovery d = Some (Err (JournalErr UnexpectedEof))
    /\ recovers_to (mkDisk (snapshot d) []) m.

(** A crash between the writes of the header of an emptied journal leaves a
    file that recovery refuses. *)
Theorem torn_header_fatal recover k snap st :
  load_base snap = Ok st -> 0 < k < HEADER_LEN ->
  open_inner recover (mkDisk snap (take k truncate)) = Some (Err (JournalErr UnexpectedEof)).
Proof.
  intros Hb Hk. unfold open_inner. cbn [snapshot journal]. rewrite Hb. cbn [mbind result_mbind].
  unfold journal_open, validate_header. unfold HEADER_LEN in *.
  do 10 (destruct k as [|k]; [first [lia | done] |]). lia.
Qed.

Lemma durable_recovers ix es ps :
  durable ix es ps -> readable 0 ps = length ps -> recovers_to (disk ix) (entries_map (inner ix)).
Proof.
  intros Hd Hr. destruct (open_durable true _ _ _ Hd Hr) as (ix' & Ho & He & _). by exists ix', OpenReport_default.
Qed.

(** The snapshot over the journal it replaces. *)
Lemma renamed_recovers ix es ps file :
  durable ix es ps -> readable 0 ps = length ps -> write_snapshot (inner ix) = Ok file ->
  recovers_to (mkDisk (Some file) (journal (disk ix))) (entries_map (inner ix)).
Proof.
  intros (He & Hj & base & Hb & Hm) Hr Hw. do 2 eexists. split.
  - eapply (open_entries true es ps); [done | by apply snapshot_roundtrip | done | done].
  - cbn. rewrite Hm. apply apply_all_idem.
Qed.

Lemma truncated_recovers st file k :
  write_snapshot st = Ok file ->
  recovers_to (mkDisk (Some file) (take k truncate)) (entries_map st)
  \/ header_torn (mkDisk (Some file) (take k truncate)) (entries_map st).
Proof.
  intros Hw. pose proof (compacted_recovers st file Hw) as Hc.
  assert (He : recovers_to (mkDisk (Some file) []) (entries_map st)) by exact Hc.
  destruct (decide (k = 0)) as [->|Hk]; [by left |]. destruct (decide (k < HEADER_LEN)) as [Hlt|Hge].
  - right. exists k. split_and!; [lia | exact Hlt | done | | done].
    eapply torn_header_fatal; [by apply (snapshot_roundtrip st) | lia].
  - left. rewrite take_ge; [done |]. change (length truncate) with HEADER_LEN. lia.
Qed.

(** A record torn before its last byte is cut off. *)
Lemma torn_recovers ix es ps p k :
  durable ix es ps -> readable 0 ps = length ps -> length p < BUF_CAPACITY -> k < length (record p) ->
  recovers_to (write (Append (take k (record p))) (disk ix)) (entries_map (inner ix)).
Proof.
  intros (He & Hj & base & Hb & Hm) Hr Hl Hk. unfold recovers_to, open_with_recovery.
  erewrite (open_file true es ps (take k (record p)) _ base He); [| exists p, k; auto | exact Hb | by rewrite <- Hj].
  rewrite Hr. unfold negb. case_match; do 2 eexists; (split; [done |]); cbn; [done |].
  rewrite take_ge; [done |]. apply Forall2_length in He. lia.
Qed.

Lemma compact_crash ix es ps d :
  durable ix es ps -> readable 0 ps = length ps -> crash (compact_writes (inner ix)) (disk ix) d ->
  recovers_to d (entries_map (inner ix)) \/ header_torn d (entries_map (inner ix)).
Proof.
  intros Hd Hr. unfold compact_writes. destruct (write_snapshot (inner ix)) as [file|] eqn:Hw.
  2: { inversion 1; subst. left. by eapply durable_recovers. }
  inversion 1 as [| |? ? ? ? H1]; subst; [left; by eapply durable_recovers |].
  inversion H1 as [| |? ? ? ? H2]; subst; [left; by eapply renamed_recovers |].
  inversion H2 as [|? k|? ? ? ? H3]; subst; cbn [write journal snapshot app].
  - exact (truncated_recovers _ file 0 Hw).
  - exact (truncated_recovers _ file k Hw).
  - inversion H3; subst. left. by apply compacted_recovers.
Qed.

(** C16 [index.rs: put, remove, touch, compact; journal.rs: append, truncate]
    Crash safety.  The writes of an operation to the journal and the snapshot,
    compaction included, are a list whose whole run is what the operation does
    to the disk; a crash stops before any write, or inside an append (of a
    record, or of the header) at any byte.  From an index whose files hold its
    entries, every disk that a crash can leave opens, with recovery, to the
    entries before the operation or to those after it, never to anything else;
    in particular a crash between the rename of the snapshot and the emptying
    of the journal replays the journal over a snapshot that already has it.
    The one exception is a crash inside the header of the emptied journal:
    recovery refuses that file with an error, and the entries after the
    operation are in the snapshot, from which an empty journal recovers them.
    Assumed: what was written stays in order (a killed process, not a disk
    that reorders), the record is below the read buffer of 8192 bytes
    ([small_op]), and no length prefix of the journal crosses a read buffer
    ([readable]; see [straddling_put_lost]). *)
Theorem index_crash_safe ix es ps o d :
  durable ix es ps -> small_op o ->
  let ps' := ps ++ option_list (op_entry o ≫= bincode_encode) in
  readable 0 ps' = length ps' ->
  disk (run_op ix o) = foldl (fun d w => write w d) (disk ix) (op_writes ix o)
  /\ (crash (op_writes ix o) (disk ix) d ->
       recovers_to d (entries_map (inner ix))
       \/ recovers_to d (entries_map (inner (run_op ix o)))
       \/ header_torn d (entries_map (inner (run_op ix o)))).
Proof.
  intros Hd Hs ps' Hr. split; [apply op_writes_disk |].
  assert (Hr0 : readable 0 ps = length ps).
  { subst ps'. destruct (_ ≫= _) as [p|]; cbn in Hr; [|by rewrite app_nil_r in Hr].
    rewrite length_app, Nat.add_1_r in Hr. by apply readable_prefix in Hr. }
  pose proof (durable_recovers _ _ _ Hd Hr0) as Hbefore.
  unfold op_writes. destruct (op_entry o) as [e|] eqn:Ho.
  - rewrite (mutate_shape ix o e Ho). unfold entry_writes.
    change (Some e ≫= bincode_encode) with (bincode_encode e) in ps', Hr.
    destruct (bincode_encode e) as [p|] eqn:Hp; [| inversion 1; subst; by left].
    destruct (U32_MAX <? _)%Z; [inversion 1; subst; by left |].
    pose proof (appended_durable ix es ps e p Hd (Hs e Ho) Hp) as Hd'.
    pose proof (durable_recovers _ _ _ Hd' Hr) as Happ.
    assert (Hin : entries_map (inner (maybe_compact (appended ix e p)).2) = entries_map (inner (appended ix e p))).
    { unfold maybe_compact, compact. destruct (_ <=? _)%Z; [|done]. by destruct (write_snapshot _). }
    rewrite Hin. inversion 1 as [|? k|? ? ? ? Hrest]; subst; [by left | |].
    + destruct (decide (k < length (record p))) as [Hk|Hk]; [left | right; left; by rewrite take_ge by lia].
      eapply torn_recovers; [done | done | exact (Hs e Ho p Hp) | done].
    + right. destruct (_ <=? _)%Z; [by apply (compact_crash (appended ix e p) _ _ d Hd' Hr) |].
      inversion Hrest; subst. by left.
  - assert (Hin : entries_map (inner (run_op ix o)) = entries_map (inner ix)).
    { destruct o; try done. cbn. unfold compact. by destruct (write_snapshot _). }
    rewrite Hin. intros Hc. right. destruct o; try done; [by eapply compact_crash |]. inversion Hc; subst. by left.
Qed.

(** [journal.rs: JournalIter::next] A committed put can be lost.  When the
    record of a put starts in the last three bytes of a read buffer (its
    length prefix crosses it), the put succeeds and is visible, but the next
    open takes the short read for a torn tail: a plain open fails with
    [Truncated], and recovery opens to the entries before the put and cuts
    the intact record off the journal. *)
Theorem straddling_put_lost ix es ps k v p :
  durable ix es ps -> readable 0 ps = length ps ->
  bincode_encode (Put k v) = Some p -> length p < BUF_CAPACITY ->
  straddles (length (records ps)) = true ->
  (journal_entries_since_compact (inner ix) + 1 < compact_threshold ix)%Z ->
  exists ix' ix'' report,
    put k v ix = (Ok tt, ix') /\ get k ix' = Some v
    /\ open (disk ix') = Some (Err (JournalErr Truncated))
    /\ open_with_recovery (disk ix') = Some (Ok (ix'', report))
    /\ journal_truncated report = true
    /\ entries_map (inner ix'') = entries_map (inner ix)
    /\ journal (disk ix'') = journal (disk ix).
Proof.
  intros (He & Hj & base & Hb & Hm) Hr Hp Hl Hst Hth.
  set (ix' := mkIndex (apply_state (Put k v) (inner ix)) (compact_threshold ix)
                (mkDisk (snapshot (disk ix)) (journal_file (ps ++ [p])))).
  assert (Hput : put k v ix = (Ok tt, ix')).
  { unfold put, mbind, M_bind, journal_append, modify, append, encode_payload, ok_or. rewrite Hp.
    cbn [mbind result_mbind].
    destruct (Z.ltb_spec U32_MAX (Z.of_nat (length p))); [unfold BUF_CAPACITY, U32_MAX in *; lia |].
    unfold maybe_compact. cbn [inner compact_threshold disk apply_state journal_entries_since_compact].
    destruct (Z.leb_spec (compact_threshold ix) (journal_entries_since_compact (inner ix) + 1)); [lia |].
    by rewrite Hj, journal_file_snoc. }
  assert (Hn : readable 0 (ps ++ [p]) = length ps).
  { rewrite (readable_snoc _ _ _ Hr), Nat.add_0_l, Hst. lia. }
  assert (He' : encoded (es ++ [Put k v]) (ps ++ [p])).
  { apply encoded_snoc; [done | | done]. intros q Hq. congruence. }
  assert (Hlo : leftover (ps ++ [p]) [] = true).
  { unfold leftover. rewrite Hn, length_app. apply orb_true_iff. left. apply Nat.ltb_lt. cbn. lia. }
  pose proof (fun rec => open_file rec _ _ [] (disk ix') base He' torn_nil Hb
                (eq_sym (app_nil_r _))) as Ho.
  rewrite Hlo, Hn in Ho. exists ix'. do 2 eexists. split; [exact Hput |].
  split; [unfold get; cbn; apply lookup_insert_eq |].
  split; [apply (Ho false) |]. split; [apply (Ho true) |]. cbn [journal_truncated inner disk journal].
  pose proof (Forall2_length _ _ _ He) as Hlen.
  rewrite <- Hlen at 1. rewrite !take_app_length, Hj, Hm. done.
Qed.

(** Another thread's compaction between the journal append of a put and its
    update of the map: the append is not covered by the index lock, so the
    snapshot misses the entry, the truncation drops its record, and the
    entry is then in memory only. *)
Theorem concurrent_compact_loses_put ix k v ix1 ix2 :
  journal_append (Put k v) ix = (Ok tt, ix1) -> compact ix1 = (Ok tt, ix2) ->
  let ix3 := (modify (apply_state (Put k v)) ix2).2 in
  get k ix3 = Some v /\ recovers_to (disk ix3) (entries_map (inner ix)).
Proof.
  intros Ha Hc ix3. assert (inner ix1 = inner ix) as Hi.
  { unfold journal_append in Ha. by destruct (append _ _) as [[? ?]|]; [injection Ha as <- |]. }
  unfold compact in Hc. destruct (write_snapshot (inner ix1)) as [file|] eqn:Hw; [| done].
  injection Hc as <-. split; [unfold get; cbn; apply lookup_insert_eq |].
  rewrite <- Hi. apply (compacted_recovers _ _ Hw).
Qed.

(** [small] and [small_op] as checks. *)
Definition small_check (e : JournalEntry) : bool :=
  match bincode_encode e with Some p => (length p <? BUF_CAPACITY)%nat | None => true end.

Lemma small_check_ok e : small_check e = true -> small e.
Proof. unfold small_check, small. intros H p Hp. rewrite Hp in H. by apply Nat.ltb_lt. Qed.

Lemma small_ops_check ops :
  forallb (fun o => match op_entry o with Some e => small_check e | None => true end) ops = true ->
  Forall small_op ops.
Proof.
  rewrite forallb_forall, List.Forall_forall. intros H o Ho e He. apply small_check_ok.
  specialize (H o Ho). by rewrite He in H.
Qed.

End Replay.

(** ** Concrete runs *)

Definition sample_entry : IndexEntry :=
  mkIndexEntry (mkHash []) 1 None (mkOrigin "" None None None Upstream) 0 0.

(** Two puts, a touch, a compaction and a removal. *)
Definition sample_ops : list Op :=
  [OpPut (sample_key "a") sample_entry; OpPut (sample_key "b") sample_entry;
   OpTouch (sample_key "a") 7; OpCompact; OpRemove (sample_key "b")].

Section Concrete.

#[local] Instance sample_codec : Codec := bit_codec (fun _ => 0).

Definition fresh_index : Index :=
  mkIndex IndexState_default DEFAULT_COMPACT_THRESHOLD (mkDisk None (journal_file [])).

Definition sample_index : Index := foldl run_op fresh_index sample_ops.


(** A journal of one byte. *)
Lemma open_terminates_witness : is_Some (open_inner true (mkDisk None [66%Z])).
Proof. apply open_terminates. Defined.

(** A journal whose only record is torn. *)
Lemma recovery_idempotent_witness :
  let e := Remove (sample_key "a") in
  let d := mkDisk None (journal_file [] ++ take 100 (record (bits (encode e)))) in
  exists report, open_with_recovery d = Some (Ok (fresh_index, report))
    /\ journal_truncated report = true
    /\ open (disk fresh_index) = Some (Ok (fresh_index, OpenReport_default)).
Proof.
  intros e d. assert (torn (take 100 (record (bits (encode e))))) as Ht.
  { exists (bits (encode e)), 100. split; [done |]. split; apply Nat.ltb_lt; vm_compute; reflexivity. }
  pose proof (open_file true [] [] _ d IndexState_default (List.Forall2_nil _) Ht eq_refl eq_refl) as Ho.
  assert (leftover [] (take 100 (record (bits (encode e)))) = true) as Hl by reflexivity.
  rewrite Hl in Ho. exists (mkReport true (Some (length (journal_file [])))).
  split; [exact Ho |]. split; [done |]. exact (recovery_idempotent d fresh_index _ Ho).
Defined.

(** An index with one entry, which is being removed; the next record starts a
    compaction. *)
Definition one_index : Index :=
  run_op (set_compact_threshold 2 fresh_index) (OpPut (sample_key "a") sample_entry).

Lemma one_durable : exists es ps, durable one_index es ps /\ length (records ps) < 1000.
Proof.
  exists [Put (sample_key "a") sample_entry], [bits (encode (Put (sample_key "a") sample_entry)) ++ repeat 0%Z 0].
  split; [| apply Nat.ltb_lt; vm_compute; reflexivity].
  assert (one_index = appended (set_compact_threshold 2 fresh_index) (Put (sample_key "a") sample_entry)
    (bits (encode (Put (sample_key "a") sample_entry)) ++ repeat 0%Z 0)) as -> by (vm_compute; reflexivity).
  apply (appended_durable (set_compact_threshold 2 fresh_index) [] []).
  - apply fresh_durable.
  - apply small_check_ok. vm_compute. done.
  - reflexivity.
Qed.

(** The removal, torn after 100 bytes of its record: the entry is still there. *)
Lemma index_crash_safe_witness :
  let o := OpRemove (sample_key "a") in
  let d := write (Append (take 100 (record (bits (encode (Remove (sample_key "a"))) ++ repeat 0%Z 0)))) (disk one_index) in
  entries_map (inner one_index) !! sample_key "a" = Some sample_entry
  /\ entries_map (inner (run_op one_index o)) !! sample_key "a" = None
  /\ (recovers_to d (entries_map (inner one_index))
      \/ recovers_to d (entries_map (inner (run_op one_index o)))
      \/ header_torn d (entries_map (inner (run_op one_index o)))).
Proof.
  intros o d. split; [vm_compute; reflexivity |]. split; [vm_compute; reflexivity |].
  destruct one_durable as (es & ps & Hd & Hl).
  destruct (index_crash_safe one_index es ps o d Hd) as [_ H].
  - intros e [= <-]. apply small_check_ok. vm_compute. done.
  - assert (exists p : Bytes, @option_list Bytes (op_entry o ≫= bincode_encode) = [p] /\ length p = 139) as (p & E & Hp).
    { eexists. split; [reflexivity |]. vm_compute. reflexivity. }
    cbv zeta. rewrite E.
    apply readable_fits. rewrite records_app, length_app, records_cons, length_app, length_record, Hp.
    assert (2000 <= BUF_CAPACITY) by (apply Nat.leb_le; vm_compute; reflexivity).
    change (length (records [])) with 0. lia.
  - apply H. apply crash_torn.
Defined.

End Concrete.

Section Straddling.

(** Puts whose payload is padded to 8182 bytes, so that the second record
    starts two bytes before the end of the read buffer. *)
#[local] Instance wide_codec : Codec :=
  bit_codec (fun e => Z.to_nat 8182 - length (bits (encode e))).

Lemma straddling_put_lost_witness :
  exists ix ix' ix'' report,
    put (sample_key "b") sample_entry ix = (Ok tt, ix')
    /\ get (sample_key "b") ix' = Some sample_entry
    /\ open_with_recovery (disk ix') = Some (Ok (ix'', report))
    /\ journal_truncated report = true
    /\ get (sample_key "b") ix'' = None.
Proof.
  set (wide := fun e : JournalEntry => bits (encode e) ++ repeat 0%Z (Z.to_nat 8182 - length (bits (encode e)))).
  set (e := Put (sample_key "a") sample_entry).
  set (ix := mkIndex (apply_state e IndexState_default) 10000 (mkDisk None (journal_file [wide e]))).
  exists ix.
  destruct (straddling_put_lost ix [e] [wide e] (sample_key "b") sample_entry
              (wide (Put (sample_key "b") sample_entry)))
    as (ix' & ix'' & report & H1 & H2 & _ & H3 & H4 & H5 & _).
  - split; [constructor; [| constructor]; split; [done |]; apply Nat.ltb_lt; vm_compute; reflexivity |].
    split; [done |]. by exists IndexState_default.
  - vm_compute. reflexivity.
  - done.
  - apply Nat.ltb_lt. vm_compute. reflexivity.
  - vm_compute. reflexivity.
  - done.
  - exists ix', ix'', report. split_and!; try done. unfold get. rewrite H5. vm_compute. reflexivity.
Defined.

End Straddling.
End IndexFacts.
