(* ===== verification/Gc.v ===== *)
(** * barista-cache: garbage collection and the recovery scan

    Models crates/barista-cache/src/gc.rs and [scan_and_recover] of
    recovery.rs over the object store of [Cas] and the index of [Index].
    The watermarks are IEEE doubles, computed with the binary64 operations of
    the Standard Library's [SpecFloat].  The sum of the recorded sizes stays
    far below 2^64 and is an unbounded integer; the running total uses the
    code's saturating subtraction. *)

From S2P Require Import Prelude Coords Cas Journal JournalFacts Index IndexFacts.
From Stdlib Require Import Floats.SpecFloat.
From stdpp Require Import sorting.

Module Gc.
Import Coords Cas Journal Index.

(** ** Configuration *)

Record GcConfig := mkConfig {
  max_size_bytes : Z;
  high_watermark : spec_float;
  low_watermark : spec_float;
  keep_hardlinked : bool
}.

(** 0.95 and 0.80. *)
Definition GcConfig_default : GcConfig :=
  mkConfig (50 * 1024 * 1024 * 1024) (S754_finite false 8556839292003942 (-53))
    (S754_finite false 7205759403792794 (-53)) true.

(** [u64 as f64] and the saturating [f64 as u64]. *)
Definition f64_of_u64 (n : Z) : spec_float := binary_normalize 53 1024 n 0 false.

Definition u64_of_f64 (f : spec_float) : Z :=
  match f with
  | S754_finite false m e => Z.min (Z.shiftl (Z.pos m) e) U64_MAX
  | S754_infinity false => U64_MAX
  | _ => 0
  end.

Definition threshold (max : Z) (watermark : spec_float) : Z :=
  u64_of_f64 (SFmul 53 1024 (f64_of_u64 max) watermark).

Record GcStats := mkStats {
  considered : Z;
  evicted : Z;
  skipped_hardlinked : Z;
  bytes_freed : Z;
  reached_target : bool
}.

Definition GcStats_default : GcStats := mkStats 0 0 0 0 false.

Definition consider (s : GcStats) : GcStats :=
  mkStats (considered s + 1) (evicted s) (skipped_hardlinked s) (bytes_freed s) (reached_target s).
Definition skip (s : GcStats) : GcStats :=
  mkStats (considered s) (evicted s) (skipped_hardlinked s + 1) (bytes_freed s) (reached_target s).
Definition evict (size : Z) (s : GcStats) : GcStats :=
  mkStats (considered s) (evicted s + 1) (skipped_hardlinked s) (bytes_freed s + size) (reached_target s).
Definition reach (s : GcStats) : GcStats :=
  mkStats (considered s) (evicted s) (skipped_hardlinked s) (bytes_freed s) true.

(** ** The pass *)

Abbreviation Row := (IndexKey * IndexEntry)%type.

(** [sort_by_key] on [atime_unix]: a stable sort. *)
Fixpoint insert_row (x : Row) (l : list Row) : list Row :=
  match l with
  | [] => [x]
  | y :: l' => if (atime_unix x.2 <=? atime_unix y.2)%Z then x :: l else y :: insert_row x l'
  end.

Definition sort_by_atime (l : list Row) : list Row := foldr insert_row [] l.

Definition total_size (l : list Row) : Z := foldr (fun r n => size_bytes r.2 + n)%Z 0%Z l.

(** The cache: the object store and the open index. *)
Record Cache := mkCache { cas : Store; index : Index }.

Section Gc.
Context `{C : Codec}.

Definition remove_row (key : IndexKey) (c : Cache) : result IndexError unit * Cache :=
  match remove key (index c) with
  | (Ok _, ix) => (Ok tt, mkCache (cas c) ix)
  | (Err e, ix) => (Err e, mkCache (cas c) ix)
  end.

(** What the pass does with an entry. *)
Inductive Action : Type := Skip | DropRow | Evict.

Definition action (keep : bool) (entry : IndexEntry) (st : Store) : Action :=
  if keep then
    match st !! hash entry with
    | Some b => if (2 <=? nlink b)%Z then Skip else Evict
    | None => DropRow
    end
  else Evict.

(** The loop over the sorted entries: the running total and the statistics. *)
Fixpoint gc_loop (keep : bool) (low : Z) (rows : list Row) (total : Z) (stats : GcStats) (c : Cache)
    : result IndexError (Z * GcStats) * Cache :=
  match rows with
  | [] => (Ok (total, stats), c)
  | (key, entry) :: rows =>
      let stats := consider stats in
      if (total <? low)%Z then (Ok (total, reach stats), c)
      else
        match action keep entry (cas c) with
        | Skip => gc_loop keep low rows total (skip stats) c
        | DropRow =>
            match remove_row key c with
            | (Err e, c) => (Err e, c)
            | (Ok _, c) => gc_loop keep low rows (u64_sat_sub total (size_bytes entry)) stats c
            end
        | Evict =>
            match remove_row key (mkCache (delete (hash entry) (cas c)) (index c)) with
            | (Err e, c) => (Err e, c)
            | (Ok _, c) =>
                gc_loop keep low rows (u64_sat_sub total (size_bytes entry))
                  (evict (size_bytes entry) stats) c
            end
        end
  end.

Definition run_gc (config : GcConfig) (c : Cache) : result IndexError GcStats * Cache :=
  let high_bytes := threshold (max_size_bytes config) (high_watermark config) in
  let low_bytes := threshold (max_size_bytes config) (low_watermark config) in
  let rows := entries (inner (index c)) in
  let total := total_size rows in
  if (total <? high_bytes)%Z then (Ok (reach GcStats_default), c)
  else
    match gc_loop (keep_hardlinked config) low_bytes (sort_by_atime rows) total GcStats_default c with
    | (Err e, c') => (Err e, c')
    | (Ok (total', stats), c') =>
        (Ok (if (total' <? low_bytes)%Z then reach stats else stats), c')
    end.

(** ** The recovery scan *)

Record RecoveryReport := mkRecovery {
  recovery_truncated : bool;
  recovery_truncated_at : option Z;
  orphan_blobs : list (ContentHash * string * Z);
  orphan_bytes : Z;
  dangling_entries : Z
}.

(** The walk of the index: the hashes kept and the count of rows dropped.
    The result of [remove] is ignored. *)
Fixpoint scan_rows (rows : list Row) (hashes : gset ContentHash) (dangling : Z) (c : Cache)
    : gset ContentHash * Z * Cache :=
  match rows with
  | [] => (hashes, dangling, c)
  | (key, entry) :: rows =>
      if contains (hash entry) (cas c)
      then scan_rows rows ({[hash entry]} ∪ hashes) dangling c
      else scan_rows rows hashes (dangling + 1) (remove_row key c).2
  end.

(** [Cas::entries] lists the objects in directory order, here any order. *)
Definition scan_blobs (blobs : list (ContentHash * Blob)) (hashes : gset ContentHash)
    : list (ContentHash * string * Z) :=
  omap (fun hb => if decide (hb.1 ∈ hashes) then None
                  else Some (hb.1, path_for hb.1, Z.of_nat (length (data hb.2)))) blobs.

Definition scan_and_recover (c : Cache) : RecoveryReport * Cache :=
  let '(hashes, dangling, c') := scan_rows (entries (inner (index c))) ∅ 0 c in
  let orphans := scan_blobs (map_to_list (cas c')) hashes in
  (mkRecovery false None orphans (foldr (fun o n => o.2 + n)%Z 0%Z orphans) dangling, c').

(** ** Lemmas *)

Lemma compact_entries ix : entries_map (inner (compact ix).2) = entries_map (inner ix).
Proof. unfold compact. by destruct (write_snapshot (inner ix)). Qed.

Lemma maybe_compact_entries ix : entries_map (inner (maybe_compact ix).2) = entries_map (inner ix).
Proof. unfold maybe_compact. case_match; [apply compact_entries | done]. Qed.

(** A removal that journals its record drops the row, even when the
    compaction that follows fails; otherwise it changes nothing. *)
Lemma remove_entries key ix :
  entries_map (inner (remove key ix).2)
  = if is_ok (append (Remove key) (journal (disk ix))) then delete key (entries_map (inner ix))
    else entries_map (inner ix).
Proof.
  unfold remove, mbind, M_bind, journal_append, gets, modify.
  destruct (append _ _) as [[? file]|]; [| done]. cbn [is_ok].
  set (ix' := mkIndex _ _ _). pose proof (maybe_compact_entries ix') as H.
  destruct (maybe_compact ix') as [[]]; cbn in *; by rewrite H.
Qed.

Lemma remove_row_ok key c u c' :
  remove_row key c = (Ok u, c') ->
  cas c' = cas c /\ entries_map (inner (index c')) = delete key (entries_map (inner (index c))).
Proof.
  unfold remove_row. pose proof (remove_entries key (index c)) as H.
  destruct (remove key (index c)) as [[b|e] ix] eqn:E; [| done]. intros [= <- <-]. cbn in *.
  rewrite H. unfold remove, mbind, M_bind, journal_append in E.
  by destruct (append _ _) as [[? file]|].
Qed.

Definition pinned (st : Store) (v : IndexEntry) : bool :=
  match st !! hash v with Some b => (2 <=? nlink b)%Z | None => false end.

Lemma pinned_delete st v w : pinned st v = false -> pinned (delete (hash v) st) w = pinned st w.
Proof.
  unfold pinned. intros Hv. destruct (decide (hash v = hash w)) as [E|E].
  - rewrite <- E, lookup_delete_eq. by rewrite Hv.
  - by rewrite lookup_delete_ne.
Qed.

Definition loose (st : Store) (l : list Row) : list Row := filter (fun r => pinned st r.2 = false) l.

Definition drop_rows (l : list Row) (m : gmap IndexKey IndexEntry) : gmap IndexKey IndexEntry :=
  foldl (fun m r => delete r.1 m) m l.

Definition drop_blobs (l : list Row) (st : Store) : Store :=
  foldl (fun st r => delete (hash r.2) st) st l.

Lemma loose_delete st v l : pinned st v = false -> loose (delete (hash v) st) l = loose st l.
Proof.
  intros Hv. apply list_filter_iff. intros r. by rewrite pinned_delete.
Qed.

(** One entry of the loop: a pinned blob is skipped; any other entry loses
    its row, and its blob if it is there. *)
Lemma gc_loop_cons low key entry rows total stats c :
  (total <? low)%Z = false ->
  gc_loop true low ((key, entry) :: rows) total stats c
  = if pinned (cas c) entry then gc_loop true low rows total (skip (consider stats)) c
    else match remove_row key (mkCache (delete (hash entry) (cas c)) (index c)) with
         | (Err e, c') => (Err e, c')
         | (Ok _, c') =>
             gc_loop true low rows (u64_sat_sub total (size_bytes entry))
               (if bool_decide (is_Some (cas c !! hash entry)) then evict (size_bytes entry) (consider stats)
                else consider stats) c'
         end.
Proof.
  intros Hl. cbn [gc_loop]. rewrite Hl. unfold action, pinned.
  destruct (cas c !! hash entry) as [b|] eqn:E; [by destruct (2 <=? nlink b)%Z |].
  rewrite delete_id by done. by destruct c.
Qed.

Lemma gc_loop_spec low rows total stats c total' stats' c' :
  gc_loop true low rows total stats c = (Ok (total', stats'), c') ->
  Forall (fun r => 0 <= size_bytes r.2)%Z rows -> (total_size rows <= total)%Z ->
  exists pre suf, rows = pre ++ suf
    /\ entries_map (inner (index c')) = drop_rows (loose (cas c) pre) (entries_map (inner (index c)))
    /\ cas c' = drop_blobs (loose (cas c) pre) (cas c)
    /\ total' = (total - total_size (loose (cas c) pre))%Z
    /\ (suf <> [] -> (total' < low)%Z)
    /\ (reached_target stats' = true -> reached_target stats = true \/ (total' < low)%Z).
Proof.
  revert total stats c. induction rows as [|[key entry] rows IH]; intros total stats c H Hs Ht.
  { injection H as <- <- <-. exists [], []. cbn. split_and!; auto; try done. lia. }
  apply list.Forall_cons in Hs as [Hs0 Hs]. cbn in Hs0. cbn [total_size foldr snd] in Ht.
  fold (total_size rows) in Ht.
  assert (0 <= total_size rows)%Z as Hnn.
  { clear -Hs. induction Hs; cbn; [lia |]. unfold total_size in IHHs. lia. }
  destruct (total <? low)%Z eqn:Hl.
  { cbn in H. rewrite Hl in H. injection H as <- <- <-. exists [], ((key, entry) :: rows). cbn.
    apply Z.ltb_lt in Hl. split_and!; auto; try done; lia. }
  rewrite gc_loop_cons in H by done. destruct (pinned (cas c) entry) eqn:Hp.
  - destruct (IH _ _ _ H Hs ltac:(lia)) as (pre & suf & -> & Hm & Hc & Htot & Hsuf & Hre).
    assert (loose (cas c) ((key, entry) :: pre) = loose (cas c) pre) as El
      by (unfold loose; rewrite filter_cons_False; [done | cbn; congruence]).
    exists ((key, entry) :: pre), suf. by rewrite El.
  - destruct (remove_row _ _) as [[u|e] c1] eqn:Er; [| done].
    apply remove_row_ok in Er as [Hc1 Hm1]. cbn in Hc1, Hm1.
    destruct (IH _ _ _ H Hs) as (pre & suf & -> & Hm & Hc & Htot & Hsuf & Hre); [unfold u64_sat_sub; lia |].
    rewrite Hc1, loose_delete in Hm, Hc, Htot by done. rewrite Hm1 in Hm.
    assert (loose (cas c) ((key, entry) :: pre) = (key, entry) :: loose (cas c) pre) as El
      by (unfold loose; by rewrite filter_cons_True).
    exists ((key, entry) :: pre), suf. rewrite El. cbn. fold (total_size (loose (cas c) pre)).
    split_and!; try done; [rewrite Htot; unfold u64_sat_sub; lia |].
    by destruct (bool_decide _).
Qed.

Lemma lookup_drop_step `{Countable K} {V} (k k' : K) (l : list K) (m : gmap K V) :
  (if decide (k ∈ l) then None else delete k' m !! k)
  = if decide (k ∈ k' :: l) then None else m !! k.
Proof.
  destruct (decide (k ∈ l)) as [Hl|Hl]; [by rewrite decide_True by (by apply list_elem_of_further) |].
  destruct (decide (k = k')) as [->|Hne].
  - rewrite decide_True by apply list_elem_of_here. apply lookup_delete_eq.
  - rewrite decide_False by (rewrite elem_of_cons; naive_solver). by apply lookup_delete_ne.
Qed.

Lemma lookup_drop_rows l m k :
  drop_rows l m !! k = if decide (k ∈ l.*1) then None else m !! k.
Proof.
  revert m. induction l as [|[k' v] l IH]; intros m; [done |].
  unfold drop_rows in *. cbn [foldl]. rewrite IH. apply (lookup_drop_step k k').
Qed.

Lemma lookup_drop_blobs l st h :
  drop_blobs l st !! h = if decide (h ∈ (fun r => hash r.2) <$> l) then None else st !! h.
Proof.
  revert st. induction l as [|[k' v] l IH]; intros st; [done |].
  unfold drop_blobs in *. cbn [foldl]. rewrite IH. apply (lookup_drop_step h (hash v)).
Qed.

(** ** Sorting and totals *)

Lemma insert_row_perm x l : insert_row x l ≡ₚ x :: l.
Proof.
  induction l as [|y l IH]; cbn; [done |]. case_match; [done |]. rewrite IH. apply Permutation_swap.
Qed.

Lemma sort_perm l : sort_by_atime l ≡ₚ l.
Proof. induction l as [|x l IH]; cbn; [done |]. by rewrite insert_row_perm, IH. Qed.

Definition older (x y : Row) : Prop := (atime_unix x.2 <= atime_unix y.2)%Z.

Lemma insert_row_sorted x l : StronglySorted older l -> StronglySorted older (insert_row x l).
Proof.
  induction 1 as [|y l Hs IH Hy]; cbn; [repeat constructor |].
  destruct (Z.leb_spec (atime_unix x.2) (atime_unix y.2)).
  - constructor; [by constructor |]. constructor; [done |].
    eapply Forall_impl; [exact Hy |]. unfold older. cbn. lia.
  - constructor; [done |]. rewrite insert_row_perm. constructor; [unfold older; lia | done].
Qed.

Lemma sort_sorted l : StronglySorted older (sort_by_atime l).
Proof. induction l; cbn; [constructor |]. by apply insert_row_sorted. Qed.

Lemma sorted_split l l' x y :
  StronglySorted older (l ++ l') -> x ∈ l -> y ∈ l' -> older x y.
Proof.
  induction l as [|z l IH]; cbn; [set_solver |]. intros [Hs Hz]%StronglySorted_inv Hx Hy.
  apply elem_of_cons in Hx as [->|Hx]; [| auto].
  rewrite list.Forall_forall in Hz. apply Hz. set_solver.
Qed.

#[global] Instance total_size_perm : Proper (Permutation ==> eq) total_size.
Proof. intros l l' H. unfold total_size. induction H; cbn; lia. Qed.

Definition map_total (m : gmap IndexKey IndexEntry) : Z := total_size (map_to_list m).

Lemma map_total_delete k v m : m !! k = Some v -> map_total m = (size_bytes v + map_total (delete k m))%Z.
Proof. intros H. unfold map_total. by rewrite <- (map_to_list_delete m k v H). Qed.

Lemma map_total_drop l m :
  NoDup l.*1 -> (forall k v, (k, v) ∈ l -> m !! k = Some v) ->
  map_total (drop_rows l m) = (map_total m - total_size l)%Z.
Proof.
  revert m. induction l as [|[k v] l IH]; intros m Hn Hl; cbn; [lia |].
  apply list.NoDup_cons in Hn as [Hk Hn]. unfold drop_rows in *. cbn.
  rewrite IH; [| done |].
  - rewrite (map_total_delete k v m) by (apply Hl; set_solver). unfold total_size. lia.
  - intros k' v' Hin. rewrite lookup_delete_ne; [apply Hl; set_solver |].
    intros <-. apply Hk. apply list_elem_of_fmap. by exists (k, v').
Qed.

Lemma entries_perm st : entries st ≡ₚ map_to_list (entries_map st).
Proof. apply merge_sort_Permutation. Qed.

(** The rows that survive a pass over [pre] are those of the rest and the
    pinned ones. *)
Lemma survives st pre suf m k v :
  NoDup (pre ++ suf).*1 -> (forall r, r ∈ pre ++ suf <-> m !! r.1 = Some r.2) ->
  drop_rows (loose st pre) m !! k = Some v <->
  m !! k = Some v /\ ((k, v) ∈ suf \/ pinned st v = true).
Proof.
  intros Hn Hm. rewrite lookup_drop_rows. rewrite fmap_app in Hn.
  apply list.NoDup_app in Hn as (Hn1 & Hdisj & _).
  assert (Huniq : forall v', (k, v') ∈ loose st pre -> m !! k = Some v' /\ pinned st v' = false
                             /\ (k, v') ∈ pre).
  { intros v' [Hp Hin]%list_elem_of_filter. split_and!; try done. apply (Hm (k, v')). set_solver. }
  case_decide as Hd.
  - split; [done |]. intros [Hk Hs]. exfalso. apply list_elem_of_fmap in Hd as ([k' v'] & -> & Hin).
    cbn in *. destruct (Huniq _ Hin) as (Hk' & Hp & Hpre). assert (v' = v) as -> by congruence.
    destruct Hs as [Hs|Hs]; [| congruence].
    apply (Hdisj k'); apply list_elem_of_fmap; by exists (k', v).
  - split; [| by intros [? _]]. intros Hk. split; [done |].
    destruct (pinned st v) eqn:Hp; [by right | left].
    assert ((k, v) ∈ pre ++ suf) as [Hin|Hin]%elem_of_app by (by apply Hm); [| done].
    destruct Hd. apply list_elem_of_fmap. exists (k, v). split; [done |].
    by apply list_elem_of_filter.
Qed.

Lemma sorted_rows st :
  let rows := sort_by_atime (entries st) in
  NoDup rows.*1 /\ (forall r, r ∈ rows <-> entries_map st !! r.1 = Some r.2)
  /\ total_size rows = map_total (entries_map st).
Proof.
  intros rows. assert (rows ≡ₚ map_to_list (entries_map st)) as Hp
    by (unfold rows; by rewrite sort_perm, entries_perm).
  split_and!.
  - rewrite Hp. apply NoDup_fst_map_to_list.
  - intros [k v]. rewrite Hp. apply elem_of_map_to_list.
  - by rewrite Hp.
Qed.

Lemma loose_incl st l r : r ∈ loose st l -> r ∈ l /\ pinned st r.2 = false.
Proof. by intros [? ?]%list_elem_of_filter. Qed.

Lemma loose_nodup st l : NoDup l.*1 -> NoDup (loose st l).*1.
Proof. apply nodup_fmap_filter. Qed.

(** Entries have non-negative sizes, as [u64]s do. *)
Definition sizes_ok (m : gmap IndexKey IndexEntry) : Prop :=
  forall k v, m !! k = Some v -> (0 <= size_bytes v)%Z.

(** What a pass does, in terms of a prefix of the entries in age order. *)
Lemma run_gc_prefix config c stats c' :
  keep_hardlinked config = true -> sizes_ok (entries_map (inner (index c))) ->
  let m := entries_map (inner (index c)) in
  let low := threshold (max_size_bytes config) (low_watermark config) in
  (threshold (max_size_bytes config) (high_watermark config) <= map_total m)%Z ->
  run_gc config c = (Ok stats, c') ->
  exists pre suf, sort_by_atime (entries (inner (index c))) = pre ++ suf
    /\ entries_map (inner (index c')) = drop_rows (loose (cas c) pre) m
    /\ cas c' = drop_blobs (loose (cas c) pre) (cas c)
    /\ (suf <> [] -> map_total (entries_map (inner (index c'))) < low)%Z
    /\ (reached_target stats = true <-> map_total (entries_map (inner (index c'))) < low)%Z.
Proof.
  intros Hkeep Hs m low Hhigh. unfold run_gc. fold low.
  destruct (sorted_rows (inner (index c))) as (Hn & Hin & Htot). fold m in Hin, Htot.
  assert (total_size (entries (inner (index c))) = map_total m) as Ht0 by (by rewrite <- Htot, sort_perm).
  rewrite Ht0, Hkeep.
  destruct (Z.ltb_spec (map_total m) (threshold (max_size_bytes config) (high_watermark config))); [lia |].
  destruct (gc_loop _ _ _ _ _ _) as [[[total' stats']|e] c1] eqn:E; [| done].
  intros [= <- <-]. apply gc_loop_spec in E as (pre & suf & Hsplit & Hm & Hc & Ht & Hsuf & Hre).
  - assert (total' = map_total (entries_map (inner (index c1)))) as Htot'.
    { rewrite Hm, Ht. symmetry. rewrite Hsplit in Hn, Hin. apply map_total_drop.
      - apply loose_nodup. rewrite fmap_app in Hn. by apply list.NoDup_app in Hn as [? _].
      - intros k v [Hk _]%loose_incl. apply (Hin (k, v)). set_solver. }
    exists pre, suf. do 3 (split; [done |]). rewrite <- Htot'. split; [done |].
    destruct (Z.ltb_spec total' low); split; try done; try lia. intros Hr. by destruct (Hre Hr).
  - rewrite list.Forall_forall. intros [k v] Hk. apply (Hs k). by apply (Hin (k, v)).
  - lia.
Qed.

(** C17 [gc.rs: run_gc] Eviction.  With [keep_hardlinked], a pass that
    succeeds only removes rows; keeps every row whose blob is hard-linked;
    removes rows oldest access first, so that a row that is neither kept for
    its links nor removed is at least as recent as any removed one; deletes
    the blobs of the rows it removes and no other; reports [reached_target]
    exactly when the cache started below the high watermark or the sizes of
    the remaining rows are below the low one; and stops short of the target
    only when every remaining row is hard-linked. *)
Theorem run_gc_lru config c stats c' :
  keep_hardlinked config = true -> sizes_ok (entries_map (inner (index c))) ->
  run_gc config c = (Ok stats, c') ->
  let m := entries_map (inner (index c)) in
  let m' := entries_map (inner (index c')) in
  let removed k v := m !! k = Some v /\ m' !! k = None in
  (forall k v, m' !! k = Some v -> m !! k = Some v)
  /\ (forall k v, m !! k = Some v -> pinned (cas c) v = true -> m' !! k = Some v)
  /\ (forall k v k2 v2, removed k v -> m' !! k2 = Some v2 -> pinned (cas c) v2 = false ->
      (atime_unix v <= atime_unix v2)%Z)
  /\ (forall k v, removed k v -> cas c' !! hash v = None)
  /\ (forall h, (forall k v, removed k v -> hash v <> h) -> cas c' !! h = cas c !! h)
  /\ (reached_target stats = true <->
      map_total m < threshold (max_size_bytes config) (high_watermark config)
      \/ map_total m' < threshold (max_size_bytes config) (low_watermark config))%Z
  /\ (reached_target stats = false -> forall k v, m' !! k = Some v -> pinned (cas c) v = true).
Proof.
  intros Hkeep Hs Hrun m m' removed.
  destruct (sorted_rows (inner (index c))) as (Hn & Hin & Htot). fold m in Hin, Htot.
  destruct (Z.ltb_spec (map_total m) (threshold (max_size_bytes config) (high_watermark config))) as [Hlt|Hge].
  { assert (c' = c /\ reached_target stats = true) as [-> Hr].
    { unfold run_gc in Hrun. rewrite <- (sort_perm (entries _)), Htot in Hrun.
      apply Z.ltb_lt in Hlt. rewrite Hlt in Hrun. by injection Hrun as <- <-. }
    unfold removed, m'. fold m. split_and!; try done.
    - intros k v k2 v2 [? ?]; congruence.
    - intros k v [? ?]; congruence.
    - by split; auto.
    - congruence. }
  destruct (run_gc_prefix config c stats c' Hkeep Hs Hge Hrun) as (pre & suf & Hsplit & Hm & Hc & Hsuf & Hre).
  fold m m' in Hm, Hsuf, Hre. rewrite Hsplit in Hn, Hin.
  pose proof (fun k v => survives (cas c) pre suf m k v Hn Hin) as Hsurv. rewrite <- Hm in Hsurv.
  assert (Hrem : forall k v, removed k v -> (k, v) ∈ loose (cas c) pre).
  { intros k v [Hk Hk']. apply list_elem_of_filter. cbn. apply (Hin (k, v)) in Hk as Hkin.
    destruct (pinned (cas c) v) eqn:Hp; [by rewrite (proj2 (Hsurv k v)) in Hk' by auto |]. split; [done |].
    apply elem_of_app in Hkin as [Hkin|Hkin]; [done |]. by rewrite (proj2 (Hsurv k v)) in Hk' by auto. }
  split_and!.
  - intros k v Hk. by apply Hsurv.
  - intros k v Hk Hp. apply Hsurv. auto.
  - intros k v k2 v2 Hk Hk2 Hp. apply Hrem, loose_incl in Hk as [Hk _].
    apply Hsurv in Hk2 as [_ [Hk2|Hk2]]; [| congruence].
    apply (sorted_split pre suf (k, v) (k2, v2)); try done. rewrite <- Hsplit. apply sort_sorted.
  - intros k v Hk%Hrem. rewrite Hc, lookup_drop_blobs, decide_True; [done |].
    apply list_elem_of_fmap. by exists (k, v).
  - intros h Hh. rewrite Hc, lookup_drop_blobs, decide_False; [done |].
    intros ([k v] & -> & Hin')%list_elem_of_fmap. apply (Hh k v); [| done].
    assert (m' !! k = None) by (rewrite Hm, lookup_drop_rows, decide_True; [done |];
      apply list_elem_of_fmap; by exists (k, v)).
    split; [| done]. apply (Hin (k, v)). apply loose_incl in Hin' as [? _]. set_solver.
  - rewrite Hre. split; [auto |]. intros [?|?]; [lia | done].
  - intros Hr k v Hk. apply Hsurv in Hk as [_ [Hk|Hk]]; [| done]. exfalso.
    assert (reached_target stats = true); [| congruence]. apply Hre, Hsuf. intros ->. set_solver.
Qed.

(** ** The recovery scan *)

(** The record of a removal can be written. *)
Definition removable (key : IndexKey) : bool :=
  match bincode_encode (Remove key) with
  | Some p => (Z.of_nat (length p) <=? U32_MAX)%Z
  | None => false
  end.

(** A removal whose record cannot be written fails and changes nothing. *)
Lemma remove_row_entries key c :
  cas (remove_row key c).2 = cas c
  /\ entries_map (inner (index (remove_row key c).2))
     = (if removable key then delete key (entries_map (inner (index c))) else entries_map (inner (index c))).
Proof.
  pose proof (remove_entries key (index c)) as H. unfold removable.
  unfold append, encode_payload, ok_or in H. destruct (bincode_encode (Remove key)) as [p|]; cbn in H.
  - destruct (Z.ltb_spec U32_MAX (Z.of_nat (length p))), (Z.leb_spec (Z.of_nat (length p)) U32_MAX); try lia; cbn in H;
      unfold remove_row; destruct (remove key (index c)) as [[b|e] ix]; cbn in *; by rewrite H.
  - unfold remove_row; destruct (remove key (index c)) as [[b|e] ix]; cbn in *; by rewrite H.
Qed.

Definition present (st : Store) (l : list Row) : list Row := filter (fun r => contains (hash r.2) st = true) l.
Definition dangling (st : Store) (l : list Row) : list Row := filter (fun r => contains (hash r.2) st = false) l.

Lemma scan_rows_spec rows hashes n c hashes' n' c' :
  scan_rows rows hashes n c = (hashes', n', c') ->
  cas c' = cas c
  /\ entries_map (inner (index c'))
     = drop_rows (filter (fun r => removable r.1 = true) (dangling (cas c) rows)) (entries_map (inner (index c)))
  /\ n' = (n + Z.of_nat (length (dangling (cas c) rows)))%Z
  /\ (forall h, h ∈ hashes' <-> h ∈ hashes \/ exists r, r ∈ present (cas c) rows /\ hash r.2 = h).
Proof.
  revert hashes n c. induction rows as [|[k v] rows IH]; intros hashes n c H.
  { injection H as <- <- <-. cbn. split_and!; try done; [lia |]. intros h. set_solver. }
  cbn in H. unfold dangling, present. rewrite !filter_cons. cbn.
  destruct (contains (hash v) (cas c)) eqn:Hc; repeat case_decide; try done.
  - destruct (IH _ _ _ H) as (G1 & G2 & G3 & G4). split_and!; try done.
    intros h. rewrite G4. setoid_rewrite elem_of_cons. set_solver.
  - destruct (remove_row_entries k c) as [E1 E2].
    destruct (IH _ _ _ H) as (G1 & G2 & G3 & G4). rewrite E1 in *. rewrite E2 in G2.
    rewrite filter_cons. cbn. split_and!; try done; [| rewrite G3; unfold dangling; cbn [length]; lia].
    rewrite G2. unfold dangling. case_decide as Hr; cbn in Hr; destruct (removable k); done.
Qed.

(** C18 [recovery.rs: scan_and_recover] The scan, whatever cache it starts
    from.  Afterwards the store is unchanged; the rows that are left are those
    whose blob is in the store, and the dangling ones whose removal failed (its
    record cannot be written: the result of [remove] is ignored), so none
    dangles when the removals succeed; the count is the number of dangling
    rows, those that could not be removed included; and the orphans reported
    are exactly the blobs that no row refers to, with their sizes and their
    total. *)
Theorem scan_and_recover_exact c report c' :
  scan_and_recover c = (report, c') ->
  let m := entries_map (inner (index c)) in
  let m' := entries_map (inner (index c')) in
  let there (kv : IndexKey * IndexEntry) := contains (hash kv.2) (cas c) in
  cas c' = cas c
  /\ (forall k v, m' !! k = Some v <-> m !! k = Some v /\ (there (k, v) = true \/ removable k = false))
  /\ dangling_entries report = Z.of_nat (size (filter (fun kv => there kv = false) m))
  /\ (forall h path n, (h, path, n) ∈ orphan_blobs report <->
      path = path_for h /\ (exists b, cas c !! h = Some b /\ n = Z.of_nat (length (data b)))
      /\ forall k v, m' !! k = Some v -> hash v <> h)
  /\ orphan_bytes report = foldr (fun o n => o.2 + n)%Z 0%Z (orphan_blobs report).
Proof.
  intros Hscan m m' there. unfold scan_and_recover in Hscan.
  destruct (scan_rows _ _ _ _) as [[hashes n] c1] eqn:E. injection Hscan as <- Hc1. subst c1.
  assert (Hin : forall r, r ∈ entries (inner (index c)) <-> m !! r.1 = Some r.2).
  { intros [k v]. rewrite entries_perm. apply elem_of_map_to_list. }
  destruct (scan_rows_spec _ _ _ _ _ _ _ E) as (Hcas & Hm & Hcount & Hh).
  fold m m' in Hm. rewrite Hcas.
  assert (Hm' : forall k v, m' !! k = Some v <-> m !! k = Some v /\ (there (k, v) = true \/ removable k = false)).
  { intros k v. rewrite Hm, lookup_drop_rows. case_decide as Hd.
    - split; [done |]. intros [Hk Hv]. exfalso.
      apply list_elem_of_fmap in Hd as ([k' v'] & -> & [Hr [Hc Hi%Hin]%list_elem_of_filter]%list_elem_of_filter).
      cbn in *. assert (v' = v) as -> by congruence. unfold there in Hv. cbn in Hv. destruct Hv; congruence.
    - split; [| by intros [? _]]. intros Hk. split; [done |].
      destruct (there (k, v)) eqn:Hv; [by left |]. right. destruct (removable k) eqn:Hr; [| done].
      destruct Hd. apply list_elem_of_fmap. exists (k, v). split; [done |].
      apply list_elem_of_filter. split; [done |]. apply list_elem_of_filter. split; [done |]. by apply (Hin (k, v)). }
  split; [done |]. split; [exact Hm' |]. split.
  { cbn [dangling_entries]. rewrite Hcount, Z.add_0_l. f_equal. unfold dangling. rewrite entries_perm.
    rewrite <- length_map_to_list, map_filter_alt, map_to_list_to_map; [done |].
    apply nodup_fmap_filter, NoDup_fst_map_to_list. }
  split; [| done]. intros h path sz. cbn [orphan_blobs]. unfold scan_blobs. rewrite list_elem_of_omap.
  assert (Href : is_Some (cas c !! h) -> h ∈ hashes <-> exists k v, m' !! k = Some v /\ hash v = h).
  { intros Hst. rewrite Hh. split.
    - intros [?|([k v] & [Hc Hi%Hin]%list_elem_of_filter & <-)]; [set_solver |]. exists k, v.
      split; [apply Hm'; split; [done | by left] | done].
    - intros (k & v & [Hk _]%Hm' & <-). right. exists (k, v). split; [| done].
      apply list_elem_of_filter. split; [by apply bool_decide_eq_true | by apply (Hin (k, v))]. }
  split.
  - intros ([h' b] & Hb%elem_of_map_to_list & Hd). cbn in Hd. case_decide as Hn; [done |].
    injection Hd as -> <- <-. split_and!; eauto.
    intros k v Hk Hv. apply Hn, Href; eauto.
  - intros (-> & (b & Hb & ->) & Hn). exists (h, b). split; [by apply elem_of_map_to_list |].
    cbn. rewrite decide_False; [done |]. intros (k & v & Hk & Hv)%Href; [by apply (Hn k v) | by eauto].
Qed.

End Gc.

(** ** Concrete caches *)

Section Concrete.

#[local] Instance gc_codec : Codec := bit_codec (fun _ => 0).

Definition row (a : string) (h : ContentHash) (size atime : Z) : Row :=
  (sample_key a, mkIndexEntry h size None (mkOrigin "" None None None Upstream) atime atime).

Definition cache_of (st : Store) (rows : list Row) : Cache :=
  mkCache st (mkIndex (mkState (list_to_map rows) 0) DEFAULT_COMPACT_THRESHOLD
                (mkDisk None (write_header JOURNAL_VERSION))).

Definition cap_1000 : GcConfig :=
  mkConfig 1000 (high_watermark GcConfig_default) (low_watermark GcConfig_default) true.

Definition h1 : ContentHash := mkHash [1%Z].
Definition h2 : ContentHash := mkHash [2%Z].

(** An old hard-linked row of 600 bytes and a newer one of 400. *)
Definition pinned_cache : Cache :=
  cache_of {[h1 := mkBlob [] 2; h2 := mkBlob [] 1]} [row "old" h1 600 1; row "new" h2 400 2].

Lemma run_gc_lru_witness :
  exists stats c', run_gc cap_1000 pinned_cache = (Ok stats, c')
    /\ entries_map (inner (index c')) !! sample_key "old" = Some (row "old" h1 600 1).2
    /\ reached_target stats = true.
Proof.
  assert (Hok : match (run_gc cap_1000 pinned_cache).1 with Ok s => reached_target s | Err _ => false end = true)
    by (vm_compute; reflexivity).
  destruct (run_gc cap_1000 pinned_cache) as [[stats|e] c'] eqn:E; cbn in Hok; [| discriminate Hok].
  destruct (run_gc_lru cap_1000 pinned_cache stats c') as (_ & Hp & _).
  - reflexivity.
  - intros k v Hk. cbn in Hk. apply lookup_insert_Some in Hk as [[_ <-]|[_ Hk]]; [done |].
    apply lookup_insert_Some in Hk as [[_ <-]|[_ Hk]]; [done |]. discriminate Hk.
  - exact E.
  - exists stats, c'. split; [reflexivity |]. split; [apply Hp; vm_compute; reflexivity | exact Hok].
Defined.

(** Two rows of one blob: an old one and a newer one. *)
Definition shared_cache : Cache :=
  cache_of {[h1 := mkBlob [] 1]} [row "old" h1 600 1; row "new" h1 400 2].

(** A pass over two rows that share a blob evicts the old row and deletes
    the blob, which leaves the newer row, still in the index, without it. *)
Theorem gc_dangles_shared_blob :
  let c' := (run_gc cap_1000 shared_cache).2 in
  contains h1 (cas shared_cache) = true
  /\ entries_map (inner (index c')) !! sample_key "new" = Some (row "new" h1 400 2).2
  /\ contains h1 (cas c') = false.
Proof. vm_compute. done. Qed.

Lemma scan_and_recover_exact_witness :
  exists report c', scan_and_recover (cache_of {[h2 := mkBlob [7%Z] 1]} [row "gone" h1 1 1]) = (report, c')
    /\ entries_map (inner (index c')) !! sample_key "gone" = None
    /\ (h2, path_for h2, 1%Z) ∈ orphan_blobs report.
Proof.
  set (c := cache_of _ _). destruct (scan_and_recover c) as [report c'] eqn:E. exists report, c'.
  destruct (scan_and_recover_exact c report c' E) as (_ & Hm & _ & Ho & _).
  assert (Hno : forall k v, entries_map (inner (index c')) !! k = Some v -> False).
  { intros k v [Hk Hc]%Hm. cbn in Hk. apply lookup_insert_Some in Hk as [[<- <-]|[_ Hk]]; [| discriminate Hk].
    vm_compute in Hc. destruct Hc as [Hc|Hc]; discriminate Hc. }
  split; [done |]. split.
  - destruct (_ !! sample_key "gone") as [v|] eqn:Hv; [exfalso; by eapply Hno | done].
  - apply Ho. split; [done |]. split.
    + exists (mkBlob [7%Z] 1). split; [apply lookup_singleton_eq | done].
    + intros k v Hk. exfalso. by eapply Hno.
Defined.

End Concrete.

(** The thresholds of the tests: 950 and 800 for a cap of 1000. *)
Example thresholds_1000 :
  threshold 1000 (high_watermark GcConfig_default) = 950%Z
  /\ threshold 1000 (low_watermark GcConfig_default) = 800%Z.
Proof. vm_compute. done. Qed.

End Gc.
