(* ===== verification/Fetch.v ===== *)
(** * barista-cache: downloads and their checksums

    Models crates/barista-cache/src/fetch.rs (the request, its outcome, the
    repository layout) and checksum.rs (sidecar files and verification).  The
    HTTP client is the record [Http] and SHA-1 the class [Sha1]; the
    semaphore that bounds concurrent requests does not change their
    outcome. *)

From S2P Require Import Prelude Cas.

Module Fetch.
Import Cas.

(** ** Text of the standard library *)

Definition between (lo hi : N) (a : ascii) : bool := ((lo <=? code a) && (code a <=? hi))%N.

(** The second byte of a three- or four-byte character. *)
Definition second_of (a b : ascii) : bool :=
  let x := code a in
  if (x =? 224)%N then between 160 191 b
  else if (x =? 237)%N then between 128 159 b
  else if (x =? 240)%N then between 144 191 b
  else if (x =? 244)%N then between 128 143 b
  else is_continuation b.

(** The next chunk of [Utf8Chunks]: whether it is a character, and its
    length. *)
Definition chunk (l : list ascii) : bool * nat :=
  match l with
  | [] => (true, 0)
  | a :: l1 =>
      if is_ascii a then (true, 1)
      else
        match l1 with
        | b :: l2 =>
            if between 194 223 a then if is_continuation b then (true, 2) else (false, 1)
            else if between 224 244 a && second_of a b then
              match l2 with
              | c :: l3 =>
                  if is_continuation c then
                    if between 224 239 a then (true, 3)
                    else match l3 with
                         | d :: _ => if is_continuation d then (true, 4) else (false, 3)
                         | [] => (false, 3)
                         end
                  else (false, 2)
              | [] => (false, 2)
              end
            else (false, 1)
        | [] => (false, 1)
        end
  end.

Definition REPLACEMENT : list ascii := ["239"; "191"; "189"]%char.

Fixpoint lossy_bytes (fuel : nat) (l : list ascii) : list ascii :=
  match fuel with
  | O => l
  | S fuel' =>
      match l with
      | [] => []
      | _ :: _ =>
          let '(ok, n) := chunk l in
          (if ok then take n l else REPLACEMENT) ++ lossy_bytes fuel' (drop n l)
      end
  end.

(** [String::from_utf8_lossy]. *)
Definition from_utf8_lossy (b : Bytes) : string :=
  let l := (fun x => ascii_of_N (Z.to_N x)) <$> b in
  string_of_list_ascii (lossy_bytes (length l) l).

(** The bytes before the first white space. *)
Fixpoint token (l : list ascii) : list ascii :=
  match l with
  | [] => []
  | a :: l' => if ws_len l =? 0 then a :: token l' else []
  end.

(** [split_whitespace().next()]. *)
Definition first_token (s : string) : option string :=
  let t := trim s in
  if is_empty t then None else Some (string_of_list_ascii (token (list_ascii_of_string t))).

(** ** Checksums *)

Inductive Algorithm : Type := Sha1A | Sha256A.

Definition hex_len (a : Algorithm) : nat := match a with Sha1A => 40 | Sha256A => 64 end.

Record ChecksumExpected := mkExpected { algorithm : Algorithm; hex : string }.

Inductive FormatDetail : Type :=
  | WrongHexLength (a : Algorithm) (got : nat)
  | NonHex
  | NoLines.

Inductive ChecksumError : Type :=
  | Format (detail : FormatDetail)
  | Mismatch (expected : ChecksumExpected) (computed : string).

Definition is_ascii_hexdigit (a : ascii) : bool :=
  is_ascii_digit a || between 65 70 a || between 97 102 a.

(** The loop of [ChecksumExpected::parse] over the lines; since each line is
    trimmed, it makes no difference that [lines] drops a carriage return. *)
Fixpoint parse_lines (a : Algorithm) (lines : list string) : result ChecksumError ChecksumExpected :=
  match lines with
  | [] => Err (Format NoLines)
  | raw :: lines' =>
      let line := trim raw in
      if is_empty line || str_starts "#" line then parse_lines a lines'
      else
        let h := default "" (first_token line) in
        if negb (String.length h =? hex_len a) then Err (Format (WrongHexLength a (String.length h)))
        else if negb (str_forallb is_ascii_hexdigit h) then Err (Format NonHex)
        else Ok (mkExpected a (to_ascii_lowercase h))
  end.

Definition LF : ascii := "010".

Definition parse (a : Algorithm) (raw : string) : result ChecksumError ChecksumExpected :=
  parse_lines a (str_split LF raw).

Inductive Verification : Type :=
  | Sha256Verified (hex : string)
  | Sha1Verified (hex : string)
  | Unverified.

(** SHA-1. *)
Class Sha1 := sha1 : Bytes -> Bytes.

Section Verify.
Context `{D : Digest} `{S1 : Sha1}.

Definition hex_sha256 (bytes : Bytes) : string := to_hex (sha256 bytes).
Definition hex_sha1 (bytes : Bytes) : string := encode_hex (sha1 bytes).

(** One sidecar: absent, matching, or an error. *)
Definition check_sidecar (a : Algorithm) (computed : string) (sidecar : option string)
    : result ChecksumError bool :=
  match sidecar with
  | Some raw =>
      expected ← parse a raw;
      if String.eqb (hex expected) computed then Ok true else Err (Mismatch expected computed)
  | None => Ok false
  end.

Definition verify (bytes : Bytes) (sha256_sidecar sha1_sidecar : option string)
    : result ChecksumError Verification :=
  sha256_ok ← check_sidecar Sha256A (hex_sha256 bytes) sha256_sidecar;
  sha1_ok ← check_sidecar Sha1A (hex_sha1 bytes) sha1_sidecar;
  Ok (if (sha256_ok : bool) then Sha256Verified (hex_sha256 bytes)
      else if (sha1_ok : bool) then Sha1Verified (hex_sha1 bytes)
      else Unverified).

End Verify.

(** ** Requests *)

Inductive SendError : Type := SendTimeout | SendFailed (source : string).

Record Response := mkResponse {
  status : Z;
  header : string -> option string;
  body : result SendError Bytes
}.

(** The HTTP client: the answer to a request for a URL with headers. *)
Record Http := mkHttp {
  send : string -> list (string * string) -> result SendError Response;
  valid_header : string -> bool
}.

Record ConditionalHeaders := mkCond { c_etag : option string; c_last_modified : option string }.

Definition no_conditions : ConditionalHeaders := mkCond None None.

Inductive FetchError : Type :=
  | TransportFailed (url source : string)
  | StatusError (url : string) (status : Z)
  | Timeout (url : string) (seconds : Z).

Inductive FetchOutcome : Type :=
  | Fresh (bytes : Bytes) (etag last_modified content_type : option string)
  | NotModified.

Record FetchConfig := mkFetchConfig { request_timeout_secs : Z; default_upstream : string }.

Section Fetcher.
Variable http : Http.
Variable config : FetchConfig.

Definition send_error (url : string) (e : SendError) : FetchError :=
  match e with
  | SendTimeout => Timeout url (request_timeout_secs config)
  | SendFailed source => TransportFailed url source
  end.

Definition conditional (name : string) (v : option string) : list (string * string) :=
  match v with
  | Some v => if valid_header http v then [(name, v)] else []
  | None => []
  end.

Definition fetch (url : string) (cond : ConditionalHeaders) : result FetchError FetchOutcome :=
  let headers := conditional "if-none-match" (c_etag cond)
                 ++ conditional "if-modified-since" (c_last_modified cond) in
  resp ← map_err (send_error url) (send http url headers);
  if (status resp =? 304)%Z then Ok NotModified
  else if negb ((200 <=? status resp) && (status resp <=? 299))%Z
  then Err (StatusError url (status resp))
  else
    bytes ← map_err (send_error url) (body resp);
    Ok (Fresh bytes (header resp "etag") (header resp "last-modified") (header resp "content-type")).

(** [trim_end_matches('/')] and [replace('.', "/")]. *)
Fixpoint trim_end_slashes (s : string) : string :=
  match s with
  | EmptyString => EmptyString
  | String a s' =>
      match trim_end_slashes s' with
      | EmptyString => if Ascii.eqb a "/" then EmptyString else String a EmptyString
      | t => String a t
      end
  end.

Definition group_path (group : string) : string :=
  str_map (fun a => if Ascii.eqb a "." then "/"%char else a) group.

Definition base_url (upstream : option string) : string :=
  trim_end_slashes (default (default_upstream config) upstream).

Definition url_for_artifact (upstream : option string) (group artifact version : string)
    (classifier : option string) (extension : string) : string :=
  let suffix := match classifier with Some c => "-" +:+ c | None => "" end in
  base_url upstream +:+ "/" +:+ group_path group +:+ "/" +:+ artifact +:+ "/" +:+ version +:+ "/"
  +:+ artifact +:+ "-" +:+ version +:+ suffix +:+ "." +:+ extension.

Definition url_for_metadata (upstream : option string) (group artifact : string) : string :=
  base_url upstream +:+ "/" +:+ group_path group +:+ "/" +:+ artifact +:+ "/maven-metadata.xml".

Definition url_for_sidecar (artifact_url algorithm : string) : string :=
  artifact_url +:+ "." +:+ algorithm.

End Fetcher.
End Fetch.
