(* ===== verification/CacheSource.v ===== *)
(** * barista-cache: the cache-backed metadata source

    Models crates/barista-cache/src/source.rs over the store of [Cas], the
    index of [Index], the requests of [Fetch] and the readers of [PomXml] and
    [MetadataXml].
    The shared state is a [World]; an operation takes it and returns it, also
    when it fails.  Other tasks may change the state at every suspension
    point: [waiting] is what they do until the lock of the coordinate is
    granted, [others] what they do while it is held.  The client of the remote cache, the clock and the
    cross-process lock are fields of [Setup]; the texts of foreign errors are
    the class [ErrorText]. *)

From S2P Require Import Prelude Version Coords Cas Journal Index Pom Source Xml PomXml MetadataXml Fetch.

Module CacheSource.
Import Coords Cas Journal Source Fetch.

Definition METADATA_SENTINEL_VERSION : string := "<metadata>".

Definition snapshot_meta_version (version : string) : string := "<snapshot-metadata>:" +:+ version.

(** [str::replace]: every occurrence, from the left; one unit of fuel for
    each byte. *)
Fixpoint replace_loop (fuel : nat) (pat by_ s : string) : string :=
  match fuel with
  | O => s
  | S fuel' =>
      match str_strip_prefix pat s with
      | Some rest => by_ +:+ replace_loop fuel' pat by_ rest
      | None => match s with
                | EmptyString => EmptyString
                | String a s' => String a (replace_loop fuel' pat by_ s')
                end
      end
  end.

Definition replace (pat by_ s : string) : string := replace_loop (String.length s) pat by_ s.

(** ** The remote cache *)

Inductive RoasteryOutcome : Type := Hit | Miss | Unreachable | AuthFailed | DigestMismatch.

Inductive PushOutcome : Type := Pushed | Failed | SkippedRoasterySource.

(** The cases of the client's error that the code tells apart. *)
Inductive ClientError : Type :=
  | ClientNotFound
  | ClientAuth (code message : string)
  | ServerRejected (code message : string)
  | ClientNetwork | ClientTimeout | ClientTls
  | ClientOther.

(** A blob is announced with its size; its body may fail to arrive. *)
Record RoasteryClient := mkClient {
  get_blob_with_coords : ContentHash -> string -> result ClientError (Z * option Bytes);
  put_blob : ContentHash -> Bytes -> Z -> result ClientError unit
}.

(** [Digest::from_hex] of the client: lower case only. *)
Definition is_lower_hex (a : ascii) : bool := is_ascii_digit a || between 97 102 a.

Definition digest_from_hex (s : string) : option ContentHash :=
  if (String.length s =? 64) && str_forallb is_lower_hex s then
    match from_hex s with Ok h => Some h | Err _ => None end
  else None.

(** ** State *)

Record CoordVersionKey := mkLockKey { lk_coords : Coords; lk_version : string }.

(** The store, the index, the outcomes handed to the observers, and the URLs
    requested so far. *)
Record World := mkWorld {
  store : Store;
  index : Index.Index;
  outcomes : list RoasteryOutcome;
  pushes : list PushOutcome;
  requests : list string
}.

Inductive LockError : Type := LockIo | LockTimeout.

(** [put_fails]: the bytes cannot be written to the store.  [allocates]:
    [Vec::with_capacity] of that many bytes returns; it panics above
    [isize::MAX]. *)
Record Setup := mkSetup {
  http : Http;
  fetch_config : FetchConfig;
  roastery : option RoasteryClient;
  roastery_url : option string;
  roastery_push : bool;
  acquire : CoordVersionKey -> result LockError unit;
  now_unix : Z;
  put_fails : Bytes -> bool;
  allocates : Z -> bool;
  waiting : World -> World;
  others : World -> World
}.

(** The builders: a handle on the same state with the remote cache. *)
Definition with_roastery (client : RoasteryClient) (url : string) (s : Setup) : Setup :=
  mkSetup (http s) (fetch_config s) (Some client) (Some url) (roastery_push s) (acquire s)
    (now_unix s) (put_fails s) (allocates s) (waiting s) (others s).

Definition with_roastery_push (enabled : bool) (s : Setup) : Setup :=
  mkSetup (http s) (fetch_config s) (roastery s) (roastery_url s) enabled (acquire s)
    (now_unix s) (put_fails s) (allocates s) (waiting s) (others s).

(** The errors whose text ends up in a [MetadataError]. *)
Inductive Foreign : Type :=
  | FromCas
  | FromFetch (e : FetchError)
  | FromChecksum (e : ChecksumError)
  | FromLock (e : LockError)
  | FromIndex (e : Index.IndexError)
  | FromPom (e : PomXml.ParseError)
  | FromSnapshot (e : Snapshot.SnapshotError)
  | StaleResponse
  | Panicked.

Class ErrorText := detail : Foreign -> string.

(** ** The monad *)

Definition M (A : Type) : Type := World -> result MetadataError A * World.

#[export] Instance M_ret : MRet M := fun A a w => (Ok a, w).
#[export] Instance M_bind : MBind M := fun A B k m w =>
  match m w with
  | (Ok a, w') => k a w'
  | (Err e, w') => (Err e, w')
  end.

Definition lift {A} (r : result MetadataError A) : M A := fun w => (r, w).

Definition with_store (s : Store) (w : World) : World :=
  mkWorld s (index w) (outcomes w) (pushes w) (requests w).
Definition with_index (ix : Index.Index) (w : World) : World :=
  mkWorld (store w) ix (outcomes w) (pushes w) (requests w).

Definition record_roastery_outcome (o : RoasteryOutcome) : M unit := fun w =>
  (Ok tt, mkWorld (store w) (index w) (outcomes w ++ [o]) (pushes w) (requests w)).
Definition record_push_outcome (o : PushOutcome) : M unit := fun w =>
  (Ok tt, mkWorld (store w) (index w) (outcomes w) (pushes w ++ [o]) (requests w)).

Section Source.
Context `{D : Digest} `{S1 : Sha1} `{C : Codec} `{CF : CaseFolding} `{T : ErrorText}.
Context `{Q : Xml.QuickXml} `{PX : MetadataXml.PlainXml}.
Variable setup : Setup.

(** A suspension point, and the wait for the lock of the coordinate. *)
Definition await : M unit := fun w => (Ok tt, others setup w).
Definition coord_lock : M unit := fun w => (Ok tt, waiting setup w).

Definition request (url : string) (cond : ConditionalHeaders) : M (result FetchError FetchOutcome) :=
  fun w => (Ok (fetch (http setup) (fetch_config setup) url cond),
            mkWorld (store w) (index w) (outcomes w) (pushes w) (requests w ++ [url])).

Definition ga (c : Coords) : string := group c +:+ ":" +:+ artifact c.

Definition map_cas_err (c : Coords) (version : string) : MetadataError :=
  Transport (ga c) version (detail FromCas).

Definition map_fetch_err (c : Coords) (version : string) (e : FetchError) : MetadataError :=
  match e with
  | StatusError _ st =>
      if (st =? 404)%Z then NotFound (ga c) version
      else if ((st =? 401) || (st =? 403))%Z then AuthRequired (ga c) version
      else Transport (ga c) version (detail (FromFetch e))
  | _ => Transport (ga c) version (detail (FromFetch e))
  end.

(** [cas.put]: only bytes that are not there are written, and that may fail. *)
Definition cas_put (bytes : Bytes) : M (result unit ContentHash) := fun w =>
  if negb (contains (sha256 bytes) (store w)) && put_fails setup bytes then (Ok (Err tt), w)
  else let '(h, st) := Cas.put bytes (store w) in (Ok (Ok h), with_store st w).

(** A panic unwinds through the request: no code of the crate catches it, as
    none catches an error.  It is an error of its own kind, [Panicked]. *)
Definition panic (c : Coords) (version : string) : MetadataError :=
  Transport (ga c) version (detail Panicked).

Definition with_capacity (c : Coords) (version : string) (size : Z) : M unit :=
  lift (if allocates setup size then Ok tt else Err (panic c version)).

Definition index_put (c : Coords) (version : string) (key : IndexKey) (entry : IndexEntry)
    : M unit := fun w =>
  match Index.put key entry (index w) with
  | (Ok tt, ix) => (Ok tt, with_index ix w)
  | (Err e, ix) => (Err (Transport (ga c) version (detail (FromIndex e))), with_index ix w)
  end.

Definition upstream_url (c : Coords) (version type_ : string) (classifier : option string) : string :=
  url_for_artifact (fetch_config setup) None (group c) (artifact c) version classifier type_.

(** A sidecar that was served. *)
Definition sidecar_text (r : result FetchError FetchOutcome) : option string :=
  match r with
  | Ok (Fresh bytes _ _ _) => Some (from_utf8_lossy bytes)
  | _ => None
  end.

Definition sha1_of (v : Verification) : option string :=
  match v with Sha1Verified h => Some h | _ => None end.

Definition entry_for (h : ContentHash) (bytes : Bytes) (sha1 : option string) (url : string)
    (etag last_modified : option string) (t : OriginTier) : IndexEntry :=
  mkIndexEntry h (Z.of_nat (length bytes)) sha1 (mkOrigin url etag last_modified None t)
    (now_unix setup) (now_unix setup).

(** [fetch_and_cache]: the artifact with its two sidecars, in parallel. *)
Definition fetch_and_cache (c : Coords) (version type_ : string) (classifier : option string)
    (cond : ConditionalHeaders) : M (Bytes * IndexEntry * FetchOrigin) :=
  let url := upstream_url c version type_ classifier in
  artifact_res ← request url cond;
  sha256_res ← request (url_for_sidecar url "sha256") no_conditions;
  sha1_res ← request (url_for_sidecar url "sha1") no_conditions;
  _ ← await;
  artifact ← lift (map_err (map_fetch_err c version) artifact_res);
  match artifact with
  | NotModified => lift (Err (Transport (ga c) version (detail StaleResponse)))
  | Fresh bytes etag last_modified _ =>
      v ← lift (map_err (fun e => Parse "checksum sidecar" (ga c) version (detail (FromChecksum e)))
                  (verify bytes (sidecar_text sha256_res) (sidecar_text sha1_res)));
      put ← cas_put bytes;
      h ← lift (map_err (fun _ => map_cas_err c version) put);
      mret (bytes, entry_for h bytes (sha1_of v) url etag last_modified Upstream, Remote)
  end.

(** [fetch_url_and_cache]: an opaque document, without sidecars. *)
Definition fetch_url_and_cache (c : Coords) (version url : string)
    : M (Bytes * IndexEntry * FetchOrigin) :=
  res ← request url no_conditions;
  _ ← await;
  outcome ← lift (map_err (map_fetch_err c version) res);
  match outcome with
  | NotModified => lift (Err (MetadataNotFound (ga c)))
  | Fresh bytes etag last_modified _ =>
      put ← cas_put bytes;
      h ← lift (map_err (fun _ => map_cas_err c version) put);
      mret (bytes, entry_for h bytes None url etag last_modified Upstream, Remote)
  end.

Definition format_coords_header (c : Coords) (version type_ : string) (classifier : option string)
    : string :=
  match classifier with
  | Some cl => ga c +:+ ":" +:+ type_ +:+ ":" +:+ cl +:+ ":" +:+ version
  | None =>
      if String.eqb type_ "jar" then ga c +:+ ":" +:+ version
      else ga c +:+ ":" +:+ type_ +:+ ":" +:+ version
  end.

(** What the errors of [get_blob_with_coords] mean. *)
Definition client_outcome (e : ClientError) : RoasteryOutcome :=
  match e with
  | ClientNotFound => Miss
  | ClientAuth _ _ => AuthFailed
  | ServerRejected code _ => if String.eqb code "BAR-CAS-001" then DigestMismatch else Unreachable
  | _ => Unreachable
  end.

(** [try_roastery]: a verified blob with its entry, or why there is none. *)
Definition try_roastery (client : RoasteryClient) (c : Coords) (version type_ : string)
    (classifier : option string) : M (result RoasteryOutcome (Bytes * IndexEntry)) :=
  let url := upstream_url c version type_ classifier in
  sha256_res ← request (url_for_sidecar url "sha256") no_conditions;
  sha1_res ← request (url_for_sidecar url "sha1") no_conditions;
  _ ← await;
  match sidecar_text sha256_res ≫= first_token with
  | None => mret (Err Miss)
  | Some token =>
      match digest_from_hex (to_lowercase token) with
      | None => mret (Err Miss)
      | Some asked =>
          _ ← await;
          match get_blob_with_coords client asked (format_coords_header c version type_ classifier) with
          | Err e => mret (Err (client_outcome e))
          | Ok (size, body) =>
              _ ← with_capacity c version size;
              _ ← await;
              match body with
              | None => mret (Err Unreachable)
              | Some bytes =>
                  if negb (Z.of_nat (length bytes) =? size)%Z then mret (Err Unreachable)
                  else
                    match verify bytes (sidecar_text sha256_res) (sidecar_text sha1_res) with
                    | Err _ => mret (Err DigestMismatch)
                    | Ok v =>
                        put ← cas_put bytes;
                        match put with
                        | Err _ => mret (Err Unreachable)
                        | Ok h =>
                            if bool_decide (h <> asked) then mret (Err DigestMismatch)
                            else
                              mret (Ok (bytes, entry_for h bytes (sha1_of v)
                                                 (default "roastery" (roastery_url setup)) None None Roastery))
                        end
                    end
              end
          end
      end
  end.

(** [push_to_roastery]: best effort, from the local store. *)
Definition push_to_roastery (client : RoasteryClient) (h : ContentHash) (size : Z) : M unit := fun w =>
  match Cas.get h (store w) with
  | None => record_push_outcome Failed w
  | Some bytes =>
      (_ ← await;
       match put_blob client h bytes size with
       | Ok _ => record_push_outcome Pushed
       | Err _ => record_push_outcome Failed
       end) w
  end.

(** The answer from the cache for an indexed row. *)
Definition cached (c : Coords) (version : string) (entry : IndexEntry) : M (Bytes * FetchOrigin) :=
  fun w =>
  match Cas.get (hash entry) (store w) with
  | Some bytes => (Ok (bytes, Disk), w)
  | None => (Err (map_cas_err c version), w)
  end.

(** [let _ = index.touch(..)]. *)
Definition touch_row (key : IndexKey) : M unit := fun w =>
  (Ok tt, with_index (Index.touch key (now_unix setup) (index w)).2 w).

Definition lookup_row (key : IndexKey) : M (option IndexEntry) := fun w =>
  (Ok (Index.get key (index w)), w).

(** The remote cache, when it is configured and the artifact is addressed by
    content: [Some] ends the request. *)
Definition roastery_first (c : Coords) (version type_ : string) (classifier : option string)
    (key : IndexKey) (url_override : option string) : M (option (Bytes * FetchOrigin)) :=
  match url_override, roastery setup with
  | None, Some client =>
      r ← try_roastery client c version type_ classifier;
      match r with
      | Ok (bytes, entry) =>
          _ ← index_put c version key entry;
          _ ← record_roastery_outcome Hit;
          _ ← (if roastery_push setup then record_push_outcome SkippedRoasterySource else mret tt);
          mret (Some (bytes, Remote))
      | Err o => _ ← record_roastery_outcome o; mret None
      end
  | _, _ => mret None
  end.

(** The upstream path of [get_or_fetch_artifact]. *)
Definition upstream (c : Coords) (version type_ : string) (classifier : option string)
    (key : IndexKey) (url_override : option string) : M (Bytes * FetchOrigin) :=
  '(bytes, entry, origin) ←
    match url_override with
    | Some url => fetch_url_and_cache c version url
    | None => fetch_and_cache c version type_ classifier no_conditions
    end;
  _ ← index_put c version key entry;
  _ ← match roastery setup, url_override with
      | Some client, None =>
          if roastery_push setup then push_to_roastery client (hash entry) (size_bytes entry)
          else mret tt
      | _, _ => mret tt
      end;
  mret (bytes, origin).

(** A true miss: the remote cache first. *)
Definition true_miss (c : Coords) (version type_ : string) (classifier : option string)
    (key : IndexKey) (url_override : option string) : M (Bytes * FetchOrigin) :=
  hit ← roastery_first c version type_ classifier key url_override;
  match hit with
  | Some r => mret r
  | None => upstream c version type_ classifier key url_override
  end.

Definition get_or_fetch_artifact (c : Coords) (version : string) (key : IndexKey)
    (lock_key : CoordVersionKey) (type_ : string) (classifier : option string)
    (url_override : option string) : M (Bytes * FetchOrigin) :=
  _ ← coord_lock;
  row ← lookup_row key;
  match row with
  | Some entry => r ← cached c version entry; _ ← touch_row key; mret r
  | None =>
      _ ← await;
      _ ← lift (map_err (fun e => Transport (ga c) version (detail (FromLock e)))
                  (acquire setup lock_key));
      row ← lookup_row key;
      match row with
      | Some entry => cached c version entry
      | None => true_miss c version type_ classifier key url_override
      end
  end.

(** ** The source *)

Definition pom_key (c : Coords) (version : string) : IndexKey := mkKey c version "pom" None.

Definition get_pom_bytes (c : Coords) (version : string) : M (Bytes * FetchOrigin) :=
  get_or_fetch_artifact c version (pom_key c version) (mkLockKey c version) "pom" None None.

(** [fetch_pom]; the outer [None] is fuel exhaustion of the reader. *)
Definition fetch_pom (c : Coords) (version : string) (w : World)
    : option (result MetadataError (Pom.RawPom * FetchOrigin) * World) :=
  match get_pom_bytes c version w with
  | (Err e, w') => Some (Err e, w')
  | (Ok (bytes, origin), w') =>
      r ← PomXml.parse_pom (from_utf8_lossy bytes);
      Some (match r with
            | Ok pom => Ok (pom, origin)
            | Err e => Err (Parse "pom.xml" (ga c) version (detail (FromPom e)))
            end, w')
  end.

Definition metadata_key (c : Coords) (version : string) : IndexKey :=
  mkKey c version "maven-metadata.xml" None.

Definition metadata_url (c : Coords) : string :=
  url_for_metadata (fetch_config setup) None (group c) (artifact c).

Definition fetch_metadata (c : Coords) : M (GaMetadata * FetchOrigin) := fun w =>
  match get_or_fetch_artifact c "" (metadata_key c METADATA_SENTINEL_VERSION)
          (mkLockKey c METADATA_SENTINEL_VERSION) "maven-metadata.xml" None (Some (metadata_url c)) w with
  | (Err (NotFound coords _), w') => (Err (MetadataNotFound coords), w')
  | (Err e, w') => (Err e, w')
  | (Ok (bytes, origin), w') =>
      (Ok (mkMetadata c (MetadataXml.parse_versions_list (from_utf8_lossy bytes)) None None, origin), w')
  end.

(** The URL of the metadata of a SNAPSHOT version. *)
Definition snapshot_url (c : Coords) (version : string) : string :=
  replace "/maven-metadata.xml" ("/" +:+ version +:+ "/maven-metadata.xml") (metadata_url c).

(** [fetch_snapshot_info]; the outer [None] is the panic of the reader. *)
Definition fetch_snapshot_info (c : Coords) (version : string) (w : World)
    : option (result MetadataError (Snapshot.SnapshotInfo * FetchOrigin) * World) :=
  let sentinel := snapshot_meta_version version in
  match get_or_fetch_artifact c version (metadata_key c sentinel) (mkLockKey c sentinel)
          "maven-metadata.xml" None (Some (snapshot_url c version)) w with
  | (Err e, w') => Some (Err e, w')
  | (Ok (bytes, origin), w') =>
      r ← MetadataXml.parse_snapshot_metadata (from_utf8_lossy bytes);
      Some (match r with
            | Ok info => Ok (info, origin)
            | Err e => Err (Parse "maven-metadata.xml" (ga c) version (detail (FromSnapshot e)))
            end, w')
  end.

End Source.
End CacheSource.
