(* ===== verification/CacheSourceFacts.v ===== *)
(** * Integrity of the cache-backed source

    Theorems on source.rs: what a request leaves in the store and the index,
    what its bytes have been checked against, that an artifact once cached is
    served from disk, and that the remote cache never makes a request fail or
    changes what it returns. *)

From S2P Require Import Prelude Version Coords Cas Journal Index Pom Source Xml PomXml MetadataXml.
From S2P Require Import Fetch CacheSource.

Module CacheSourceFacts.
Import Coords Cas Journal Source Fetch CacheSource.

(** ** Checksums *)

Section Checksums.
Context `{D : Digest} `{S1 : Sha1}.

(** A sidecar that was there and was checked. *)
Definition matches (a : Algorithm) (computed : string) (sidecar : option string) : Prop :=
  forall raw, sidecar = Some raw -> exists ex, parse a raw = Ok ex /\ hex ex = computed.

Lemma check_sidecar_ok a computed sidecar ok :
  check_sidecar a computed sidecar = Ok ok ->
  matches a computed sidecar /\ ok = (if sidecar is Some _ then true else false).
Proof.
  unfold check_sidecar. destruct sidecar as [raw|].
  - intros (ex & Hp & H)%bind_ok_inv. destruct (String.eqb (hex ex) computed) eqn:He; [| done].
    apply String.eqb_eq in He. injection H as <-. split; [| done].
    intros raw' [= <-]. by exists ex.
  - intros [= <-]. split; [by intros ? [=] | done].
Qed.

Lemma verify_ok bytes s256 s1 v :
  verify bytes s256 s1 = Ok v ->
  matches Sha256A (hex_sha256 bytes) s256 /\ matches Sha1A (hex_sha1 bytes) s1.
Proof.
  unfold verify. intros (ok1 & H1 & H)%bind_ok_inv. apply bind_ok_inv in H as (ok2 & H2 & _).
  apply check_sidecar_ok in H1 as [? _]. by apply check_sidecar_ok in H2 as [? _].
Qed.

End Checksums.

(** ** Rows and objects *)

Section Rows.
Context `{D : Digest} `{C : Codec}.

Definition row (k : IndexKey) (w : World) : option IndexEntry := Index.get k (index w).

(** Every object hashes to its name and every row has its object. *)
Record sound (w : World) : Prop := {
  s_intact : intact (store w);
  s_backed : forall k e, row k w = Some e -> is_Some (Cas.get (hash e) (store w))
}.

(** Objects stay what they are and rows keep their object. *)
Record extends (w w' : World) : Prop := {
  x_store : forall h d, Cas.get h (store w) = Some d -> Cas.get h (store w') = Some d;
  x_rows : forall k e, row k w = Some e -> exists e', row k w' = Some e' /\ hash e' = hash e
}.

#[export] Instance extends_preorder : PreOrder extends.
Proof.
  split; [by split; eauto |]. intros w1 w2 w3 [A1 B1] [A2 B2]. split; [eauto |].
  intros k e (e' & H & E)%B1. apply B2 in H as (e'' & H & E'). exists e''. by rewrite E'.
Qed.

Definition safe (w w' : World) : Prop := sound w' /\ extends w w'.

Lemma safe_trans w1 w2 w3 : safe w1 w2 -> safe w2 w3 -> safe w1 w3.
Proof. intros [_ E1] [S2 E2]. split; [done |]. by transitivity w2. Qed.

Lemma safe_refl w : sound w -> safe w w.
Proof. intros H. split; [done | reflexivity]. Qed.

(** Logs do not matter. *)
Lemma safe_logs w w' : sound w -> store w' = store w -> index w' = index w -> safe w w'.
Proof.
  intros [H1 H2] Es Ei. unfold safe, row in *. split.
  - split; [by rewrite Es |]. intros k e. unfold row. rewrite Ei, Es. apply H2.
  - split; [by rewrite Es |]. intros k e. unfold row. rewrite Ei. eauto.
Qed.

Lemma maybe_compact_rows ix r ix' :
  Index.maybe_compact ix = (r, ix') -> forall k, Index.get k ix' = Index.get k ix.
Proof.
  unfold Index.maybe_compact, Index.compact. intros H k.
  destruct (_ <=? _)%Z; [destruct (Index.write_snapshot _) |]; by injection H as <- <-.
Qed.

(** What a mutation of the index does to its rows. *)
Lemma put_rows k e ix r ix' :
  Index.put k e ix = (r, ix') ->
  (forall k', k' <> k -> Index.get k' ix' = Index.get k' ix) /\
  (Index.get k ix' = Some e \/ Index.get k ix' = Index.get k ix) /\
  (r = Ok tt -> Index.get k ix' = Some e).
Proof.
  unfold Index.put, mbind, Index.M_bind. unfold Index.journal_append at 1.
  destruct (append _ _) as [[n file]|]; [| by intros [= <- <-]; split_and!; [| right |]].
  unfold Index.modify at 1. cbn. intros H. pose proof (maybe_compact_rows _ _ _ H) as Hk.
  split_and!.
  - intros k' Hne. rewrite Hk. unfold Index.get. cbn. by rewrite lookup_insert_ne.
  - left. rewrite Hk. unfold Index.get. cbn. by rewrite lookup_insert_eq.
  - intros _. rewrite Hk. unfold Index.get. cbn. by rewrite lookup_insert_eq.
Qed.

Lemma touch_map k a ix k' :
  Index.get k' (Index.touch k a ix).2 = Index.get k' ix \/
  (k' = k /\ Index.get k' (Index.touch k a ix).2 = Index.set_atime a <$> Index.get k' ix).
Proof.
  unfold Index.touch, mbind, Index.M_bind. unfold Index.journal_append at 1 2.
  destruct (append _ _) as [[n file]|]; [| by left]. cbn. unfold Index.gets, Index.modify. cbn.
  destruct (Index.maybe_compact _) as [r ix'] eqn:Hc.
  pose proof (maybe_compact_rows _ _ _ Hc k') as Hk. unfold Index.get in Hk at 2. cbn in Hk.
  destruct (decide (k = k')) as [->|Hne].
  - right. split; [done |]. rewrite lookup_alter_eq in Hk. by destruct r.
  - left. rewrite lookup_alter_ne in Hk by done. by destruct r.
Qed.

Lemma touch_rows k a ix k' :
  hash <$> Index.get k' (Index.touch k a ix).2 = hash <$> Index.get k' ix.
Proof.
  destruct (touch_map k a ix k') as [->|[_ ->]]; [done |]. by destruct (Index.get k' ix).
Qed.

(** A write to the store or the index that a request makes. *)
Lemma cas_put_safe bytes w h st :
  sound w -> Cas.put bytes (store w) = (h, st) ->
  safe w (with_store st w) /\ h = sha256 bytes /\ is_Some (Cas.get h st).
Proof.
  intros [HI HB]. unfold Cas.put, contains. case_bool_decide as Hin; intros [= <- <-].
  - split; [by apply safe_logs |]. split; [done |]. destruct Hin as [b Hb].
    unfold Cas.get. rewrite Hb. by eexists.
  - assert (Hx : extends w (with_store (finalize_tmp (sha256 bytes) bytes (store w)) w)).
    { split; [| eauto]. intros h' d Hd. unfold Cas.get, finalize_tmp in *. cbn.
      rewrite lookup_insert_ne; [done |]. intros <-. apply Hin. by apply fmap_is_Some with (f := data). }
    split_and!; [| done | unfold Cas.get, finalize_tmp; rewrite lookup_insert_eq; by eexists].
    split; [split | done]; [by apply finalize_intact |].
    intros k e Hr. destruct (HB k e Hr) as [d Hd]. exists d. by apply Hx.
Qed.

Lemma index_put_safe k e ix r w :
  sound w -> row k w = None -> is_Some (Cas.get (hash e) (store w)) ->
  Index.put k e (index w) = (r, ix) ->
  safe w (with_index ix w) /\ (r = Ok tt -> row k (with_index ix w) = Some e).
Proof.
  intros [HI HB] Hnone Hobj Hp. apply put_rows in Hp as (Hother & Hkey & Hok).
  split; [| done]. split; [split; [done |] | split; [done |]].
  - intros k' e' Hr. destruct (decide (k' = k)) as [->|Hne].
    + unfold row in Hr, Hnone. cbn in Hr. destruct Hkey as [Hk|Hk]; rewrite Hk in Hr; [| congruence].
      by injection Hr as <-.
    + unfold row in Hr. cbn in Hr. rewrite Hother in Hr by done. by apply (HB k').
  - intros k' e' Hr. exists e'. split; [| done]. unfold row in *. cbn.
    rewrite Hother; [done | congruence].
Qed.

Lemma touch_safe k t w : sound w -> safe w (with_index (Index.touch k t (index w)).2 w).
Proof.
  intros [HI HB].
  assert (Hk : forall k', hash <$> row k' (with_index (Index.touch k t (index w)).2 w) = hash <$> row k' w).
  { intros k'. unfold row. apply touch_rows. }
  split; [split; [done |] | split; [done |]].
  - intros k' e Hr. specialize (Hk k'). rewrite Hr in Hk. symmetry in Hk.
    apply fmap_Some_1 in Hk as (e' & Hr' & E). cbn. rewrite E. by apply (HB k').
  - intros k' e Hr. specialize (Hk k'). rewrite Hr in Hk.
    apply fmap_Some_1 in Hk as (e' & Hr' & E). by exists e'.
Qed.

End Rows.

(** ** Reasoning about a request *)

(** What an operation ends in, from a state. *)
Definition wp {A} (m : M A) (Q : A -> World -> Prop) (E : World -> Prop) (w : World) : Prop :=
  match m w with
  | (Ok a, w') => Q a w'
  | (Err _, w') => E w'
  end.

Lemma wp_bind {A B} (m : M A) (k : A -> M B) Q E w :
  wp m (fun a => wp (k a) Q E) E w -> wp (m ≫= k) Q E w.
Proof. unfold wp, mbind, M_bind. by destruct (m w) as [[a|e] w']. Qed.

Lemma wp_ret {A} (a : A) (Q : A -> World -> Prop) E w : Q a w -> wp (mret a) Q E w.
Proof. done. Qed.

Lemma wp_lift {A} (r : result MetadataError A) (Q : A -> World -> Prop) (E : World -> Prop) w :
  E w -> (forall a, r = Ok a -> Q a w) -> wp (lift r) Q E w.
Proof. unfold wp, lift. destruct r; eauto. Qed.

Lemma wp_mono {A} (m : M A) (Q Q' : A -> World -> Prop) (E E' : World -> Prop) w :
  (forall a w', Q a w' -> Q' a w') -> (forall w', E w' -> E' w') -> wp m Q E w -> wp m Q' E' w.
Proof. unfold wp. destruct (m w) as [[a|e] w']; eauto. Qed.

Section Requests.
Context `{D : Digest} `{S1 : Sha1} `{C : Codec} `{CF : CaseFolding} `{T : ErrorText}.
Variable setup : Setup.

(** What the other tasks may do: keep the cache sound, and leave the row
    alone whose lock is held. *)
Record rely (key : IndexKey) : Prop := {
  r_waiting : forall w, sound w -> safe w (waiting setup w);
  r_others : forall w, sound w -> safe w (others setup w);
  r_locked : forall w, row key (others setup w) = row key w
}.

Variable key : IndexKey.
Hypothesis R : rely key.
Variable w0 : World.

(** The cache is sound, extends the first state, and has the row. *)
Definition J (ro : option IndexEntry) (w : World) : Prop := safe w0 w /\ row key w = ro.

Lemma J_step ro w w' : J ro w -> (sound w -> safe w w') -> row key w' = row key w -> J ro w'.
Proof.
  intros [[Hs Hx] Hr] H E. split; [| by rewrite E].
  apply safe_trans with w; [by split | by apply H].
Qed.

Lemma J_safe ro w : J ro w -> safe w0 w.
Proof. by intros []. Qed.

Lemma J_sound ro w : J ro w -> sound w.
Proof. by intros [[? _] _]. Qed.

Lemma wp_await ro Q E w : J ro w -> (forall w', J ro w' -> Q tt w') -> wp (await setup) Q E w.
Proof. intros HJ H. apply H. eapply J_step; [done | apply R | apply R]. Qed.

Lemma wp_request ro url cond Q E w :
  J ro w ->
  (forall w', J ro w' -> Q (fetch (http setup) (fetch_config setup) url cond) w') ->
  wp (request setup url cond) Q E w.
Proof. intros HJ H. apply H. eapply J_step; [done | intros Hs; by apply safe_logs | done]. Qed.

Lemma wp_cas_put ro bytes Q E w :
  J ro w ->
  (forall w', J ro w' -> is_Some (Cas.get (sha256 bytes) (store w')) -> Q (Ok (sha256 bytes)) w') ->
  Q (Err tt) w -> wp (cas_put setup bytes) Q E w.
Proof.
  intros HJ H He. unfold wp, cas_put. destruct (_ && _); [done |]. destruct (Cas.put bytes (store w)) as [h st] eqn:Hp.
  destruct (cas_put_safe bytes w h st (J_sound _ _ HJ) Hp) as (Hs & -> & Ho).
  apply H; [| done]. by eapply J_step.
Qed.

Lemma wp_index_put c version e Q w :
  J None w -> is_Some (Cas.get (hash e) (store w)) ->
  (forall w', J (Some e) w' -> Q tt w') ->
  wp (index_put c version key e) Q (safe w0) w.
Proof.
  intros HJ Ho H. unfold wp, index_put.
  destruct (Index.put key e (index w)) as [r ix] eqn:Hp.
  destruct (index_put_safe key e ix r w (J_sound _ _ HJ) (proj2 HJ) Ho Hp) as [Hs Hok].
  assert (safe w0 (with_index ix w)) by (apply safe_trans with w; [by eapply J_safe | done]).
  destruct r as [[]|err]; [| done]. apply H. split; [done | by apply Hok].
Qed.

Lemma wp_roastery_log ro o Q E w :
  J ro w -> (forall w', J ro w' -> Q tt w') -> wp (record_roastery_outcome o) Q E w.
Proof. intros HJ H. apply H. eapply J_step; [done | intros Hs; by apply safe_logs | done]. Qed.

Lemma wp_push_log ro o Q E w :
  J ro w -> (forall w', J ro w' -> Q tt w') -> wp (record_push_outcome o) Q E w.
Proof. intros HJ H. apply H. eapply J_step; [done | intros Hs; by apply safe_logs | done]. Qed.

Ltac step :=
  lazymatch goal with
  | |- wp (mret _) _ _ _ => apply wp_ret
  | |- wp (mbind _ _) _ _ _ => apply wp_bind
  | |- wp (request _ _ _) _ _ _ => eapply wp_request; [eassumption | intros ? ?]
  | |- wp (await _) _ _ _ => eapply wp_await; [eassumption | intros ? ?]
  | |- wp (cas_put _ _) _ _ _ => eapply wp_cas_put; [eassumption | intros ? ? ? |]
  | |- wp (with_capacity _ _ _ _) _ _ _ => apply wp_lift; [solve [by eapply J_safe] | intros ? ?]
  | |- wp (index_put _ _ _ _) _ _ _ => eapply wp_index_put; [eassumption | | intros ? ?]
  | |- wp (record_roastery_outcome _) _ _ _ => eapply wp_roastery_log; [eassumption | intros ? ?]
  | |- wp (record_push_outcome _) _ _ _ => eapply wp_push_log; [eassumption | intros ? ?]
  | |- wp (lift _) _ _ _ => apply wp_lift; [solve [by eapply J_safe] | intros ? ?]
  end.

(** What the sidecars that upstream serves say of the bytes. *)
Definition checked (c : Coords) (version type_ : string) (classifier : option string)
    (bytes : Bytes) : Prop :=
  let url := upstream_url setup c version type_ classifier in
  let served alg := sidecar_text (fetch (http setup) (fetch_config setup) (url_for_sidecar url alg) no_conditions) in
  matches Sha256A (hex_sha256 bytes) (served "sha256") /\ matches Sha1A (hex_sha1 bytes) (served "sha1").

(** A blob in the store that its entry describes. *)
Definition stored (bytes : Bytes) (e : IndexEntry) (w : World) : Prop :=
  J None w /\ hash e = sha256 bytes /\ is_Some (Cas.get (hash e) (store w)).

Lemma wp_fetch_and_cache c version type_ classifier cond w :
  J None w ->
  wp (fetch_and_cache setup c version type_ classifier cond)
    (fun r w' => stored r.1.1 r.1.2 w' /\ r.2 = Remote /\ checked c version type_ classifier r.1.1)
    (safe w0) w.
Proof.
  intros HJ. unfold fetch_and_cache. repeat step.
  destruct a as [bytes etag lm ct|]; [| by apply wp_lift; [eapply J_safe|]].
  repeat step; [| done]. simplify_eq/=. split_and!; [by split_and! | done |].
  destruct (verify _ _ _) as [v|] eqn:Hv; [| done]. by eapply verify_ok.
Qed.

Lemma wp_fetch_url_and_cache c version url w :
  J None w ->
  wp (fetch_url_and_cache setup c version url)
    (fun r w' => stored r.1.1 r.1.2 w' /\ r.2 = Remote) (safe w0) w.
Proof.
  intros HJ. unfold fetch_url_and_cache. repeat step.
  destruct a as [bytes etag lm ct|]; [| by apply wp_lift; [eapply J_safe|]].
  repeat step; [| done]. simplify_eq/=. by split_and!.
Qed.

Lemma wp_try_roastery client c version type_ classifier w :
  J None w ->
  wp (try_roastery setup client c version type_ classifier)
    (fun r w' =>
      match r with
      | Ok (bytes, e) => stored bytes e w' /\ checked c version type_ classifier bytes
      | Err _ => J None w'
      end) (safe w0) w.
Proof.
  intros HJ. unfold try_roastery. repeat step.
  destruct (_ ≫= first_token) as [token|]; [| by step].
  destruct (digest_from_hex _) as [asked|]; [| by step]. repeat step.
  destruct (get_blob_with_coords _ _ _) as [[size body]|e]; [| by step]. repeat step.
  destruct body as [bytes|]; [| by step]. destruct (negb _); [by step |].
  destruct (verify _ _ _) as [v|] eqn:Hv; [| by step]. repeat step; [| done].
  destruct (bool_decide _); [by step |]. step.
  split; [by split_and! | by eapply verify_ok].
Qed.

Lemma wp_push_to_roastery ro client h size Q E w :
  J ro w -> (forall w', J ro w' -> Q tt w') -> wp (push_to_roastery setup client h size) Q E w.
Proof.
  intros HJ H. unfold push_to_roastery, wp.
  destruct (Cas.get h (store w)) as [bytes|]; [| exact (wp_push_log ro Failed Q E w HJ H)].
  apply (wp_bind (await setup) (fun _ => match put_blob client h bytes size with
      | Ok _ => record_push_outcome Pushed | Err _ => record_push_outcome Failed end)).
  step. destruct (put_blob _ _ _ _); step; by apply H.
Qed.

(** What a request that went to the network leaves behind. *)
Definition delivered c version type_ classifier (url_override : option string)
    (r : Bytes * FetchOrigin) (w : World) : Prop :=
  safe w0 w /\ (exists e, row key w = Some e /\ hash e = sha256 r.1) /\
  (r.2 = Remote -> url_override = None -> checked c version type_ classifier r.1).

Lemma wp_roastery_first c version type_ classifier url w :
  J None w ->
  wp (roastery_first setup c version type_ classifier key url)
    (fun r w' =>
      match r with
      | Some r => delivered c version type_ classifier url r w'
      | None => J None w'
      end) (safe w0) w.
Proof.
  intros HJ. unfold roastery_first. destruct url as [url|]; [by step |].
  destruct (roastery setup) as [client|]; [| by step]. step.
  eapply wp_mono; [| done | by apply wp_try_roastery].
  intros [[bytes e]|o] w'; [intros [(HJ' & He & Ho) Hc] | intros HJ']; repeat step; try done.
  assert (Hend : forall w2, J (Some e) w2 -> delivered c version type_ classifier None (bytes, Remote) w2).
  { intros w2 [? ?]. split_and!; [done | by exists e | done]. }
  destruct (roastery_push setup); repeat step; eauto.
Qed.

Lemma wp_upstream c version type_ classifier url w :
  J None w ->
  wp (upstream setup c version type_ classifier key url)
    (delivered c version type_ classifier url) (safe w0) w.
Proof.
  intros HJ. unfold upstream. step.
  apply wp_mono with
    (Q := fun r w' => stored r.1.1 r.1.2 w' /\
      (r.2 = Remote -> url = None -> checked c version type_ classifier r.1.1)) (E := safe w0); [| done |].
  - intros [[bytes e] o] w'. cbn. intros [(HJ' & He & Ho) Hc]. repeat step; [done |].
    assert (Hend : forall w2, J (Some e) w2 -> delivered c version type_ classifier url (bytes, o) w2).
    { intros w2 [? ?]. split_and!; [done | by exists e | done]. }
    destruct (roastery setup) as [client|], url as [url|]; repeat step; eauto.
    destruct (roastery_push setup); [eapply wp_push_to_roastery; [done |]; intros w2 ? |];
      repeat step; eauto.
  - destruct url as [url|].
    + eapply wp_mono; [| done | by apply wp_fetch_url_and_cache]. by intros r w' [? _].
    + eapply wp_mono; [| done | by apply wp_fetch_and_cache]. by intros r w' (? & _ & ?).
Qed.

(** An indexed row is answered from the store. *)
Lemma wp_cached c version type_ classifier url e w Q :
  J (Some e) w ->
  (forall r, r.2 = Disk -> sha256 r.1 = hash e -> delivered c version type_ classifier url r w -> Q r w) ->
  wp (cached c version e) Q (safe w0) w.
Proof.
  intros HJ H. unfold wp, cached. destruct (Cas.get (hash e) (store w)) as [bytes|] eqn:Hg.
  - assert (sha256 bytes = hash e).
    { unfold Cas.get in Hg. apply fmap_Some_1 in Hg as (b & Hb & ->). by apply (s_intact _ (J_sound _ _ HJ)). }
    apply H; [done.. |]. split_and!; [by eapply J_safe | | done]. exists e. by split; [apply HJ |].
  - by eapply J_safe.
Qed.

Lemma wp_touch_row e w Q E :
  J (Some e) w ->
  (forall w' e', J (Some e') w' -> hash e' = hash e -> Q tt w') ->
  wp (touch_row setup key) Q E w.
Proof.
  intros [Hs Hr] H. unfold wp, touch_row.
  pose proof (touch_safe key (now_unix setup) w (proj1 Hs)) as Ht.
  destruct (x_rows _ _ (proj2 Ht) key e Hr) as (e' & Hr' & E').
  apply (H _ e'); [| done]. split; [by apply safe_trans with w | done].
Qed.

Lemma J_ro w : safe w0 w -> J (row key w) w.
Proof. by intros H. Qed.

Lemma fetch_delivers c version lock_key type_ classifier url :
  sound w0 ->
  wp (get_or_fetch_artifact setup c version key lock_key type_ classifier url)
    (delivered c version type_ classifier url) (safe w0) w0.
Proof.
  intros Hs. unfold get_or_fetch_artifact. step. unfold wp at 1, coord_lock.
  pose proof (J_ro _ (r_waiting _ R w0 Hs)) as HJ.
  set (w := waiting setup w0) in *. clearbody w. step. unfold wp at 1, lookup_row. fold (row key w).
  destruct (row key w) as [e|].
  - step. apply (wp_cached c version type_ classifier url e); [done |]. intros r Ho Hb Hd. step. eapply wp_touch_row; [done |].
    intros w' e' HJ' He. step. split_and!; [by eapply J_safe | | intros Hx; congruence].
    exists e'. split; [apply HJ' | congruence].
  - repeat step. clear HJ w. unfold wp at 1, lookup_row. fold (row key w').
    destruct H as [Hs' Hr]. rewrite Hr. pose proof (conj Hs' Hr : J None w') as HJ. unfold true_miss. step.
    eapply wp_mono; [| done | by apply wp_roastery_first].
    intros [r|] w2 H2; [by step | by apply wp_upstream].
Qed.

End Requests.

Section Theorems.
Context `{D : Digest} `{S1 : Sha1} `{C : Codec} `{CF : CaseFolding} `{T : ErrorText}.

(** C23. Integrity of the cache under requests.  While the other tasks keep
    the cache sound and respect the lock of the row, a request that ends in
    any way leaves a sound cache (every object hashes to its name, every row
    has its object) in which no object has changed and no row has lost its
    object; when it succeeds, the row describes the bytes it returned, and
    bytes from the network agree with every checksum file that upstream
    serves for the artifact, whether they came from upstream or from the
    remote cache. *)
Theorem fetch_integrity setup c version key lock_key type_ classifier url w r w' :
  rely setup key -> sound w ->
  get_or_fetch_artifact setup c version key lock_key type_ classifier url w = (r, w') ->
  sound w' /\ extends w w' /\
  forall bytes origin, r = Ok (bytes, origin) ->
    (exists e, row key w' = Some e /\ hash e = sha256 bytes) /\
    (origin = Remote -> url = None -> checked setup c version type_ classifier bytes).
Proof.
  intros HR Hs Hrun.
  pose proof (fetch_delivers setup key HR w c version lock_key type_ classifier url Hs) as H.
  unfold wp in H. rewrite Hrun in H. destruct r as [[b o]|e].
  - destruct H as ([? ?] & Hrow & Hc). split_and!; [done.. |]. by intros b' o' [= <- <-].
  - destruct H as [? ?]. by split_and!.
Qed.

(** A row that is there is answered from the store and nothing else. *)
Lemma cached_run setup c version key lock_key type_ classifier url e w :
  (forall w, sound w -> safe w (waiting setup w)) -> sound w -> row key w = Some e ->
  exists bytes w', get_or_fetch_artifact setup c version key lock_key type_ classifier url w
    = (Ok (bytes, Disk), w') /\ sha256 bytes = hash e /\ safe w w' /\
    requests w' = requests (waiting setup w) /\ outcomes w' = outcomes (waiting setup w)
    /\ pushes w' = pushes (waiting setup w).
Proof.
  intros HW Hs Hr. pose proof (HW w Hs) as Hwait.
  destruct (x_rows _ _ (proj2 Hwait) key e Hr) as (e' & Hr' & He).
  destruct (s_backed _ (proj1 Hwait) key e' Hr') as [bytes Hb].
  unfold get_or_fetch_artifact, mbind, M_bind, coord_lock, lookup_row. cbn. unfold row in Hr'.
  rewrite Hr'. unfold cached. rewrite Hb. unfold touch_row. eexists bytes, _. split; [done |].
  split_and!; try done.
  - rewrite <- He. unfold Cas.get in Hb. apply fmap_Some_1 in Hb as (b & Hb & ->).
    by apply (s_intact _ (proj1 Hwait)).
  - apply safe_trans with (waiting setup w); [done | by apply touch_safe, Hwait].
Qed.

(** Once a request has succeeded the artifact is served from disk: in
    every later state of the cache, with any configuration and network, a
    request for the same row returns bytes with the same SHA-256, asks for
    no URL, and does not turn to the remote cache. *)
Theorem fetch_then_cached setup c version key lock_key type_ classifier url w bytes origin w1
    setup2 lock_key2 type2 classifier2 url2 w2 :
  rely setup key -> sound w ->
  get_or_fetch_artifact setup c version key lock_key type_ classifier url w = (Ok (bytes, origin), w1) ->
  (forall w, sound w -> safe w (waiting setup2 w)) -> safe w1 w2 ->
  exists bytes2 w3,
    get_or_fetch_artifact setup2 c version key lock_key2 type2 classifier2 url2 w2 = (Ok (bytes2, Disk), w3)
    /\ sha256 bytes2 = sha256 bytes /\ safe w2 w3
    /\ requests w3 = requests (waiting setup2 w2) /\ outcomes w3 = outcomes (waiting setup2 w2)
    /\ pushes w3 = pushes (waiting setup2 w2).
Proof.
  intros HR Hs Hrun HW [Hs2 Hx].
  pose proof (fetch_delivers setup key HR w c version lock_key type_ classifier url Hs) as H.
  unfold wp in H. rewrite Hrun in H. destruct H as (_ & (e & He & Hh) & _).
  destruct (x_rows _ _ Hx key e He) as (e2 & He2 & Hh2).
  destruct (cached_run setup2 c version key lock_key2 type2 classifier2 url2 e2 w2 HW Hs2 He2)
    as (bytes2 & w3 & H1 & H2 & H3). exists bytes2, w3. split_and!; try done; try apply H3.
  rewrite H2, Hh2, Hh. done.
Qed.

(** ** The source the resolver sees *)

Context `{Q : Xml.QuickXml} `{PX : MetadataXml.PlainXml}.

Definition collision : Prop := exists a b : Bytes, a <> b /\ sha256 a = sha256 b.

(** Answered from disk: no URL, no remote cache. *)
Definition quiet (s : Setup) (w w' : World) : Prop :=
  safe w w' /\ requests w' = requests (waiting s w) /\ outcomes w' = outcomes (waiting s w).

Lemma same_bytes_later setup c version key lock_key type_ classifier url w bytes origin w1
    setup2 url2 w2 :
  rely setup key -> sound w ->
  get_or_fetch_artifact setup c version key lock_key type_ classifier url w = (Ok (bytes, origin), w1) ->
  (forall w, sound w -> safe w (waiting setup2 w)) -> safe w1 w2 ->
  (exists w3,
    get_or_fetch_artifact setup2 c version key lock_key type_ classifier url2 w2 = (Ok (bytes, Disk), w3)
    /\ quiet setup2 w2 w3) \/ collision.
Proof.
  intros HR Hs Hrun HW Hx.
  destruct (fetch_then_cached setup c version key lock_key type_ classifier url w bytes origin w1
    setup2 lock_key type_ classifier url2 w2 HR Hs Hrun HW Hx) as (b2 & w3 & H & Hb & ? & ? & ? & _).
  destruct (decide (b2 = bytes)) as [->|Hne]; [left; by exists w3 | right; by exists b2, bytes].
Qed.

(** The source answers the same question the same way: when a POM, a
    version list or the publishes of a SNAPSHOT have been fetched, every
    later state of the cache, with any configuration and network, gives the
    same answer, from disk and without a request, or else two byte strings
    with the same SHA-256 are known.  This is what the resolver's interface
    to its sources promises within a walk. *)
Theorem source_stable setup c version w setup2 w1 w2 origin :
  sound w -> (forall w, sound w -> safe w (waiting setup2 w)) -> safe w1 w2 ->
  (forall pom, rely setup (pom_key c version) ->
    fetch_pom setup c version w = Some (Ok (pom, origin), w1) ->
    (exists w3, fetch_pom setup2 c version w2 = Some (Ok (pom, Disk), w3) /\ quiet setup2 w2 w3)
    \/ collision) /\
  (forall md, rely setup (metadata_key c METADATA_SENTINEL_VERSION) ->
    fetch_metadata setup c w = (Ok (md, origin), w1) ->
    (exists w3, fetch_metadata setup2 c w2 = (Ok (md, Disk), w3) /\ quiet setup2 w2 w3)
    \/ collision) /\
  (forall info, rely setup (metadata_key c (snapshot_meta_version version)) ->
    fetch_snapshot_info setup c version w = Some (Ok (info, origin), w1) ->
    (exists w3, fetch_snapshot_info setup2 c version w2 = Some (Ok (info, Disk), w3) /\ quiet setup2 w2 w3)
    \/ collision).
Proof.
  intros Hs HW Hx. unfold fetch_pom, get_pom_bytes, fetch_metadata, fetch_snapshot_info.
  split_and!; intros ans HR H;
    match type of H with context [get_or_fetch_artifact setup ?c ?v ?k ?lk ?t ?cl ?u ?w0] =>
      destruct (get_or_fetch_artifact setup c v k lk t cl u w0) as [[[bytes o]|e] w'] eqn:Hrun;
      [| first [by destruct e | done]]
    end;
    match goal with |- context [get_or_fetch_artifact setup2 _ _ _ _ _ _ ?u _] =>
      destruct (fun Hx' => same_bytes_later _ _ _ _ _ _ _ _ _ _ _ _ setup2 u w2 HR Hs Hrun HW Hx')
        as [(w3 & Hr & Hq) | Hc]; [| left | by right]
    end.
  2, 4, 6: exists w3; rewrite Hr; split; [| done].
  all: try (destruct (PomXml.parse_pom _) as [[p|e]|]; by simplify_eq/=).
  all: try (destruct (MetadataXml.parse_snapshot_metadata _) as [[p|e]|]; by simplify_eq/=).
  all: by simplify_eq.
Qed.

End Theorems.

(** ** With and without the remote cache *)

Create HintDb same.

Section Transparency.
Context `{D : Digest} `{S1 : Sha1} `{C : Codec} `{CF : CaseFolding} `{T : ErrorText}.

(** No other task. *)
Definition alone (s : Setup) : Prop := forall w, waiting s w = w /\ others s w = w.

(** A state with the same index and no object less. *)
Definition ahead (w w' : World) : Prop :=
  index w = index w' /\ forall h, contains h (store w) = true -> contains h (store w') = true.

(** Where the one run succeeds the other gives the same answer, and stays ahead. *)
Definition same {A} (m m' : M A) : Prop :=
  forall w w' a w1, ahead w w' -> m w = (Ok a, w1) -> exists w1', m' w' = (Ok a, w1') /\ ahead w1 w1'.

Lemma same_bind {A B} (m m' : M A) (k k' : A -> M B) :
  same m m' -> (forall a, same (k a) (k' a)) -> same (m ≫= k) (m' ≫= k').
Proof.
  intros Hm Hk w w' b w2 E. unfold mbind, M_bind. destruct (m w) as [[a|e] w1] eqn:H1; [| done].
  destruct (Hm w w' a w1 E H1) as (w1' & -> & E'). by apply Hk.
Qed.

Variables (s s' : Setup).
Hypothesis Hhttp : http s' = http s.
Hypothesis Hconf : fetch_config s' = fetch_config s.
Hypothesis Hnow : now_unix s' = now_unix s.
Hypothesis Hput : put_fails s' = put_fails s.
Hypothesis Hs : alone s.
Hypothesis Hs' : alone s'.

Lemma same_ret {A} (a : A) : same (mret a) (mret a).
Proof. intros w w' b w1 E [= <- <-]. by exists w'. Qed.

Lemma same_lift {A} (r : result MetadataError A) : same (lift r) (lift r).
Proof. intros w w' b w1 E [= -> <-]. by exists w'. Qed.

Lemma same_request url cond : same (request s url cond) (request s' url cond).
Proof. intros w w' b w1 [E1 E2] [= <- <-]. unfold request. rewrite Hhttp, Hconf. by eexists. Qed.

Lemma same_await : same (await s) (await s').
Proof.
  intros w w' b w1 E [= <- <-]. unfold await. rewrite (proj2 (Hs w)), (proj2 (Hs' w')). by exists w'.
Qed.

(** The bytes are there after [put], and nothing else is. *)
Lemma contains_put bytes st h :
  contains h (Cas.put bytes st).2 = contains h st || bool_decide (h = sha256 bytes).
Proof.
  unfold Cas.put. destruct (contains (sha256 bytes) st) eqn:Hc; cbn.
  { case_bool_decide as E; [subst; by rewrite Hc | by rewrite orb_false_r]. }
  unfold contains, finalize_tmp in *. cbn. destruct (decide (sha256 bytes = h)) as [<-|Hne].
  - by rewrite lookup_insert_eq, Hc, (bool_decide_eq_true_2 (sha256 bytes = _)).
  - rewrite lookup_insert_ne by done. by rewrite (bool_decide_eq_false_2 (h = _)), orb_false_r.
Qed.

(** A put that succeeds leaves the run behind in the same relation. *)
Definition ahead_put (bytes : Bytes) : Prop :=
  forall w w' h w1, ahead w w' -> cas_put s bytes w = (Ok (Ok h), w1) ->
    exists w1', cas_put s' bytes w' = (Ok (Ok h), w1') /\ ahead w1 w1'.

Lemma same_put bytes : ahead_put bytes.
Proof.
  intros w w' h w1 [E1 E2]. unfold cas_put. rewrite Hput.
  destruct (contains (sha256 bytes) (store w)) eqn:Hc, (put_fails s bytes) eqn:Hf; cbn [negb andb]; try done;
    intros H; rewrite ?(E2 _ Hc), ?andb_false_r; cbn [negb andb];
    pose proof (contains_put bytes (store w)) as P1; pose proof (contains_put bytes (store w')) as P2;
    destruct (Cas.put bytes (store w)) as [h1 st1] eqn:H1, (Cas.put bytes (store w')) as [h2 st2] eqn:H2;
    injection H as <- <-; assert (h2 = h1) as -> by
      (unfold Cas.put, finalize_tmp in H1, H2; destruct (contains _ _), (contains _ _); simplify_eq/=; done);
    (eexists; split; [done |]; split; [exact E1 |]); cbn in *; intros h; rewrite P1, P2, !orb_true_iff;
    intros [?%E2|?]; auto.
Qed.

Lemma same_cas_put {A} c version bytes (k k' : ContentHash -> M A) :
  (forall h, same (k h) (k' h)) ->
  same (put ← cas_put s bytes; h ← lift (map_err (fun _ => map_cas_err c version) put); k h)
       (put ← cas_put s' bytes; h ← lift (map_err (fun _ => map_cas_err c version) put); k' h).
Proof.
  intros Hk w w' a w1 E. unfold mbind, M_bind, lift.
  destruct (cas_put s bytes w) as [[[h|[]]|e] w2] eqn:H; [| done..].
  destruct (same_put bytes w w' h w2 E H) as (w2' & -> & E'). by apply Hk.
Qed.

Lemma same_index_put c version key e : same (index_put c version key e) (index_put c version key e).
Proof.
  intros w w' a w1 [E1 E2]. unfold index_put. rewrite E1.
  destruct (Index.put _ _ _) as [[[]|err] ix]; [| done]. intros [= <- <-]. by eexists.
Qed.

Hint Resolve same_bind same_ret same_lift same_request same_await same_index_put : same.

Lemma upstream_url_same c version type_ classifier :
  upstream_url s' c version type_ classifier = upstream_url s c version type_ classifier.
Proof. unfold upstream_url. by rewrite Hconf. Qed.

Lemma entry_for_same h bytes sha url etag lm t :
  entry_for s' h bytes sha url etag lm t = entry_for s h bytes sha url etag lm t.
Proof. unfold entry_for. by rewrite Hnow. Qed.

Lemma same_fetch_and_cache c version type_ classifier cond :
  same (fetch_and_cache s c version type_ classifier cond)
       (fetch_and_cache s' c version type_ classifier cond).
Proof.
  unfold fetch_and_cache. rewrite upstream_url_same.
  repeat (apply same_bind; [auto with same | intros ?]).
  match goal with |- same (match ?x with _ => _ end) _ => destruct x end; [| auto with same].
  apply same_bind; [auto with same | intros ?]. apply same_cas_put. intros ?. rewrite entry_for_same.
  auto with same.
Qed.

Lemma same_fetch_url_and_cache c version url :
  same (fetch_url_and_cache s c version url) (fetch_url_and_cache s' c version url).
Proof.
  unfold fetch_url_and_cache. repeat (apply same_bind; [auto with same | intros ?]).
  match goal with |- same (match ?x with _ => _ end) _ => destruct x end; [| auto with same].
  apply same_cas_put. intros ?. rewrite entry_for_same. auto with same.
Qed.

(** The upload never changes an answer. *)
Lemma push_idle client h size w :
  (push_to_roastery s' client h size w).1 = Ok tt
  /\ index (push_to_roastery s' client h size w).2 = index w
  /\ store (push_to_roastery s' client h size w).2 = store w.
Proof.
  unfold push_to_roastery, record_push_outcome, mbind, M_bind, await.
  destruct (Cas.get h (store w)); [| done]. destruct (Hs' w) as [_ ->].
  by destruct (put_blob _ _ _ _).
Qed.

Hypothesis Hnone : roastery s = None.

Lemma same_upstream c version type_ classifier key url :
  same (upstream s c version type_ classifier key url) (upstream s' c version type_ classifier key url).
Proof.
  unfold upstream. apply same_bind.
  { destruct url; [apply same_fetch_url_and_cache | apply same_fetch_and_cache]. }
  intros [[bytes e] o]. apply same_bind; [auto with same |]. intros []. rewrite Hnone.
  apply same_bind; [| auto with same].
  destruct (roastery s') as [client|]; [| auto with same]. destruct url; [auto with same |].
  destruct (roastery_push s'); [| auto with same].
  intros w w' a w1 [E1 E2] [= <- <-]. destruct (push_idle client (hash e) (size_bytes e) w') as (H1 & H2 & H3).
  destruct (push_to_roastery _ _ _ _ _) as [r w2]; cbn in *. subst r. exists w2. split; [done |].
  split; [by rewrite H2 | by rewrite H3].
Qed.

(** The sidecar that upstream serves for SHA-256. *)
Definition sha256_served (c : Coords) (version type_ : string) (classifier : option string)
    : option string :=
  sidecar_text (fetch (http s) (fetch_config s)
    (url_for_sidecar (upstream_url s c version type_ classifier) "sha256") no_conditions).

(** The remote cache always gives an answer, leaves the index alone, and has
    its bytes checked against a sidecar that is there. *)
Lemma try_answers client c version type_ classifier w :
  (forall h coords size body, get_blob_with_coords client h coords = Ok (size, body) ->
     allocates s' size = true) ->
  wp (try_roastery s' client c version type_ classifier)
    (fun r w' => ahead w w' /\
      forall b e, r = Ok (b, e) -> exists raw ex,
        sha256_served c version type_ classifier = Some raw
        /\ parse Sha256A raw = Ok ex /\ hex ex = hex_sha256 b)
    (fun _ => False) w.
Proof.
  intros Halloc. unfold wp, try_roastery, mbind, M_bind, request, await, with_capacity, lift.
  rewrite Hhttp, Hconf, upstream_url_same. fold (sha256_served c version type_ classifier). rewrite (proj2 (Hs' _)).
  destruct (sha256_served c version type_ classifier) as [raw|] eqn:Hraw; [| done]. cbn [option_bind].
  destruct (first_token raw) as [token|]; [| done].
  destruct (digest_from_hex _) as [asked|]; [| done]. rewrite (proj2 (Hs' _)).
  destruct (get_blob_with_coords _ _ _) as [[size body]|err] eqn:Hblob; [| done].
  rewrite (Halloc _ _ _ _ Hblob), (proj2 (Hs' _)). destruct body as [bytes|]; [| done].
  destruct (negb _); [done |]. destruct (verify _ _ _) as [v|] eqn:Hv; [| done].
  unfold cas_put. destruct (_ && _); [done |].
  match goal with |- context [Cas.put bytes (store ?w1)] =>
    assert (Hahead : ahead w (with_store (Cas.put bytes (store w1)).2 w1))
      by (split; [done |]; intros h Hh; cbn; rewrite contains_put; cbn; by rewrite Hh) end.
  destruct (Cas.put _ _) as [h st]. destruct (bool_decide _); [done |].
  split; [done |]. intros b e [= <- _]. exists raw.
  destruct (proj1 (verify_ok _ _ _ _ Hv) raw eq_refl) as (ex & Hp & Hh). by exists ex.
Qed.

(** Bytes from upstream carry the digest of the sidecar. *)
Lemma upstream_digest c version type_ classifier key b o w w1 raw ex :
  upstream s c version type_ classifier key None w = (Ok (b, o), w1) ->
  sha256_served c version type_ classifier = Some raw -> parse Sha256A raw = Ok ex ->
  o = Remote /\ hex ex = hex_sha256 b.
Proof.
  unfold upstream, fetch_and_cache, mbind, M_bind, request, await, lift. intros H Hraw Hp.
  cbv beta iota zeta in H. unfold sha256_served in Hraw. rewrite Hraw in H.
  destruct (map_err _ (fetch _ _ (upstream_url _ _ _ _ _) _)) as [[bytes etag lm ct|]|]; [| done..].
  cbn [mbind M_bind] in H. unfold mbind, M_bind in H.
  destruct (verify _ _ _) as [v|] eqn:Hv; [| done]. cbn [map_err] in H.
  unfold cas_put, mret, M_ret in H. destruct (_ && _); [done |]. destruct (Cas.put _ _) as [h st].
  cbn [map_err] in H. destruct (index_put _ _ _ _ _) as [[[]|] w2]; [| done]. rewrite Hnone in H.
  injection H as <- <- _. split; [done |].
  destruct (proj1 (verify_ok _ _ _ _ Hv) raw eq_refl) as (ex' & Hp' & Hh). congruence.
Qed.

(** The answer after the remote cache was asked. *)
Definition agrees (c : Coords) (version : string) (b : Bytes) (o : FetchOrigin)
    (r : result MetadataError (Bytes * FetchOrigin)) : Prop :=
  (exists e, r = Err (Transport (ga c) version (detail (FromIndex e))))
  \/ exists b', r = Ok (b', o) /\ hex_sha256 b' = hex_sha256 b.

Lemma miss_agrees c version type_ classifier key url b o w w1 :
  (forall client h coords size body, roastery s' = Some client ->
     get_blob_with_coords client h coords = Ok (size, body) -> allocates s' size = true) ->
  upstream s c version type_ classifier key url w = (Ok (b, o), w1) ->
  agrees c version b o (true_miss s' c version type_ classifier key url w).1.
Proof.
  intros Halloc Hrun.
  assert (Hup : forall w', ahead w w' ->
    agrees c version b o (upstream s' c version type_ classifier key url w').1).
  { intros w' E. destruct (same_upstream c version type_ classifier key url w w' _ _ E Hrun) as (w1' & -> & _).
    right. by exists b. }
  unfold true_miss, roastery_first. destruct url as [url|]; [by apply Hup |].
  destruct (roastery s') as [client|] eqn:Hc; [| by apply Hup].
  pose proof (try_answers client c version type_ classifier w ltac:(eauto)) as H. unfold wp in H.
  unfold mbind, M_bind. destruct (try_roastery _ _ _ _ _ _ _) as [[r|] w']; [| done].
  destruct H as [Hi H]. destruct r as [[b' e]|oc]; [| by apply Hup].
  destruct (H b' e eq_refl) as (raw & ex & Hraw & Hp & Hh).
  destruct (upstream_digest _ _ _ _ _ _ _ _ _ _ _ Hrun Hraw Hp) as [-> Hd].
  unfold index_put. destruct (Index.put _ _ _) as [[[]|err] ix]; [| by left; exists err].
  right. exists b'. split; [by destruct (roastery_push s') | congruence].
Qed.

End Transparency.

Section TransparencyTheorem.
Context `{D : Digest} `{S1 : Sha1} `{C : Codec} `{CF : CaseFolding} `{T : ErrorText}.

(** C24. The remote cache is transparent.  With no other task on the cache
    ([alone]), with uploads on or off and whatever its client answers (a blob
    of any bytes, a body that breaks off, any error), provided that it
    announces no size that [Vec::with_capacity] panics on, a request that
    succeeds without the remote cache succeeds with it, unless the index
    rejects the row; it answers from the same kind of origin and with bytes of
    the same SHA-256.  The proviso is needed: see [announced_size_panics]. *)
Theorem roastery_transparent s client roastery push c version key lock_key type_ classifier url
    w bytes origin w1 r w2 :
  alone s -> CacheSource.roastery s = None ->
  (forall h coords size body, get_blob_with_coords client h coords = Ok (size, body) ->
     allocates s size = true) ->
  get_or_fetch_artifact s c version key lock_key type_ classifier url w = (Ok (bytes, origin), w1) ->
  get_or_fetch_artifact (with_roastery_push push (with_roastery client roastery s))
    c version key lock_key type_ classifier url w = (r, w2) ->
  (exists e, r = Err (Transport (ga c) version (detail (FromIndex e))))
  \/ exists bytes', r = Ok (bytes', origin) /\ hex_sha256 bytes' = hex_sha256 bytes.
Proof.
  set (s' := with_roastery_push _ _). intros Hs Hnone Halloc H H'. assert (Hs' : alone s') by exact Hs.
  fold (agrees c version bytes origin r). change r with (r, w2).1. rewrite <- H'. clear H' r w2.
  revert H. unfold get_or_fetch_artifact, mbind, M_bind, coord_lock, await, lookup_row, lift.
  rewrite (proj1 (Hs w)), (proj1 (Hs' w)). destruct (Index.get key (index w)) as [e|] eqn:Hrow.
  - unfold cached. destruct (Cas.get _ _) as [b|]; [| done]. intros [= <- <- _]. right. by exists b.
  - rewrite (proj2 (Hs w)), (proj2 (Hs' w)). change (acquire s') with (acquire s).
    destruct (map_err _ (acquire s lock_key)) as [[]|]; [| done]. rewrite Hrow. intros H.
    apply (miss_agrees s s') with w1; try done; [by intros client' h coords size body [= <-]; apply Halloc |]. revert H. unfold true_miss, roastery_first.
    rewrite Hnone. by destruct url.
Qed.

End TransparencyTheorem.
(** ** Requests that interleave *)

Section Interleaving.
Context `{D : Digest} `{S1 : Sha1} `{C : Codec} `{CF : CaseFolding} `{T : ErrorText}.
Variable s : Setup.
Hypothesis Hs : alone s.
Variable key : IndexKey.

(** An operation changes no row but that of [key]. *)
Definition frames {A} (m : M A) : Prop := forall w k, k <> key -> row k (m w).2 = row k w.

Lemma frames_bind {A B} (m : M A) (k : A -> M B) :
  frames m -> (forall a, frames (k a)) -> frames (m ≫= k).
Proof.
  intros Hm Hk w k' Hne. unfold mbind, M_bind. specialize (Hm w k' Hne).
  destruct (m w) as [[a|e] w']; [| done]. cbn in Hm. by rewrite <- Hm, <- (Hk a w' k' Hne).
Qed.

Lemma frames_index {A} (m : M A) : (forall w, index (m w).2 = index w) -> frames m.
Proof. intros H w k _. unfold row. by rewrite H. Qed.

Lemma frames_await : frames (await s).
Proof. apply frames_index. intros w. unfold await. cbn. by rewrite (proj2 (Hs w)). Qed.

Lemma frames_cas_put bytes : frames (cas_put s bytes).
Proof. apply frames_index. intros w. unfold cas_put. destruct (_ && _); [done |]. by destruct (Cas.put _ _). Qed.

Lemma frames_index_put c version e : frames (index_put c version key e).
Proof.
  intros w k Hne. unfold index_put, row. destruct (Index.put _ _ _) as [r ix] eqn:Hp.
  destruct (put_rows _ _ _ _ _ Hp) as [Ho _]. by destruct r as [[]|]; apply Ho.
Qed.

Lemma frames_touch_row : frames (touch_row s key).
Proof.
  intros w k Hne. unfold touch_row, row. cbn.
  by destruct (touch_map key (now_unix s) (index w) k) as [->|[-> _]].
Qed.

Lemma frames_push client h size : frames (push_to_roastery s client h size).
Proof. apply frames_index. intros w. by apply push_idle. Qed.

Ltac frame :=
  lazymatch goal with
  | |- frames (mbind _ _) => apply frames_bind; [| intros ?]
  | |- frames (await _) => apply frames_await
  | |- frames (cas_put _ _) => apply frames_cas_put
  | |- frames (index_put _ _ _ _) => apply frames_index_put
  | |- frames (touch_row _ _) => apply frames_touch_row
  | |- frames (push_to_roastery _ _ _ _) => apply frames_push
  | |- frames (match ?x with _ => _ end) => destruct x
  | |- frames (let (_, _) := ?x in _) => destruct x
  | |- frames (if ?x then _ else _) => destruct x
  | |- _ => solve [by apply frames_index]
  end.

Lemma fetch_frames c version lock_key type_ classifier url :
  frames (get_or_fetch_artifact s c version key lock_key type_ classifier url).
Proof.
  unfold get_or_fetch_artifact, true_miss, roastery_first, upstream, try_roastery,
    fetch_and_cache, fetch_url_and_cache. cbn zeta.
  assert (Hl : frames (coord_lock s)).
  { apply frames_index. intros w. unfold coord_lock. cbn. by rewrite (proj1 (Hs w)). }
  assert (Hc : forall e, frames (cached c version e)).
  { intros e. apply frames_index. intros w. unfold cached. by destruct (Cas.get _ _). }
  apply frames_bind; [done | intros _]. repeat first [apply Hc | frame].
Qed.

(** The interference of one request with another. *)
Definition run c version lock_key type_ classifier url (w : World) : World :=
  (get_or_fetch_artifact s c version key lock_key type_ classifier url w).2.

Lemma rely_alone k : rely s k.
Proof.
  split; intros w; [intros H | intros H |]; destruct (Hs w) as [E1 E2];
    rewrite ?E1, ?E2; [by apply safe_refl.. | done].
Qed.

(** A request is a task that other requests can rely on. *)
Lemma run_relied c version lock_key type_ classifier url k s2 :
  k <> key ->
  waiting s2 = run c version lock_key type_ classifier url ->
  others s2 = run c version lock_key type_ classifier url -> rely s2 k.
Proof.
  intros Hne E1 E2.
  assert (H : forall w, sound w -> safe w (run c version lock_key type_ classifier url w)).
  { intros w Hw. unfold run.
    pose proof (fetch_delivers s key (rely_alone key) w c version lock_key type_ classifier url Hw) as H.
    unfold wp in H. destruct (get_or_fetch_artifact _ _ _ _ _ _ _ _ _) as [[r|] w']; [apply H | done]. }
  split; intros w; rewrite ?E1, ?E2; [apply H.. | by apply fetch_frames].
Qed.

End Interleaving.
(** The second lookup, under the lock of the file system, never finds a row
    that the first did not: the index is the map in memory, and the lock of
    the coordinate keeps the other tasks away from the row. *)
Lemma recheck_idle `{D : Digest} `{S1 : Sha1} `{C : Codec} `{CF : CaseFolding} `{T : ErrorText}
    setup c version key lock_key type_ classifier url w :
  rely setup key -> row key (waiting setup w) = None -> acquire setup lock_key = Ok tt ->
  get_or_fetch_artifact setup c version key lock_key type_ classifier url w
  = true_miss setup c version type_ classifier key url (others setup (waiting setup w)).
Proof.
  intros HR Hrow Hlock. pose proof (r_locked _ _ HR (waiting setup w)) as Hr. rewrite Hrow in Hr.
  unfold get_or_fetch_artifact, mbind, M_bind, coord_lock, lookup_row, await, lift.
  unfold row in Hrow, Hr. by rewrite Hrow, Hlock, Hr.
Qed.

(** ** A run *)

Module Run.

#[local] Instance digest : Digest := pad_digest.
#[local] Instance sha1_example : Sha1 := fun b => take 20 (b ++ repeat 0%Z 20).
#[local] Instance codec : Codec := bit_codec (fun _ => 0).
#[local] Instance text : ErrorText := fun _ => "error".

Definition bytes_of (s : string) : Bytes := byte_of <$> list_ascii_of_string s.

Definition ok (b : Bytes) : result SendError Response := Ok (mkResponse 200 (fun _ => None) (Ok b)).

(** A repository with two artifacts; only the first has a SHA-256 file. *)
Definition net : Http := mkHttp (fun url _ =>
  if String.eqb url "u/g/a/1/a-1.pom" then ok [1; 2]%Z
  else if String.eqb url "u/g/a/1/a-1.pom.sha256" then ok (bytes_of (hex_sha256 [1; 2]%Z +:+ "  a-1.pom"))
  else if String.eqb url "u/g/b/1/b-1.pom" then ok [3]%Z
  else if String.eqb url "u/g/a/maven-metadata.xml" then ok (bytes_of "1.5")
  else Ok (mkResponse 404 (fun _ => None) (Ok []))) (fun _ => true).

(** Up to [isize::MAX] bytes. *)
Definition fits (size : Z) : bool := (size <? 2 ^ 63)%Z.

Definition direct : Setup :=
  mkSetup net (mkFetchConfig 30 "u/") None None false (fun _ => Ok tt) 5 (fun _ => false) fits id id.

Definition a : Coords := mkCoords "g" "a".
Definition b : Coords := mkCoords "g" "b".

(** A remote cache that has other bytes under every name, and one that has
    the right ones. *)
Definition client (d : Bytes) : RoasteryClient :=
  mkClient (fun _ _ => Ok (Z.of_nat (length d), Some d)) (fun _ _ _ => Ok tt).

(** While [a] is requested, another task requests [b]. *)
Definition busy : Setup :=
  let other := run direct (pom_key b "1") b "1" (mkLockKey b "1") "pom" None None in
  mkSetup net (mkFetchConfig 30 "u/") (Some (client [9]%Z)) (Some "r") true (fun _ => Ok tt) 5 (fun _ => false) fits other other.

Definition start : World :=
  mkWorld ∅ (Index.mkIndex Index.IndexState_default 10 (Index.mkDisk None [])) [] [] [].

Lemma start_sound : sound start.
Proof. split; [intros h x H | intros k e H]; unfold row in *; cbn in *; discriminate H. Qed.

Lemma busy_relies : rely busy (pom_key a "1").
Proof. by eapply (run_relied direct ltac:(done) (pom_key b "1")). Qed.

Definition first := get_or_fetch_artifact busy a "1" (pom_key a "1") (mkLockKey a "1") "pom" None None start.

(** What the run did. *)
Example first_run :
  first.1 = Ok ([1; 2]%Z, Remote)
  /\ outcomes first.2 = [DigestMismatch] /\ pushes first.2 = [Pushed]
  /\ is_Some (row (pom_key b "1") first.2).
Proof. vm_compute. split_and!; [done.. |]. by eexists. Qed.

Lemma fetch_integrity_witness :
  sound first.2 /\ extends start first.2 /\ checked busy a "1" "pom" None [1; 2]%Z.
Proof.
  destruct (fetch_integrity busy a "1" (pom_key a "1") (mkLockKey a "1") "pom" None None start
    first.1 first.2 busy_relies start_sound (surjective_pairing first))
    as (H1 & H2 & H3).
  split_and!; [done | done |]. apply (H3 [1; 2]%Z Remote); [exact (proj1 first_run) | done | done].
Defined.

(** The network is gone. *)
Definition offline : Setup :=
  mkSetup (mkHttp (fun _ _ => Err SendTimeout) (fun _ => true)) (mkFetchConfig 30 "u/") None None false
    (fun _ => Err LockIo) 6 (fun _ => false) fits id id.

#[local] Instance xml : Xml.QuickXml := {| Xml.tokens := fun _ => []; Xml.decode := Ok; Xml.unescape := Ok |}.

(** A lexer that takes a document for the text of one version. *)
#[local] Instance lexer : MetadataXml.PlainXml := fun s =>
  Xml.events [Xml.Elem "versioning" [] [Xml.Elem "versions" [] [Xml.Elem "version" []
    [Xml.Content (Xml.Text s)]]]].

Definition listed := fetch_metadata busy a start.

Definition metadata_a : GaMetadata := mkMetadata a ["1.5"] None None.

Example listed_run : listed.1 = Ok (metadata_a, Remote).
Proof. vm_compute. reflexivity. Qed.

Lemma busy_relies_metadata : rely busy (metadata_key a METADATA_SENTINEL_VERSION).
Proof. by eapply (run_relied direct ltac:(done) (pom_key b "1")). Qed.

Lemma listed_sound : sound listed.2.
Proof.
  pose proof (fetch_delivers busy (metadata_key a METADATA_SENTINEL_VERSION) busy_relies_metadata start a ""
    (mkLockKey a METADATA_SENTINEL_VERSION) "maven-metadata.xml" None (Some (metadata_url busy a))
    start_sound) as Hd.
  unfold wp in Hd. unfold listed, fetch_metadata.
  destruct (get_or_fetch_artifact _ _ _ _ _ _ _ _ _) as [[[bytes o]|e] w']; [apply Hd |].
  destruct e; apply Hd.
Qed.

Lemma source_stable_witness :
  (exists w3, fetch_metadata offline a listed.2 = (Ok (metadata_a, Disk), w3)) \/ collision.
Proof.
  destruct (source_stable busy a "1" start offline listed.2 listed.2 Remote start_sound
    (fun w Hw => safe_refl w Hw) (safe_refl _ listed_sound)) as (_ & H & _).
  destruct (H metadata_a busy_relies_metadata) as [(w3 & H3 & _) | Hc].
  - change (listed = (Ok (metadata_a, Remote), listed.2)). rewrite <- listed_run. apply surjective_pairing.
  - left. exists w3. exact H3.
  - right. exact Hc.
Defined.

Definition request_of (s : Setup) :=
  get_or_fetch_artifact s a "1" (pom_key a "1") (mkLockKey a "1") "pom" None None start.

Definition remote (d : Bytes) : Setup := with_roastery_push true (with_roastery (client d) "r" direct).

Example direct_run : (request_of direct).1 = Ok ([1; 2]%Z, Remote).
Proof. vm_compute. reflexivity. Qed.

Example remote_runs :
  (request_of (remote [9]%Z)).1 = Ok ([1; 2]%Z, Remote)
  /\ outcomes (request_of (remote [9]%Z)).2 = [DigestMismatch]
  /\ (request_of (remote [1; 2]%Z)).1 = Ok ([1; 2]%Z, Remote)
  /\ outcomes (request_of (remote [1; 2]%Z)).2 = [Hit].
Proof. vm_compute. split_and!; reflexivity. Qed.

(** A remote cache that announces 2^63 bytes ends the request with a panic,
    where the doc of the source promises that a failing remote cache only
    falls through to upstream. *)
Definition hostile : RoasteryClient := mkClient (fun _ _ => Ok ((2 ^ 63)%Z, None)) (fun _ _ _ => Ok tt).

Theorem announced_size_panics :
  (request_of direct).1 = Ok ([1; 2]%Z, Remote)
  /\ (request_of (with_roastery hostile "r" direct)).1 = Err (panic a "1").
Proof. vm_compute. split; reflexivity. Qed.

Lemma roastery_transparent_witness :
  exists b, (request_of (remote [1; 2]%Z)).1 = Ok (b, Remote) /\ hex_sha256 b = hex_sha256 [1; 2]%Z.
Proof.
  destruct (roastery_transparent direct (client [1; 2]%Z) "r" true a "1" (pom_key a "1") (mkLockKey a "1")
    "pom" None None start [1; 2]%Z Remote (request_of direct).2 (request_of (remote [1; 2]%Z)).1
    (request_of (remote [1; 2]%Z)).2) as [[e He] | H].
  - intros w. split; reflexivity.
  - reflexivity.
  - intros h coords size body [= <- _]. reflexivity.
  - change (request_of direct = (Ok ([1; 2]%Z, Remote), (request_of direct).2)).
    rewrite <- direct_run. apply surjective_pairing.
  - apply surjective_pairing.
  - exfalso. rewrite (proj1 (proj2 (proj2 remote_runs))) in He. discriminate He.
  - exact H.
Defined.

End Run.
End CacheSourceFacts.
