(* ===== verification/Locks.v ===== *)
(** * barista-cache: locks on coordinates

    Models crates/barista-cache/src/lock.rs and the order in which
    [get_or_fetch_artifact] of source.rs takes its two locks: the mutex of a
    coordinate within the process, then the lock file that processes share.
    A system of processes and tasks runs in every interleaving; tasks may be
    dropped and processes killed at any point.  SHA-1 is [Sha1], the mutex is
    the fair one of tokio, and a lock file is free again when its holder is
    gone, as flock(2) has it. *)

From S2P Require Import Prelude Version Coords Cas Journal Index Pom Source Xml PomXml MetadataXml Fetch CacheSource.

Module Locks.
Import Coords Cas Fetch CacheSource.

#[export] Instance CoordVersionKey_eq : EqDecision CoordVersionKey.
Proof. solve_decision. Defined.
#[export] Instance CoordVersionKey_countable : Countable CoordVersionKey.
Proof. by apply (inj_countable' (fun k => (lk_coords k, lk_version k)) (fun x => mkLockKey x.1 x.2)); intros []. Defined.

(** ** The map of mutexes *)

Definition SHARDS : nat := 16.

(** The canonical text of a key. *)
Definition canonical (k : CoordVersionKey) : string :=
  group (lk_coords k) +:+ ":" +:+ artifact (lk_coords k) +:+ ":" +:+ lk_version k.

Definition first_byte (s : string) : option N := match s with String a _ => Some (code a) | "" => None end.

Definition shard_index (k : CoordVersionKey) : nat :=
  let first := match first_byte (artifact (lk_coords k)) with
               | Some b => b
               | None => default 0%N (first_byte (group (lk_coords k)))
               end in
  N.to_nat (N.land first 15).

(** A mutex is the number under which it was created. *)
Record CoordLockMap := mkMap { shards : list (gmap CoordVersionKey nat); created : nat }.

Definition new_map : CoordLockMap := mkMap (replicate SHARDS ∅) 0.

Definition mutex_of (k : CoordVersionKey) (m : CoordLockMap) : option nat := shards m !! shard_index k ≫= (!!) k.

Definition get_or_create (k : CoordVersionKey) (m : CoordLockMap) : nat * CoordLockMap :=
  match mutex_of k m with
  | Some id => (id, m)
  | None => (created m, mkMap (alter <[k := created m]> (shard_index k) (shards m)) (S (created m)))
  end.

Definition map_len (m : CoordLockMap) : nat := sum_list (size <$> shards m).

(** ** Lock files *)

Abbreviation Pid := nat.
Abbreviation Tid := nat.

Section Locks.
Context `{S1 : Sha1}.

Definition lock_path (lock_root : string) (k : CoordVersionKey) : string :=
  let hex := encode_hex (sha1 (byte_of <$> list_ascii_of_string (canonical k))) in
  lock_root +:+ "/" +:+ str_take 2 hex +:+ "/" +:+ hex +:+ ".lock".

(** Milliseconds. *)
Definition ACQUIRE_BACKOFF_START : Z := 5.
Definition ACQUIRE_BACKOFF_MAX : Z := 100.
Definition LOCK_ACQUIRE_TIMEOUT : Z := 120 * 1000.

Definition next_backoff (b : Z) : Z := Z.min (b * 2) ACQUIRE_BACKOFF_MAX.

(** ** Tasks *)

Inductive Outcome : Type :=
  | Hit
  | Fetched
  | Failed (e : LockError).

(** Where a task is: before [lock]; in the queue of the mutex; with the
    mutex, before its look at the index; polling the lock file, with the
    deadline, the pause after the next attempt and the time of that attempt;
    with both locks; done. *)
Inductive Pc : Type :=
  | Entering (k : CoordVersionKey)
  | Queued (k : CoordVersionKey) (id : nat)
  | Locked (k : CoordVersionKey) (id : nat)
  | Polling (k : CoordVersionKey) (id : nat) (deadline backoff wake : Z)
  | Critical (k : CoordVersionKey) (id : nat)
  | Finished (r : Outcome).

(** The mutex a task waits for or holds. *)
Definition mutex (pc : Pc) : option (CoordVersionKey * nat) :=
  match pc with
  | Queued k id | Locked k id | Polling k id _ _ _ | Critical k id => Some (k, id)
  | Entering _ | Finished _ => None
  end.

(** It holds it. *)
Definition holds (pc : Pc) : bool :=
  match pc with Locked _ _ | Polling _ _ _ _ _ | Critical _ _ => true | _ => false end.

(** A mutex is the queue of its tasks: the first holds it. *)
Record State := mkState {
  tasks : gmap Tid (Pid * Pc);
  maps : gmap Pid CoordLockMap;
  queues : gmap (Pid * nat) (list Tid);
  flocks : gmap string Tid;
  clock : Z
}.

Definition map_of (p : Pid) (s : State) : CoordLockMap := default new_map (maps s !! p).
Definition queue_of (q : Pid * nat) (s : State) : list Tid := default [] (queues s !! q).

Definition set_task (t : Tid) (x : Pid * Pc) (s : State) : State :=
  mkState (<[t := x]> (tasks s)) (maps s) (queues s) (flocks s) (clock s).
Definition del_task (t : Tid) (s : State) : State :=
  mkState (delete t (tasks s)) (maps s) (queues s) (flocks s) (clock s).
Definition set_map (p : Pid) (m : CoordLockMap) (s : State) : State :=
  mkState (tasks s) (<[p := m]> (maps s)) (queues s) (flocks s) (clock s).
Definition set_queue (q : Pid * nat) (l : list Tid) (s : State) : State :=
  mkState (tasks s) (maps s) (<[q := l]> (queues s)) (flocks s) (clock s).
Definition set_flocks (f : gmap string Tid) (s : State) : State :=
  mkState (tasks s) (maps s) (queues s) f (clock s).

(** The directory of lock files of each process. *)
Variable lock_root : Pid -> string.

(** A new task. *)
Definition spawn (t : Tid) (p : Pid) (k : CoordVersionKey) (s : State) : option State :=
  match tasks s !! t with None => Some (set_task t (p, Entering k) s) | Some _ => None end.

(** The guards of a task, dropped in the order the code drops them. *)
Definition drop_guards (t : Tid) (p : Pid) (pc : Pc) (s : State) : State :=
  let s := match pc with Critical k _ => set_flocks (delete (lock_path (lock_root p) k) (flocks s)) s | _ => s end in
  match mutex pc with
  | Some (_, id) => set_queue (p, id) (filter (fun x => x <> t) (queue_of (p, id) s)) s
  | None => s
  end.

Definition finish (t : Tid) (p : Pid) (pc : Pc) (r : Outcome) (s : State) : State :=
  set_task t (p, Finished r) (drop_guards t p pc s).

(** [CoordLockMap::lock]: the mutex of the key, and its queue. *)
Definition lock (t : Tid) (s : State) : option State :=
  match tasks s !! t with
  | Some (p, Entering k) =>
      let '(id, m) := get_or_create k (map_of p s) in
      Some (set_task t (p, Queued k id) (set_queue (p, id) (queue_of (p, id) s ++ [t]) (set_map p m s)))
  | _ => None
  end.

(** [lock_owned] returns. *)
Definition grant (t : Tid) (s : State) : option State :=
  match tasks s !! t with
  | Some (p, Queued k id) =>
      if bool_decide (head (queue_of (p, id) s) = Some t) then Some (set_task t (p, Locked k id) s) else None
  | _ => None
  end.

(** The first look at the index; after a miss the polling starts. *)
Definition look (t : Tid) (found : bool) (s : State) : option State :=
  match tasks s !! t with
  | Some (p, Locked k id) =>
      Some (if found then finish t p (Locked k id) Hit s
            else set_task t (p, Polling k id (clock s + LOCK_ACQUIRE_TIMEOUT) ACQUIRE_BACKOFF_START (clock s)) s)
  | _ => None
  end.

(** A round of [acquire_with_timeout]: [acquire_blocking_once], which may
    fail, and what follows a contended lock.  The attempt on the blocking pool
    and the poll that takes its answer are one step here.  In the code a task
    can be dropped between them: the lock file is then held for a moment by
    nobody, until the attempt's answer is dropped with its lock, and others
    find it contended, which is what they see of another process. *)
Definition attempt (t : Tid) (fails : bool) (s : State) : option State :=
  match tasks s !! t with
  | Some (p, Polling k id deadline backoff wake) =>
      if (clock s <? wake)%Z then None
      else if fails then Some (finish t p (Polling k id deadline backoff wake) (Failed LockIo) s)
      else
        let path := lock_path (lock_root p) k in
        match flocks s !! path with
        | None => Some (set_task t (p, Critical k id) (set_flocks (<[path := t]> (flocks s)) s))
        | Some _ =>
            if (deadline <=? clock s)%Z then Some (finish t p (Polling k id deadline backoff wake) (Failed LockTimeout) s)
            else Some (set_task t (p, Polling k id deadline (next_backoff backoff)
                                        (clock s + Z.min backoff (deadline - clock s))) s)
        end
  | _ => None
  end.

(** The rest of the fetch, and the end of both guards. *)
Definition leave (t : Tid) (s : State) : option State :=
  match tasks s !! t with
  | Some (p, Critical k id) => Some (finish t p (Critical k id) Fetched s)
  | _ => None
  end.

(** The future of a task is dropped. *)
Definition cancel (t : Tid) (s : State) : option State :=
  match tasks s !! t with
  | Some (p, pc) => Some (del_task t (drop_guards t p pc s))
  | None => None
  end.

(** A process ends: its memory is gone, and the system frees its files. *)
Definition of_process (p : Pid) (s : State) (t : Tid) : Prop := fst <$> tasks s !! t = Some p.

#[local] Instance of_process_dec p s t : Decision (of_process p s t).
Proof. unfold of_process. apply _. Defined.

Definition kill (p : Pid) (s : State) : State :=
  mkState (filter (fun x => x.2.1 <> p) (tasks s)) (delete p (maps s))
    (filter (fun x => x.1.1 <> p) (queues s)) (filter (fun x => ~ of_process p s x.2) (flocks s)) (clock s).

Definition tick (s : State) : State := mkState (tasks s) (maps s) (queues s) (flocks s) (clock s + 1).

(** What the tasks do. *)
Inductive progress : State -> State -> Prop :=
  | p_lock t s s' : lock t s = Some s' -> progress s s'
  | p_grant t s s' : grant t s = Some s' -> progress s s'
  | p_look t found s s' : look t found s = Some s' -> progress s s'
  | p_attempt t fails s s' : attempt t fails s = Some s' -> progress s s'
  | p_leave t s s' : leave t s = Some s' -> progress s s'.

Inductive step : State -> State -> Prop :=
  | s_progress s s' : progress s s' -> step s s'
  | s_spawn t p k s s' : spawn t p k s = Some s' -> step s s'
  | s_cancel t s s' : cancel t s = Some s' -> step s s'
  | s_kill p s : step s (kill p s)
  | s_tick s : step s (tick s).

Definition init : State := mkState ∅ ∅ ∅ ∅ 0.

Definition reachable (s : State) : Prop := rtc step init s.

End Locks.
End Locks.
