(* ===== verification/LocksFacts.v ===== *)
(** * Locks on coordinates: exclusion and progress

    An invariant of the system of [Locks], by induction on its steps, and
    what follows: nobody shares a critical section, nothing is held by a task
    that is gone, and every reachable state can run to the end. *)

From S2P Require Import Prelude Version Coords Cas Journal Index Pom Source Xml PomXml MetadataXml Fetch CacheSource Locks.

Module LocksFacts.
Import Coords Cas Fetch CacheSource Locks.

(** ** The map of mutexes *)

Lemma shard_bound k : shard_index k < SHARDS.
Proof.
  unfold shard_index, SHARDS. set (b := match _ with Some _ => _ | None => _ end).
  assert (H : (N.land b 15 < 16)%N); [| lia].
  change 15%N with (N.ones 4). rewrite N.land_ones. by apply N.mod_lt.
Qed.

(** Every key has its mutex, and no two keys share one. *)
Record map_wf (m : CoordLockMap) : Prop := mkMapWf {
  wf_length : length (shards m) = SHARDS;
  wf_created k id : mutex_of k m = Some id -> id < created m;
  wf_inj k1 k2 id : mutex_of k1 m = Some id -> mutex_of k2 m = Some id -> k1 = k2
}.

Lemma new_map_wf : map_wf new_map.
Proof.
  assert (H : forall k, mutex_of k new_map = None).
  { intros k. unfold mutex_of, new_map. cbn [shards]. rewrite lookup_replicate_2 by apply shard_bound. cbn. apply lookup_empty. }
  split; [done | |]; intros; by rewrite H in *.
Qed.

Lemma mutex_created k m k' : map_wf m -> mutex_of k m = None ->
  mutex_of k' (get_or_create k m).2 = if decide (k' = k) then Some (created m) else mutex_of k' m.
Proof.
  intros Hm Hk. unfold get_or_create. rewrite Hk. cbn [snd]. unfold mutex_of. cbn [shards].
  destruct (lookup_lt_is_Some_2 (shards m) (shard_index k')) as [sh Hsh]; [rewrite (wf_length m Hm); apply shard_bound |].
  destruct (decide (shard_index k' = shard_index k)) as [E|E].
  - rewrite <- E, list_lookup_alter_eq, Hsh. cbn. destruct (decide (k' = k)) as [->|]; [apply lookup_insert_eq |].
    by rewrite lookup_insert_ne.
  - rewrite list_lookup_alter_ne by done. by rewrite decide_False by congruence.
Qed.

Lemma get_or_create_ok k m : map_wf m ->
  map_wf (get_or_create k m).2 /\ mutex_of k (get_or_create k m).2 = Some (get_or_create k m).1 /\
  forall k' id, mutex_of k' m = Some id -> mutex_of k' (get_or_create k m).2 = Some id.
Proof.
  intros Hm. destruct (mutex_of k m) as [id|] eqn:E; [unfold get_or_create; by rewrite E |].
  pose proof (fun k' => mutex_created k m k' Hm E) as L.
  assert (F : (get_or_create k m).1 = created m /\ created (get_or_create k m).2 = S (created m) /\
    length (shards (get_or_create k m).2) = SHARDS).
  { unfold get_or_create. rewrite E. cbn. rewrite length_alter. by rewrite (wf_length m Hm). }
  destruct F as (F1 & F2 & F3). split_and!.
  - split; [done | |].
    + intros k' id. rewrite L, F2. case_decide; [intros [= <-]; lia |]. intros ?%(wf_created m Hm). lia.
    + intros k1 k2 id. rewrite !L. do 2 case_decide; [congruence | | |].
      * intros [= <-] ?%(wf_created m Hm). lia.
      * intros ?%(wf_created m Hm) [= <-]. lia.
      * by apply (wf_inj m Hm).
  - rewrite L, F1. by rewrite decide_True.
  - intros k' id H. rewrite L. rewrite decide_False; [done |]. congruence.
Qed.

(** ** The invariant *)

Section Facts.
Context `{S1 : Sha1}.
Variable lock_root : Pid -> string.

Record Inv (s : State) : Prop := mkInv {
  inv_maps p : map_wf (map_of p s);
  inv_mutex t p pc k id : tasks s !! t = Some (p, pc) -> mutex pc = Some (k, id) ->
    mutex_of k (map_of p s) = Some id /\ t ∈ queue_of (p, id) s;
  inv_nodup q : NoDup (queue_of q s);
  inv_queue p id t : t ∈ queue_of (p, id) s -> exists pc k, tasks s !! t = Some (p, pc) /\ mutex pc = Some (k, id);
  inv_holder t p pc k id : tasks s !! t = Some (p, pc) -> mutex pc = Some (k, id) -> holds pc = true ->
    head (queue_of (p, id) s) = Some t;
  inv_flock path t : flocks s !! path = Some t <->
    exists p k id, tasks s !! t = Some (p, Critical k id) /\ path = lock_path (lock_root p) k;
  inv_polling t p k id d b w : tasks s !! t = Some (p, Polling k id d b w) ->
    (w <= d /\ ACQUIRE_BACKOFF_START <= b <= ACQUIRE_BACKOFF_MAX)%Z
}.

(** Two states whose tasks and locks look the same. *)
Lemma inv_same s s' : Inv s -> (forall t, tasks s' !! t = tasks s !! t) -> (forall p, map_of p s' = map_of p s) ->
  (forall q, queue_of q s' = queue_of q s) -> (forall f, flocks s' !! f = flocks s !! f) -> Inv s'.
Proof.
  intros [] Ht Hm Hq Hf. split; intros *; rewrite ?Ht, ?Hm, ?Hq, ?Hf; eauto.
Qed.

(** A task that is not critical moves on, without a change of its mutex. *)
Lemma inv_move s t p pc pc' : Inv s -> tasks s !! t = Some (p, pc) -> mutex pc' = mutex pc ->
  (forall k id, pc <> Critical k id) -> (forall k id, pc' <> Critical k id) ->
  (forall k id, mutex pc' = Some (k, id) -> holds pc' = true -> head (queue_of (p, id) s) = Some t) ->
  (forall k id d b w, pc' = Polling k id d b w -> (w <= d /\ ACQUIRE_BACKOFF_START <= b <= ACQUIRE_BACKOFF_MAX)%Z) ->
  Inv (set_task t (p, pc') s).
Proof.
  intros [I1 I2 I3 I4 I5 I6 I7] Ht Hm Hc Hc' Hh Hp.
  assert (L : forall t', tasks (set_task t (p, pc') s) !! t' = if decide (t = t') then Some (p, pc') else tasks s !! t').
  { intros t'. cbn. destruct (decide (t = t')) as [->|]; [apply lookup_insert_eq | by apply lookup_insert_ne]. }
  split; [exact I1 | | exact I3 | | | |].
  - intros t' p' pc0 k id. rewrite L. case_decide as E; [| apply I2]. intros [= <- <-] Hk. subst t'. rewrite Hm in Hk. eauto.
  - intros p' id t' Hin. destruct (I4 p' id t' Hin) as (pc0 & k & H1 & H2). rewrite L. case_decide as E; [| eauto].
    subst t'. rewrite Ht in H1. injection H1 as <- <-. exists pc', k. by rewrite Hm.
  - intros t' p' pc0 k id. rewrite L. case_decide as E; [| apply I5]. intros [= <- <-]. subst t'. apply Hh.
  - intros path t'. rewrite L. cbn [flocks set_task]. rewrite I6. case_decide as E; [| done]. subst t'. rewrite Ht.
    split; intros (p' & k & id & H & _); [by injection H as _ ->; destruct (Hc k id) | by injection H as _ ->; destruct (Hc' k id)].
  - intros t' p' k id d b w. rewrite L. case_decide as E; [| apply I7]. intros [= <- ->]. by eapply Hp.
Qed.

(** The locks after the guards of a task were dropped. *)
Lemma drop_queue t p pc s q : queue_of q (drop_guards lock_root t p pc s) =
  match mutex pc with
  | Some (_, id) => if decide (q = (p, id)) then filter (fun x => x <> t) (queue_of q s) else queue_of q s
  | None => queue_of q s
  end.
Proof.
  assert (E : forall id s1, queue_of q (set_queue (p, id) (filter (fun x => x <> t) (queue_of (p, id) s1)) s1) =
    if decide (q = (p, id)) then filter (fun x => x <> t) (queue_of q s1) else queue_of q s1).
  { intros id s1. unfold queue_of at 1. cbn. destruct (decide (q = (p, id))) as [->|]; [by rewrite lookup_insert_eq |].
    by rewrite lookup_insert_ne. }
  unfold drop_guards. destruct pc as [|k id|k id|k id d b w|k id|]; cbn [mutex]; try done;
    first [exact (E id s) | exact (E id (set_flocks (delete (lock_path (lock_root p) k) (flocks s)) s))].
Qed.

Lemma drop_flocks t p pc s : flocks (drop_guards lock_root t p pc s) =
  match pc with Critical k _ => delete (lock_path (lock_root p) k) (flocks s) | _ => flocks s end.
Proof. by destruct pc. Qed.

Lemma drop_maps t p pc s : maps (drop_guards lock_root t p pc s) = maps s /\ tasks (drop_guards lock_root t p pc s) = tasks s.
Proof. by destruct pc. Qed.

Lemma head_filter (t t' : Tid) l : t' <> t -> head l = Some t' -> head (filter (fun x => x <> t) l) = Some t'.
Proof. intros Hne. destruct l as [|x l]; [done |]. intros [= ->]. rewrite filter_cons. by rewrite decide_True. Qed.

(** A task that ends or is dropped takes its locks with it. *)
Lemma inv_retire s s' t p pc : Inv s -> tasks s !! t = Some (p, pc) ->
  (forall t', t' <> t -> tasks s' !! t' = tasks s !! t') ->
  (forall x, tasks s' !! t = Some x -> exists r, x.2 = Finished r) ->
  maps s' = maps s -> queues s' = queues (drop_guards lock_root t p pc s) ->
  flocks s' = flocks (drop_guards lock_root t p pc s) -> Inv s'.
Proof.
  intros [I1 I2 I3 I4 I5 I6 I7] Ht Ho Hn Hm Hq Hf.
  assert (Q : forall q, queue_of q s' = queue_of q (drop_guards lock_root t p pc s)) by (intros q; unfold queue_of; by rewrite Hq).
  assert (M : forall p', map_of p' s' = map_of p' s) by (intros p'; unfold map_of; by rewrite Hm).
  assert (T : forall t' p' pc' , tasks s' !! t' = Some (p', pc') -> (forall r, pc' <> Finished r) -> t' <> t /\ tasks s !! t' = Some (p', pc')).
  { intros t' p' pc' H Hr. destruct (decide (t' = t)) as [->|Hne]; [| by rewrite <- Ho].
    destruct (Hn _ H) as [r Er]. cbn in Er. by destruct (Hr r). }
  assert (K : forall q t', t' <> t -> t' ∈ queue_of q s -> t' ∈ queue_of q s').
  { intros q t' Hne Hin. rewrite Q, drop_queue. destruct (mutex pc) as [[k id]|]; [| done]. case_decide; [| done].
    by apply list_elem_of_filter. }
  split.
  - intros p'. rewrite M. apply I1.
  - intros t' p' pc' k id H Hk. destruct (T t' p' pc' H) as [Hne H']; [by intros r -> |].
    rewrite M. destruct (I2 _ _ _ _ _ H' Hk). split; [done | by apply K].
  - intros q. rewrite Q, drop_queue. destruct (mutex pc) as [[k id]|]; [| apply I3]. case_decide; [by apply list.NoDup_filter, I3 | apply I3].
  - intros p' id t' Hin. rewrite Q, drop_queue in Hin.
    assert (Hin' : t' <> t /\ t' ∈ queue_of (p', id) s).
    { destruct (mutex pc) as [[k id0]|] eqn:Ek.
      - destruct (decide ((p', id) = (p, id0))) as [E|E]; [by apply list_elem_of_filter in Hin |].
        split; [intros -> | done]. destruct (I4 _ _ _ Hin) as (pc' & k' & H & Hk). rewrite Ht in H. injection H as <- <-. congruence.
      - split; [intros -> | done]. destruct (I4 _ _ _ Hin) as (pc' & k' & H & Hk). rewrite Ht in H. injection H as <- <-. congruence. }
    destruct Hin' as [Hne Hin']. destruct (I4 _ _ _ Hin') as (pc' & k & H & Hk). exists pc', k. by rewrite Ho.
  - intros t' p' pc' k id H Hk Hh. destruct (T t' p' pc' H) as [Hne H']; [by intros r -> |].
    pose proof (I5 _ _ _ _ _ H' Hk Hh) as Hd. rewrite Q, drop_queue. destruct (mutex pc) as [[k0 id0]|]; [| done].
    case_decide; [by apply head_filter | done].
  - intros path t'. rewrite Hf, drop_flocks.
    assert (C : flocks s !! path = Some t' /\ t' <> t <->
      exists p' k id, tasks s' !! t' = Some (p', Critical k id) /\ path = lock_path (lock_root p') k).
    { rewrite I6. split.
      - intros [(p' & k & id & H & E) Hne]. exists p', k, id. by rewrite Ho.
      - intros (p' & k & id & H & E). destruct (T _ _ _ H) as [Hne H']; [done |]. split; [by exists p', k, id | done]. }
    rewrite <- C. 
    assert (Hd : (exists k id, pc = Critical k id) \/ ~ exists k id, pc = Critical k id)
      by (destruct pc; [right; by intros (? & ? & ?).. | by left; eexists _, _ | right; by intros (? & ? & ?)]).
    destruct Hd as [(k & id & ->)|Hnc].
    + rewrite lookup_delete_Some. assert (Hp : flocks s !! lock_path (lock_root p) k = Some t) by (apply I6; by exists p, k, id).
      split; [intros [Hne H]; split; [done |]; intros ->; apply I6 in H as (p' & k' & id' & H & E); rewrite Ht in H; by injection H as <- <- <- |].
      intros [H Hne]. split; [| done]. intros <-. congruence.
    + assert (E : match pc with Critical k _ => delete (lock_path (lock_root p) k) (flocks s) | _ => flocks s end = flocks s).
      { destruct pc; try done. by destruct Hnc; eexists _, _. }
      rewrite E. split; [| by intros []]. intros H. split; [done |]. intros ->. apply I6 in H as (p' & k' & id' & H & _).
      rewrite Ht in H. injection H as <- ->. by destruct Hnc; eexists _, _.
  - intros t' p' k id d b w H. destruct (T _ _ _ H) as [_ H']; [done |]. by eapply I7.
Qed.

(** ** The steps keep it *)

Lemma inv_init : Inv init.
Proof.
  split.
  - intros p. apply new_map_wf.
  - intros t p pc k id H. cbn in H. by rewrite lookup_empty in H.
  - intros q. unfold queue_of. cbn. rewrite lookup_empty. constructor.
  - intros p id t H. unfold queue_of in H. cbn in H. rewrite lookup_empty in H. by apply not_elem_of_nil in H.
  - intros t p pc k id H. cbn in H. by rewrite lookup_empty in H.
  - intros path t. cbn. rewrite lookup_empty. split; [done |]. intros (p & k & id & H & _). by rewrite lookup_empty in H.
  - intros t p k id d b w H. cbn in H. by rewrite lookup_empty in H.
Qed.

Lemma inv_finish s t p pc r : Inv s -> tasks s !! t = Some (p, pc) -> Inv (finish lock_root t p pc r s).
Proof.
  intros HI Ht. destruct (drop_maps t p pc s) as [E1 E2].
  apply (inv_retire s _ t p pc HI Ht); [| | by cbn; rewrite E1 | done | done].
  - intros t' Hne. cbn. rewrite E2. by apply lookup_insert_ne.
  - intros x. cbn. rewrite lookup_insert_eq. intros [= <-]. by exists r.
Qed.

Lemma inv_cancel s s' t : Inv s -> cancel lock_root t s = Some s' -> Inv s'.
Proof.
  unfold cancel. destruct (tasks s !! t) as [[p pc]|] eqn:Ht; [| done]. intros HI [= <-].
  destruct (drop_maps t p pc s) as [E1 E2]. apply (inv_retire s _ t p pc HI Ht); [| | by cbn; rewrite E1 | done | done].
  - intros t' Hne. cbn. rewrite E2. by apply lookup_delete_ne.
  - intros x. cbn. by rewrite lookup_delete_eq.
Qed.

Lemma inv_spawn s s' t p k : Inv s -> spawn t p k s = Some s' -> Inv s'.
Proof.
  unfold spawn. destruct (tasks s !! t) eqn:Ht; [done |]. intros [I1 I2 I3 I4 I5 I6 I7] [= <-].
  assert (L : forall t' p' pc', tasks (set_task t (p, Entering k) s) !! t' = Some (p', pc') -> (forall k, pc' <> Entering k) ->
    tasks s !! t' = Some (p', pc')).
  { intros t' p' pc'. cbn. destruct (decide (t = t')) as [->|]; [rewrite lookup_insert_eq; intros [= <- <-] H; by destruct (H k) |].
    by rewrite lookup_insert_ne. }
  split; [exact I1 | | exact I3 | | | |].
  - intros t' p' pc' k' id H Hk. apply L in H; [by eapply I2 | by intros ? ->].
  - intros p' id t' Hin. destruct (I4 _ _ _ Hin) as (pc' & k' & H & Hk). exists pc', k'. cbn.
    rewrite lookup_insert_ne; [done |]. intros <-. congruence.
  - intros t' p' pc' k' id H Hk Hh. apply L in H; [by eapply I5 | by intros ? ->].
  - intros path t'. cbn [flocks set_task]. rewrite I6. split; intros (p' & k' & id & H & E); exists p', k', id.
    + cbn. rewrite lookup_insert_ne; [done |]. intros <-. congruence.
    + apply L in H; done.
  - intros t' p' k' id d b w H. apply L in H; [by eapply I7 | done].
Qed.

Lemma inv_lock s s' t : Inv s -> lock t s = Some s' -> Inv s'.
Proof.
  unfold lock. destruct (tasks s !! t) as [[p pc]|] eqn:Ht; [| done]. destruct pc as [k| | | | |]; try done.
  intros [I1 I2 I3 I4 I5 I6 I7]. destruct (get_or_create_ok k (map_of p s) (I1 p)) as (W1 & W2 & W3).
  destruct (get_or_create k (map_of p s)) as [id m]. cbn in W1, W2, W3. intros [= <-].
  set (s' := set_task _ _ _).
  assert (M : forall p', map_of p' s' = if decide (p' = p) then m else map_of p' s).
  { intros p'. unfold map_of at 1, s'. cbn. destruct (decide (p' = p)) as [->|]; [by rewrite lookup_insert_eq | by rewrite lookup_insert_ne]. }
  assert (Q : forall q, queue_of q s' = if decide (q = (p, id)) then queue_of q s ++ [t] else queue_of q s).
  { intros q. unfold queue_of at 1, s'. cbn. destruct (decide (q = (p, id))) as [->|]; [by rewrite lookup_insert_eq | by rewrite lookup_insert_ne]. }
  assert (L : forall t', tasks s' !! t' = if decide (t = t') then Some (p, Queued k id) else tasks s !! t').
  { intros t'. unfold s'. cbn. destruct (decide (t = t')) as [->|]; [by rewrite lookup_insert_eq | by rewrite lookup_insert_ne]. }
  assert (N : forall q, t ∉ queue_of q s).
  { intros [p' id'] (pc & k' & H & Hk)%I4. rewrite Ht in H. by injection H as <- <-. }
  assert (QI : forall q t', t' ∈ queue_of q s' <-> t' ∈ queue_of q s \/ t' = t /\ q = (p, id)).
  { intros q t'. rewrite Q. case_decide as E.
    - rewrite elem_of_app, list_elem_of_singleton. split; [intros [?|?]; auto | intros [?|[? _]]; auto].
    - split; [by left | by intros [?|[_ ?]]]. }
  split.
  - intros p'. rewrite M. case_decide; [done | apply I1].
  - intros t' p' pc k' id'. rewrite L. case_decide as E.
    + intros [= <- <-] [= <- <-]. subst t'. rewrite M, decide_True by done. split; [done |]. apply QI. by right.
    + intros H Hk. destruct (I2 _ _ _ _ _ H Hk) as [J1 J2]. split; [| apply QI; by left].
      rewrite M. case_decide; [subst p'; by apply W3 | done].
  - intros q. rewrite Q. case_decide; [| apply I3]. apply list.NoDup_app. split_and!; [apply I3 | | apply NoDup_singleton].
    intros x Hx ->%list_elem_of_singleton. by destruct (N q).
  - intros p' id' t' Hx. apply QI in Hx as [Hin|[-> Hq]].
    + destruct (I4 _ _ _ Hin) as (pc & k' & H & Hk). exists pc, k'. rewrite L. rewrite decide_False; [done |]. intros ->. by destruct (N (p', id')).
    + injection Hq as -> ->. exists (Queued k id), k. rewrite L. by rewrite decide_True.
  - intros t' p' pc k' id'. rewrite L. case_decide as E; [by intros [= <- <-] |]. intros H Hk Hh.
    pose proof (I5 _ _ _ _ _ H Hk Hh) as Hd. rewrite Q. case_decide; [| done]. by destruct (queue_of (p', id') s).
  - intros path t'. rewrite L. unfold s'. cbn [flocks set_task set_queue set_map]. rewrite I6. case_decide as E; [| done]. subst t'. rewrite Ht.
    split; by intros (p' & k' & id' & H & _).
  - intros t' p' k' id' d b w. rewrite L. case_decide; [done | apply I7].
Qed.

Lemma inv_grant s s' t : Inv s -> grant t s = Some s' -> Inv s'.
Proof.
  unfold grant. destruct (tasks s !! t) as [[p pc]|] eqn:Ht; [| done]. destruct pc as [|k id| | | |]; try done.
  case_bool_decide as Hd; [| done]. intros HI [= <-].
  apply (inv_move s t p (Queued k id)); [done | done | done | done | done | by intros k' id' [= <- <-] | done].
Qed.

Lemma inv_look s s' t found : Inv s -> look lock_root t found s = Some s' -> Inv s'.
Proof.
  unfold look. destruct (tasks s !! t) as [[p pc]|] eqn:Ht; [| done]. destruct pc as [| |k id| | |]; try done.
  intros HI [= <-]. destruct found; [by apply inv_finish |].
  apply (inv_move s t p (Locked k id)); [done | done | done | done | done | |].
  - intros k' id' [= <- <-] _. by apply (inv_holder s HI t p (Locked k id) k id).
  - intros k' id' d b w [= <- <- <- <- <-]. unfold LOCK_ACQUIRE_TIMEOUT, ACQUIRE_BACKOFF_START, ACQUIRE_BACKOFF_MAX. lia.
Qed.

Lemma inv_attempt s s' t fails : Inv s -> attempt lock_root t fails s = Some s' -> Inv s'.
Proof.
  unfold attempt. destruct (tasks s !! t) as [[p pc]|] eqn:Ht; [| done]. destruct pc as [| | |k id d b w| |]; try done.
  destruct (Z.ltb_spec (clock s) w) as [|Hw]; [done |]. intros HI. destruct fails; [intros [= <-]; by apply inv_finish |].
  destruct (flocks s !! lock_path (lock_root p) k) as [t'|] eqn:Ef.
  - destruct (Z.leb_spec d (clock s)); intros [= <-]; [by apply inv_finish |].
    destruct (inv_polling s HI _ _ _ _ _ _ _ Ht) as [_ Hb].
    apply (inv_move s t p (Polling k id d b w)); [done | done | done | done | done | |].
    + intros k' id' [= <- <-] _. by apply (inv_holder s HI t p (Polling k id d b w) k id).
    + intros k' id' d' b' w' [= <- <- <- <- <-]. unfold next_backoff, ACQUIRE_BACKOFF_START, ACQUIRE_BACKOFF_MAX in *. lia.
  - intros [= <-]. destruct HI as [I1 I2 I3 I4 I5 I6 I7]. set (path := lock_path (lock_root p) k) in *. set (s' := set_task _ _ _).
    assert (L : forall t', tasks s' !! t' = if decide (t = t') then Some (p, Critical k id) else tasks s !! t').
    { intros t'. unfold s'. cbn. destruct (decide (t = t')) as [->|]; [by rewrite lookup_insert_eq | by rewrite lookup_insert_ne]. }
    split; [exact I1 | | exact I3 | | | |].
    + intros t' p' pc k' id'. rewrite L. case_decide as E; [| apply I2]. subst t'. intros [= <- <-] [= <- <-]. by eapply I2.
    + intros p' id' t' Hin. destruct (I4 p' id' t' Hin) as (pc & k' & H & Hk). rewrite L. case_decide as E; [| by exists pc, k'].
      subst t'. rewrite Ht in H. injection H as <- <-. by exists (Critical k id), k'.
    + intros t' p' pc k' id'. rewrite L. case_decide as E; [| apply I5]. subst t'. intros [= <- <-] [= <- <-] _.
      by apply (I5 t p (Polling k id d b w) k id).
    + intros path' t'. unfold s'. cbn [flocks set_task set_flocks]. fold s'. rewrite L, lookup_insert_Some, I6. split.
      * intros [[<- <-]|[Hne (p' & k' & id' & H & E)]]; [rewrite decide_True by done; by exists p, k, id |].
        rewrite decide_False; [by exists p', k', id' |]. intros <-. congruence.
      * intros (p' & k' & id' & H & ->). case_decide as E; [injection H as <- <- <-; left; split; [done | congruence] |].
        right. split; [| by exists p', k', id']. intros E'. assert (flocks s !! path = Some t') by (apply I6; by exists p', k', id'). congruence.
    + intros t' p' k' id' d' b' w'. rewrite L. case_decide; [done | apply I7].
Qed.

Lemma inv_leave s s' t : Inv s -> leave lock_root t s = Some s' -> Inv s'.
Proof.
  unfold leave. destruct (tasks s !! t) as [[p pc]|] eqn:Ht; [| done]. destruct pc as [| | | |k id|]; try done.
  intros HI [= <-]. by apply inv_finish.
Qed.

Lemma inv_kill s p : Inv s -> Inv (kill p s).
Proof.
  intros [I1 I2 I3 I4 I5 I6 I7].
  assert (L : forall t x, tasks (kill p s) !! t = Some x <-> tasks s !! t = Some x /\ x.1 <> p).
  { intros t x. unfold kill. cbn. by rewrite map_lookup_filter_Some. }
  assert (M : forall p', p' <> p -> map_of p' (kill p s) = map_of p' s).
  { intros p' Hne. unfold map_of, kill. cbn. by rewrite lookup_delete_ne. }
  assert (Q : forall q, queue_of q (kill p s) = if decide (q.1 = p) then [] else queue_of q s).
  { intros q. unfold queue_of, kill. cbn. rewrite map_lookup_filter. destruct (queues s !! q) as [l|]; cbn; [| by case_decide].
    destruct (decide (q.1 = p)); [by rewrite option_guard_False by (intros Hn; by apply Hn) | by rewrite option_guard_True]. }
  split.
  - intros p'. destruct (decide (p' = p)) as [->|]; [| rewrite M by done; apply I1].
    unfold map_of, kill. cbn. rewrite lookup_delete_eq. apply new_map_wf.
  - intros t p' pc k id [H Hne]%L Hk. cbn in Hne. rewrite M, Q by done. cbn. rewrite decide_False by done. by eapply I2.
  - intros q. rewrite Q. case_decide; [constructor | apply I3].
  - intros p' id t. rewrite Q. cbn. case_decide as E; [by intros ?%not_elem_of_nil |]. intros (pc & k & H & Hk)%I4.
    exists pc, k. split; [by apply L | done].
  - intros t p' pc k id [H Hne]%L Hk Hh. cbn in Hne. rewrite Q. cbn. rewrite decide_False by done. by eapply I5.
  - intros path t. unfold kill at 1. cbn [flocks]. rewrite map_lookup_filter_Some, I6. split.
    + intros [(p' & k & id & H & E) Hp]. exists p', k, id. split; [| done]. apply L. split; [done |]. cbn.
      intros ->. apply Hp. unfold of_process. cbn. by rewrite H.
    + intros (p' & k & id & [H Hne]%L & E). split; [by exists p', k, id |]. unfold of_process. cbn [snd]. rewrite H. intros [= ->]. by apply Hne.
  - intros t p' k id d b w [H _]%L. by eapply I7.
Qed.

Lemma inv_step s s' : Inv s -> step lock_root s s' -> Inv s'.
Proof.
  intros HI H. revert HI. destruct H as [s s' H|t p k s s' H|t s s' H|p s|s]; intros HI.
  - revert HI. destruct H as [t s s' H|t s s' H|t f s s' H|t f s s' H|t s s' H]; intros HI.
    + by eapply inv_lock.
    + by eapply inv_grant.
    + by eapply inv_look.
    + by eapply inv_attempt.
    + by eapply inv_leave.
  - by eapply inv_spawn.
  - by eapply inv_cancel.
  - by apply inv_kill.
  - by apply (inv_same s).
Qed.

Lemma inv_reachable s : reachable lock_root s -> Inv s.
Proof.
  intros H. unfold reachable in H. assert (K : Inv init) by apply inv_init. revert K. induction H as [s|s s1 s2 H _ IH]; [done |].
  intros K. by apply IH, (inv_step s).
Qed.

(** ** Exclusion *)

(** A task is in the critical section of a lock file. *)
Definition fetches (s : State) (t : Tid) (path : string) : Prop :=
  exists p k id, tasks s !! t = Some (p, Critical k id) /\ path = lock_path (lock_root p) k.

(** A task has the mutex of a key in its process. *)
Definition owns (s : State) (t : Tid) (p : Pid) (k : CoordVersionKey) : Prop :=
  exists pc id, tasks s !! t = Some (p, pc) /\ holds pc = true /\ mutex pc = Some (k, id).

(** C21: Nobody shares a critical section.  In every interleaving of any
    number of processes and tasks, with tasks dropped and processes killed at
    any point, at most one task over all processes is between taking and
    releasing the lock file of a path, so at most one fetches an artifact
    into a cache; and at most one task of a process has the mutex of a key,
    from its look at the index to its end.  A lock file that is held is held
    by a task that lives and is in its critical section: nothing is leaked. *)
Theorem lock_exclusive s : reachable lock_root s ->
  (forall path t1 t2, fetches s t1 path -> fetches s t2 path -> t1 = t2) /\
  (forall p k t1 t2, owns s t1 p k -> owns s t2 p k -> t1 = t2) /\
  (forall path t, flocks s !! path = Some t -> fetches s t path).
Proof.
  intros HI%inv_reachable. split_and!.
  - intros path t1 t2 H1%(inv_flock s HI) H2%(inv_flock s HI). congruence.
  - intros p k t1 t2 (pc1 & id1 & H1 & Hh1 & M1) (pc2 & id2 & H2 & Hh2 & M2).
    destruct (inv_mutex s HI _ _ _ _ _ H1 M1) as [E1 _], (inv_mutex s HI _ _ _ _ _ H2 M2) as [E2 _].
    assert (id1 = id2) as -> by congruence.
    pose proof (inv_holder s HI _ _ _ _ _ H1 M1 Hh1). pose proof (inv_holder s HI _ _ _ _ _ H2 M2 Hh2). congruence.
  - intros path t H. by apply (inv_flock s HI).
Qed.

(** A timeout is truthful: it comes at the deadline or later, and another
    task, which lives, has the lock file at that moment. *)
Theorem timeout_truthful s s' t p : reachable lock_root s -> attempt lock_root t false s = Some s' ->
  tasks s' !! t = Some (p, Finished (Failed LockTimeout)) ->
  exists k id d b w t' p' k' id', tasks s !! t = Some (p, Polling k id d b w) /\ (d <= clock s)%Z /\
    t' <> t /\ tasks s !! t' = Some (p', Critical k' id') /\ lock_path (lock_root p') k' = lock_path (lock_root p) k.
Proof.
  intros HI%inv_reachable. unfold attempt. destruct (tasks s !! t) as [[p0 pc]|] eqn:Ht; [| done].
  destruct pc as [| | |k id d b w| |]; try done. destruct (Z.ltb_spec (clock s) w) as [|Hw]; [done |].
  destruct (flocks s !! lock_path (lock_root p0) k) as [t'|] eqn:Ef.
  - destruct (Z.leb_spec d (clock s)); intros [= <-]; cbn; rewrite lookup_insert_eq; intros H0; [| done]. injection H0 as <-.
    apply (inv_flock s HI) in Ef as (p' & k' & id' & H' & E). exists k, id, d, b, w, t', p', k', id'.
    split_and!; [done | done | | done | done]. intros ->. congruence.
  - intros [= <-]. cbn. rewrite lookup_insert_eq. done.
Qed.

(** ** Progress *)

(** What is left to do. *)
Definition rank (pc : Pc) : nat :=
  match pc with
  | Entering _ => 5
  | Queued _ _ => 4
  | Locked _ _ => 3
  | Polling _ _ _ _ _ => 2
  | Critical _ _ => 1
  | Finished _ => 0
  end.

Definition work (s : State) : nat := map_fold (fun _ x n => rank x.2 + n) 0 (tasks s).

Lemma work_split s t x : tasks s !! t = Some x ->
  work s = rank x.2 + map_fold (fun _ x n => rank x.2 + n) 0 (delete t (tasks s)).
Proof. intros H. unfold work. rewrite (map_fold_delete_L _ _ t x) by (auto with lia || (intros; lia) || done). done. Qed.

Lemma work_less s s' t p pc p' pc' : tasks s !! t = Some (p, pc) -> tasks s' = <[t := (p', pc')]> (tasks s) ->
  rank pc' < rank pc -> work s' < work s.
Proof.
  intros Ht Es Hr. rewrite (work_split s t _ Ht), (work_split s' t (p', pc')) by (rewrite Es; apply lookup_insert_eq).
  rewrite Es, delete_insert_eq. cbn. lia.
Qed.

Lemma work_pos s t x : tasks s !! t = Some x -> rank x.2 <= work s.
Proof. intros H. rewrite (work_split s t x H). lia. Qed.

(** Steps without failures; what the index holds is given. *)
Variable found : Tid -> bool.

Inductive good : State -> State -> Prop :=
  | g_lock t s s' : lock t s = Some s' -> good s s'
  | g_grant t s s' : grant t s = Some s' -> good s s'
  | g_look t s s' : look lock_root t (found t) s = Some s' -> good s s'
  | g_attempt t s s' : attempt lock_root t false s = Some s' -> good s s'
  | g_leave t s s' : leave lock_root t s = Some s' -> good s s'
  | g_tick s : good s (tick s).

Lemma good_step s s' : good s s' -> step lock_root s s'.
Proof.
  intros []; [apply s_progress; by eapply p_lock | apply s_progress; by eapply p_grant | apply s_progress; by eapply p_look |
    apply s_progress; by eapply p_attempt | apply s_progress; by eapply p_leave | apply s_tick].
Qed.

Lemma inv_good s s' : Inv s -> rtc good s s' -> Inv s'.
Proof. intros HI H. revert HI. induction H as [|s s1 s2 H _ IH]; [done |]. intros HI. by apply IH, (inv_step s), good_step. Qed.

(** Waiting. *)
Lemma wait_until w s : exists s1, rtc good s s1 /\ tasks s1 = tasks s /\ flocks s1 = flocks s /\ (w <= clock s1)%Z.
Proof.
  assert (K : forall n s, exists s1, rtc good s s1 /\ tasks s1 = tasks s /\ flocks s1 = flocks s /\ clock s1 = (clock s + Z.of_nat n)%Z).
  { induction n as [|n IH]; intros s0; [exists s0; split_and!; [constructor | done | done | lia] |].
    destruct (IH (tick s0)) as (s1 & H1 & H2 & H3 & H4). exists s1.
    split_and!; [eapply rtc_l; [apply g_tick | done] | done | done |]. cbn in H4. lia. }
  destruct (K (Z.to_nat (w - clock s)) s) as (s1 & H1 & H2 & H3 & H4). exists s1. split_and!; [done | done | done | lia].
Qed.

Lemma finish_tasks t p pc r s : tasks (finish lock_root t p pc r s) = <[t := (p, Finished r)]> (tasks s).
Proof. cbn. by rewrite (proj2 (drop_maps t p pc s)). Qed.

(** No failure is added. *)
Definition clean (s s' : State) : Prop :=
  forall t p e, tasks s' !! t = Some (p, Finished (Failed e)) -> tasks s !! t = Some (p, Finished (Failed e)).

Definition less (s s' : State) : Prop := rtc good s s' /\ work s' < work s /\ dom (tasks s') = dom (tasks s) /\ clean s s'.

Lemma less_one s s' t p pc p' pc' : good s s' -> tasks s !! t = Some (p, pc) -> tasks s' = <[t := (p', pc')]> (tasks s) ->
  rank pc' < rank pc -> (forall e, pc' <> Finished (Failed e)) -> less s s'.
Proof.
  intros Hg Ht Es Hr Hc. split_and!; [by apply rtc_once | by eapply work_less | rewrite Es; apply dom_insert_lookup_L; by eexists |].
  intros t' p0 e. rewrite Es. destruct (decide (t = t')) as [<-|]; [rewrite lookup_insert_eq | by rewrite lookup_insert_ne].
  intros H. injection H as _ ->. by destruct (Hc e).
Qed.

(** A critical task can leave. *)
Lemma critical_leaves s t p k id : tasks s !! t = Some (p, Critical k id) -> exists s', less s s'.
Proof.
  intros Ht. eexists. eapply (less_one s _ t p (Critical k id) p (Finished Fetched));
    [eapply (g_leave t); unfold leave; by rewrite Ht | done | apply finish_tasks | cbn; lia | done].
Qed.

(** A holder of a mutex can move on. *)
Lemma holder_moves s t p pc : Inv s -> tasks s !! t = Some (p, pc) -> holds pc = true -> exists s', less s s'.
Proof.
  intros HI Ht Hh. destruct pc as [| |k id|k id d b w|k id|]; try done.
  - destruct (found t) eqn:Ef; eexists.
    + eapply (less_one s _ t p (Locked k id) p (Finished Hit));
        [eapply (g_look t); unfold look; by rewrite Ht, Ef | done | apply finish_tasks | cbn; lia | done].
    + eapply (less_one s _ t p (Locked k id));
        [eapply (g_look t); unfold look; by rewrite Ht, Ef | done | reflexivity | cbn; lia | done].
  - destruct (flocks s !! lock_path (lock_root p) k) as [t'|] eqn:Ef.
    + apply (inv_flock s HI) in Ef as (p' & k' & id' & H' & _). by eapply critical_leaves.
    + destruct (wait_until w s) as (s1 & H1 & H2 & H3 & H4). eexists.
      assert (L : less s1 (set_task t (p, Critical k id) (set_flocks (<[lock_path (lock_root p) k := t]> (flocks s1)) s1))).
      { eapply (less_one s1 _ t p (Polling k id d b w)); [| by rewrite H2 | reflexivity | cbn; lia | done].
        apply (g_attempt t). unfold attempt. rewrite H2, Ht, H3, Ef. by rewrite (proj2 (Z.ltb_ge _ _) H4). }
      destruct L as (L1 & L2 & L3 & L4). unfold less, work, clean in *. rewrite H2 in L2, L3, L4.
      split_and!; [by etrans | done | done | done].
  - by eapply critical_leaves.
Qed.

Lemma some_progress s t p pc : Inv s -> tasks s !! t = Some (p, pc) -> rank pc <> 0 -> exists s', less s s'.
Proof.
  intros HI Ht Hr. destruct (holds pc) eqn:Hh; [by eapply holder_moves |]. destruct pc as [k|k id| | | |r]; try done.
  - destruct (get_or_create k (map_of p s)) as [id m] eqn:Eg. eexists.
    eapply (less_one s _ t p (Entering k)); [eapply (g_lock t); unfold lock; by rewrite Ht, Eg | done | reflexivity | cbn; lia | done].
  - destruct (inv_mutex s HI _ _ _ _ _ Ht eq_refl) as [_ Hin]. destruct (queue_of (p, id) s) as [|t0 l] eqn:Eq; [by apply not_elem_of_nil in Hin |].
    destruct (inv_queue s HI p id t0) as (pc0 & k0 & H0 & M0); [rewrite Eq; by left |].
    destruct (holds pc0) eqn:Hh0; [by eapply holder_moves |]. destruct pc0 as [|k1 id1| | | |]; try done.
    injection M0 as -> ->. eexists. eapply (less_one s _ t0 p (Queued k0 id));
      [apply (g_grant t0); unfold grant; rewrite H0, Eq; by rewrite bool_decide_eq_true_2 | done | reflexivity | cbn; lia | done].
Qed.

Lemma all_done s : Inv s -> (forall t x, tasks s !! t = Some x -> rank x.2 = 0) ->
  flocks s = ∅ /\ forall q, queue_of q s = [].
Proof.
  intros HI Hd. split.
  - apply map_empty. intros path. destruct (flocks s !! path) as [t|] eqn:E; [| done].
    apply (inv_flock s HI) in E as (p & k & id & H & _). by apply Hd in H.
  - intros [p id]. destruct (queue_of (p, id) s) as [|t l] eqn:E; [done |].
    destruct (inv_queue s HI p id t) as (pc & k & H & M); [rewrite E; by left |]. apply Hd in H. by destruct pc.
Qed.

(** C22: The locks do not block each other for good.  From every state the
    system can get into, whatever the index holds for each task, there is a
    run of the tasks and the clock after which every task is done, none of
    them by a failure or a timeout that it did not have before, no lock file
    is held and no task waits for a mutex: no order in which the locks were
    taken leads to a deadlock. *)
Theorem lock_completes s : reachable lock_root s ->
  exists s', rtc good s s' /\ dom (tasks s') = dom (tasks s) /\ clean s s' /\
    (forall t p pc, tasks s' !! t = Some (p, pc) -> exists r, pc = Finished r) /\
    flocks s' = ∅ /\ forall q, queue_of q s' = [].
Proof.
  intros HI%inv_reachable. remember (work s) as n eqn:En. revert s En HI.
  induction (lt_wf n) as [n _ IH]; intros s -> HI.
  destruct (decide (map_Forall (fun _ x => rank x.2 = 0) (tasks s))) as [Hd|Hd].
  - destruct (all_done s HI Hd) as [D1 D2]. exists s. split_and!; [constructor | done | by intros t p e | | done | done].
    intros t p pc H. apply Hd in H. destruct pc; try done. by eexists.
  - apply map_not_Forall in Hd as (t & [p pc] & Ht & Hr); [| apply _]. destruct (some_progress s t p pc HI Ht Hr) as (s1 & G1 & G2 & G3 & G4).
    destruct (IH (work s1) G2 s1 eq_refl (inv_good s s1 HI G1)) as (s' & R1 & R2 & R3 & R4). exists s'.
    split_and!; [by etrans | congruence | | apply R4..]. intros t' p' e H. by apply G4, R3.
Qed.

End Facts.

(** ** A run *)

Module Run.

#[local] Instance run_sha1 : Sha1 := fun b => b.

Definition root (p : Pid) : string := "/cache/locks".
Definition key : CoordVersionKey := mkLockKey (mkCoords "g" "a") "1".

(** Two processes want the same artifact; the first is fetching it, the
    second has found the lock file taken. *)
Definition contended_steps : list (State -> option State) :=
  [spawn 1 0 key; spawn 2 1 key; lock 1; lock 2; grant 1; grant 2; look root 1 false; look root 2 false;
   attempt root 1 false; attempt root 2 false].

Fixpoint run (fs : list (State -> option State)) (s : State) : option State :=
  match fs with [] => Some s | f :: fs' => f s ≫= run fs' end.

Definition contended : State := default init (run contended_steps init).

Lemma run_steps fs s s' : Forall (fun f => forall s s', f s = Some s' -> step root s s') fs ->
  run fs s = Some s' -> rtc (step root) s s'.
Proof.
  intros H. revert s. induction H as [|f fs Hf _ IH]; intros s; cbn; [intros [= ->]; constructor |].
  destruct (f s) as [s1|] eqn:E; [| done]. cbn. intros R. eapply rtc_l; [by apply Hf | by apply IH].
Qed.

Lemma contended_reached : reachable root contended.
Proof.
  apply (run_steps contended_steps).
  - unfold contended_steps. repeat (apply list.Forall_cons; split; [intros s s' H;
      first [by eapply s_spawn | apply s_progress; first [by eapply p_lock | by eapply p_grant | by eapply p_look | by eapply p_attempt]] |]).
    constructor.
  - unfold contended. destruct (run contended_steps init) eqn:E; [done |].
    exfalso. assert (K : bool_decide (is_Some (run contended_steps init)) = true) by (vm_compute; reflexivity). by rewrite E in K.
Qed.

(** The first task holds the lock file. *)
Lemma lock_exclusive_witness : fetches root contended 1 (lock_path (root 0) key).
Proof.
  pose proof (lock_exclusive root contended contended_reached) as (_ & _ & H).
  apply H. vm_compute. reflexivity.
Defined.

Lemma lock_completes_witness : exists s', rtc (good root (fun _ => false)) contended s' /\ flocks s' = ∅.
Proof.
  destruct (lock_completes root (fun _ => false) contended contended_reached) as (s' & H & _ & _ & _ & F & _).
  by exists s'.
Defined.

End Run.
End LocksFacts.
