(* ===== verification/ActionGraph.v ===== *)
(** * barista-cli: lifecycle action graphs

    Models crates/barista-cli/src/action_graph/mod.rs and the phase names of
    crates/barista-cli/src/cmd/maven_vocab.rs.  The request envelope for the
    daemon is protocol code and is left out. *)

From S2P Require Import Prelude Pom Effective Profile.

Module ActionGraph.

Inductive MavenPhase : Type := Clean | Compile | Test | Package | Verify | Install | Deploy | Site.

#[export] Instance MavenPhase_eq_dec : EqDecision MavenPhase.
Proof. solve_decision. Defined.

Definition as_str (p : MavenPhase) : string :=
  match p with
  | Clean => "clean" | Compile => "compile" | Test => "test" | Package => "package"
  | Verify => "verify" | Install => "install" | Deploy => "deploy" | Site => "site"
  end.

Definition from_phase_name (s : string) : option MavenPhase :=
  if String.eqb s "clean" then Some Clean
  else if String.eqb s "compile" then Some Compile
  else if String.eqb s "test" then Some Test
  else if String.eqb s "package" then Some Package
  else if String.eqb s "verify" then Some Verify
  else if String.eqb s "install" then Some Install
  else if String.eqb s "deploy" then Some Deploy
  else if String.eqb s "site" then Some Site
  else None.

Definition VERIFY_PHASE_PREFIX : list string :=
  ["process-resources"; "compile"; "process-test-resources"; "test-compile"; "test";
   "prepare-package"; "package"; "integration-test"; "verify"].
Definition COMPILE_PHASE_PREFIX : list string := ["process-resources"; "compile"].
Definition TEST_PHASE_PREFIX : list string :=
  ["process-resources"; "compile"; "process-test-resources"; "test-compile"; "test"].
Definition PACKAGE_PHASE_PREFIX : list string :=
  ["process-resources"; "compile"; "process-test-resources"; "test-compile"; "test";
   "prepare-package"; "package"].
Definition INSTALL_PHASE_PREFIX : list string :=
  ["process-resources"; "compile"; "process-test-resources"; "test-compile"; "test";
   "prepare-package"; "package"; "integration-test"; "verify"; "install"].
Definition DEPLOY_PHASE_PREFIX : list string :=
  ["process-resources"; "compile"; "process-test-resources"; "test-compile"; "test";
   "prepare-package"; "package"; "integration-test"; "verify"; "install"; "deploy"].
Definition CLEAN_PHASE_PREFIX : list string := ["clean"].
Definition SITE_PHASE_PREFIX : list string := ["site"].

Definition phase_prefix (p : MavenPhase) : list string :=
  match p with
  | Clean => CLEAN_PHASE_PREFIX
  | Compile => COMPILE_PHASE_PREFIX
  | Test => TEST_PHASE_PREFIX
  | Package => PACKAGE_PHASE_PREFIX
  | Verify => VERIFY_PHASE_PREFIX
  | Install => INSTALL_PHASE_PREFIX
  | Deploy => DEPLOY_PHASE_PREFIX
  | Site => SITE_PHASE_PREFIX
  end.

Definition phase_is_retryable (phase_name : string) : bool :=
  negb (String.eqb phase_name "install" || String.eqb phase_name "deploy").

Record PlannedAction := mkAction { phase : string; retryable : bool }.

Record ActionGraph := mkGraph {
  module_root : string;
  pom_path : string;
  actions : list PlannedAction
}.

Definition list_contains (s : string) (l : list string) : bool := existsb (String.eqb s) l.

Definition lifecycle_graph (p : MavenPhase) (root : string) (include_clean : bool) : ActionGraph :=
  let prefix := phase_prefix p in
  mkGraph root (Profile.join root "pom.xml")
    ((if include_clean && negb (list_contains "clean" prefix) then [mkAction "clean" true] else [])
     ++ map (fun s => mkAction s (phase_is_retryable s)) prefix).

Definition DEFAULT_LIFECYCLE_PHASES : list string :=
  ["validate"; "initialize"; "generate-sources"; "process-sources"; "generate-resources";
   "process-resources"; "compile"; "process-classes"; "generate-test-sources";
   "process-test-sources"; "generate-test-resources"; "process-test-resources"; "test-compile";
   "process-test-classes"; "test"; "prepare-package"; "package"; "pre-integration-test";
   "integration-test"; "post-integration-test"; "verify"; "install"; "deploy"].

Definition NON_RETRYABLE_PHASES : list string := ["install"; "deploy"].

Definition verify_graph (root : string) (include_clean : bool) : ActionGraph :=
  mkGraph root (Profile.join root "pom.xml")
    ((if include_clean then [mkAction "clean" true] else [])
     ++ map (fun s => mkAction s true) VERIFY_PHASE_PREFIX).

Inductive ShotGraphError : Type := UnknownPhase (phase : string).

Definition shot_graph (root : string) (expr : string) : result ShotGraphError ActionGraph :=
  let p := trim expr in
  resolved ← ok_or (List.find (fun q => String.eqb q p) DEFAULT_LIFECYCLE_PHASES) (UnknownPhase p);
  Ok (mkGraph root (Profile.join root "pom.xml")
        [mkAction resolved (negb (list_contains resolved NON_RETRYABLE_PHASES))]).

(** ** Properties *)

Lemma list_contains_In s l : list_contains s l = true <-> In s l.
Proof.
  unfold list_contains. rewrite existsb_exists. split.
  - by intros (x & Hx & ->%String.eqb_eq).
  - intros H. exists s. by rewrite String.eqb_refl.
Qed.

Lemma phase_names_inverse p s : from_phase_name s = Some p <-> s = as_str p.
Proof.
  split; [| intros ->; by destruct p].
  unfold from_phase_name. repeat case_match; intros [= <-];
    match goal with H : String.eqb _ _ = true |- _ => by apply String.eqb_eq in H end.
Qed.

(** [l] lists phases of the default lifecycle, in its order. *)
Definition in_lifecycle_order (l : list string) : Prop := sublist l DEFAULT_LIFECYCLE_PHASES.

Definition sublist_check : list string -> list string -> bool :=
  fix go l k := match l, k with
                | [], _ => true
                | _, [] => false
                | x :: l', y :: k' => if String.eqb x y then go l' k' else go l k'
                end.

Lemma sublist_check_ok l k : sublist_check l k = true -> sublist l k.
Proof.
  revert l. induction k as [|y k IH]; intros [|x l]; cbn; try done; [intros _; apply sublist_nil_l |].
  destruct (String.eqb_spec x y) as [->|]; intros H; [apply sublist_skip | apply sublist_cons]; by apply IH.
Qed.

(** [action_graph/mod.rs] The actions of a goal.  For the goals of the default
    lifecycle the graph runs phases of Maven's lifecycle in Maven's order,
    each once, and ends with the goal's own phase; the goals are nested
    (compile within test within package within verify within install within
    deploy); [clean] comes first when asked for, and only then; every action
    is retryable except [install] and [deploy]; [verify_graph] is the graph
    of the verify goal; and [shot_graph] accepts exactly the trimmed names
    of lifecycle phases, with the retryability of the goal graphs. *)
Theorem lifecycle_graphs :
  (forall p, p <> Clean -> p <> Site ->
     in_lifecycle_order (phase_prefix p) /\ list.last (phase_prefix p) = Some (as_str p))
  /\ COMPILE_PHASE_PREFIX `prefix_of` TEST_PHASE_PREFIX /\ TEST_PHASE_PREFIX `prefix_of` PACKAGE_PHASE_PREFIX
  /\ PACKAGE_PHASE_PREFIX `prefix_of` VERIFY_PHASE_PREFIX /\ VERIFY_PHASE_PREFIX `prefix_of` INSTALL_PHASE_PREFIX
  /\ INSTALL_PHASE_PREFIX `prefix_of` DEPLOY_PHASE_PREFIX
  /\ (forall p root c,
        phase <$> actions (lifecycle_graph p root c)
        = (if c then (if decide (p = Clean) then [] else ["clean"]) else []) ++ phase_prefix p
        /\ Forall (fun a => retryable a = negb (list_contains (phase a) NON_RETRYABLE_PHASES))
             (actions (lifecycle_graph p root c)))
  /\ (forall root c, verify_graph root c = lifecycle_graph Verify root c)
  /\ (forall root e, match shot_graph root e with
                     | Ok g => In (trim e) DEFAULT_LIFECYCLE_PHASES
                               /\ actions g = [mkAction (trim e) (phase_is_retryable (trim e))]
                     | Err (UnknownPhase p) => p = trim e /\ ~ In (trim e) DEFAULT_LIFECYCLE_PHASES
                     end).
Proof.
  split; [intros p H1 H2; split; [apply sublist_check_ok |]; by destruct p |].
  do 5 (split; [by apply prefix_app_r || by eexists |]).
  split; [| split].
  - intros p root c. destruct p, c; cbn; (split; [done |]); repeat (constructor; [done |]); constructor.
  - by intros root [].
  - intros root e. unfold shot_graph. destruct (List.find _ _) as [q|] eqn:E; cbn.
    + apply find_some in E as [Hin ->%String.eqb_eq]. split; [done |]. do 2 f_equal.
      unfold list_contains, phase_is_retryable, NON_RETRYABLE_PHASES. cbn. by rewrite orb_false_r.
    + split; [done |]. intros Hin. pose proof (find_none _ _ E _ Hin) as H. cbv beta in H. by rewrite String.eqb_refl in H.
Qed.

End ActionGraph.
