(* ===== verification/Reactor.v ===== *)
(** * barista-cli: the multi-module reactor

    Models crates/barista-cli/src/cmd/reactor.rs: discovery of the modules,
    the dependency edges between them, Kahn's level sort with its cycle
    report, and the level-by-level dispatch.  The POM of a directory (reading
    and parsing its file) is the parameter [ModuleTree]; vectors are lists
    updated by index, and every index the code uses is in range. *)

From S2P Require Import Prelude Pom Effective Profile ActionGraph.
From stdpp Require Import sorting.

(** [read_to_string] and [parse_pom] of the [pom.xml] in a directory; an
    error is its text. *)
Class ModuleTree := pom_at : string -> result string Pom.RawPom.

Module Reactor.
Import ActionGraph.

Record ModuleId := mkId { group_id : string; artifact_id : string }.

#[export] Instance ModuleId_eq_dec : EqDecision ModuleId.
Proof. solve_decision. Defined.

#[export] Instance ModuleId_countable : Countable ModuleId.
Proof.
  refine (inj_countable' (fun m => (group_id m, artifact_id m)) (fun '(g, a) => mkId g a) _). by intros [].
Defined.

Definition to_ga (m : ModuleId) : string := group_id m +:+ ":" +:+ artifact_id m.

Record ModuleNode := mkNode {
  id : ModuleId;
  root : string;
  action_graph : ActionGraph;
  depends_on : list nat
}.

Record DiscoveredModule := mkDiscovered {
  d_id : ModuleId;
  d_root : string;
  dependency_gas : list ModuleId
}.

Inductive ReactorError : Type :=
  | PomError (path detail : string)
  | MissingArtifactId (path : string)
  | Cycle (path : string).

(** ** Discovery *)

Section Discovery.
Context `{T : ModuleTree}.

(** [discover_at] appends to its accumulator; [None] is fuel exhaustion of
    the recursion over [<modules>]. *)
Fixpoint discover_at (fuel : nat) (module_root : string) (inherited_group_id : option string)
    (out : list DiscoveredModule) : option (result ReactorError (list DiscoveredModule)) :=
  match fuel with
  | O => None
  | S fuel' =>
      let pom_path := Profile.join module_root "pom.xml" in
      match pom_at module_root with
      | Err detail => Some (Err (PomError pom_path detail))
      | Ok raw =>
          let gid := default "" (Effective.or_else (Pom.group_id raw)
                       (Effective.or_else (Pom.par_group_id <$> Pom.parent raw) inherited_group_id)) in
          if is_empty (Pom.artifact_id raw) then Some (Err (MissingArtifactId pom_path))
          else
            let gas := map (fun d => mkId (Pom.d_group_id d) (Pom.d_artifact_id d))
                         (List.filter (fun d => negb (is_empty (Pom.d_group_id d) || is_empty (Pom.d_artifact_id d)))
                            (Pom.dependencies raw)) in
            (fix children (l : list string) (out : list DiscoveredModule) :=
               match l with
               | [] => Some (Ok out)
               | child :: l' =>
                   if is_empty child then children l' out
                   else
                     match discover_at fuel' (Profile.join module_root child) (Some gid) out with
                     | Some (Ok out') => children l' out'
                     | r => r
                     end
               end) (Pom.modules raw)
              (out ++ [mkDiscovered (mkId gid (Pom.artifact_id raw)) module_root gas])
      end
  end.

Definition discover_modules (fuel : nat) (project_root : string)
    : option (result ReactorError (list DiscoveredModule)) :=
  discover_at fuel project_root None [].

End Discovery.

(** ** Sorting *)

(** [sort_unstable] and [dedup] on indices. *)
Definition sort_indices (l : list nat) : list nat := merge_sort le l.

Fixpoint dedup (l : list nat) : list nat :=
  match l with
  | x :: ((y :: _) as l') => if (x =? y)%nat then dedup l' else x :: dedup l'
  | _ => l
  end.

(** ** Edges *)

(** The map from module to index; a later module of the same name wins. *)
Definition index_by_ga (discovered : list DiscoveredModule) : gmap ModuleId nat :=
  foldl (fun m '(i, d) => <[d_id d := i]> m) ∅ (imap (fun i d => (i, d)) discovered).

Definition edges (by_ga : gmap ModuleId nat) (self : nat) (gas : list ModuleId) : list nat :=
  dedup (sort_indices (omap (fun ga => match by_ga !! ga with
                                       | Some j => if (j =? self)%nat then None else Some j
                                       | None => None
                                       end) gas)).

(** ** Kahn's algorithm *)

Definition push_edge (i : nat) (rev : list (list nat)) (dep : nat) : list (list nat) :=
  if (dep <? length rev)%nat then alter (fun l => l ++ [i]) dep rev else rev.

Definition reverse_edges (modules : list ModuleNode) : list (list nat) :=
  map (fun r => dedup (sort_indices r))
    (foldl (fun rev '(i, m) => foldl (push_edge i) rev (depends_on m))
       (replicate (length modules) []) (imap (fun i m => (i, m)) modules)).

Record Kahn := mkKahn { emitted : list bool; in_degree : list nat }.

(** One module of a level: marked, and its dependants decremented. *)
Definition emit (rev : list (list nat)) (st : Kahn) (i : nat) : Kahn :=
  mkKahn (<[i := true]> (emitted st))
    (foldl (fun deg j => alter Nat.pred j deg) (in_degree st) (default [] (rev !! i))).

Definition ready (st : Kahn) (i : nat) : bool :=
  negb (default true (emitted st !! i)) && (default 1 (in_degree st !! i) =? 0)%nat.

Definition next_level (n : nat) (st : Kahn) : list nat :=
  sort_indices (List.filter (ready st) (seq 0 n)).

(** The loop: the levels and the final state; [None] is fuel exhaustion. *)
Fixpoint kahn_loop (fuel n : nat) (rev : list (list nat)) (st : Kahn) (levels : list (list nat))
    : option (list (list nat) * Kahn) :=
  match fuel with
  | O => None
  | S fuel' =>
      match next_level n st with
      | [] => Some (levels, st)
      | level => kahn_loop fuel' n rev (foldl (emit rev) st level) (levels ++ [level])
      end
  end.

Definition node_ga (modules : list ModuleNode) (i : nat) : string :=
  default "" (to_ga ∘ id <$> modules !! i).

(** The walk of [render_cycle]; [None] is fuel exhaustion. *)
Fixpoint cycle_walk (fuel : nat) (modules : list ModuleNode) (emitted : list bool)
    (visited : gmap nat nat) (path : list nat) (cur : nat) : option string :=
  match fuel with
  | O => None
  | S fuel' =>
      match visited !! cur with
      | Some first_seen =>
          Some (str_join " -> " (map (node_ga modules) (drop first_seen path) ++ [node_ga modules cur]))
      | None =>
          let visited := <[cur := length path]> visited in
          let path := path ++ [cur] in
          let deps := default [] (depends_on <$> modules !! cur) in
          match List.find (fun d =>
                  ((d <? length emitted)%nat && negb (default true (emitted !! d))
                   && negb (bool_decide (d ∈ path)))
                  || bool_decide (is_Some (visited !! d))) deps with
          | Some next => cycle_walk fuel' modules emitted visited path next
          | None => Some (str_join " -> " (map (node_ga modules) path))
          end
      end
  end.

Definition render_cycle (modules : list ModuleNode) (emitted : list bool) : option string :=
  match list_find (fun b => b = false) emitted with
  | Some (start, _) => cycle_walk (length modules + 2) modules emitted ∅ [] start
  | None => Some ""
  end.

Definition kahn_topo_levels (modules : list ModuleNode)
    : option (result ReactorError (list (list nat))) :=
  let n := length modules in
  '(levels, st) ← kahn_loop (S n) n (reverse_edges modules)
                    (mkKahn (replicate n false) (map (fun m => length (depends_on m)) modules)) [];
  if (length (List.concat levels) <? n)%nat
  then path ← render_cycle modules (emitted st); Some (Err (Cycle path))
  else Some (Ok levels).

Record Reactor := mkReactor { modules : list ModuleNode; topo_levels : list (list nat) }.

Definition nodes (discovered : list DiscoveredModule) (phase : MavenPhase) (include_clean : bool)
    : list ModuleNode :=
  imap (fun i d => mkNode (d_id d) (d_root d) (lifecycle_graph phase (d_root d) include_clean)
                     (edges (index_by_ga discovered) i (dependency_gas d))) discovered.

Definition from_discovered (discovered : list DiscoveredModule) (phase : MavenPhase)
    (include_clean : bool) : option (result ReactorError Reactor) :=
  let ms := nodes discovered phase include_clean in
  r ← kahn_topo_levels ms;
  Some (levels ← r; Ok (mkReactor ms levels)).

Definition from_project_root `{T : ModuleTree} (fuel : nat) (project_root : string) (phase : MavenPhase)
    (include_clean : bool) : option (result ReactorError Reactor) :=
  discovered ← discover_modules fuel project_root;
  match discovered with
  | Ok discovered => from_discovered discovered phase include_clean
  | Err e => Some (Err e)
  end.

Definition is_single_module (r : Reactor) : bool := (length (modules r) =? 1)%nat.

(** ** Dispatch

    The dispatcher is the parameter [dispatch]: the outcome of the task of a
    module and its index, which a panic may replace.  It stands for what the
    futures of one run give, each on its own, whenever they are polled. *)

Inductive TaskResult (O E : Type) : Type :=
  | Joined (r : result E O)
  | Panicked.
Arguments Joined {O E} r.
Arguments Panicked {O E}.

Section Dispatch.
Context {O E : Type} (default_outcome : O).
Context (r : Reactor) (dispatch : nat -> ModuleNode -> TaskResult O E).

(** The task of a module index; an index out of range panics in the code. *)
Definition task (i : nat) : TaskResult O E := default Panicked (dispatch i <$> modules r !! i).

(** The await of one handle: the outcomes and the first error so far. *)
Definition await (acc : list (option O) * option E) (i : nat) (t : TaskResult O E)
    : list (option O) * option E :=
  let '(outcomes, level_err) := acc in
  match t with
  | Joined (Ok out) => (<[i := Some out]> outcomes, level_err)
  | Joined (Err e) => (outcomes, match level_err with None => Some e | Some _ => level_err end)
  | Panicked => (outcomes, level_err)
  end.

Fixpoint run_levels (levels : list (list nat)) (outcomes : list (option O))
    : result E (list (option O)) :=
  match levels with
  | [] => Ok outcomes
  | level :: levels' =>
      let '(outcomes, level_err) := foldl (fun acc i => await acc i (task i)) (outcomes, None) level in
      match level_err with
      | Some e => Err e
      | None => run_levels levels' outcomes
      end
  end.

Definition unwrap (outcomes : list (option O)) : list O := map (default default_outcome) outcomes.

Definition run : result E (list O) :=
  outcomes ← run_levels (topo_levels r) (replicate (length (modules r)) None);
  Ok (unwrap outcomes).

(** *** The tasks and the semaphore

    The main task spawns the tasks of a level, then awaits their handles in
    order; a spawned task waits for a permit, holds it while it dispatches,
    and leaves its result. *)
Record Exec := mkExec {
  to_spawn : list nat;
  queued : list nat;
  running : list nat;
  results : gmap nat (TaskResult O E);
  handles : list nat;
  awaited : list (option O) * option E;
  to_run : list (list nat)
}.

Context (workers_budget : nat).

Definition budget : nat := workers_budget `max` 1.

Inductive exec_step : Exec -> Exec -> Prop :=
  | spawn i ts q rn rs hs aw lv :
      exec_step (mkExec (i :: ts) q rn rs hs aw lv) (mkExec ts (q ++ [i]) rn rs (hs ++ [i]) aw lv)
  | acquire ts q1 i q2 rn rs hs aw lv :
      length rn < budget ->
      exec_step (mkExec ts (q1 ++ i :: q2) rn rs hs aw lv) (mkExec ts (q1 ++ q2) (i :: rn) rs hs aw lv)
  | complete ts q r1 i r2 rs hs aw lv :
      exec_step (mkExec ts q (r1 ++ i :: r2) rs hs aw lv)
        (mkExec ts q (r1 ++ r2) (<[i := task i]> rs) hs aw lv)
  | join q rn rs i hs aw lv t :
      rs !! i = Some t ->
      exec_step (mkExec [] q rn rs (i :: hs) aw lv) (mkExec [] q rn rs hs (await aw i t) lv)
  | next q rn rs outcomes level lv :
      exec_step (mkExec [] q rn rs [] (outcomes, None) (level :: lv))
        (mkExec level q rn rs [] (outcomes, None) lv).

Definition exec_init : Exec :=
  mkExec [] [] [] ∅ [] (replicate (length (modules r)) None, None) (topo_levels r).

(** What [run] returns in a final state. *)
Definition exec_result (s : Exec) : option (result E (list O)) :=
  match to_spawn s, handles s, awaited s, to_run s with
  | [], [], (_, Some e), _ => Some (Err e)
  | [], [], (outcomes, None), [] => Some (Ok (unwrap outcomes))
  | _, _, _, _ => None
  end.

End Dispatch.

End Reactor.
