(* ===== verification/ReactorFacts.v ===== *)
(** * The reactor's order

    Theorems on reactor.rs: the level sort is exact on every module set, its
    cycle report is a cycle, and the level-by-level dispatch respects the
    dependencies. *)

From S2P Require Import Prelude Pom Effective Profile ActionGraph Reactor.
From stdpp Require Import sorting.

Module ReactorFacts.
Import ActionGraph Reactor.

(** ** Sorted index lists *)

Lemma sort_elem x l : x ∈ sort_indices l <-> x ∈ l.
Proof. unfold sort_indices. by rewrite merge_sort_Permutation. Qed.

Lemma indices_sorted l : StronglySorted le (sort_indices l).
Proof. apply Sorted_StronglySorted; [intros ???; lia |]. apply Sorted_merge_sort. intros ??. lia. Qed.

Lemma dedup_cons y z l :
  dedup (y :: z :: l) = if (y =? z)%nat then dedup (z :: l) else y :: dedup (z :: l).
Proof. done. Qed.

Lemma dedup_elem x l : x ∈ dedup l <-> x ∈ l.
Proof.
  induction l as [|y [|z l] IH]; try done. rewrite dedup_cons.
  destruct (Nat.eqb_spec y z) as [->|]; [rewrite IH; set_solver |]. rewrite !elem_of_cons in *. tauto.
Qed.

Lemma dedup_sorted l : StronglySorted le l -> StronglySorted lt (dedup l).
Proof.
  induction l as [|y [|z l] IH]; intros H; [constructor | by repeat constructor |].
  apply StronglySorted_inv in H as [Hs Hy]. specialize (IH Hs). rewrite dedup_cons.
  destruct (Nat.eqb_spec y z) as [->|Hne]; [done |]. constructor; [done |].
  rewrite list.Forall_forall in *. intros x Hx.
  assert (y <= z) by (apply Hy; set_solver).
  rewrite dedup_elem in Hx. apply StronglySorted_inv in Hs as [_ Hz]. rewrite list.Forall_forall in Hz.
  apply elem_of_cons in Hx as [->|Hx]; [lia |]. specialize (Hz x Hx). lia.
Qed.

Lemma sorted_lt_nodup l : StronglySorted lt l -> NoDup l.
Proof.
  induction 1 as [|x l Hs IH Hx]; constructor; [| done].
  intros Hin. rewrite list.Forall_forall in Hx. specialize (Hx _ Hin). lia.
Qed.

Lemma sort_dedup_nodup l : NoDup (dedup (sort_indices l)).
Proof. apply sorted_lt_nodup, dedup_sorted, indices_sorted. Qed.

(** ** Lists *)

Lemma sorted_strict l : NoDup l -> StronglySorted le l -> StronglySorted lt l.
Proof.
  intros Hn. induction 1 as [|x l Hs IH Hx]; constructor; apply list.NoDup_cons in Hn as [Hnx Hn]; auto.
  rewrite list.Forall_forall in *. intros y Hy. specialize (Hx y Hy).
  assert (x <> y) by (by intros ->). lia.
Qed.

Lemma concat_snoc (L : list (list nat)) lv : concat (L ++ [lv]) = concat L ++ lv.
Proof. by rewrite concat_app, concat_cons, concat_nil, app_nil_r. Qed.

Lemma filter_all (P : nat -> Prop) `{forall x, Decision (P x)} (l : list nat) : (forall x, x ∈ l -> P x) -> filter P l = l.
Proof.
  induction l as [|x l IH]; intros Hl; [done |]. rewrite filter_cons_True by (apply Hl; set_solver).
  f_equal. apply IH. set_solver.
Qed.

Lemma concat_take (L : list (list nat)) t x :
  x ∈ concat (take t L) -> exists t' lv, t' < t /\ L !! t' = Some lv /\ x ∈ lv.
Proof.
  intros H. apply list_elem_of_In, in_concat in H as (lv & Hlv & Hx).
  apply list_elem_of_In, list_elem_of_lookup in Hlv as [t' Ht].
  apply lookup_take_Some in Ht as [Ht ?]. exists t', lv. split_and!; [done | done | by apply list_elem_of_In].
Qed.

(** ** The dependency graph *)

Definition deps (ms : list ModuleNode) (i : nat) : list nat := default [] (depends_on <$> ms !! i).

(** Edges are in range and listed once, as [from_discovered] builds them. *)
Definition well_formed (ms : list ModuleNode) : Prop :=
  forall i, NoDup (deps ms i) /\ forall d, d ∈ deps ms i -> d < length ms.

Lemma push_edges_length i ds rev : length (foldl (push_edge i) rev ds) = length rev.
Proof.
  revert rev. induction ds as [|d ds IH]; intros rev; cbn; [done |]. rewrite IH. unfold push_edge.
  case_match; [apply length_alter | done].
Qed.

Lemma push_edges_lookup i ds rev k l :
  rev !! k = Some l ->
  exists l', foldl (push_edge i) rev ds !! k = Some l'
    /\ forall j, j ∈ l' <-> j ∈ l \/ (j = i /\ k ∈ ds).
Proof.
  revert rev l. induction ds as [|d ds IH]; intros rev l Hk; cbn.
  { exists l. split; [done |]. set_solver. }
  assert (exists l1, push_edge i rev d !! k = Some l1 /\ forall j, j ∈ l1 <-> j ∈ l \/ (j = i /\ k = d))
    as (l1 & H1 & Hl1).
  { unfold push_edge. destruct (Nat.ltb_spec d (length rev)).
    - destruct (decide (d = k)) as [->|Hne].
      + exists (l ++ [i]). rewrite list_lookup_alter_eq, Hk. split; [done |]. set_solver.
      + exists l. rewrite list_lookup_alter_ne by done. split; [done |]. naive_solver.
    - exists l. split; [done |]. apply lookup_lt_Some in Hk. naive_solver lia. }
  destruct (IH _ _ H1) as (l' & H' & Hl'). exists l'. split; [done |].
  intros j. rewrite Hl', Hl1. set_solver.
Qed.

Lemma reverse_fold ps rev k l :
  rev !! k = Some l ->
  exists l', foldl (fun rev '(i, m) => foldl (push_edge i) rev (depends_on m)) rev ps !! k = Some l'
    /\ forall j, j ∈ l' <-> j ∈ l \/ exists m, (j, m) ∈ ps /\ k ∈ depends_on m.
Proof.
  revert rev l. induction ps as [|[i m] ps IH]; intros rev l Hk; cbn.
  { exists l. split; [done |]. set_solver. }
  destruct (push_edges_lookup i (depends_on m) rev k l Hk) as (l1 & H1 & Hl1).
  destruct (IH _ _ H1) as (l' & H' & Hl'). exists l'. split; [done |].
  intros j. rewrite Hl', Hl1. set_solver.
Qed.

Lemma imap_pairs {A} (l : list A) i x : (i, x) ∈ imap (fun i x => (i, x)) l <-> l !! i = Some x.
Proof.
  rewrite list_elem_of_lookup. setoid_rewrite list_lookup_imap_Some. naive_solver.
Qed.

Lemma reverse_edges_spec ms i :
  i < length ms ->
  exists l, reverse_edges ms !! i = Some l /\ NoDup l /\ forall j, j ∈ l <-> i ∈ deps ms j.
Proof.
  intros Hi. unfold reverse_edges.
  destruct (reverse_fold (imap (fun i m => (i, m)) ms) (replicate (length ms) []) i []) as (l & Hl & Hj).
  { by apply lookup_replicate_2. }
  exists (dedup (sort_indices l)). split; [by erewrite list_lookup_fmap, Hl |].
  split; [apply sort_dedup_nodup |]. intros j. rewrite dedup_elem, sort_elem, Hj. unfold deps.
  setoid_rewrite imap_pairs. destruct (ms !! j); set_solver.
Qed.

(** ** The state of the sort *)

Section Kahn.
Context (ms : list ModuleNode) (WF : well_formed ms).

Let n := length ms.

Definition out (em : list bool) (i : nat) : Prop := em !! i = Some true.
Definition pending (em : list bool) (i : nat) : Prop := em !! i = Some false.

#[export] Instance pending_dec em i : Decision (pending em i).
Proof. unfold pending. apply _. Defined.

(** The dependencies of [j] not yet emitted. *)
Definition unresolved (em : list bool) (j : nat) : list nat :=
  filter (pending em) (deps ms j).

(** Marks and degrees agree. *)
Definition inv (st : Kahn) : Prop :=
  length (emitted st) = n
  /\ forall j, j < n -> in_degree st !! j = Some (length (unresolved (emitted st) j)).

Lemma out_or_pending em i : length em = n -> i < n -> out em i \/ pending em i.
Proof.
  intros Hl Hi. unfold out, pending. destruct (lookup_lt_is_Some_2 em i) as [[] E]; [lia | |]; auto.
Qed.

Lemma pending_mark em i d : pending em i -> pending (<[i := true]> em) d <-> d <> i /\ pending em d.
Proof.
  intros Hi. unfold pending in *. apply lookup_lt_Some in Hi as Hl. destruct (decide (i = d)) as [->|Hne].
  - rewrite list_lookup_insert_eq by done. naive_solver.
  - rewrite list_lookup_insert_ne by done. naive_solver.
Qed.

Lemma count_mark em i (l : list nat) :
  NoDup l -> pending em i ->
  length (filter (pending (<[i := true]> em)) l)
  = if decide (i ∈ l) then Nat.pred (length (filter (pending em) l)) else length (filter (pending em) l).
Proof.
  intros Hn Hp. induction Hn as [|x l Hx Hn IH]; [done |].
  rewrite !filter_cons. destruct (decide (x = i)) as [->|Hne].
  - rewrite (decide_False (P := pending (<[i:=true]> em) i)) by (rewrite pending_mark; naive_solver).
    rewrite (decide_True (P := pending em i)), (decide_True (P := i ∈ i :: l)) by (done || set_solver).
    rewrite decide_False in IH by done. cbn. done.
  - assert (Hc : i ∈ x :: l <-> i ∈ l) by set_solver.
    destruct (decide (i ∈ l)) as [Hil|Hil].
    + rewrite (decide_True (P := i ∈ x :: l)) by set_solver.
      assert (0 < length (filter (pending em) l)) as Hpos.
      { destruct (filter (pending em) l) eqn:E; cbn; [| lia].
        assert (i ∈ filter (pending em) l) by (by apply list_elem_of_filter). rewrite E in *. set_solver. }
      destruct (decide (pending em x)) as [Hpx|Hpx].
      * rewrite decide_True by (rewrite pending_mark; auto). cbn. lia.
      * rewrite decide_False by (rewrite pending_mark; naive_solver). lia.
    + rewrite (decide_False (P := i ∈ x :: l)) by set_solver.
      destruct (decide (pending em x)) as [Hpx|Hpx].
      * rewrite decide_True by (rewrite pending_mark; auto). cbn. lia.
      * rewrite decide_False by (rewrite pending_mark; naive_solver). lia.
Qed.

Lemma decrement_lookup (l deg : list nat) (j x : nat) :
  NoDup l -> deg !! j = Some x ->
  foldl (fun deg j => alter Nat.pred j deg) deg l !! j = Some (if decide (j ∈ l) then Nat.pred x else x).
Proof.
  intros Hn. revert deg x. induction Hn as [|y l Hy Hn IH]; intros deg x Hj; [done |]. cbn.
  destruct (decide (y = j)) as [->|Hne].
  - rewrite (IH _ (Nat.pred x)) by (by rewrite list_lookup_alter_eq, Hj).
    rewrite decide_False, decide_True by (done || set_solver). done.
  - rewrite (IH _ x) by (by rewrite list_lookup_alter_ne). do 2 f_equal.
    destruct (decide (j ∈ l)); [rewrite decide_True by set_solver | rewrite decide_False by set_solver]; done.
Qed.

Lemma emit_inv st i : inv st -> pending (emitted st) i -> inv (emit (reverse_edges ms) st i).
Proof.
  intros [Hl Hd] Hp. assert (Hi : i < n) by (rewrite <- Hl; by eapply lookup_lt_Some).
  destruct (reverse_edges_spec ms i Hi) as (l & El & Hn & Hj). unfold inv, emit. cbn.
  split; [by rewrite length_insert |]. intros j Hjn. rewrite El. cbn.
  rewrite (decrement_lookup _ _ _ _ Hn (Hd _ Hjn)). unfold unresolved.
  rewrite count_mark by (done || apply WF). f_equal.
  destruct (decide (i ∈ deps ms j)); [rewrite decide_True by (by apply Hj) | rewrite decide_False by (by rewrite Hj)]; done.
Qed.

Lemma emit_level st level :
  inv st -> NoDup level -> Forall (pending (emitted st)) level ->
  inv (foldl (emit (reverse_edges ms)) st level)
  /\ forall i, out (emitted (foldl (emit (reverse_edges ms)) st level)) i <-> out (emitted st) i \/ i ∈ level.
Proof.
  intros Hi Hn. revert st Hi. induction Hn as [|x l Hx Hn IH]; intros st Hi Hp; cbn.
  { split; [done |]. set_solver. }
  apply list.Forall_cons in Hp as [Hpx Hp].
  destruct (IH (emit (reverse_edges ms) st x)) as [Hi' Ho].
  - by apply emit_inv.
  - rewrite list.Forall_forall in *. intros y Hy. cbn. apply pending_mark; [done |].
    split; [by intros -> | auto].
  - split; [done |]. intros i. rewrite Ho. cbn. unfold out in *.
    destruct (decide (x = i)) as [->|Hne].
    + rewrite list_lookup_insert_eq by (by eapply lookup_lt_Some). set_solver.
    + rewrite list_lookup_insert_ne by done. set_solver.
Qed.

(** A module has a pending dependency, or all of them are out. *)
Lemma pending_dep em j :
  length em = n -> (exists d, d ∈ deps ms j /\ pending em d) \/ forall d, d ∈ deps ms j -> out em d.
Proof.
  intros Hl. destruct (decide (Exists (pending em) (deps ms j))) as [H|H].
  - left. apply list.Exists_exists in H as (d & ? & ?). by exists d.
  - right. intros d Hd. destruct (out_or_pending em d Hl) as [|Hp]; [by apply WF in Hd | done |].
    destruct H. apply list.Exists_exists. by exists d.
Qed.

(** ** The levels *)

(** Each module's dependencies lie in earlier levels, one of them in the
    level before its own: a level is the length of the longest chain below. *)
Definition below (L : list (list nat)) : Prop :=
  forall t lv j d, L !! t = Some lv -> j ∈ lv -> d ∈ deps ms j -> d ∈ concat (take t L).

Definition tight (L : list (list nat)) : Prop :=
  forall t lv j, L !! S t = Some lv -> j ∈ lv ->
    exists lv' d, L !! t = Some lv' /\ d ∈ lv' /\ d ∈ deps ms j.

(** What the loop keeps. *)
Record layering (L : list (list nat)) (em : list bool) : Prop := mkLayering {
  l_out : forall i, out em i <-> i ∈ concat L;
  l_nodup : NoDup (concat L);
  l_below : below L;
  l_tight : tight L;
  l_sorted : Forall (StronglySorted lt) L;
  l_front : forall j lv, pending em j -> last L = Some lv ->
              exists d, d ∈ deps ms j /\ (pending em d \/ d ∈ lv)
}.

Lemma out_not_pending em i : out em i -> ~ pending em i.
Proof. unfold out, pending. congruence. Qed.

Lemma in_range i d : d ∈ deps ms i -> d < n.
Proof. apply WF. Qed.

Lemma ready_spec st i :
  inv st -> i < n ->
  ready st i = true <-> pending (emitted st) i /\ forall d, d ∈ deps ms i -> out (emitted st) d.
Proof.
  intros [Hl Hd] Hi. unfold ready. rewrite (Hd _ Hi). cbn.
  destruct (out_or_pending _ _ Hl Hi) as [H|H].
  { unfold out, pending in *. rewrite H. cbn. naive_solver. }
  unfold pending in *. rewrite H. cbn. rewrite Nat.eqb_eq. unfold unresolved. split.
  - intros Hn. split; [done |]. intros d Hin. apply nil_length_inv in Hn.
    destruct (out_or_pending _ d Hl (in_range _ _ Hin)) as [|Hp]; [done |].
    assert (d ∈ filter (pending (emitted st)) (deps ms i)) as Hf by (by apply list_elem_of_filter).
    rewrite Hn in Hf. set_solver.
  - intros [_ Ho]. destruct (filter _ _) as [|d l] eqn:E; [done |].
    assert (d ∈ filter (pending (emitted st)) (deps ms i)) as Hf by (rewrite E; set_solver).
    apply list_elem_of_filter in Hf as [Hp Hin]. by apply Ho, out_not_pending in Hin.
Qed.

Lemma next_level_spec st i :
  inv st ->
  i ∈ next_level n st <-> pending (emitted st) i /\ forall d, d ∈ deps ms i -> out (emitted st) d.
Proof.
  intros Hi. unfold next_level. rewrite sort_elem, list_elem_of_In, List.filter_In, <- list_elem_of_In.
  rewrite elem_of_seq. split.
  - intros [? Hr]. apply (ready_spec st i Hi); [lia | done].
  - intros H. assert (i < n) by (destruct H as [H _], Hi as [<- _]; by eapply lookup_lt_Some).
    split; [lia |]. by apply ready_spec.
Qed.

Lemma next_level_sorted st : StronglySorted lt (next_level n st).
Proof.
  apply sorted_strict; [| apply indices_sorted]. unfold next_level, sort_indices.
  rewrite merge_sort_Permutation. apply NoDup_ListNoDup, List.NoDup_filter, NoDup_ListNoDup, NoDup_seq.
Qed.

Lemma below_snoc L lv :
  below L -> (forall j d, j ∈ lv -> d ∈ deps ms j -> d ∈ concat L) -> below (L ++ [lv]).
Proof.
  intros Hb Hlv t lv' j d Ht Hj Hd. apply lookup_snoc in Ht as [Ht|[-> ->]].
  - apply lookup_lt_Some in Ht as Hlt. rewrite take_app_le by lia. by eapply Hb.
  - rewrite take_app_length. by eapply Hlv.
Qed.

Lemma tight_snoc L lv :
  tight L ->
  (forall j lv', j ∈ lv -> last L = Some lv' -> exists d, d ∈ lv' /\ d ∈ deps ms j) -> tight (L ++ [lv]).
Proof.
  intros Hb Hlv t lv' j Ht Hj. apply lookup_snoc in Ht as [Ht|[Ht ->]].
  - destruct (Hb _ _ _ Ht Hj) as (l1 & d & H1 & ?). exists l1, d. rewrite lookup_app_l; [done |].
    apply lookup_lt_Some in H1. lia.
  - destruct (lookup_lt_is_Some_2 L t) as [l1 H1]; [lia |].
    destruct (Hlv j l1 Hj) as (d & ? & ?); [by rewrite last_lookup, <- Ht |].
    exists l1, d. rewrite lookup_app_l by lia. done.
Qed.

(** One round of the loop. *)
Lemma round st L :
  let level := next_level n st in
  inv st -> layering L (emitted st) ->
  let st' := foldl (emit (reverse_edges ms)) st level in
  inv st' /\ layering (L ++ [level]) (emitted st').
Proof.
  intros level Hi HL st'.
  assert (Hlv : forall i, i ∈ level <-> pending (emitted st) i /\ forall d, d ∈ deps ms i -> out (emitted st) d)
    by (intros i; by apply next_level_spec).
  pose proof (next_level_sorted st : StronglySorted lt level) as Hs.
  destruct (emit_level st level Hi) as [Hi' Ho]; [by apply sorted_lt_nodup | apply list.Forall_forall; naive_solver |].
  fold st' in Hi', Ho. split; [done |].
  assert (Hp : forall i, pending (emitted st') i -> pending (emitted st) i /\ i ∉ level).
  { intros i Hpi. assert (Hn : ~ out (emitted st') i) by (by intros ?%out_not_pending).
    rewrite Ho in Hn. destruct (out_or_pending (emitted st) i); [apply Hi | | naive_solver | naive_solver].
    destruct Hi' as [Hl' _]. rewrite <- Hl'. by eapply lookup_lt_Some. }
  destruct HL as [H1 H2 H3 H4 H5 H6]. split.
  - intros i. rewrite concat_snoc, elem_of_app, Ho, H1. done.
  - rewrite concat_snoc. apply list.NoDup_app. split_and!; [done | | by apply sorted_lt_nodup].
    intros x Hx%H1 [Hpx _]%Hlv. by apply (out_not_pending _ _ Hx).
  - apply below_snoc; [done |]. intros j d Hj Hd. apply H1. apply Hlv in Hj as [_ Hj]. auto.
  - apply tight_snoc; [done |]. intros j lv' Hj Hlast. apply Hlv in Hj as [Hpj Hj].
    destruct (H6 j lv' Hpj Hlast) as (d & Hd & [Hpd|Hin]); [| by exists d].
    by destruct (out_not_pending _ _ (Hj d Hd)).
  - apply Forall_app. split; [done | by constructor].
  - intros j lv' Hpj Hlast. rewrite last_snoc in Hlast. injection Hlast as <-.
    destruct (Hp j Hpj) as [Hpj0 Hnj]. destruct (pending_dep (emitted st) j) as [(d & Hd & Hpd)|Hall]; [apply Hi | |].
    + exists d. split; [done |].
      destruct (out_or_pending (emitted st') d) as [Hod|]; [apply Hi' | by eapply in_range | | by left].
      right. apply Ho in Hod as [Hod|]; [by destruct (out_not_pending _ _ Hod) | done].
    + destruct Hnj. by apply Hlv.
Qed.

Lemma layering_range L em : length em = n -> layering L em -> length (concat L) <= n.
Proof.
  intros Hl HL. replace n with (length (seq 0 n)) by apply length_seq.
  apply submseteq_length, NoDup_submseteq; [apply HL |]. intros x Hx%HL. apply elem_of_seq.
  apply lookup_lt_Some in Hx. lia.
Qed.

(** The loop ends: each round emits a module. *)
Lemma loop_exact fuel st L :
  inv st -> layering L (emitted st) -> n < fuel + length (concat L) ->
  exists L' st', kahn_loop fuel n (reverse_edges ms) st L = Some (L', st')
    /\ inv st' /\ layering L' (emitted st') /\ next_level n st' = [].
Proof.
  revert st L. induction fuel as [|fuel IH]; intros st L Hi HL Hf.
  { pose proof (layering_range L _ (proj1 Hi) HL). lia. }
  cbn. destruct (next_level n st) as [|x lv] eqn:E; [by exists L, st |].
  destruct (round st L Hi HL) as [Hi' HL']. rewrite E in Hi', HL'. apply IH; [done | done |].
  rewrite concat_snoc, length_app. cbn. lia.
Qed.

Definition start : Kahn :=
  mkKahn (replicate n false) (map (fun m => length (depends_on m)) ms).

Lemma start_inv : inv start.
Proof.
  split; [apply length_replicate |]. intros j Hj. cbn. rewrite list_lookup_fmap. unfold unresolved, deps.
  destruct (lookup_lt_is_Some_2 ms j Hj) as [m Em]. rewrite Em. cbn. f_equal.
  rewrite filter_all; [done |]. intros d Hd. apply lookup_replicate_2.
  apply (in_range j). unfold deps. by rewrite Em.
Qed.

Lemma start_layering : layering [] (emitted start).
Proof.
  split; try (intros ? **; done); try constructor.
  - intros H. by apply lookup_replicate in H as [? _].
  - intros H. set_solver.
Qed.

(** ** The cycle report *)

Definition linked (p : list nat) : Prop :=
  forall k x y, p !! k = Some x -> p !! S k = Some y -> y ∈ deps ms x.

(** [x] depends on the next of [p], and so on, back to [x]. *)
Definition cycle (x : nat) (p : list nat) : Prop :=
  NoDup (x :: p) /\ linked (x :: p ++ [x]).

(** No pending module can be emitted. *)
Definition stuck (em : list bool) : Prop :=
  forall j, pending em j -> exists d, d ∈ deps ms j /\ pending em d.

Lemma no_next_stuck st : inv st -> next_level n st = [] -> stuck (emitted st).
Proof.
  intros Hi Hn j Hj. destruct (pending_dep (emitted st) j) as [|Hall]; [apply Hi | done |].
  assert (H : j ∈ next_level n st) by (by apply next_level_spec). rewrite Hn in H. set_solver.
Qed.

(** What the walk keeps: the map names the positions of the path, a simple
    chain of pending modules that ends at the cursor's dependant. *)
Record walking (em : list bool) (visited : gmap nat nat) (path : list nat) (cur : nat) : Prop := mkWalking {
  w_visited : forall x k, visited !! x = Some k <-> path !! k = Some x;
  w_nodup : NoDup path;
  w_pending : Forall (pending em) (path ++ [cur]);
  w_linked : linked (path ++ [cur])
}.

Lemma linked_drop k p : linked p -> linked (drop k p).
Proof. intros H i x y. rewrite !lookup_drop. rewrite Nat.add_succ_r. apply H. Qed.

Lemma linked_snoc p x y : linked (p ++ [x]) -> y ∈ deps ms x -> linked ((p ++ [x]) ++ [y]).
Proof.
  intros Hl Hy k a b Ha Hb. apply lookup_lt_Some in Hb as Hlt. rewrite !length_app in Hlt. cbn in Hlt.
  rewrite (lookup_app_l (p ++ [x])) in Ha by (rewrite length_app; cbn; lia).
  apply lookup_snoc in Hb as [Hb|[Hk ->]]; [by eapply Hl |].
  rewrite length_app in Hk. cbn in Hk. replace k with (length p) in Ha by lia.
  rewrite list_lookup_middle in Ha by done. by injection Ha as <-.
Qed.

Lemma path_short em path : length em = n -> NoDup path -> Forall (pending em) path -> length path <= n.
Proof.
  intros Hl Hn Hp. replace n with (length (seq 0 n)) by apply length_seq.
  apply submseteq_length, NoDup_submseteq; [done |]. intros x Hx. rewrite list.Forall_forall in Hp.
  apply elem_of_seq. specialize (Hp x Hx). apply lookup_lt_Some in Hp. lia.
Qed.

Lemma walking_visited em visited path cur x :
  walking em visited path cur -> is_Some (visited !! x) <-> x ∈ path.
Proof.
  intros W. rewrite list_elem_of_lookup. setoid_rewrite <- (w_visited _ _ _ _ W). done.
Qed.

Lemma walking_step em visited path cur next :
  walking em visited path cur -> visited !! cur = None -> next ∈ deps ms cur -> pending em next ->
  walking em (<[cur := length path]> visited) (path ++ [cur]) next.
Proof.
  intros W Hv Hd Hp. assert (Hc : cur ∉ path).
  { intros Hin. apply (walking_visited _ _ _ _ _ W) in Hin as [? ?]. congruence. }
  destruct W as [W1 W2 W3 W4]. split.
  - intros x k. destruct (decide (x = cur)) as [->|Hne].
    + rewrite lookup_insert_eq. split; [intros [= <-]; by apply list_lookup_middle |].
      intros H. apply lookup_snoc in H as [H|[-> _]]; [| done]. destruct Hc. by apply list_elem_of_lookup_2 in H.
    + rewrite lookup_insert_ne by done. rewrite W1. split; [apply lookup_app_l_Some |].
      intros H. by apply lookup_snoc in H as [|[_ ?]].
  - apply list.NoDup_app. split_and!; [done | set_solver | apply NoDup_singleton].
  - apply Forall_app. split; [done | by constructor].
  - by apply linked_snoc.
Qed.

(** The dependency the walk follows. *)
Definition follow (em : list bool) (visited : gmap nat nat) (path : list nat) (d : nat) : bool :=
  ((d <? length em)%nat && negb (default true (em !! d)) && negb (bool_decide (d ∈ path)))
  || bool_decide (is_Some (visited !! d)).

Lemma follow_pending em visited path cur d :
  length em = n -> walking em visited path cur -> visited !! cur = None ->
  follow em (<[cur := length path]> visited) (path ++ [cur]) d = true <-> pending em d.
Proof.
  intros Hl W Hv. unfold follow.
  assert (Hin : is_Some (<[cur := length path]> visited !! d) <-> d ∈ path ++ [cur]).
  { rewrite elem_of_app, list_elem_of_singleton. destruct (decide (d = cur)) as [->|Hne].
    - rewrite lookup_insert_eq. naive_solver.
    - rewrite lookup_insert_ne by done. rewrite (walking_visited _ _ _ _ _ W). naive_solver. }
  assert (Hpath : d ∈ path ++ [cur] -> pending em d).
  { apply list.Forall_forall, W. }
  rewrite orb_true_iff, !andb_true_iff, !negb_true_iff, bool_decide_eq_true, bool_decide_eq_false, Hin.
  unfold pending in *. split.
  - intros [[[_ Hd] _]|]; [| auto]. destruct (em !! d) as [[]|]; naive_solver.
  - intros Hd. destruct (decide (d ∈ path ++ [cur])); [by right | left]. rewrite Hd.
    apply lookup_lt_Some in Hd. split_and!; [by apply Nat.ltb_lt | done | done].
Qed.

Definition cycle_text (x : nat) (p : list nat) : string := str_join " -> " (map (node_ga ms) (x :: p ++ [x])).

Lemma walk_exact fuel em visited path cur :
  length em = n -> stuck em -> walking em visited path cur -> n + 2 <= fuel + length path ->
  exists x p, cycle_walk fuel ms em visited path cur = Some (cycle_text x p) /\ cycle x p.
Proof.
  intros Hl Hs. revert visited path cur.
  induction fuel as [|fuel IH]; intros visited path cur W Hf.
  { destruct W as [_ W2 W3 _]. apply Forall_app in W3 as [W3 _]. pose proof (path_short _ _ Hl W2 W3). lia. }
  cbn. destruct (visited !! cur) as [k|] eqn:Hv.
  - apply (w_visited _ _ _ _ W) in Hv as Hk. exists cur, (drop (S k) path).
    rewrite (drop_S _ _ _ Hk). cbn. rewrite map_app. split; [done |].
    assert (Hd : drop k path = cur :: drop (S k) path) by (by apply drop_S).
    pose proof (w_nodup _ _ _ _ W) as Hn. rewrite <- (take_drop k path) in Hn. apply list.NoDup_app in Hn as (_ & _ & Hn).
    split; [by rewrite <- Hd |].
    change (linked ((cur :: drop (S k) path) ++ [cur])). rewrite <- Hd.
    apply lookup_lt_Some in Hk. rewrite <- drop_app_le by lia. apply linked_drop, W.
  - assert (Hpc : pending em cur).
    { pose proof (w_pending _ _ _ _ W) as Hp. rewrite list.Forall_forall in Hp. apply Hp. set_solver. }
    destruct (Hs cur Hpc) as (d & Hd & Hpd).
    pose proof (follow_pending em visited path cur) as Hfp. unfold follow in Hfp.
    destruct (List.find _ _) as [nx|] eqn:E.
    + apply List.find_some in E as [Hin Hnx]. apply list_elem_of_In in Hin.
      apply Hfp in Hnx; [| done ..]. apply IH; [by apply walking_step |].
      rewrite length_app. cbn. lia.
    + eapply List.find_none in E; [| by apply list_elem_of_In, Hd]. cbv beta in E.
      destruct (eq_true_false_abs _ (proj2 (Hfp d Hl W Hv) Hpd) E).
Qed.

Lemma render_exact em :
  length em = n -> stuck em -> (exists i, pending em i) ->
  exists x p, render_cycle ms em = Some (cycle_text x p) /\ cycle x p.
Proof.
  intros Hl Hs [i Hi]. unfold render_cycle.
  destruct (list_find (fun b => b = false) em) as [[st b]|] eqn:E.
  - apply list_find_Some in E as (E & -> & _). apply walk_exact; [done | done | | cbn; fold n; lia].
    split; [set_solver | constructor | by constructor |].
    intros k x y Hx Hy. by destruct k.
  - apply list_find_None in E. rewrite list.Forall_forall in E. apply list_elem_of_lookup_2 in Hi.
    by apply E in Hi.
Qed.

(** ** Exactness of the sort *)

Definition layered (L : list (list nat)) : Prop :=
  concat L ≡ₚ seq 0 (length ms) /\ below L /\ tight L /\ Forall (StronglySorted lt) L.

(** Along a chain of dependencies the level falls. *)
Lemma linked_descends L p : below L -> forall x y t lv,
  linked (x :: p ++ [y]) -> L !! t = Some lv -> x ∈ lv ->
  exists t' lv', t' < t /\ L !! t' = Some lv' /\ y ∈ lv'.
Proof.
  intros Hb. induction p as [|z p IH]; intros x y t lv Hl Ht Hx.
  - apply concat_take. eapply Hb; [done | done |]. by apply (Hl 0).
  - assert (Hz : z ∈ deps ms x) by (by apply (Hl 0)).
    destruct (concat_take L t z) as (t1 & lv1 & ? & H1 & H1z); [by eapply Hb |].
    destruct (IH z y t1 lv1) as (t2 & lv2 & ? & ?); [| done | done | exists t2, lv2; split; [lia | done]].
    intros k a b Ha Hb'. by apply (Hl (S k)).
Qed.

Lemma layered_acyclic L x p : below L -> x ∈ concat L -> ~ linked (x :: p ++ [x]).
Proof.
  intros Hb Hx Hl. replace (concat L) with (concat (take (length L) L)) in Hx by (by rewrite firstn_all).
  apply concat_take in Hx as (t & lv & _ & Ht & Hx). revert lv Ht Hx.
  induction t as [t IH] using lt_wf_ind. intros lv Ht Hx.
  destruct (linked_descends L p Hb x x t lv Hl Ht Hx) as (t' & lv' & Hlt & Ht' & Hx').
  by apply (IH t' Hlt lv').
Qed.

Lemma full_layered L em :
  length em = n -> layering L em -> n <= length (concat L) -> layered L.
Proof.
  intros Hl HL Hn. split_and!; [| apply HL ..].
  apply submseteq_length_Permutation; [| by rewrite length_seq].
  apply NoDup_submseteq; [apply HL |]. intros x Hx%HL. apply elem_of_seq. apply lookup_lt_Some in Hx. lia.
Qed.

Lemma short_pending L em :
  length em = n -> layering L em -> length (concat L) < n -> exists i, pending em i.
Proof.
  intros Hl HL Hlt. destruct (decide (Exists (pending em) (seq 0 n))) as [H|H].
  { apply list.Exists_exists in H as (i & _ & Hi). by exists i. }
  assert (Hs : length (seq 0 n) <= length (concat L)); [| rewrite length_seq in Hs; lia].
  apply submseteq_length, NoDup_submseteq; [apply NoDup_seq |]. intros i Hi. apply HL.
  apply elem_of_seq in Hi as Hr. destruct (out_or_pending em i Hl) as [|Hp]; [lia | done |].
  destruct H. apply list.Exists_exists. by exists i.
Qed.

(** The outcome of the sort: the levels of an acyclic graph, or the text of
    one of its cycles. *)
Definition sort_outcome (r : result ReactorError (list (list nat))) : Prop :=
  match r with
  | Ok L => layered L /\ forall x p, ~ cycle x p
  | Err (Cycle text) => exists x p, cycle x p /\ text = cycle_text x p
  | Err _ => False
  end.

Lemma cycle_range x p : cycle x p -> x < n.
Proof.
  intros [_ Hl]. destruct (deps ms x) as [|d l] eqn:E.
  - destruct p as [|y p]; [specialize (Hl 0 x x) | specialize (Hl 0 x y)]; rewrite E in Hl; cbn in Hl; set_solver.
  - unfold deps in E. destruct (ms !! x) eqn:Ex; [by apply lookup_lt_Some in Ex | done].
Qed.

Lemma sort_exact : exists r, kahn_topo_levels ms = Some r /\ sort_outcome r.
Proof.
  unfold kahn_topo_levels. destruct (loop_exact (S n) start []) as (L & st & E & Hi & HL & Hn).
  { apply start_inv. } { apply start_layering. } { cbn. lia. }
  change (mkKahn _ _) with start. fold n. rewrite E. cbn [mbind option_bind].
  pose proof (proj1 Hi) as Hl. destruct (Nat.ltb_spec (length (concat L)) n) as [Hlt|Hge].
  - destruct (render_exact (emitted st) Hl) as (x & p & Er & Hc).
    { by apply no_next_stuck. } { by eapply short_pending. }
    rewrite Er. eexists. split; [done |]. by exists x, p.
  - eexists. split; [done |]. assert (HF : layered L) by (by eapply full_layered).
    split; [done |]. intros x p Hc. destruct HF as (Hperm & Hb & _).
    apply (layered_acyclic L x p Hb); [| apply Hc]. rewrite Hperm. apply elem_of_seq.
    apply cycle_range in Hc. fold n. lia.
Qed.

End Kahn.

(** ** The edges between discovered modules *)

Lemma index_snoc ds d : index_by_ga (ds ++ [d]) = <[d_id d := length ds]> (index_by_ga ds).
Proof.
  unfold index_by_ga. rewrite imap_app, foldl_app. cbn. by rewrite Nat.add_0_r.
Qed.

(** The last module of that name. *)
Definition last_named (ds : list DiscoveredModule) (ga : ModuleId) (j : nat) : Prop :=
  d_id <$> ds !! j = Some ga /\ forall k, j < k -> d_id <$> ds !! k <> Some ga.

Lemma last_named_snoc ds d ga j :
  last_named (ds ++ [d]) ga j
  <-> if decide (ga = d_id d) then j = length ds else last_named ds ga j.
Proof.
  unfold last_named. destruct (decide (ga = d_id d)) as [->|Hne]; split.
  - intros [H Hk]. apply fmap_Some in H as (x & Hx & Hid). apply lookup_snoc in Hx as [Hx|[-> _]]; [| done].
    apply lookup_lt_Some in Hx. destruct (Hk (length ds)); [done |]. by rewrite list_lookup_middle.
  - intros ->. rewrite list_lookup_middle by done. split; [done |]. intros k Hk.
    rewrite lookup_ge_None_2; [done |]. rewrite length_app. cbn. lia.
  - intros [H Hk]. apply fmap_Some in H as (x & Hx & Hid).
    apply lookup_snoc in Hx as [Hx|[-> ->]]; [| congruence]. rewrite Hx. split; [by rewrite Hid |].
    intros k Hlt Hc. apply (Hk k Hlt). destruct (ds !! k) eqn:Ek; [| done].
    by erewrite lookup_app_l_Some by exact Ek.
  - intros [H Hk]. apply fmap_Some in H as (x & Hx & Hid).
    split; [erewrite lookup_app_l_Some by exact Hx; by rewrite Hid |].
    intros k Hlt Hc. apply fmap_Some in Hc as (y & Hy & Hid').
    apply lookup_snoc in Hy as [Hy|[-> ->]]; [| congruence]. apply (Hk k Hlt). rewrite Hy. by rewrite Hid'.
Qed.

Lemma index_spec ds ga j : index_by_ga ds !! ga = Some j <-> last_named ds ga j.
Proof.
  revert j. induction ds as [|d ds IH] using rev_ind; intros j.
  { unfold last_named. by split; [| intros [? _]]. }
  rewrite index_snoc, last_named_snoc. destruct (decide (ga = d_id d)) as [->|Hne].
  - rewrite lookup_insert_eq. naive_solver.
  - by rewrite lookup_insert_ne, IH.
Qed.

(** Module [i] declares a dependency that module [j] provides. *)
Definition provides (ds : list DiscoveredModule) (i j : nat) : Prop :=
  j <> i /\ exists d ga, ds !! i = Some d /\ ga ∈ dependency_gas d /\ last_named ds ga j.

Lemma nodes_deps ds phase ic i :
  deps (nodes ds phase ic) i
  = default [] ((fun d => edges (index_by_ga ds) i (dependency_gas d)) <$> ds !! i).
Proof. unfold deps, nodes. rewrite list_lookup_imap. by destruct (ds !! i). Qed.

Lemma edges_spec ds phase ic i j : j ∈ deps (nodes ds phase ic) i <-> provides ds i j.
Proof.
  rewrite nodes_deps. unfold provides. destruct (ds !! i) as [d|]; cbn; [| set_solver].
  unfold edges. rewrite dedup_elem, sort_elem, list_elem_of_omap. split.
  - intros (ga & Hin & E). destruct (index_by_ga ds !! ga) as [k|] eqn:Ek; [| done].
    destruct (Nat.eqb_spec k i); [done |]. injection E as <-. split; [done |].
    exists d, ga. by rewrite <- index_spec.
  - intros (Hne & d' & ga & [= <-] & Hin & Hl%index_spec). exists ga. rewrite Hl. split; [done |].
    by rewrite (proj2 (Nat.eqb_neq j i)).
Qed.

Lemma nodes_well_formed ds phase ic : well_formed (nodes ds phase ic).
Proof.
  intros i. split.
  - rewrite nodes_deps. destruct (ds !! i); cbn; [apply sort_dedup_nodup | constructor].
  - intros j (_ & d & ga & _ & _ & [H _])%edges_spec. apply fmap_Some in H as (x & Hx & _).
    unfold nodes. rewrite length_imap. by eapply lookup_lt_Some.
Qed.

(** C33: Reactor construction is total and exact.  Two modules are linked
    exactly when one declares a dependency on the group and artifact of
    the other (the last module of that name; never itself).  When those
    links have no cycle, the result is the modules in discovery order with
    levels that hold every module once, each level in ascending order,
    every dependency in an earlier level and, past the first level, one
    dependency in the level just before: a module runs as early as its
    dependencies allow.  Otherwise the result is the cycle error, whose text
    spells a genuine simple cycle of those links, its first module repeated
    at the end; no other error is possible. *)
Theorem reactor_exact (ds : list DiscoveredModule) (phase : MavenPhase) (ic : bool) :
  let ms := nodes ds phase ic in
  (forall i j, j ∈ deps ms i <-> provides ds i j)
  /\ exists r, from_discovered ds phase ic = Some r
     /\ match r with
        | Ok rx => modules rx = ms /\ layered ms (topo_levels rx) /\ forall x p, ~ cycle ms x p
        | Err (Cycle text) => exists x p, cycle ms x p /\ text = cycle_text ms x p
        | Err _ => False
        end.
Proof.
  intros ms. split; [intros; apply edges_spec |].
  destruct (sort_exact ms (nodes_well_formed ds phase ic)) as (r & E & Hr).
  unfold from_discovered. fold ms. rewrite E. eexists. split; [done |].
  destruct r as [L|[]]; cbn in *; done.
Qed.
End ReactorFacts.
