(* ===== verification/ReactorRun.v ===== *)
(** * The reactor's dispatch

    Theorems on [run] of reactor.rs: whatever the order in which the tasks of
    a level get their permits and finish, the budget and the dependencies are
    respected, the run ends, and its result is that of the level-by-level
    fold. *)

From S2P Require Import Prelude Pom Effective Profile ActionGraph Reactor ReactorFacts.

Module ReactorRun.
Import ActionGraph Reactor ReactorFacts.

Section Exec.
Context {O E : Type} (default_outcome : O).
Context (r : Reactor) (dispatch : nat -> ModuleNode -> TaskResult O E) (workers_budget : nat).

#[local] Abbreviation step := (exec_step r dispatch workers_budget).
#[local] Abbreviation exec := (@Exec O E).
#[local] Abbreviation task := (task r dispatch).

Definition reachable : exec -> Prop := rtc step (exec_init r).

(** A task that did not report an error. *)
Definition passed (t : TaskResult O E) : Prop :=
  match t with Joined (Err _) => False | _ => True end.

Definition join_all (acc : list (option O) * option E) (l : list nat) : list (option O) * option E :=
  foldl (fun acc i => await acc i (task i)) acc l.

Definition finish (acc : list (option O) * option E) (lv : list (list nat)) : result E (list (option O)) :=
  match acc with
  | (_, Some e) => Err e
  | (outcomes, None) => run_levels r dispatch lv outcomes
  end.

(** The modules of the finished levels and of the current one, seen from a
    state. *)
Record sound (pre : list (list nat)) (old cur : list nat) (s : exec) : Prop := mkSound {
  s_levels : topo_levels r = pre ++ to_run s;
  s_pre : List.concat pre = old ++ cur;
  s_below : forall i d, i ∈ cur -> d ∈ deps (modules r) i -> d ∈ old;
  s_old : forall i, i ∈ old -> exists t, results s !! i = Some t /\ passed t;
  s_results : forall i t, results s !! i = Some t -> t = task i;
  s_cur : forall i, i ∈ to_spawn s \/ i ∈ queued s \/ i ∈ running s -> i ∈ cur;
  s_handles : forall i, i ∈ handles s -> i ∈ queued s \/ i ∈ running s \/ is_Some (results s !! i);
  s_awaited : snd (awaited s) = None ->
    forall i, i ∈ cur -> i ∈ to_spawn s \/ i ∈ handles s \/ exists t, results s !! i = Some t /\ passed t;
  s_dom : forall i, is_Some (results s !! i) -> i ∈ old ++ cur;
  s_live : forall i, i ∈ queued s \/ i ∈ running s -> i ∈ handles s /\ results s !! i = None;
  s_fresh : forall i, i ∈ to_spawn s -> results s !! i = None;
  s_once : NoDup (handles s ++ to_spawn s);
  s_tasks : NoDup (queued s ++ running s);
  s_budget : length (running s) <= budget workers_budget;
  s_future : finish (join_all (awaited s) (handles s ++ to_spawn s)) (to_run s)
             = run_levels r dispatch (topo_levels r) (replicate (length (modules r)) None)
}.

Context (HL : below (modules r) (topo_levels r)) (HN : NoDup (List.concat (topo_levels r))).

Lemma init_sound : sound [] [] [] (exec_init r).
Proof.
  split; cbn; try set_solver; try lia; try done; try apply NoDup_nil_2.
  intros i [t Ht]. by rewrite lookup_empty in Ht.
Qed.

Lemma await_none acc i t : snd (await acc i t) = None <-> snd acc = None /\ passed t.
Proof. destruct acc as [o [e|]], t as [[]|]; cbn; naive_solver. Qed.

Lemma spawn_sound pre old cur i ts q rn rs hs aw lv :
  sound pre old cur (mkExec (i :: ts) q rn rs hs aw lv) ->
  sound pre old cur (mkExec ts (q ++ [i]) rn rs (hs ++ [i]) aw lv).
Proof.
  intros []; cbn in *.
  assert (Hi : i ∉ hs) by (apply list.NoDup_app in s_once0; set_solver).
  split; cbn; try done.
  - set_solver.
  - set_solver.
  - set_solver.
  - intros j Hj. destruct (decide (j = i)); set_solver.
  - set_solver.
  - by rewrite <- app_assoc.
  - assert (i ∉ q ++ rn) by set_solver. rewrite <- app_assoc. cbn.
    rewrite <- Permutation_middle. by apply list.NoDup_cons.
  - by rewrite <- app_assoc.
Qed.

Lemma acquire_sound pre old cur ts q1 i q2 rn rs hs aw lv :
  length rn < budget workers_budget ->
  sound pre old cur (mkExec ts (q1 ++ i :: q2) rn rs hs aw lv) ->
  sound pre old cur (mkExec ts (q1 ++ q2) (i :: rn) rs hs aw lv).
Proof.
  intros Hb []; cbn in *. split; cbn; try done.
  - set_solver.
  - set_solver.
  - set_solver.
  - rewrite <- Permutation_middle. rewrite <- Permutation_middle in s_tasks0. done.
Qed.

Lemma complete_sound pre old cur ts q r1 i r2 rs hs aw lv :
  sound pre old cur (mkExec ts q (r1 ++ i :: r2) rs hs aw lv) ->
  sound pre old cur (mkExec ts q (r1 ++ r2) (<[i := task i]> rs) hs aw lv).
Proof.
  intros []; cbn in *.
  assert (Hk : forall j t, rs !! j = Some t -> <[i := task i]> rs !! j = Some t).
  { intros j t Hj. destruct (decide (i = j)) as [->|Hne].
    - rewrite lookup_insert_eq. f_equal. symmetry. by apply s_results0.
    - by rewrite lookup_insert_ne. }
  rewrite app_assoc, <- Permutation_middle, <- app_assoc in s_tasks0.
  apply list.NoDup_cons in s_tasks0 as [Hi Ht].
  assert (Hh : i ∈ hs) by (apply s_live0; set_solver).
  assert (Hts : i ∉ ts) by (apply list.NoDup_app in s_once0; set_solver).
  assert (Hne : forall j, j <> i -> <[i := task i]> rs !! j = rs !! j) by (intros; by rewrite lookup_insert_ne).
  assert (Heq : <[i := task i]> rs !! i = Some (task i)) by apply lookup_insert_eq.
  split; cbn; try done.
  - naive_solver.
  - intros j t Hj. destruct (decide (j = i)) as [->|Hj'].
    + rewrite Heq in Hj. by injection Hj as <-.
    + rewrite Hne in Hj by done. auto.
  - set_solver.
  - intros j Hj. destruct (decide (j = i)) as [->|Hj']; [rewrite Heq; eauto |].
    rewrite Hne by done. specialize (s_handles0 j Hj). set_solver.
  - naive_solver.
  - intros j. destruct (decide (j = i)) as [->|Hj']; [set_solver |]. rewrite Hne by done. auto.
  - intros j Hj. assert (j <> i) by set_solver. rewrite Hne by done. set_solver.
  - intros j Hj. assert (j <> i) by set_solver. rewrite Hne by done. auto.
  - rewrite length_app in *. cbn in *. lia.
Qed.

Lemma join_sound pre old cur q rn rs i hs aw lv t :
  rs !! i = Some t ->
  sound pre old cur (mkExec [] q rn rs (i :: hs) aw lv) ->
  sound pre old cur (mkExec [] q rn rs hs (await aw i t) lv).
Proof.
  intros Ht []; cbn in *. rewrite (s_results0 _ _ Ht) in *. split; cbn; try done.
  - set_solver.
  - intros [Hn Hp]%await_none j Hj. specialize (s_awaited0 Hn j Hj). set_solver.
  - intros j Hj. destruct (s_live0 j Hj) as [Hin Hj']. split; [| done]. set_solver.
  - by apply list.NoDup_cons in s_once0 as [_ ?].
Qed.

Lemma next_sound pre old cur q rn rs outcomes level lv :
  sound pre old cur (mkExec [] q rn rs [] (outcomes, None) (level :: lv)) ->
  sound (pre ++ [level]) (old ++ cur) level (mkExec level q rn rs [] (outcomes, None) lv).
Proof.
  intros []; cbn in *.
  assert (q = [] /\ rn = []) as [-> ->].
  { split; apply elem_of_nil_inv; set_solver. }
  pose proof HN as Hn. rewrite s_levels0, concat_app, concat_cons, s_pre0 in Hn.
  apply list.NoDup_app in Hn as (_ & Hdis & Hn). apply list.NoDup_app in Hn as (Hlev & _ & _).
  split; cbn; try done.
  - by rewrite s_levels0, <- app_assoc.
  - by rewrite concat_snoc, s_pre0.
  - intros j d Hj Hd. rewrite <- s_pre0, <- (take_app_length pre (level :: lv)), <- s_levels0.
    eapply HL; [| exact Hj | exact Hd]. rewrite s_levels0. by apply list_lookup_middle.
  - intros j Hj. apply elem_of_app in Hj as [Hj|Hj]; [auto |]. specialize (s_awaited0 eq_refl j Hj). set_solver.
  - clear. set_solver.
  - intros _ j Hj. by left.
  - intros j Hj. apply elem_of_app. left. by apply s_dom0.
  - intros j Hj. apply eq_None_not_Some. intros Hs%s_dom0. set_solver.
Qed.

Lemma step_sound pre old cur s s' :
  sound pre old cur s -> step s s' -> exists pre' old' cur', sound pre' old' cur' s'.
Proof.
  intros H Hs. destruct Hs; eauto using spawn_sound, acquire_sound, complete_sound, join_sound, next_sound.
Qed.

Lemma reachable_sound s : reachable s -> exists pre old cur, sound pre old cur s.
Proof.
  revert s. apply (rtc_ind_r (fun s => exists pre old cur, sound pre old cur s)); [eauto using init_sound |].
  intros s s' _ Hs (pre & old & cur & IH). by eapply step_sound.
Qed.

(** ** Progress *)

Definition measure (s : exec) : nat :=
  4 * length (to_spawn s) + 4 * length (List.concat (to_run s)) + length (to_run s)
  + 2 * length (queued s) + length (running s) + length (handles s).

Lemma step_measure s s' : step s s' -> measure s' < measure s.
Proof.
  destruct 1; unfold measure; cbn; rewrite ?concat_cons, ?length_app; cbn; lia.
Qed.

Lemma progress pre old cur s :
  sound pre old cur s -> exec_result default_outcome s = None -> exists s', step s s'.
Proof.
  destruct s as [ts q rn rs hs [o e] lv]. intros H Hr. destruct ts as [|i ts]; [| eexists; apply spawn].
  destruct rn as [|i rn]; [| eexists; apply (complete r dispatch workers_budget [] q [])].
  destruct q as [|i q]; [| eexists; apply (acquire r dispatch workers_budget [] [] i q []); cbn; unfold budget; lia].
  destruct hs as [|i hs].
  - destruct e; [done |]. destruct lv; [done |]. eexists. apply next.
  - destruct (s_handles _ _ _ _ H i) as [Hi|[Hi|[t Hi]]]; cbn in *; [set_solver .. |].
    eexists. by apply join.
Qed.

Lemma result_run pre old cur s res :
  sound pre old cur s -> exec_result default_outcome s = Some res ->
  res = run default_outcome r dispatch /\ queued s = [] /\ running s = [].
Proof.
  intros H Hr. assert (to_spawn s = [] /\ handles s = []) as [Ht Hh].
  { unfold exec_result in Hr. destruct (to_spawn s), (handles s); done. }
  pose proof (s_live _ _ _ _ H) as Hl. rewrite Hh in Hl. split.
  - pose proof (s_future _ _ _ _ H) as Hf. unfold run. rewrite <- Hf. unfold exec_result in Hr.
    rewrite Ht, Hh in *. cbn in *. destruct (awaited s) as [o [e|]]; cbn in *; [by injection Hr as <- |].
    destruct (to_run s); [by injection Hr as <- | done].
  - split; apply elem_of_nil_inv; set_solver.
Qed.

(** ** The result *)

(** What a module that passed leaves. *)
Definition outcome_of (t : TaskResult O E) : option O :=
  match t with Joined (Ok out) => Some out | _ => None end.

Definition fill (o : list (option O)) (l : list nat) : list (option O) :=
  foldl (fun o i => match outcome_of (task i) with Some out => <[i := Some out]> o | None => o end) o l.

Lemma join_all_cons acc i l : join_all acc (i :: l) = join_all (await acc i (task i)) l.
Proof. done. Qed.

Lemma fill_cons o i l :
  fill o (i :: l) = fill (match outcome_of (task i) with Some out => <[i := Some out]> o | None => o end) l.
Proof. done. Qed.

Lemma join_all_some o e l : exists o', join_all (o, Some e) l = (o', Some e).
Proof.
  revert o. induction l as [|i l IH]; intros o; [by exists o |]. rewrite join_all_cons.
  destruct (task i) as [[out|e']|]; apply IH.
Qed.

Lemma join_all_cases o l :
  (join_all (o, None) l = (fill o l, None) /\ Forall (fun i => passed (task i)) l)
  \/ exists o' e l1 i l2, join_all (o, None) l = (o', Some e)
       /\ l = l1 ++ i :: l2 /\ Forall (fun i => passed (task i)) l1 /\ task i = Joined (Err e).
Proof.
  revert o. induction l as [|i l IH]; intros o; [left; split; [done | constructor] |].
  rewrite join_all_cons, fill_cons. destruct (task i) as [[out|e]|] eqn:Et; cbn.
  - destruct (IH (<[i:=Some out]> o)) as [[-> HF]|(o' & e & l1 & j & l2 & H & -> & HF & Hj)].
    + left. split; [done |]. constructor; [by rewrite Et | done].
    + right. exists o', e, (i :: l1), j, l2. split_and!; [done | done | | done]. constructor; [by rewrite Et | done].
  - right. destruct (join_all_some o e l) as [o' Ho']. exists o', e, [], i, l. by split_and!.
  - destruct (IH o) as [[-> HF]|(o' & e & l1 & j & l2 & H & -> & HF & Hj)].
    + left. split; [done |]. constructor; [by rewrite Et | done].
    + right. exists o', e, (i :: l1), j, l2. split_and!; [done | done | | done]. constructor; [by rewrite Et | done].
Qed.

(** The run fails with the error of the first failing module, in the order
    of the levels, or passes everywhere. *)
Lemma run_levels_cases lv o :
  (run_levels r dispatch lv o = Ok (fill o (List.concat lv))
    /\ Forall (fun i => passed (task i)) (List.concat lv))
  \/ exists e l1 i l2, run_levels r dispatch lv o = Err e
       /\ List.concat lv = l1 ++ i :: l2 /\ Forall (fun i => passed (task i)) l1 /\ task i = Joined (Err e).
Proof.
  revert o. induction lv as [|l lv IH]; intros o; [left; split; [done | constructor] |].
  cbn [run_levels]. fold (join_all (o, None) l). rewrite concat_cons.
  destruct (join_all_cases o l) as [[-> HF]|(o' & e & l1 & i & l2 & -> & -> & HF & Hi)].
  - destruct (IH (fill o l)) as [[-> HG]|(e & l1 & i & l2 & -> & -> & HG & Hi)].
    + left. split; [| by apply Forall_app]. unfold fill. by rewrite foldl_app.
    + right. exists e, (l ++ l1), i, l2. split_and!; [done | by rewrite app_assoc | by apply Forall_app | done].
  - right. exists e, l1, i, (l2 ++ List.concat lv). rewrite <- app_assoc. done.
Qed.

Lemma fill_lookup o l j : j < length o ->
  fill o l !! j = if decide (j ∈ l) then Some (Effective.or_else (outcome_of (task j)) (mjoin (o !! j))) else o !! j.
Proof.
  revert o. induction l as [|i l IH]; intros o Hj; [done |].
  set (o1 := match outcome_of (task i) with Some out => <[i := Some out]> o | None => o end).
  assert (Hl : length o1 = length o) by (unfold o1; destruct (outcome_of (task i)); [apply length_insert | done]).
  change (fill o (i :: l)) with (fill o1 l). rewrite IH by lia.
  destruct (lookup_lt_is_Some_2 o j Hj) as [x Ex]. destruct (decide (i = j)) as [->|Hne].
  - rewrite (decide_True (P := j ∈ j :: l)) by set_solver. unfold o1. destruct (outcome_of (task j)).
    + rewrite list_lookup_insert_eq by done. by destruct (decide (j ∈ l)).
    + rewrite Ex. by destruct (decide (j ∈ l)).
  - assert (o1 !! j = o !! j) as ->.
    { unfold o1. destruct (outcome_of (task i)); [by apply list_lookup_insert_ne | done]. }
    destruct (decide (j ∈ l)); [rewrite decide_True by set_solver | rewrite decide_False by set_solver]; done.
Qed.

Lemma fill_length o l : length (fill o l) = length o.
Proof.
  revert o. induction l as [|i l IH]; intros o; [done |]. unfold fill in *. cbn. rewrite IH.
  destruct (outcome_of (task i)); [apply length_insert | done].
Qed.

(** What [run] promises: every module passed, and its outcome is listed at
    its index (the default for a panicked task), or the error of the first
    failing module in the order of the levels. *)
Definition run_promise (res : result E (list O)) : Prop :=
  match res with
  | Ok outs =>
      length outs = length (modules r)
      /\ forall i, i < length (modules r) ->
          passed (task i) /\ outs !! i = Some (default default_outcome (outcome_of (task i)))
  | Err e =>
      exists l1 i l2, List.concat (topo_levels r) = l1 ++ i :: l2
        /\ Forall (fun j => passed (task j)) l1 /\ task i = Joined (Err e)
  end.

Lemma run_keeps_promise :
  List.concat (topo_levels r) ≡ₚ seq 0 (length (modules r)) -> run_promise (run default_outcome r dispatch).
Proof.
  intros HP. unfold run. set (n := length (modules r)) in *.
  destruct (run_levels_cases (topo_levels r) (replicate n None)) as [[-> HF]|(e & l1 & i & l2 & -> & ? & ? & ?)].
  - cbn. unfold unwrap. rewrite length_map, fill_length, length_replicate. split; [done |]. intros i Hi.
    assert (Hin : i ∈ List.concat (topo_levels r)) by (rewrite HP; apply elem_of_seq; lia).
    rewrite list.Forall_forall in HF. split; [by apply HF |].
    rewrite list_lookup_fmap, fill_lookup by (by rewrite length_replicate).
    rewrite decide_True by done. rewrite lookup_replicate_2 by done. cbn. by destruct (outcome_of _).
  - by exists l1, i, l2.
Qed.

End Exec.

Lemma from_discovered_layered ds phase ic rx :
  from_discovered ds phase ic = Some (Ok rx) -> layered (modules rx) (topo_levels rx).
Proof.
  unfold from_discovered. intros H.
  destruct (sort_exact _ (nodes_well_formed ds phase ic)) as (res & E & Hr). rewrite E in H.
  destruct res as [L|]; [| done]. injection H as <-. apply Hr.
Qed.

Lemma layered_nodup ms L : layered ms L -> NoDup (List.concat L).
Proof. intros [HP _]. rewrite HP. apply NoDup_seq. Qed.

(** C34: Whatever the scheduling, the dispatch of a constructed reactor keeps
    its two promises in every reachable state: at most [workers_budget]
    modules run at once (one when the budget is zero), and when a module
    runs, the task of every module it depends on has finished without
    reporting an error. *)
Theorem dispatch_safe {O E} (ds : list DiscoveredModule) (phase : MavenPhase) (ic : bool) (rx : Reactor)
    (dispatch : nat -> ModuleNode -> TaskResult O E) (workers_budget : nat) (s : Exec) :
  from_discovered ds phase ic = Some (Ok rx) -> reachable rx dispatch workers_budget s ->
  length (running s) <= workers_budget `max` 1
  /\ forall i d, i ∈ running s -> d ∈ deps (modules rx) i ->
       exists t, results s !! d = Some t /\ passed t.
Proof.
  intros H%from_discovered_layered Hs. apply layered_nodup in H as HN. destruct H as (_ & Hb & _).
  destruct (reachable_sound rx dispatch workers_budget Hb HN s Hs) as (pre & old & cur & G).
  split; [apply G |]. intros i d Hi Hd. eapply G, s_below; [apply G | | done]. apply G. auto.
Qed.

(** C35: The dispatch of a constructed reactor ends with the right result:
    every step of every scheduling decreases a measure, a state that is not
    final has a step, and in a final state no task is left, and the result is that of the level-by-level fold:
    every module's outcome at its index when no module reports an error (the
    default outcome where a task panicked), otherwise the error of the first
    failing module in the order of the levels, whatever the order in which
    the tasks ended. *)
Theorem dispatch_exact {O E} (default_outcome : O) (ds : list DiscoveredModule) (phase : MavenPhase)
    (ic : bool) (rx : Reactor) (dispatch : nat -> ModuleNode -> TaskResult O E) (workers_budget : nat) (s : Exec) :
  from_discovered ds phase ic = Some (Ok rx) -> reachable rx dispatch workers_budget s ->
  (forall s', exec_step rx dispatch workers_budget s s' -> measure s' < measure s)
  /\ match exec_result default_outcome s with
     | None => exists s', exec_step rx dispatch workers_budget s s'
     | Some res =>
         queued s = [] /\ running s = [] /\ res = run default_outcome rx dispatch
         /\ run_promise default_outcome rx dispatch res
     end.
Proof.
  intros H%from_discovered_layered Hs. apply layered_nodup in H as HN. destruct H as (HP & Hb & _).
  destruct (reachable_sound rx dispatch workers_budget Hb HN s Hs) as (pre & old & cur & G).
  split; [apply step_measure |]. destruct (exec_result default_outcome s) as [res|] eqn:Er.
  - eapply result_run in Er as (-> & ? & ?); [| done ..].
    split_and!; [done | done | done |]. by apply run_keeps_promise.
  - by eapply progress.
Qed.

(** ** A reactor of two modules *)

Definition app_module : DiscoveredModule := mkDiscovered (mkId "g" "app") "/p/app" [mkId "g" "lib"].
Definition lib_module : DiscoveredModule := mkDiscovered (mkId "g" "lib") "/p/lib" [].
Definition pair_reactor : Reactor :=
  mkReactor (nodes [app_module; lib_module] Verify false) [[1]; [0]].

Lemma pair_constructed : from_discovered [app_module; lib_module] Verify false = Some (Ok pair_reactor).
Proof. vm_compute. reflexivity. Qed.

(** The application runs and the library has passed. *)
Definition app_runs : Exec (O := nat) (E := string) :=
  mkExec [] [] [0] {[1 := Joined (Ok 7)]} [0] ([None; Some 7], None) [].

Definition give_seven (_ : nat) (_ : ModuleNode) : TaskResult nat string := Joined (Ok 7).

Lemma app_runs_reachable : reachable pair_reactor give_seven 1 app_runs.
Proof.
  unfold reachable, exec_init, app_runs. cbn [topo_levels pair_reactor].
  eapply rtc_l; [apply next |]. eapply rtc_l; [apply spawn |].
  eapply rtc_l; [apply (acquire _ _ _ [] [] 1 []); cbn; lia |].
  eapply rtc_l; [apply (complete _ _ _ [] [] [] 1 []) |].
  eapply rtc_l; [eapply join; apply lookup_insert_eq |]. eapply rtc_l; [apply next |].
  eapply rtc_l; [apply spawn |]. eapply rtc_l; [apply (acquire _ _ _ [] [] 0 []); cbn; lia |].
  apply rtc_refl.
Qed.

Lemma dispatch_safe_witness :
  exists t, results app_runs !! 1 = Some t /\ passed t.
Proof.
  apply (dispatch_safe _ _ _ _ give_seven 1 app_runs pair_constructed app_runs_reachable) with (i := 0).
  - cbn. set_solver.
  - vm_compute. constructor.
Defined.

Lemma dispatch_exact_witness :
  exists s', exec_step pair_reactor give_seven 1 app_runs s'.
Proof.
  exact (proj2 (dispatch_exact 0 _ _ _ _ give_seven 1 app_runs pair_constructed app_runs_reachable)).
Defined.

(** A panicked module task does not fail the run: the run of two modules
    passes, with the default outcome for the library, and the application
    that depends on it is dispatched. *)
Theorem panicked_module_passes :
  run 0 pair_reactor (fun _ m => if bool_decide (id m = mkId "g" "lib") then Panicked else Joined (Ok 7))
  = @Ok string _ [7; 0].
Proof. vm_compute. reflexivity. Qed.

End ReactorRun.
