(* ===== verification/Config.v ===== *)
(** * barista-config: the layered configuration

    Models crates/barista-config/src/schema.rs, the schema of
    barista_toml.rs, and the loader of sources.rs.  A layer assigns some of
    the fields of [Config]; the loader applies six of them in order and keeps
    an audit.  The file reader, the TOML deserializer and the working
    directory are the class [ConfigReader]. *)

From S2P Require Import Prelude Pom Effective Profile Source Xml Settings.
From coqutil Require Import Datatypes.RecordSetters.
Import DoubleBraceUpdate.

Module Config.
Import Settings.

Abbreviation path := string.

(** ** The effective configuration *)

Inductive CompatMode : Type := ThreeNine | FourZero | Auto.

Record PathsConfig := mkPaths {
  cache_dir : path;
  user_config_dir : path;
  settings_xml : path;
  m2_repository : path
}.

Record NetworkConfig := mkNetwork {
  max_concurrent_connections : Z;
  request_timeout_secs : Z;
  http2_enabled : bool;
  proxy : option string
}.

Record DaemonConfig := mkDaemon {
  daemon_enabled : bool;
  idle_shutdown_secs : Z;
  max_heap : option string;
  socket_dir : path
}.

Record MavenConfig := mkMaven {
  compat_mode : CompatMode;
  honor_mvn_config : bool;
  honor_jvm_config : bool;
  snapshot_update_policy : Snapshot.UpdatePolicy;
  release_update_policy : Snapshot.UpdatePolicy
}.

Record LoggingConfig := mkLogging { level : string; maven_shape : bool }.

Record TelemetryConfig := mkTelemetry {
  telemetry_enabled : bool;
  endpoint : option string;
  client_id : option string;
  transport_enabled : bool
}.

Record CompatConfig := mkCompat { excluded_modules : list string }.

Inductive RoasteryAuth : Type :=
  | Anonymous
  | Bearer (token : string)
  | Mtls (client_cert_pem_path client_key_pem_path : path).

Inductive RoasteryTls : Type :=
  | SystemRoots
  | CustomCa (ca_cert_pem_path : path)
  | PlainHttp.

Record RoasteryConfig := mkRoastery {
  ro_url : string;
  ro_auth : RoasteryAuth;
  ro_tls : RoasteryTls;
  ro_timeout_secs : Z;
  ro_push : bool
}.

Record CacheConfig := mkCache { roastery : option RoasteryConfig }.

(** *** Project extensions (barista_toml.rs) *)

Record PartialNetworkConfig := mkPNetwork {
  pn_max_concurrent_connections : option Z;
  pn_request_timeout_secs : option Z;
  pn_http2_enabled : option bool;
  pn_proxy : option string
}.

Record PartialDaemonConfig := mkPDaemon {
  pd_enabled : option bool;
  pd_idle_shutdown_secs : option Z;
  pd_max_heap : option string;
  pd_socket_dir : option path
}.

Record PartialMavenConfig := mkPMaven {
  pm_compat_mode : option CompatMode;
  pm_honor_mvn_config : option bool;
  pm_honor_jvm_config : option bool;
  pm_snapshot_update_policy : option Snapshot.UpdatePolicy;
  pm_release_update_policy : option Snapshot.UpdatePolicy
}.

Record PartialLoggingConfig := mkPLogging { pl_level : option string; pl_maven_shape : option bool }.

Record ProjectMetadata := mkProject {
  pj_name : option string;
  pj_group_id : option string;
  pj_artifact_id : option string;
  pj_version : option string
}.

Inductive TapKindDecl : Type := TapRoastery | TapWorker.

Record TapDecl := mkTap { tap_name : string; tap_url : string; tap_kind : TapKindDecl }.

Record ModuleOverride := mkOverride {
  mo_network : option PartialNetworkConfig;
  mo_daemon : option PartialDaemonConfig;
  mo_maven : option PartialMavenConfig;
  mo_logging : option PartialLoggingConfig
}.

Record ModulesConfig := mkModules {
  md_excluded : list string;
  md_overrides : gmap string ModuleOverride
}.

Inductive ClassloaderCachePolicy : Type := CacheIt | NoCache.

Record PluginsConfig := mkPlugins {
  classloader_cache_overrides : gmap string ClassloaderCachePolicy
}.

Record BaristaTomlExtensions := mkExtensions {
  ext_project : option ProjectMetadata;
  ext_taps : list TapDecl;
  ext_modules : ModulesConfig;
  ext_plugins : PluginsConfig
}.

Record Config := mkConfig {
  paths : PathsConfig;
  network : NetworkConfig;
  daemon : DaemonConfig;
  maven : MavenConfig;
  logging : LoggingConfig;
  telemetry : TelemetryConfig;
  compat : CompatConfig;
  cache : CacheConfig;
  project_extensions : option BaristaTomlExtensions;
  maven_settings : SettingsXml
}.

(** [Config::default()]: paths with a literal tilde. *)
Definition Config_default : Config :=
  mkConfig (mkPaths "~/.barista/cache" "~/.barista" "~/.m2/settings.xml" "~/.m2/repository")
    (mkNetwork 6 60 true None) (mkDaemon true 600 None "~/.barista/run")
    (mkMaven Auto true true Snapshot.Daily Snapshot.Never) (mkLogging "info" false)
    (mkTelemetry false None None false) (mkCompat []) (mkCache None) None SettingsXml_default.

(** ** Partial layers *)

Record PartialPathsConfig := mkPPaths {
  pp_cache_dir : option path;
  pp_user_config_dir : option path;
  pp_settings_xml : option path;
  pp_m2_repository : option path
}.

Record PartialTelemetryConfig := mkPTelemetry {
  pt_enabled : option bool;
  pt_endpoint : option string;
  pt_client_id : option string;
  pt_transport_enabled : option bool
}.

Record PartialCompatConfig := mkPCompat { pc_excluded_modules : option (list string) }.

Record PartialRoasteryConfig := mkPRoastery {
  pr_url : option string;
  pr_auth_token_env : option string;
  pr_mtls_client_cert : option path;
  pr_mtls_client_key : option path;
  pr_tls_ca : option path;
  pr_plain_http : option bool;
  pr_timeout_secs : option Z;
  pr_push : option bool
}.

Record PartialCacheConfig := mkPCache { pca_roastery : option PartialRoasteryConfig }.

Record PartialConfig := mkPartial {
  p_paths : option PartialPathsConfig;
  p_network : option PartialNetworkConfig;
  p_daemon : option PartialDaemonConfig;
  p_maven : option PartialMavenConfig;
  p_logging : option PartialLoggingConfig;
  p_telemetry : option PartialTelemetryConfig;
  p_compat : option PartialCompatConfig;
  p_cache : option PartialCacheConfig
}.

Record ProjectConfigFile := mkProjectFile {
  base : PartialConfig;
  extensions : BaristaTomlExtensions
}.

(** *** The remote cache section *)

Inductive RoasteryConfigError : Type :=
  | MtlsPairIncomplete (cert_set key_set : bool)
  | AmbiguousAuth
  | MissingTokenEnv (name : string)
  | MissingUrl.

Definition is_some {A} (o : option A) : bool := match o with Some _ => true | None => false end.

Definition resolve (p : PartialRoasteryConfig) (env_lookup : string -> option string)
    : result RoasteryConfigError RoasteryConfig :=
  url ← ok_or (pr_url p) MissingUrl;
  let has_token := is_some (pr_auth_token_env p) in
  let cert_set := is_some (pr_mtls_client_cert p) in
  let key_set := is_some (pr_mtls_client_key p) in
  if has_token && (cert_set || key_set) then Err AmbiguousAuth
  else if negb (Bool.eqb cert_set key_set) then Err (MtlsPairIncomplete cert_set key_set)
  else
    auth ←
      (if has_token then
         let name := default "" (pr_auth_token_env p) in
         token ← ok_or (match env_lookup name with
                        | Some s => if is_empty s then None else Some s
                        | None => None
                        end) (MissingTokenEnv name);
         Ok (Bearer token)
       else if cert_set && key_set then
         Ok (Mtls (default "" (pr_mtls_client_cert p)) (default "" (pr_mtls_client_key p)))
       else Ok Anonymous);
    let insecure := if default false (pr_plain_http p) then PlainHttp else SystemRoots in
    let tls := match pr_tls_ca p with
               | Some ca => if is_empty ca then insecure else CustomCa ca
               | None => insecure
               end in
    Ok (mkRoastery url auth tls (default 30%Z (pr_timeout_secs p)) (default false (pr_push p))).

(** ** Fields

    The leaves of [Config] a layer can set, with the key the audit uses. *)

Inductive Field : Type :=
  | FCacheDir | FUserConfigDir | FSettingsXml | FM2Repository
  | FMaxConn | FTimeout | FHttp2 | FProxy
  | FDaemonEnabled | FIdle | FMaxHeap | FSocketDir
  | FCompat | FMvnConfig | FJvmConfig | FSnapshotPolicy | FReleasePolicy
  | FLevel | FShape
  | FTelemetry | FEndpoint | FClientId | FTransport
  | FExcluded | FRoastery.

#[export] Instance field_eq_dec : EqDecision Field.
Proof. solve_decision. Defined.

Definition ftype (f : Field) : Type :=
  match f with
  | FCacheDir | FUserConfigDir | FSettingsXml | FM2Repository | FSocketDir => path
  | FMaxConn | FTimeout | FIdle => Z
  | FHttp2 | FDaemonEnabled | FMvnConfig | FJvmConfig | FShape | FTelemetry | FTransport => bool
  | FProxy | FMaxHeap | FEndpoint | FClientId => option string
  | FCompat => CompatMode
  | FSnapshotPolicy | FReleasePolicy => Snapshot.UpdatePolicy
  | FLevel => string
  | FExcluded => list string
  | FRoastery => option RoasteryConfig
  end.

Definition key (f : Field) : string :=
  match f with
  | FCacheDir => "paths.cache-dir"
  | FUserConfigDir => "paths.user-config-dir"
  | FSettingsXml => "paths.settings-xml"
  | FM2Repository => "paths.m2-repository"
  | FMaxConn => "network.max-concurrent-connections"
  | FTimeout => "network.request-timeout-secs"
  | FHttp2 => "network.http2-enabled"
  | FProxy => "network.proxy"
  | FDaemonEnabled => "daemon.enabled"
  | FIdle => "daemon.idle-shutdown-secs"
  | FMaxHeap => "daemon.max-heap"
  | FSocketDir => "daemon.socket-dir"
  | FCompat => "maven.compat-mode"
  | FMvnConfig => "maven.honor-mvn-config"
  | FJvmConfig => "maven.honor-jvm-config"
  | FSnapshotPolicy => "maven.snapshot-update-policy"
  | FReleasePolicy => "maven.release-update-policy"
  | FLevel => "logging.level"
  | FShape => "logging.maven-shape"
  | FTelemetry => "telemetry.enabled"
  | FEndpoint => "telemetry.endpoint"
  | FClientId => "telemetry.client-id"
  | FTransport => "telemetry.transport-enabled"
  | FExcluded => "compat.excluded-modules"
  | FRoastery => "cache.roastery"
  end.

Definition get (f : Field) (c : Config) : ftype f :=
  match f with
  | FCacheDir => cache_dir (paths c)
  | FUserConfigDir => user_config_dir (paths c)
  | FSettingsXml => settings_xml (paths c)
  | FM2Repository => m2_repository (paths c)
  | FMaxConn => max_concurrent_connections (network c)
  | FTimeout => request_timeout_secs (network c)
  | FHttp2 => http2_enabled (network c)
  | FProxy => proxy (network c)
  | FDaemonEnabled => daemon_enabled (daemon c)
  | FIdle => idle_shutdown_secs (daemon c)
  | FMaxHeap => max_heap (daemon c)
  | FSocketDir => socket_dir (daemon c)
  | FCompat => compat_mode (maven c)
  | FMvnConfig => honor_mvn_config (maven c)
  | FJvmConfig => honor_jvm_config (maven c)
  | FSnapshotPolicy => snapshot_update_policy (maven c)
  | FReleasePolicy => release_update_policy (maven c)
  | FLevel => level (logging c)
  | FShape => maven_shape (logging c)
  | FTelemetry => telemetry_enabled (telemetry c)
  | FEndpoint => endpoint (telemetry c)
  | FClientId => client_id (telemetry c)
  | FTransport => transport_enabled (telemetry c)
  | FExcluded => excluded_modules (compat c)
  | FRoastery => roastery (cache c)
  end.

Definition set (f : Field) : ftype f -> Config -> Config :=
  match f with
  | FCacheDir => fun v c => c {{ paths -> cache_dir := v }}
  | FUserConfigDir => fun v c => c {{ paths -> user_config_dir := v }}
  | FSettingsXml => fun v c => c {{ paths -> settings_xml := v }}
  | FM2Repository => fun v c => c {{ paths -> m2_repository := v }}
  | FMaxConn => fun v c => c {{ network -> max_concurrent_connections := v }}
  | FTimeout => fun v c => c {{ network -> request_timeout_secs := v }}
  | FHttp2 => fun v c => c {{ network -> http2_enabled := v }}
  | FProxy => fun v c => c {{ network -> proxy := v }}
  | FDaemonEnabled => fun v c => c {{ daemon -> daemon_enabled := v }}
  | FIdle => fun v c => c {{ daemon -> idle_shutdown_secs := v }}
  | FMaxHeap => fun v c => c {{ daemon -> max_heap := v }}
  | FSocketDir => fun v c => c {{ daemon -> socket_dir := v }}
  | FCompat => fun v c => c {{ maven -> compat_mode := v }}
  | FMvnConfig => fun v c => c {{ maven -> honor_mvn_config := v }}
  | FJvmConfig => fun v c => c {{ maven -> honor_jvm_config := v }}
  | FSnapshotPolicy => fun v c => c {{ maven -> snapshot_update_policy := v }}
  | FReleasePolicy => fun v c => c {{ maven -> release_update_policy := v }}
  | FLevel => fun v c => c {{ logging -> level := v }}
  | FShape => fun v c => c {{ logging -> maven_shape := v }}
  | FTelemetry => fun v c => c {{ telemetry -> telemetry_enabled := v }}
  | FEndpoint => fun v c => c {{ telemetry -> endpoint := v }}
  | FClientId => fun v c => c {{ telemetry -> client_id := v }}
  | FTransport => fun v c => c {{ telemetry -> transport_enabled := v }}
  | FExcluded => fun v c => c {{ compat -> excluded_modules := v }}
  | FRoastery => fun v c => c {{ cache -> roastery := v }}
  end.

(** One conditional assignment of a layer: the target and the list of
    touched keys. *)
Definition put (f : Field) (o : option (ftype f)) (st : Config * list string)
    : Config * list string :=
  match o with
  | Some v => (set f v st.1, st.2 ++ [key f])
  | None => st
  end.

Record Assign := mkAssign { a_field : Field; a_value : option (ftype a_field) }.

Definition puts (l : list Assign) (st : Config * list string) : Config * list string :=
  foldl (fun st a => put (a_field a) (a_value a) st) st l.

Notation "f <- o" := (mkAssign f o) (at level 70, only parsing).

(** [PartialConfig::apply_to]: the assignments of a file, in the order of the
    code.  The remote cache section is dropped when it does not resolve. *)
Definition file_fields `{Env : Environment} (p : PartialConfig) : list Assign :=
  [ FCacheDir <- (p_paths p ≫= pp_cache_dir);
    FUserConfigDir <- (p_paths p ≫= pp_user_config_dir);
    FSettingsXml <- (p_paths p ≫= pp_settings_xml);
    FM2Repository <- (p_paths p ≫= pp_m2_repository);
    FMaxConn <- (p_network p ≫= pn_max_concurrent_connections);
    FTimeout <- (p_network p ≫= pn_request_timeout_secs);
    FHttp2 <- (p_network p ≫= pn_http2_enabled);
    FProxy <- (Some <$> (p_network p ≫= pn_proxy));
    FDaemonEnabled <- (p_daemon p ≫= pd_enabled);
    FIdle <- (p_daemon p ≫= pd_idle_shutdown_secs);
    FMaxHeap <- (Some <$> (p_daemon p ≫= pd_max_heap));
    FSocketDir <- (p_daemon p ≫= pd_socket_dir);
    FCompat <- (p_maven p ≫= pm_compat_mode);
    FMvnConfig <- (p_maven p ≫= pm_honor_mvn_config);
    FJvmConfig <- (p_maven p ≫= pm_honor_jvm_config);
    FSnapshotPolicy <- (p_maven p ≫= pm_snapshot_update_policy);
    FReleasePolicy <- (p_maven p ≫= pm_release_update_policy);
    FLevel <- (p_logging p ≫= pl_level);
    FShape <- (p_logging p ≫= pl_maven_shape);
    FTelemetry <- (p_telemetry p ≫= pt_enabled);
    FEndpoint <- (Some <$> (p_telemetry p ≫= pt_endpoint));
    FClientId <- (Some <$> (p_telemetry p ≫= pt_client_id));
    FTransport <- (p_telemetry p ≫= pt_transport_enabled);
    FExcluded <- (p_compat p ≫= pc_excluded_modules);
    FRoastery <- (r ← p_cache p ≫= pca_roastery;
                  match resolve r env_var with Ok x => Some (Some x) | Err _ => None end) ].

Definition apply_to `{Env : Environment} (p : PartialConfig) (target : Config)
    : Config * list string := puts (file_fields p) (target, []).
End Config.
