(* ===== verification/Loader.v ===== *)
(** * barista-config: the loader

    Models crates/barista-config/src/sources.rs: discovery of the project
    file, the environment and command-line layers, and
    [load_effective_config], which applies the six layers in order.  The
    outer [None] of a result is fuel exhaustion. *)

From S2P Require Import Prelude Pom Effective Profile Source Xml Settings Config.
From coqutil Require Import Datatypes.RecordSetters.
Import DoubleBraceUpdate.

(** ** Unix paths

    [Path::parent] of the standard library, on the bytes of a path. *)
Module Path.

(** The bytes before and after the last separator. *)
Fixpoint rsplit_slash (l : list ascii) : option (list ascii * list ascii) :=
  match l with
  | [] => None
  | a :: l' =>
      match rsplit_slash l' with
      | Some (front, seg) => Some (a :: front, seg)
      | None => if Ascii.eqb a "/" then Some ([], l') else None
      end
  end.

(** The last component and what is before it. *)
Definition split_last (body : list ascii) : list ascii * list ascii :=
  match rsplit_slash body with
  | Some p => p
  | None => ([], body)
  end.

(** Empty components and [.] are not components of a body. *)
Definition is_blank (seg : list ascii) : bool := bool_decide (seg = [] \/ seg = ["."%char]).

Fixpoint trim_right (fuel : nat) (body : list ascii) : list ascii :=
  match fuel, body with
  | S fuel', _ :: _ =>
      let '(front, seg) := split_last body in
      if is_blank seg then trim_right fuel' front else body
  | _, _ => body
  end.

Definition trimmed_body (body : list ascii) : list ascii := trim_right (length body) body.

Definition has_root (l : list ascii) : bool :=
  match l with a :: _ => Ascii.eqb a "/" | [] => false end.

Definition include_cur_dir (l : list ascii) : bool :=
  match l with
  | [a] => Ascii.eqb a "."
  | a :: b :: _ => Ascii.eqb a "." && Ascii.eqb b "/"
  | [] => false
  end.

Definition len_before_body (l : list ascii) : nat :=
  if has_root l || include_cur_dir l then 1 else 0.

Definition parent_bytes (l : list ascii) : option (list ascii) :=
  let n := len_before_body l in
  match trimmed_body (drop n l) with
  | [] => if include_cur_dir l then Some [] else None
  | t => Some (take n l ++ trimmed_body (split_last t).1)
  end.

Definition parent (p : string) : option string :=
  string_of_list_ascii <$> parent_bytes (list_ascii_of_string p).

End Path.

Module Loader.
Import Settings Config.

(** ** Inputs, audit, errors *)

Record CliOverrides := mkCli {
  cli_compat_mode : option CompatMode;
  cli_no_daemon : option bool;
  cli_log_level : option string;
  cli_max_concurrent_connections : option Z;
  cli_cache_dir : option path
}.

Record LoaderInputs := mkInputs {
  user_config_path : option path;
  project_config_path : option path;
  settings_xml_path : option path;
  env_get : option (string -> option string);
  home_override : option path;
  cwd_override : option path;
  cli : CliOverrides
}.

Inductive LayerSource : Type :=
  | Defaults
  | UserConfig (p : path)
  | ProjectConfig (p : path)
  | SettingsLayer (p : path)
  | EnvLayer
  | Cli.

Record LayerAudit := mkLayer { layer : LayerSource; fields_set : list string }.

Definition LoadAudit := list LayerAudit.

Definition IoError := string.

(** The [detail] of [EnvParse], as the case it reports. *)
Inductive EnvDetail : Type :=
  | ExpectedBool (got : string)
  | ExpectedInteger
  | UnknownCompatMode (got : string).

Inductive LoaderError : Type :=
  | FileRead (p : path) (source : IoError)
  | TomlParse (p : path) (detail : string)
  | EnvParse (name : string) (detail : EnvDetail)
  | NoHome
  | SettingsXmlError (p : path) (detail : Detail).

(** [std::fs::read_to_string], [toml::from_str] at the two types it is used
    at, and [std::env::current_dir]. *)
Class ConfigReader := {
  read_to_string : path -> result IoError string;
  toml_partial : string -> result string PartialConfig;
  toml_project : string -> result string ProjectConfigFile;
  current_dir : option path
}.

Section Load.
Context `{Env : Environment} `{FS : FileSystem} `{Q : Xml.QuickXml} `{R : ConfigReader}.

Definition getter (inputs : LoaderInputs) : string -> option string :=
  match env_get inputs with Some f => f | None => env_var end.

Definition resolve_home (inputs : LoaderInputs) : result LoaderError path :=
  match home_override inputs with
  | Some h => Ok h
  | None => ok_or (getter inputs "HOME") NoHome
  end.

Definition expand_tilde (p home : path) : path :=
  if Xml.utf8_valid p then
    if String.eqb p "~" then home
    else match str_strip_prefix "~/" p with
         | Some rest => Profile.join home rest
         | None => p
         end
  else p.

(** [expand_default_paths], and the second half of [apply_with_home]. *)
Definition expand_paths (home : path) (c : Config) : Config :=
  let c := set FCacheDir (expand_tilde (cache_dir (paths c)) home) c in
  let c := set FUserConfigDir (expand_tilde (user_config_dir (paths c)) home) c in
  let c := set FSettingsXml (expand_tilde (settings_xml (paths c)) home) c in
  let c := set FM2Repository (expand_tilde (m2_repository (paths c)) home) c in
  set FSocketDir (expand_tilde (socket_dir (daemon c)) home) c.

Definition default_with_home (home : path) : Config := expand_paths home Config_default.

Definition apply_with_home (partial : PartialConfig) (target : Config) (home : path)
    : Config * list string :=
  let '(c, fields) := apply_to partial target in (expand_paths home c, fields).

(** *** settings.xml *)

Definition settings_fields (settings : SettingsXml) (home : path) : list Assign :=
  [FM2Repository <- ((fun p => expand_tilde p home) <$> local_repository settings)].

(** The keys of the parts that are carried, not merged. *)
Definition settings_notes (s : SettingsXml) : list string :=
  (if offline s then ["maven-settings.offline"] else []) ++
  (if servers s is [] then [] else ["maven-settings.servers"]) ++
  (if mirrors s is [] then [] else ["maven-settings.mirrors"]) ++
  (if profiles s is [] then [] else ["maven-settings.profiles"]) ++
  (if active_profile_ids s is [] then [] else ["maven-settings.active-profiles"]) ++
  (if proxies s is [] then [] else ["maven-settings.proxies"]) ++
  (if plugin_groups s is [] then [] else ["maven-settings.plugin-groups"]).

Definition apply_settings_xml (settings : SettingsXml) (target : Config) (home : path)
    : Config * list string :=
  let '(c, touched) := puts (settings_fields settings home) (target, []) in
  (c, touched ++ settings_notes settings).

(** [parse_settings_xml] and [load_settings_xml]. *)
Definition load_settings_xml (p : path) : option (result LoaderError SettingsXml) :=
  match read_to_string p with
  | Err e => Some (Err (FileRead p e))
  | Ok raw => map_err (SettingsXmlError p) <$> parse_settings_str raw
  end.

(** *** TOML files *)

Definition read_toml {A} (parse : string -> result string A) (p : path) : result LoaderError A :=
  raw ← map_err (FileRead p) (read_to_string p);
  map_err (TomlParse p) (parse raw).

Definition read_partial_toml : path -> result LoaderError PartialConfig := read_toml toml_partial.
Definition read_project_toml : path -> result LoaderError ProjectConfigFile :=
  read_toml toml_project.

Definition extensions_present (ext : BaristaTomlExtensions) : bool :=
  is_some (ext_project ext)
  || negb (bool_decide (ext_taps ext = []))
  || negb (bool_decide (md_excluded (ext_modules ext) = []))
  || negb (bool_decide (md_overrides (ext_modules ext) = ∅))
  || negb (bool_decide (classloader_cache_overrides (ext_plugins ext) = ∅)).

(** [find_project_config]: up from [start] to the first [barista.toml], not
    past a directory with a [.git] entry. *)
Fixpoint find_loop (fuel : nat) (cur : option path) : option (option path) :=
  match cur with
  | None => Some None
  | Some dir =>
      match fuel with
      | O => None
      | S fuel' =>
          let candidate := Profile.join dir "barista.toml" in
          if path_exists candidate then Some (Some candidate)
          else if path_exists (Profile.join dir ".git") then Some None
          else find_loop fuel' (Path.parent dir)
      end
  end.

Definition find_project_config (start : path) : option (option path) :=
  find_loop (S (String.length start)) (Some start).

(** *** Environment variables *)

Definition parse_bool (name raw : string) : result LoaderError bool :=
  let t := to_ascii_lowercase (trim raw) in
  if bool_decide (t ∈ ["true"; "1"]) then Ok true
  else if bool_decide (t ∈ ["false"; "0"]) then Ok false
  else Err (EnvParse name (ExpectedBool t)).

Definition parse_u32 (name raw : string) : result LoaderError Z :=
  ok_or (parse_uint U32_MAX (trim raw)) (EnvParse name ExpectedInteger).

Definition parse_compat (name raw : string) : result LoaderError CompatMode :=
  let t := to_ascii_lowercase (trim raw) in
  if bool_decide (t ∈ ["three-nine"; "3.9"; "threenine"]) then Ok ThreeNine
  else if bool_decide (t ∈ ["four-zero"; "4.0"; "fourzero"]) then Ok FourZero
  else if bool_decide (t = "auto") then Ok Auto
  else Err (EnvParse name (UnknownCompatMode t)).

(** An entry of [ENV_VARS] with the arm of the match on its kind. *)
Record EnvVar := mkEnvVar {
  ev_name : string;
  ev_field : Field;
  ev_parse : string -> string -> result LoaderError (ftype ev_field)
}.

Definition text (_ raw : string) : result LoaderError string := Ok raw.
Definition opt_text (_ raw : string) : result LoaderError (option string) := Ok (Some raw).
Definition tilde (home : path) (_ raw : string) : result LoaderError path :=
  Ok (expand_tilde raw home).

Definition ENV_VARS (home : path) : list EnvVar :=
  [ mkEnvVar "BARISTA_NETWORK__MAX_CONCURRENT_CONNECTIONS" FMaxConn parse_u32;
    mkEnvVar "BARISTA_NETWORK__REQUEST_TIMEOUT_SECS" FTimeout parse_u32;
    mkEnvVar "BARISTA_NETWORK__HTTP2_ENABLED" FHttp2 parse_bool;
    mkEnvVar "BARISTA_NETWORK__PROXY" FProxy opt_text;
    mkEnvVar "BARISTA_DAEMON__ENABLED" FDaemonEnabled parse_bool;
    mkEnvVar "BARISTA_DAEMON__IDLE_SHUTDOWN_SECS" FIdle parse_u32;
    mkEnvVar "BARISTA_DAEMON__MAX_HEAP" FMaxHeap opt_text;
    mkEnvVar "BARISTA_DAEMON__SOCKET_DIR" FSocketDir (tilde home);
    mkEnvVar "BARISTA_MAVEN__COMPAT_MODE" FCompat parse_compat;
    mkEnvVar "BARISTA_MAVEN__HONOR_MVN_CONFIG" FMvnConfig parse_bool;
    mkEnvVar "BARISTA_MAVEN__HONOR_JVM_CONFIG" FJvmConfig parse_bool;
    mkEnvVar "BARISTA_LOGGING__LEVEL" FLevel text;
    mkEnvVar "BARISTA_LOGGING__MAVEN_SHAPE" FShape parse_bool;
    mkEnvVar "BARISTA_TELEMETRY__ENABLED" FTelemetry parse_bool;
    mkEnvVar "BARISTA_TELEMETRY__ENDPOINT" FEndpoint opt_text;
    mkEnvVar "BARISTA_TELEMETRY__CLIENT_ID" FClientId opt_text;
    mkEnvVar "BARISTA_TELEMETRY__TRANSPORT_ENABLED" FTransport parse_bool;
    mkEnvVar "BARISTA_PATHS__CACHE_DIR" FCacheDir (tilde home);
    mkEnvVar "BARISTA_PATHS__USER_CONFIG_DIR" FUserConfigDir (tilde home);
    mkEnvVar "BARISTA_PATHS__SETTINGS_XML" FSettingsXml (tilde home);
    mkEnvVar "BARISTA_PATHS__M2_REPOSITORY" FM2Repository (tilde home) ].

(** The loop of [apply_env]: unset variables are passed over, the first one
    that does not parse ends it. *)
Fixpoint env_loop (get_owned : string -> option string) (vars : list EnvVar)
    (st : Config * list string) : result LoaderError (Config * list string) :=
  match vars with
  | [] => Ok st
  | v :: vars' =>
      match get_owned (ev_name v) with
      | None => env_loop get_owned vars' st
      | Some raw =>
          x ← ev_parse v (ev_name v) raw;
          env_loop get_owned vars' (put (ev_field v) (Some x) st)
      end
  end.

Definition apply_env (inputs : LoaderInputs) (target : Config) (home : path)
    : result LoaderError (Config * list string) :=
  env_loop (getter inputs) (ENV_VARS home) (target, []).

(** *** Command line *)

Definition cli_fields (c : CliOverrides) : list Assign :=
  [ FCompat <- (cli_compat_mode c);
    FDaemonEnabled <- (negb <$> cli_no_daemon c);
    FLevel <- (cli_log_level c);
    FMaxConn <- (cli_max_concurrent_connections c);
    FCacheDir <- (cli_cache_dir c) ].

Definition apply_cli (c : CliOverrides) (target : Config) : Config * list string :=
  puts (cli_fields c) (target, []).

(** ** The entry point *)

Definition user_path (inputs : LoaderInputs) (home : path) : path :=
  default (Profile.join (Profile.join home ".barista") "config.toml") (user_config_path inputs).

Definition settings_path (inputs : LoaderInputs) (home : path) : path :=
  default (Profile.join (Profile.join home ".m2") "settings.xml") (settings_xml_path inputs).

Definition cwd (inputs : LoaderInputs) : path :=
  match cwd_override inputs with Some p => p | None => default "." current_dir end.

Definition project_path (inputs : LoaderInputs) : option (option path) :=
  match project_config_path inputs with
  | Some p => Some (Some p)
  | None => find_project_config (cwd inputs)
  end.

(** Step 2: the user's file. *)
Definition user_layer (p : path) : result LoaderError (option PartialConfig) :=
  if path_exists p then Some <$> read_partial_toml p else Ok None.

(** Step 3: the project's file. *)
Definition project_layer (found : option path)
    : result LoaderError (option (path * ProjectConfigFile)) :=
  match found with
  | Some p => if path_exists p then (fun f => Some (p, f)) <$> read_project_toml p else Ok None
  | None => Ok None
  end.

(** Step 4: settings.xml. *)
Definition settings_layer (p : path) : option (result LoaderError (option SettingsXml)) :=
  if path_exists p then fmap (M := result LoaderError) Some <$> load_settings_xml p
  else Some (Ok None).

Definition with_user (p : path) (home : path) (partial : option PartialConfig)
    (st : Config * LoadAudit) : Config * LoadAudit :=
  match partial with
  | Some partial =>
      let '(c, fields) := apply_with_home partial st.1 home in
      (c, st.2 ++ [mkLayer (UserConfig p) fields])
  | None => st
  end.

Definition with_project (home : path) (file : option (path * ProjectConfigFile))
    (st : Config * LoadAudit) : Config * LoadAudit :=
  match file with
  | Some (p, file) =>
      let '(c, fields) := apply_with_home (base file) st.1 home in
      let '(c, fields) :=
        if extensions_present (extensions file) then
          (c {{ project_extensions := Some (extensions file) }}, fields ++ ["project-extensions"])
        else (c, fields) in
      (c, st.2 ++ [mkLayer (ProjectConfig p) fields])
  | None => st
  end.

Definition with_settings (p : path) (home : path) (settings : option SettingsXml)
    (st : Config * LoadAudit) : Config * LoadAudit :=
  match settings with
  | Some settings =>
      let '(c, fields) := apply_settings_xml settings st.1 home in
      (c {{ maven_settings := settings }}, st.2 ++ [mkLayer (SettingsLayer p) fields])
  | None => st
  end.

Definition push_layer (src : LayerSource) (fields : list string) (audit : LoadAudit) : LoadAudit :=
  if fields is [] then audit else audit ++ [mkLayer src fields].

(** Steps 5 and 6. *)
Definition finish (inputs : LoaderInputs) (home : path) (st : Config * LoadAudit)
    : result LoaderError (Config * LoadAudit) :=
  '(c, env_fields) ← apply_env inputs st.1 home;
  let audit := push_layer EnvLayer env_fields st.2 in
  let '(c, fields) := apply_cli (cli inputs) c in
  Ok (c, push_layer Cli fields audit).

Definition load_effective_config (inputs : LoaderInputs)
    : option (result LoaderError (Config * LoadAudit)) :=
  match resolve_home inputs with
  | Err e => Some (Err e)
  | Ok home =>
      let st := (default_with_home home, [mkLayer Defaults ["<all>"]]) in
      match user_layer (user_path inputs home) with
      | Err e => Some (Err e)
      | Ok user =>
          let st := with_user (user_path inputs home) home user st in
          match project_path inputs with
          | None => None
          | Some found =>
              match project_layer found with
              | Err e => Some (Err e)
              | Ok file =>
                  let st := with_project home file st in
                  match settings_layer (settings_path inputs home) with
                  | None => None
                  | Some (Err e) => Some (Err e)
                  | Some (Ok settings) =>
                      let st := with_settings (settings_path inputs home) home settings st in
                      Some (finish inputs home st)
                  end
              end
          end
      end
  end.

End Load.
End Loader.
