(* ===== verification/LoaderFacts.v ===== *)
(** * The layers of the configuration

    Theorems on sources.rs: each field of the effective configuration comes
    from the last layer that sets it, the audit names that layer, the search
    for the project file is exact, and loading always ends. *)

From S2P Require Import Prelude Pom Effective Profile Source Xml Settings Config Loader.
From coqutil Require Import Datatypes.RecordSetters.
Import DoubleBraceUpdate.

Module LoaderFacts.
Import Settings Config Loader.

(** ** Fields are independent *)

Lemma get_set f v c : get f (set f v c) = v.
Proof. by destruct f. Qed.

Lemma get_set_ne f g v c : f <> g -> get f (set g v c) = get f c.
Proof. destruct f, g; first [done | reflexivity]. Qed.

Lemma key_inj : Inj (=) (=) key.
Proof. intros [] []; first [done | discriminate]. Qed.

(** ** Assignments *)

(** The value an assignment list gives a field. *)
Fixpoint value_in (l : list Assign) (f : Field) : option (ftype f) :=
  match l with
  | [] => None
  | a :: l' =>
      match decide (a_field a = f) with
      | left e => match e in _ = g return option (ftype g) with eq_refl => a_value a end
      | right _ => value_in l' f
      end
  end.

Definition touched (l : list Assign) : list string :=
  omap (fun a => (fun _ => key (a_field a)) <$> a_value a) l.

Lemma puts_cons g o l st : puts (mkAssign g o :: l) st = puts l (put g o st).
Proof. done. Qed.

Lemma value_in_none l f : f ∉ a_field <$> l -> value_in l f = None.
Proof.
  induction l as [|a l IH]; cbn; [done |]. rewrite not_elem_of_cons. intros [Hne Hni].
  destruct (decide (a_field a = f)) as [e|]; [by subst | by apply IH].
Qed.

Lemma puts_value l f : forall st, NoDup (a_field <$> l) ->
  get f (puts l st).1 = default (get f st.1) (value_in l f).
Proof.
  induction l as [|[g o] l IH]; intros st; [done |].
  intros [Hni Hnd]%list.NoDup_cons. rewrite puts_cons, (IH _ Hnd). cbn [value_in a_field a_value].
  destruct (decide (g = f)) as [->|Hne].
  - rewrite value_in_none by done. destruct o; cbn; [by rewrite get_set | done].
  - f_equal. destruct o; cbn; [| done]. by rewrite get_set_ne.
Qed.

Lemma puts_touched l : forall st, (puts l st).2 = st.2 ++ touched l.
Proof.
  induction l as [|[g o] l IH]; intros st; [cbn; by rewrite app_nil_r |].
  rewrite puts_cons, IH. unfold touched. cbn. destruct o; cbn; [by rewrite <- app_assoc | done].
Qed.

Lemma touched_value l f : NoDup (a_field <$> l) ->
  key f ∈ touched l <-> is_Some (value_in l f).
Proof.
  induction l as [|[g o] l IH]; cbn.
  { intros _. split; [intros H; inversion H | intros [? [=]]]. }
  intros [Hni Hnd]%list.NoDup_cons. unfold touched. cbn. fold (touched l).
  destruct (decide (g = f)) as [->|Hne].
  - rewrite value_in_none in IH by done. specialize (IH Hnd).
    destruct o as [v|]; cbn; [split; [by eauto | intros _; left] |].
    rewrite IH. split; intros [? [=]].
  - rewrite <- (IH Hnd). destruct o as [v|]; cbn; [| done]. rewrite elem_of_cons.
    split; [| by right]. intros [He|]; [| done]. apply key_inj in He. by subst.
Qed.

(** Assignments leave the parts without fields alone. *)
Lemma puts_rest l : forall st,
  project_extensions (puts l st).1 = project_extensions st.1 /\
  maven_settings (puts l st).1 = maven_settings st.1.
Proof.
  induction l as [|[g o] l IH]; intros st; [done |].
  rewrite puts_cons. destruct (IH (put g o st)) as [-> ->]. destruct o; cbn; [| done]. by destruct g.
Qed.

Lemma file_fields_nodup `{Environment} p : NoDup (a_field <$> file_fields p).
Proof. apply (bool_decide_unpack _). vm_compute. exact I. Qed.

Lemma settings_fields_nodup s home : NoDup (a_field <$> settings_fields s home).
Proof. apply NoDup_singleton. Qed.

Lemma cli_fields_nodup c : NoDup (a_field <$> cli_fields c).
Proof. apply (bool_decide_unpack _). vm_compute. exact I. Qed.

(** ** Paths under the home directory *)

Definition expand (f : Field) (home : path) : ftype f -> ftype f :=
  match f with
  | FCacheDir | FUserConfigDir | FSettingsXml | FM2Repository | FSocketDir =>
      fun p => expand_tilde p home
  | _ => fun v => v
  end.

Lemma get_expand_paths f home c : get f (expand_paths home c) = expand f home (get f c).
Proof. by destruct f. Qed.

Lemma expand_paths_rest home c :
  project_extensions (expand_paths home c) = project_extensions c /\
  maven_settings (expand_paths home c) = maven_settings c.
Proof. done. Qed.

(** An absolute path has no tilde to expand. *)
Lemma expand_absolute p home : str_starts "/" p -> expand_tilde p home = p.
Proof.
  intros Hp. unfold expand_tilde. destruct (Xml.utf8_valid p); [| done].
  destruct p as [|a p]; [done |]. cbn in Hp. apply Is_true_true, Ascii.eqb_eq in Hp. by subst.
Qed.

Lemma join_absolute home rest : str_starts "/" home -> str_starts "/" (Profile.join home rest).
Proof.
  intros Hh. unfold Profile.join. destruct (str_starts "/" rest) eqn:Hr; [by rewrite Hr |].
  destruct home as [|a home]; [done |].
  destruct (Profile.last_byte _) as [b|] eqn:Hb.
  - by destruct (Ascii.eqb b "/").
  - exfalso. revert Hb. unfold Profile.last_byte. cbn [list_ascii_of_string].
    rewrite last_None. done.
Qed.

Lemma expand_idem p home :
  str_starts "/" home -> expand_tilde (expand_tilde p home) home = expand_tilde p home.
Proof.
  intros Hh. unfold expand_tilde at 2 3. destruct (Xml.utf8_valid p) eqn:Hu.
  - destruct (String.eqb p "~") eqn:Ht; [by apply expand_absolute |].
    destruct (str_strip_prefix "~/" p) eqn:Hs; [by apply expand_absolute, join_absolute |].
    unfold expand_tilde. by rewrite Hu, Ht, Hs.
  - unfold expand_tilde. by rewrite Hu.
Qed.

Lemma expand_field_idem f home v :
  str_starts "/" home -> expand f home (expand f home v) = expand f home v.
Proof. intros Hh. destruct f; cbn; try done; by apply expand_idem. Qed.

(** ** The search for the project file *)

Lemma rsplit_length l : forall front seg,
  Path.rsplit_slash l = Some (front, seg) -> length front < length l.
Proof.
  induction l as [|a l IH]; intros front seg; cbn; [done |].
  destruct (Path.rsplit_slash l) as [[f s]|].
  - intros [= <- <-]. specialize (IH f s eq_refl). cbn. lia.
  - destruct (Ascii.eqb a "/"); [intros [= <- <-]; cbn; lia | done].
Qed.

Lemma split_last_length l : l <> [] -> length (Path.split_last l).1 < length l.
Proof.
  intros Hl. unfold Path.split_last. destruct (Path.rsplit_slash l) as [[f s]|] eqn:Hr; cbn.
  - by apply rsplit_length in Hr.
  - destruct l; [done | cbn; lia].
Qed.

Lemma trim_right_length fuel : forall l, length (Path.trim_right fuel l) <= length l.
Proof.
  induction fuel as [|fuel IH]; intros [|a l]; cbn [Path.trim_right]; try lia.
  pose proof (split_last_length (a :: l) ltac:(done)) as Hs.
  destruct (Path.split_last (a :: l)) as [front seg]. cbn [fst] in Hs.
  destruct (Path.is_blank seg); [| lia]. specialize (IH front). lia.
Qed.

Lemma parent_shorter p q : Path.parent p = Some q -> String.length q < String.length p.
Proof.
  unfold Path.parent. intros (l & Hl & ->)%fmap_Some_1.
  rewrite <- !list_ascii_length, list_ascii_of_string_of_list_ascii. revert Hl.
  generalize (list_ascii_of_string p) as b. intros b. unfold Path.parent_bytes.
  set (n := Path.len_before_body b).
  pose proof (trim_right_length (length (drop n b)) (drop n b)) as Ht.
  unfold Path.trimmed_body. destruct (Path.trim_right _ (drop n b)) as [|a t].
  - destruct (Path.include_cur_dir b) eqn:Hc; [intros [= <-] | done].
    destruct b; [done | cbn; lia].
  - intros [= <-]. rewrite length_app, length_take.
    pose proof (split_last_length (a :: t) ltac:(done)).
    pose proof (trim_right_length (length (Path.split_last (a :: t)).1) (Path.split_last (a :: t)).1).
    rewrite length_drop in Ht. lia.
Qed.

(** [up p n d]: [d] is [n] directories above [p]. *)
Inductive up : path -> nat -> path -> Prop :=
  | up_here p : up p 0 p
  | up_parent p q n d : Path.parent p = Some q -> up q n d -> up p (S n) d.

Definition toml_in (d : path) : path := Profile.join d "barista.toml".
Definition git_in (d : path) : path := Profile.join d ".git".

(** A search upwards: the first directory that is a [hit], unless a [stop]
    comes before it. *)
Section Climb.
Variable hit stop : path -> bool.

Fixpoint climb (fuel : nat) (dir : path) : option (option path) :=
  match fuel with
  | O => None
  | S fuel' =>
      if hit dir then Some (Some dir)
      else if stop dir then Some None
      else match Path.parent dir with
           | Some q => climb fuel' q
           | None => Some None
           end
  end.

(** The nearest hit, with no boundary before it. *)
Definition nearest (start : path) (r : option path) : Prop :=
  match r with
  | Some d => exists n, up start n d /\ hit d = true /\
      forall m d', m < n -> up start m d' -> hit d' = false /\ stop d' = false
  | None => forall n d, up start n d -> hit d = true ->
      exists m d', m < n /\ up start m d' /\ stop d' = true
  end.

Lemma climb_exact fuel : forall start, String.length start < fuel ->
  exists r, climb fuel start = Some r /\ nearest start r.
Proof.
  induction fuel as [|fuel IH]; intros start Hf; [lia |]. cbn [climb].
  destruct (hit start) eqn:Ht.
  { eexists. split; [done |]. exists 0. split_and!; [constructor | done |]. lia. }
  destruct (stop start) eqn:Hg.
  { eexists. split; [done |]. intros n d Hu Hd. exists 0, start.
    split_and!; [| constructor | done]. destruct Hu; [congruence | lia]. }
  destruct (Path.parent start) as [q|] eqn:Hp.
  - pose proof (parent_shorter _ _ Hp). destruct (IH q) as (r & Hr & Hspec); [lia |].
    exists r. split; [done |]. destruct r as [c|].
    + destruct Hspec as (n & Hu & Hx & Hm). exists (S n).
      split_and!; [by econstructor | done |].
      intros m d' Hlt Hu'. inversion Hu'; subst; [done |].
      assert (q0 = q) as -> by congruence. apply (Hm n0); [lia | done].
    + intros n d Hu Hd. inversion Hu; subst; [congruence |].
      assert (q0 = q) as -> by congruence.
      destruct (Hspec _ _ H1 Hd) as (m & d' & Hlt & Hu' & Hg').
      exists (S m), d'. split_and!; [lia | by econstructor | done].
  - eexists. split; [done |]. intros n d Hu Hd. inversion Hu; subst; congruence.
Qed.

End Climb.

Lemma find_loop_climb `{FS : FileSystem} fuel : forall start, String.length start < fuel ->
  find_loop fuel (Some start)
  = option_map (option_map toml_in)
      (climb (fun d => path_exists (toml_in d)) (fun d => path_exists (git_in d)) fuel start).
Proof.
  induction fuel as [|fuel IH]; intros start Hf; [lia |]. cbn [find_loop climb].
  fold (toml_in start) (git_in start).
  destruct (path_exists (toml_in start)); [done |]. destruct (path_exists (git_in start)); [done |].
  destruct (Path.parent start) as [q|] eqn:Hp; [| by destruct fuel].
  pose proof (parent_shorter _ _ Hp). apply IH. lia.
Qed.

Lemma find_loop_exact `{FS : FileSystem} fuel start : String.length start < fuel ->
  exists r, find_loop fuel (Some start) = Some r /\
  match r with
  | Some c => exists n d, up start n d /\ c = toml_in d /\ path_exists c = true /\
      forall m d', m < n -> up start m d' ->
      path_exists (toml_in d') = false /\ path_exists (git_in d') = false
  | None => forall n d, up start n d -> path_exists (toml_in d) = true ->
      exists m d', m < n /\ up start m d' /\ path_exists (git_in d') = true
  end.
Proof.
  intros Hf. rewrite find_loop_climb by done.
  destruct (climb_exact (fun d => path_exists (toml_in d)) (fun d => path_exists (git_in d)) fuel start Hf)
    as (r & -> & H).
  eexists. split; [done |]. destruct r as [d|]; [| done].
  destruct H as (n & Hu & Hh & Hm). by exists n, d.
Qed.

(** the search for the project file ends and is exact: it returns the
    [barista.toml] of the nearest directory at or above the start that has
    one, provided no directory strictly below that one holds a [.git] entry,
    and nothing when every [barista.toml] above is behind such a boundary. *)
Theorem find_project_config_exact `{FS : FileSystem} start :
  exists r, find_project_config start = Some r /\
  match r with
  | Some c => exists n d, up start n d /\ c = toml_in d /\ path_exists c = true /\
      forall m d', m < n -> up start m d' ->
      path_exists (toml_in d') = false /\ path_exists (git_in d') = false
  | None => forall n d, up start n d -> path_exists (toml_in d) = true ->
      exists m d', m < n /\ up start m d' /\ path_exists (git_in d') = true
  end.
Proof. apply find_loop_exact. lia. Qed.

(** ** The environment as a layer *)

Section Layers.
Context `{Env : Environment} `{FS : FileSystem} `{Q : Xml.QuickXml} `{R : ConfigReader}.

(** What the variables set, or the error of the first that does not parse. *)
Fixpoint env_values (get_owned : string -> option string) (vars : list EnvVar)
    : result LoaderError (list Assign) :=
  match vars with
  | [] => Ok []
  | v :: vars' =>
      o ← match get_owned (ev_name v) with
          | Some raw => Some <$> ev_parse v (ev_name v) raw
          | None => Ok None
          end;
      (fun l => mkAssign (ev_field v) o :: l) <$> env_values get_owned vars'
  end.

Lemma env_loop_values g vars : forall st,
  env_loop g vars st = (fun l => puts l st) <$> env_values g vars.
Proof.
  induction vars as [|v vars IH]; intros st; [done |]. cbn [env_loop env_values].
  destruct (g (ev_name v)) as [raw|]; [destruct (ev_parse v (ev_name v) raw) as [x|e] |];
    cbn; try done; rewrite IH; by destruct (env_values g vars).
Qed.

Lemma env_values_fields g vars : forall l,
  env_values g vars = Ok l -> a_field <$> l = ev_field <$> vars.
Proof.
  induction vars as [|v vars IH]; intros l; cbn; [by intros [= <-] |].
  intros (o & _ & H)%bind_ok_inv. destruct (env_values g vars) as [l'|]; [| done].
  cbn in H. injection H as <-. cbn. f_equal. by apply IH.
Qed.

Lemma env_values_nodup g home l :
  env_values g (ENV_VARS home) = Ok l -> NoDup (a_field <$> l).
Proof.
  intros ->%env_values_fields. apply (bool_decide_unpack _). vm_compute. exact I.
Qed.

(** ** Layers *)

Record Layer := mkL { l_source : LayerSource; l_value : forall f, option (ftype f) }.

(** The value of a field under a stack of layers: the last one that has it. *)
Definition newest (f : Field) (base : ftype f) (layers : list Layer) : ftype f :=
  foldl (fun v l => default v (l_value l f)) base layers.

Definition file_layer (home : path) (src : LayerSource) (p : PartialConfig) : Layer :=
  mkL src (fun f => expand f home <$> value_in (file_fields p) f).

Definition assign_layer (src : LayerSource) (l : list Assign) : list Layer :=
  if touched l is [] then [] else [mkL src (value_in l)].

(** The layers that were found, from the weakest to the strongest. *)
Definition layers_of (inputs : LoaderInputs) (home : path) (user : option PartialConfig)
    (file : option (path * ProjectConfigFile)) (settings : option SettingsXml)
    (env : list Assign) : list Layer :=
  match user with
  | Some p => [file_layer home (UserConfig (user_path inputs home)) p] | None => []
  end ++
  match file with
  | Some (p, file) => [file_layer home (ProjectConfig p) (base file)] | None => []
  end ++
  match settings with
  | Some s => [mkL (SettingsLayer (settings_path inputs home)) (value_in (settings_fields s home))]
  | None => []
  end ++
  assign_layer EnvLayer env ++ assign_layer Cli (cli_fields (cli inputs)).

(** An audit entry names its layer and exactly the fields the layer sets. *)
Definition audited (l : Layer) (a : LayerAudit) : Prop :=
  layer a = l_source l /\ forall f, key f ∈ fields_set a <-> is_Some (l_value l f).

(** A state of the loader after some layers. *)
Record stacked (home : path) (layers : list Layer) (st : Config * LoadAudit) : Prop := {
  st_values : forall f, get f st.1 = newest f (get f (default_with_home home)) layers;
  st_audit : exists tail, st.2 = mkLayer Defaults ["<all>"] :: tail /\ Forall2 audited layers tail
}.

(** Paths already are under the home directory. *)
Definition homed (home : path) (c : Config) : Prop := forall f, expand f home (get f c) = get f c.

Lemma newest_app f b l1 l2 : newest f b (l1 ++ l2) = newest f (newest f b l1) l2.
Proof. unfold newest. by rewrite foldl_app. Qed.

(** Adding a layer to the stack. *)
Lemma stacked_snoc home layers l st c fields :
  stacked home layers st ->
  (forall f, get f c = default (get f st.1) (l_value l f)) ->
  (forall f, key f ∈ fields <-> is_Some (l_value l f)) ->
  stacked home (layers ++ [l]) (c, st.2 ++ [mkLayer (l_source l) fields]).
Proof.
  intros [Hv (tail & Ha & Ht)] Hc Hf. split; cbn.
  - intros f. rewrite Hc, newest_app, <- Hv. done.
  - exists (tail ++ [mkLayer (l_source l) fields]). rewrite Ha. split; [done |].
    apply Forall2_app; [done |]. by repeat constructor; apply Hf.
Qed.

(** A layer without fields adds nothing. *)
Lemma stacked_assign home layers src l st :
  stacked home layers st -> NoDup (a_field <$> l) ->
  stacked home (layers ++ assign_layer src l)
    ((puts l (st.1, [])).1, push_layer src (puts l (st.1, [])).2 st.2).
Proof.
  intros Hs Hnd. rewrite puts_touched. cbn [app snd]. unfold assign_layer, push_layer.
  assert (forall f, get f (puts l (st.1, [])).1 = default (get f st.1) (value_in l f)) as Hv.
  { intros f. by rewrite puts_value. }
  destruct (touched l) as [|k ks] eqn:Ht.
  - rewrite app_nil_r. destruct Hs as [Hv0 Ha]. split; [| done]. intros f. cbn.
    rewrite Hv, <- Hv0. pose proof (touched_value l f Hnd) as Hf. rewrite Ht in Hf.
    destruct (value_in l f); [| done]. exfalso. assert (key f ∈ []) as Hi by (apply Hf; eauto).
    inversion Hi.
  - apply (stacked_snoc _ _ (mkL src (value_in l))); [done | apply Hv |].
    intros f. cbn. by rewrite <- Ht, touched_value.
Qed.

(** *** The steps of the loader *)

Section Steps.
Variable home : path.
Hypothesis Hhome : str_starts "/" home.

Lemma homed_default : homed home (default_with_home home).
Proof. intros f. unfold default_with_home. by rewrite get_expand_paths, expand_field_idem. Qed.

Lemma apply_with_home_value p target f :
  homed home target ->
  get f (apply_with_home p target home).1
  = default (get f target) (expand f home <$> value_in (file_fields p) f).
Proof.
  intros Hh. unfold apply_with_home, apply_to.
  destruct (puts (file_fields p) (target, [])) as [c fields] eqn:Hp. cbn [fst snd].
  rewrite get_expand_paths. replace c with (puts (file_fields p) (target, [])).1 by by rewrite Hp.
  rewrite puts_value by apply file_fields_nodup. cbn [fst].
  destruct (value_in (file_fields p) f); cbn; [done | apply Hh].
Qed.

Lemma apply_with_home_fields p target :
  (apply_with_home p target home).2 = touched (file_fields p).
Proof.
  unfold apply_with_home, apply_to.
  destruct (puts (file_fields p) (target, [])) as [c fields] eqn:Hp. cbn [fst snd].
  replace fields with (puts (file_fields p) (target, [])).2 by by rewrite Hp.
  by rewrite puts_touched.
Qed.

Lemma apply_with_home_homed p target : homed home (apply_with_home p target home).1.
Proof.
  intros f. unfold apply_with_home. destruct (apply_to p target) as [c fields]. cbn [fst snd].
  by rewrite get_expand_paths, expand_field_idem.
Qed.

Lemma apply_with_home_rest p target :
  project_extensions (apply_with_home p target home).1 = project_extensions target /\
  maven_settings (apply_with_home p target home).1 = maven_settings target.
Proof.
  unfold apply_with_home, apply_to.
  destruct (puts (file_fields p) (target, [])) as [c fields] eqn:Hp. cbn [fst].
  destruct (expand_paths_rest home c) as [-> ->].
  replace c with (puts (file_fields p) (target, [])).1 by by rewrite Hp. apply puts_rest.
Qed.

Lemma expanded_some f (o : option (ftype f)) : is_Some (expand f home <$> o) <-> is_Some o.
Proof. by rewrite fmap_is_Some. Qed.

(** A step keeps the stack and the paths under the home directory. *)
Lemma with_user_stacked layers p user st :
  stacked home layers st -> homed home st.1 ->
  let st' := with_user p home user st in
  stacked home (layers ++ match user with Some u => [file_layer home (UserConfig p) u] | None => [] end)
    st' /\ homed home st'.1 /\ project_extensions st'.1 = project_extensions st.1 /\
  maven_settings st'.1 = maven_settings st.1.
Proof.
  intros Hs Hh. unfold with_user. destruct user as [u|]; cbn zeta; [| by rewrite app_nil_r].
  pose proof (apply_with_home_value u st.1) as Hv. pose proof (apply_with_home_fields u st.1) as Hf.
  pose proof (apply_with_home_homed u st.1) as Hk. pose proof (apply_with_home_rest u st.1) as Hr.
  destruct (apply_with_home u st.1 home) as [c fields]. cbn [fst snd] in *. subst fields.
  split; [| exact (conj Hk Hr)].
  apply (stacked_snoc _ _ (file_layer home (UserConfig p) u)); [exact Hs | |].
  - intros f. exact (Hv f Hh).
  - intros f. cbn [l_value file_layer]. rewrite expanded_some. apply touched_value, file_fields_nodup.
Qed.

Lemma key_not_extensions f : key f <> "project-extensions".
Proof. by destruct f. Qed.

Lemma get_ext f c e : get f (c {{ project_extensions := e }}) = get f c.
Proof. by destruct f. Qed.

Lemma homed_ext c e : homed home c -> homed home (c {{ project_extensions := e }}).
Proof. intros H f. rewrite get_ext. apply H. Qed.

Definition project_ext (file : option (path * ProjectConfigFile)) (old : option BaristaTomlExtensions)
    : option BaristaTomlExtensions :=
  match file with
  | Some (_, file) => if extensions_present (extensions file) then Some (extensions file) else old
  | None => old
  end.

Lemma with_project_stacked layers file st :
  stacked home layers st -> homed home st.1 ->
  let st' := with_project home file st in
  stacked home (layers ++ match file with
                          | Some (p, file) => [file_layer home (ProjectConfig p) (base file)]
                          | None => []
                          end) st' /\
  homed home st'.1 /\ project_extensions st'.1 = project_ext file (project_extensions st.1) /\
  maven_settings st'.1 = maven_settings st.1.
Proof.
  intros Hs Hh. unfold with_project, project_ext.
  destruct file as [[p file]|]; cbn zeta; [| by rewrite app_nil_r].
  pose proof (apply_with_home_value (base file) st.1) as Hv.
  pose proof (apply_with_home_fields (base file) st.1) as Hf.
  pose proof (apply_with_home_homed (base file) st.1) as Hk.
  pose proof (apply_with_home_rest (base file) st.1) as Hr.
  destruct (apply_with_home (base file) st.1 home) as [c fields]. cbn [fst snd] in *. subst fields.
  assert (forall f, key f ∈ touched (file_fields (base file))
    <-> is_Some (expand f home <$> value_in (file_fields (base file)) f)) as Ht.
  { intros f. rewrite expanded_some. apply touched_value, file_fields_nodup. }
  destruct (extensions_present (extensions file)); cbn [fst snd].
  - split; [| split; [by apply homed_ext | exact (conj eq_refl (proj2 Hr))]].
    apply (stacked_snoc _ _ (file_layer home (ProjectConfig p) (base file))); [exact Hs | |].
    + intros f. rewrite get_ext. exact (Hv f Hh).
    + intros f. cbn [l_value file_layer]. rewrite elem_of_app, Ht, list_elem_of_singleton.
      split; [| by left]. intros [?|Hk']; [done |]. by destruct (key_not_extensions f).
  - split; [| exact (conj Hk Hr)].
    apply (stacked_snoc _ _ (file_layer home (ProjectConfig p) (base file))); [exact Hs | |].
    + intros f. exact (Hv f Hh).
    + apply Ht.
Qed.

Lemma key_not_note s f : key f ∉ settings_notes s.
Proof.
  unfold settings_notes. rewrite !not_elem_of_app.
  repeat split; repeat case_match;
    first [apply not_elem_of_nil | rewrite list_elem_of_singleton; by destruct f].
Qed.

Lemma with_settings_stacked layers p settings st :
  stacked home layers st ->
  let st' := with_settings p home settings st in
  stacked home (layers ++ match settings with
                          | Some s => [mkL (SettingsLayer p) (value_in (settings_fields s home))]
                          | None => []
                          end) st' /\
  project_extensions st'.1 = project_extensions st.1 /\
  maven_settings st'.1 = default (maven_settings st.1) settings.
Proof.
  intros Hs. unfold with_settings, apply_settings_xml.
  destruct settings as [s|]; cbn zeta; [| by rewrite app_nil_r].
  pose proof (puts_value (settings_fields s home)) as Hv.
  pose proof (puts_touched (settings_fields s home) (st.1, [])) as Hf.
  pose proof (puts_rest (settings_fields s home) (st.1, [])) as [Hr _].
  specialize (fun f => Hv f (st.1, []) (settings_fields_nodup s home)).
  destruct (puts (settings_fields s home) (st.1, [])) as [c fields]. cbn [fst snd app] in *. subst fields.
  split; [| exact (conj Hr eq_refl)].
  apply (stacked_snoc _ _ (mkL (SettingsLayer p) (value_in (settings_fields s home)))); [exact Hs | |].
  - intros f. cbn [l_value]. rewrite <- Hv. by destruct f.
  - intros f. cbn [l_value]. rewrite elem_of_app, touched_value by apply settings_fields_nodup.
    split; [| by left]. intros [?|Hn]; [done |]. by apply key_not_note in Hn.
Qed.

End Steps.

Lemma finish_stacked inputs home layers st cfg audit :
  finish inputs home st = Ok (cfg, audit) -> stacked home layers st ->
  exists env, env_values (getter inputs) (ENV_VARS home) = Ok env /\
    stacked home (layers ++ assign_layer EnvLayer env ++ assign_layer Cli (cli_fields (cli inputs)))
      (cfg, audit) /\
    project_extensions cfg = project_extensions st.1 /\ maven_settings cfg = maven_settings st.1.
Proof.
  unfold finish, apply_env. rewrite env_loop_values. intros H Hs.
  destruct (env_values (getter inputs) (ENV_VARS home)) as [env|] eqn:Henv; [| discriminate H].
  exists env. split; [reflexivity |]. cbn [fmap result_fmap mbind result_mbind] in H.
  pose proof (stacked_assign home layers EnvLayer env st Hs (env_values_nodup _ _ _ Henv)) as Hs1.
  pose proof (puts_rest env (st.1, [])) as [He1 Hm1].
  destruct (puts env (st.1, [])) as [c1 f1]. cbn [fst snd] in *.
  pose proof (stacked_assign home _ Cli _ _ Hs1 (cli_fields_nodup (cli inputs))) as Hs2.
  pose proof (puts_rest (cli_fields (cli inputs)) (c1, [])) as [He2 Hm2].
  unfold apply_cli in H. cbn [fst snd] in *.
  destruct (puts (cli_fields (cli inputs)) (c1, [])) as [c2 f2]. cbn [fst snd] in *.
  injection H as <- <-. rewrite <- app_assoc in Hs2.
  split; [exact Hs2 |]. by rewrite He2, Hm2, He1, Hm1.
Qed.

(** C36: the effective configuration is decided by precedence, and the audit
    says by whom.  When loading succeeds with an absolute home directory, there
    are the layers found - the user's file, the project's file, settings.xml,
    the environment, the command line, in this order, each as its file or
    variables parse - such that every field of the result has the value of the
    last layer that sets it, or its default; the audit lists exactly these
    layers after the defaults, each with exactly the fields it sets; the
    project extensions are those of the project's file and the Maven settings
    those of settings.xml. *)
Theorem config_precedence inputs cfg audit :
  load_effective_config inputs = Some (Ok (cfg, audit)) ->
  (forall home, resolve_home inputs = Ok home -> str_starts "/" home) ->
  exists home user found file settings env,
    resolve_home inputs = Ok home /\
    user_layer (user_path inputs home) = Ok user /\
    project_path inputs = Some found /\ project_layer found = Ok file /\
    settings_layer (settings_path inputs home) = Some (Ok settings) /\
    env_values (getter inputs) (ENV_VARS home) = Ok env /\
    stacked home (layers_of inputs home user file settings env) (cfg, audit) /\
    project_extensions cfg = project_ext file None /\
    maven_settings cfg = default SettingsXml_default settings.
Proof.
  unfold load_effective_config. intros H Habs.
  destruct (resolve_home inputs) as [home|] eqn:Hhome; [| done]. specialize (Habs home eq_refl).
  destruct (user_layer (user_path inputs home)) as [user|] eqn:Huser; [| done].
  destruct (project_path inputs) as [found|] eqn:Hfound; [| done].
  destruct (project_layer found) as [file|] eqn:Hfile; [| done].
  destruct (settings_layer (settings_path inputs home)) as [[settings|]|] eqn:Hset; [| done ..].
  exists home, user, found, file, settings.
  set (st0 := (default_with_home home, [mkLayer Defaults ["<all>"]])) in H.
  assert (stacked home [] st0) as Hs0 by (split; [done | exists []; done]).
  destruct (with_user_stacked home Habs [] (user_path inputs home) user st0 Hs0
    (homed_default home Habs)) as (Hs1 & Hh1 & He1 & Hm1).
  destruct (with_project_stacked home Habs _ file _ Hs1 Hh1) as (Hs2 & Hh2 & He2 & Hm2).
  destruct (with_settings_stacked home _ (settings_path inputs home) settings _ Hs2)
    as (Hs3 & He3 & Hm3).
  destruct (finish_stacked _ _ _ _ _ _ ltac:(by injection H) Hs3) as (env & Henv & Hs4 & He4 & Hm4).
  exists env. split_and!; try first [reflexivity | eassumption].
  - rewrite <- !app_assoc in Hs4. exact Hs4.
  - by rewrite He4, He3, He2, He1.
  - by rewrite Hm4, Hm3, Hm2, Hm1.
Qed.

(** Loading ends on every input: the readers of settings.xml and the search
    for the project file never run out of fuel. *)
Theorem load_total inputs : is_Some (load_effective_config inputs).
Proof.
  unfold load_effective_config. destruct (resolve_home inputs); [| by eexists].
  destruct (user_layer _); [| by eexists].
  destruct (project_path inputs) as [found|] eqn:Hp.
  - destruct (project_layer found); [| by eexists].
    destruct (settings_layer _) as [[]|] eqn:Hs; [by eexists .. |]. exfalso. revert Hs.
    unfold settings_layer, load_settings_xml. destruct (path_exists _); [| done].
    destruct (read_to_string _) as [raw|]; [| done].
    destruct (parse_settings_ends raw) as [r ->]. done.
  - exfalso. revert Hp. unfold project_path. destruct (project_config_path inputs); [done |].
    unfold find_project_config.
    destruct (find_loop_exact (S (String.length (cwd inputs))) (cwd inputs)) as (r & -> & _); [lia |].
    done.
Qed.

End Layers.

(** ** A run *)

Module Run.

#[local] Instance env : Environment := fun _ => None.

#[local] Instance fs : FileSystem := fun p =>
  bool_decide (p ∈ ["/h/.barista/config.toml"; "/w/p/barista.toml"; "/w/p/.git"; "/w/barista.toml";
                    "/etc/settings.xml"]).

#[local] Instance xml : Xml.QuickXml := {|
  Xml.tokens _ := []; Xml.decode := Ok; Xml.unescape := Ok |}.

Definition none : PartialConfig := mkPartial None None None None None None None None.

Definition no_extensions : BaristaTomlExtensions :=
  mkExtensions None [] (mkModules [] ∅) (mkPlugins ∅).

Definition user_file : PartialConfig :=
  none {{ p_network := Some (mkPNetwork (Some 8%Z) (Some 5%Z) None None);
          p_paths := Some (mkPPaths (Some "~/c") None (Some "/etc/settings.xml") None) }}.

Definition project_file : ProjectConfigFile :=
  mkProjectFile (none {{ p_network := Some (mkPNetwork (Some 10%Z) None None None) }}) no_extensions.

#[local] Instance reader : ConfigReader := {|
  read_to_string p := Ok p;
  toml_partial _ := Ok user_file;
  toml_project _ := Ok project_file;
  current_dir := Some "/w/p/src"
|}.

Definition vars (k : string) : option string :=
  if String.eqb k "BARISTA_NETWORK__HTTP2_ENABLED" then Some " False " else None.

Definition inputs : LoaderInputs :=
  mkInputs None None None (Some vars) (Some "/h") None (mkCli None (Some true) None None None).

Definition outcome : Config * LoadAudit :=
  match load_effective_config inputs with Some (Ok r) => r | _ => (Config_default, []) end.

Lemma config_precedence_witness :
  load_effective_config inputs = Some (Ok outcome) /\
  exists home user found file settings env,
    resolve_home inputs = Ok home /\
    user_layer (user_path inputs home) = Ok user /\
    project_path inputs = Some found /\ project_layer found = Ok file /\
    settings_layer (settings_path inputs home) = Some (Ok settings) /\
    env_values (getter inputs) (ENV_VARS home) = Ok env /\
    stacked home (layers_of inputs home user file settings env) outcome /\
    project_extensions outcome.1 = project_ext file None /\
    maven_settings outcome.1 = default SettingsXml_default settings.
Proof.
  split; [vm_compute; reflexivity |].
  apply (config_precedence inputs outcome.1 outcome.2); [vm_compute; reflexivity |].
  intros home [= <-]. exact I.
Defined.

(** The values of the run: the project's file beats the user's, the
    environment and the command line beat both, the tilde is expanded. *)
Example run_values :
  get FMaxConn outcome.1 = 10%Z /\ get FTimeout outcome.1 = 5%Z /\
  get FHttp2 outcome.1 = false /\ get FDaemonEnabled outcome.1 = false /\
  get FCacheDir outcome.1 = "/h/c" /\
  layer <$> outcome.2 = [Defaults; UserConfig "/h/.barista/config.toml";
    ProjectConfig "/w/p/barista.toml"; EnvLayer; Cli].
Proof. vm_compute. by repeat split. Qed.

(** A configured [paths.settings-xml] is stored but never read: the file it
    names exists here, and no settings layer is applied. *)
Theorem configured_settings_path_ignored :
  get FSettingsXml outcome.1 = "/etc/settings.xml" /\ path_exists "/etc/settings.xml" = true /\
  forall p, SettingsLayer p ∉ layer <$> outcome.2.
Proof.
  split; [vm_compute; reflexivity |]. split; [vm_compute; reflexivity |]. intros p.
  replace (layer <$> outcome.2) with [Defaults; UserConfig "/h/.barista/config.toml";
    ProjectConfig "/w/p/barista.toml"; EnvLayer; Cli] by (vm_compute; reflexivity).
  rewrite !not_elem_of_cons. split_and!; try done. apply not_elem_of_nil.
Qed.

End Run.
End LoaderFacts.
