(* ===== verification/Project.v ===== *)
(** * barista-cli: the project root

    Models crates/barista-cli/src/project.rs: the choice of the directory of
    the top-level pom.xml from [--root], [--file], a search upwards bounded by
    [.git], and the directory of the last command.  The files of the machine
    are the classes [FileSystem], [ConfigReader] and [ProjectFiles]; the outer
    [None] of a result is fuel exhaustion. *)

From S2P Require Import Prelude Pom Effective Profile Source Xml Settings Config Loader LoaderFacts Cas Fetch.

Module Project.
Import Config Loader LoaderFacts.

Inductive RootSource : Type := ExplicitRoot | ExplicitFile | WalkUp | Sticky.

#[export] Instance RootSource_eq_dec : EqDecision RootSource.
Proof. solve_decision. Defined.

Record ProjectRoot := mkRoot { root : path; pom : path; source : RootSource }.

(** An [std::io::Error], told apart by its kind. *)
Inductive FileError : Type := FileNotFound | FileFailed (detail : string).

Inductive ResolveError : Type :=
  | NoPomFound (dir : path)
  | RootNotDirectory (root : path)
  | RootMissingPom (root : path)
  | FileMissing (file : path)
  | Io (p : path) (source : FileError)
  | NoHome.

(** [Path::is_dir], [Path::is_file] and [read_to_string]. *)
Class ProjectFiles := {
  is_dir : path -> bool;
  is_file : path -> bool;
  read_file : path -> result FileError string
}.

Record ResolveInputs := mkInputs {
  in_root : option path;
  in_file : option path;
  in_cwd : option path;
  in_home : option path;
  skip_sticky : bool
}.

(** [ResolveInputs::default()] with the two flags. *)
Definition flags (root file : option path) : ResolveInputs := mkInputs root file None None false.

Section Resolve.
Context `{Env : Environment} `{FS : FileSystem} `{R : ConfigReader} `{PF : ProjectFiles}.

Definition resolve_home (over : option path) : result ResolveError path :=
  match over with
  | Some h => Ok h
  | None => ok_or (env_var "HOME") NoHome
  end.

Definition current_dir (inputs : ResolveInputs) : result ResolveError path :=
  match in_cwd inputs with
  | Some c => Ok c
  | None => ok_or Loader.current_dir (Io "" (FileFailed "current_dir"))
  end.

Definition is_absolute (p : path) : bool := str_starts "/" p.

Definition absolutize (p : path) (inputs : ResolveInputs) : result ResolveError path :=
  if is_absolute p then Ok p
  else cwd ← current_dir inputs; Ok (Profile.join cwd p).

Definition sticky_file (home : path) : path :=
  Profile.join (Profile.join (Profile.join home ".barista") "run") "last-project".

Definition read_sticky (inputs : ResolveInputs) : result ResolveError (option path) :=
  home ← resolve_home (in_home inputs);
  match read_file (sticky_file home) with
  | Ok s => Ok (if is_dir (trim s) then Some (trim s) else None)
  | Err FileNotFound => Ok None
  | Err e => Err (Io (sticky_file home) e)
  end.

(** [record_sticky] on the text files below the home directory, given which
    calls fail; [to_string_lossy] of the path is written. *)
Definition record_sticky (root : path) (home : option path) (mkdir_error write_error : path -> option FileError)
    (fs : gmap path string) : result ResolveError unit * gmap path string :=
  match resolve_home home with
  | Err e => (Err e, fs)
  | Ok h =>
      let run_dir := Profile.join (Profile.join h ".barista") "run" in
      match mkdir_error run_dir, write_error (sticky_file h) with
      | Some e, _ => (Err (Io run_dir e), fs)
      | None, Some e => (Err (Io (sticky_file h) e), fs)
      | None, None =>
          (Ok tt, <[sticky_file h := Fetch.from_utf8_lossy (Cas.byte_of <$> list_ascii_of_string root)]> fs)
      end
  end.

Definition pom_in (d : path) : path := Profile.join d "pom.xml".
#[global] Arguments pom_in : simpl never.

(** [--root]. *)
Definition from_root (r : path) (inputs : ResolveInputs) : result ResolveError ProjectRoot :=
  root ← absolutize r inputs;
  if negb (is_dir root) then Err (RootNotDirectory root)
  else if negb (is_file (pom_in root)) then Err (RootMissingPom root)
  else Ok (mkRoot root (pom_in root) ExplicitRoot).

(** [-f]. *)
Definition from_file (f : path) (inputs : ResolveInputs) : result ResolveError ProjectRoot :=
  abs ← absolutize f inputs;
  if negb (path_exists abs) then Err (FileMissing abs)
  else if is_dir abs then
    if negb (is_file (pom_in abs)) then Err (RootMissingPom abs)
    else Ok (mkRoot abs (pom_in abs) ExplicitFile)
  else Ok (mkRoot (default "/" (Path.parent abs)) abs ExplicitFile).

(** The loop upwards; [pop] truncates the cursor to its parent. *)
Fixpoint walk_up (fuel : nat) (cursor : path) : option (option ProjectRoot) :=
  match fuel with
  | O => None
  | S fuel' =>
      if is_file (pom_in cursor) then Some (Some (mkRoot cursor (pom_in cursor) WalkUp))
      else if path_exists (Profile.join cursor ".git") then Some None
      else match Path.parent cursor with
           | Some q => walk_up fuel' q
           | None => Some None
           end
  end.

(** The last directory, when it still has a POM. *)
Definition fall_back (cwd : path) (inputs : ResolveInputs) : result ResolveError ProjectRoot :=
  if skip_sticky inputs then Err (NoPomFound cwd)
  else
    sticky ← read_sticky inputs;
    match sticky with
    | Some d => if is_file (pom_in d) then Ok (mkRoot d (pom_in d) Sticky) else Err (NoPomFound cwd)
    | None => Err (NoPomFound cwd)
    end.

Definition resolve_project_root (inputs : ResolveInputs) : option (result ResolveError ProjectRoot) :=
  match in_root inputs, in_file inputs with
  | Some r, _ => Some (from_root r inputs)
  | None, Some f => Some (from_file f inputs)
  | None, None =>
      match current_dir inputs with
      | Err e => Some (Err e)
      | Ok cwd =>
          match walk_up (S (String.length cwd)) cwd with
          | None => None
          | Some (Some found) => Some (Ok found)
          | Some None => Some (fall_back cwd inputs)
          end
      end
  end.

(** ** The search upwards *)

Definition holds_pom (d : path) : bool := is_file (pom_in d).
Definition holds_git (d : path) : bool := path_exists (git_in d).

Lemma walk_up_climb fuel : forall cursor,
  walk_up fuel cursor
  = option_map (option_map (fun d => mkRoot d (pom_in d) WalkUp)) (climb holds_pom holds_git fuel cursor).
Proof.
  induction fuel as [|fuel IH]; intros cursor; [done |]. cbn [walk_up climb].
  unfold holds_pom at 1, holds_git at 1. fold (git_in cursor).
  destruct (is_file _); [done |]. destruct (path_exists _); [done |].
  by destruct (Path.parent cursor).
Qed.

(** A root with a POM in it, or the file that was named. *)
Definition has_pom (p : ProjectRoot) : Prop :=
  (pom p = pom_in (root p) /\ is_file (pom p) = true) \/
  (source p = ExplicitFile /\ root p = default "/" (Path.parent (pom p)) /\ path_exists (pom p) = true).

(** No search was given up. *)
Definition not_searched (r : result ResolveError ProjectRoot) : Prop :=
  forall d, r <> Err (NoPomFound d).

Lemma absolutize_cases p inputs :
  (exists d, absolutize p inputs = Ok d) \/ (exists q e, absolutize p inputs = Err (Io q e)).
Proof.
  unfold absolutize, current_dir. destruct (is_absolute p); [eauto |].
  destruct (in_cwd inputs); [eauto |]. destruct Loader.current_dir; cbn; eauto.
Qed.

Ltac refuse := cbn; solve [split; [intros ? [=] | intros ? [=]]].

Lemma from_root_spec f inputs :
  not_searched (from_root f inputs) /\
  forall p, from_root f inputs = Ok p -> has_pom p /\ source p = ExplicitRoot.
Proof.
  unfold from_root, not_searched. destruct (absolutize_cases f inputs) as [[d ->]|(q & e & ->)]; cbn; [| refuse].
  destruct (is_dir d); [| refuse]. cbn. destruct (is_file (pom_in d)) eqn:Hf; [| refuse].
  split; [intros d' [=] |]. intros p [= <-]. split; [by left | done].
Qed.

Lemma from_file_spec f inputs :
  not_searched (from_file f inputs) /\
  forall p, from_file f inputs = Ok p -> has_pom p /\ source p = ExplicitFile.
Proof.
  unfold from_file, not_searched. destruct (absolutize_cases f inputs) as [[d ->]|(q & e & ->)]; cbn; [| refuse].
  destruct (path_exists d) eqn:Hx; [| refuse]. cbn. destruct (is_dir d).
  - destruct (is_file (pom_in d)) eqn:Hf; [| refuse].
    split; [intros d' [=] |]. intros p [= <-]. split; [by left | done].
  - split; [intros d' [=] |]. intros p [= <-]. split; [by right | done].
Qed.

Lemma fall_back_spec cwd inputs :
  (forall d, fall_back cwd inputs = Err (NoPomFound d) -> d = cwd) /\
  forall p, fall_back cwd inputs = Ok p -> has_pom p /\ source p = Sticky.
Proof.
  unfold fall_back, read_sticky, resolve_home. destruct (skip_sticky inputs); [by split; [intros d [= ->] |] |].
  destruct (match in_home inputs with Some h => Ok h | None => _ end) as [home|e] eqn:Hh; cbn.
  - destruct (read_file _) as [s|[|t]]; cbn; [| by split; [intros d [= ->] |] | refuse].
    destruct (is_dir (trim s)); [| by split; [intros d [= ->] |]].
    destruct (is_file (pom_in (trim s))) eqn:Hf; [| by split; [intros d [= ->] |]].
    split; [intros d' [=] |]. intros p [= <-]. split; [by left | done].
  - split; [| done]. intros d [= ->]. destruct (in_home inputs); [done |].
    by destruct (env_var "HOME").
Qed.

(** The project root is always found or refused, and a root that is found
    has its POM: the one named by a flag, else that of the nearest directory
    upwards with no repository boundary before it, else that of the last
    command.  A search is given up only when every POM above the working
    directory is behind a boundary. *)
Theorem project_root_exact inputs :
  exists r, resolve_project_root inputs = Some r /\
  (forall p, r = Ok p -> has_pom p /\
    match in_root inputs, in_file inputs with
    | Some _, _ => source p = ExplicitRoot
    | None, Some _ => source p = ExplicitFile
    | None, None => exists cwd, current_dir inputs = Ok cwd /\
        if decide (source p = WalkUp) then nearest holds_pom holds_git cwd (Some (root p))
        else source p = Sticky /\ nearest holds_pom holds_git cwd None
    end) /\
  (forall dir, r = Err (NoPomFound dir) ->
    current_dir inputs = Ok dir /\ nearest holds_pom holds_git dir None).
Proof.
  unfold resolve_project_root. destruct (in_root inputs) as [f|].
  { destruct (from_root_spec f inputs) as [H1 H2]. eexists. split; [done |]. split; [exact H2 |].
    by intros dir H%H1. }
  destruct (in_file inputs) as [f|].
  { destruct (from_file_spec f inputs) as [H1 H2]. eexists. split; [done |]. split; [exact H2 |].
    by intros dir H%H1. }
  destruct (current_dir inputs) as [cwd|e] eqn:Hc.
  - rewrite walk_up_climb.
    destruct (climb_exact holds_pom holds_git (S (String.length cwd)) cwd) as (r & -> & Hn); [lia |].
    destruct r as [d|]; eexists; (split; [done |]).
    + split; [| done]. intros p [= <-]. split; [left; split; [done | by destruct Hn as (n & _ & H & _)] |]. by exists cwd.
    + destruct (fall_back_spec cwd inputs) as [H1 H2]. split.
      * intros p [Hp Hs]%H2. split; [done |]. exists cwd. split; [done |]. by rewrite Hs.
      * intros dir ->%H1. done.
  - eexists. split; [done |]. split; [done |]. intros dir [= ->]. unfold current_dir in Hc.
    destruct (in_cwd inputs); [done |]. by destruct Loader.current_dir.
Qed.

End Resolve.

(** A file system of text files and directories. *)
Definition files_of (fs : gmap path string) (dirs : path -> bool) : ProjectFiles := {|
  is_dir := dirs;
  is_file p := bool_decide (is_Some (fs !! p));
  read_file p := match fs !! p with Some s => Ok s | None => Err FileNotFound end
|}.

(** What was recorded is read back, for a directory whose name is UTF-8
    without white space at its ends. *)
Lemma sticky_recovers `{Env : Environment} root inputs mkdir_error write_error fs fs' dirs :
  record_sticky root (in_home inputs) mkdir_error write_error fs = (Ok tt, fs') ->
  Fetch.from_utf8_lossy (Cas.byte_of <$> list_ascii_of_string root) = root -> trim root = root ->
  dirs root = true ->
  read_sticky (PF := files_of fs' dirs) inputs = Ok (Some root).
Proof.
  unfold record_sticky, read_sticky. destruct (resolve_home (in_home inputs)) as [h|e]; [| done]. cbn.
  destruct (mkdir_error _); [done |]. destruct (write_error _); [done |]. intros [= <-] Hu Ht Hd.
  rewrite lookup_insert_eq. cbn. by rewrite Hu, Ht, Hd.
Qed.

End Project.
