(* ===== verification/M2.v ===== *)
(** * barista-cache: the Maven mirror

    Models crates/barista-cache/src/m2.rs: the conventional path of an
    artifact and [materialize], which links an object of the store there.
    The mirror is its regular files; a file whose inode is that of an object
    carries the object's name, and the store counts its links.  How the calls
    of std::fs end is the record [Volume]. *)

From S2P Require Import Prelude Coords Pom Effective Profile Cas Source Xml Settings Config Loader.

Module M2.
Import Coords Cas.

(** An [std::io::Error] with its [raw_os_error]. *)
Record OsError := mkOs { raw_os_error : option Z }.

Inductive MirrorError : Type :=
  | Io (p : string) (source : OsError)
  | CasMiss (hash : string).

Definition slashed (group : string) : string :=
  str_map (fun a => if Ascii.eqb a "." then "/"%char else a) group.

Definition filename (c : Coords) (version : string) (classifier : option string) (extension : string)
    : string :=
  match classifier with
  | Some cl => artifact c +:+ "-" +:+ version +:+ "-" +:+ cl +:+ "." +:+ extension
  | None => artifact c +:+ "-" +:+ version +:+ "." +:+ extension
  end.

Definition m2_path (m2_root : string) (c : Coords) (version : string) (classifier : option string)
    (extension : string) : string :=
  Profile.join (Profile.join (Profile.join (Profile.join m2_root (slashed (group c))) (artifact c)) version)
    (filename c version classifier extension).

(** ** Files *)

Record File := mkFile { bytes : Bytes; inode : option ContentHash }.

Record Disk := mkDisk { store : Store; files : gmap string File }.

(** Whether [create_dir_all] of the parent, [remove_file], [link] to a free
    name, and [copy] succeed; a failed copy may leave a part of the file. *)
Record Volume := mkVolume {
  create_dir_all : string -> option OsError;
  remove_works : string -> bool;
  link_error : string -> option OsError;
  copy_error : string -> option (OsError * Bytes)
}.

Definition EEXIST : OsError := mkOs (Some 17%Z).

Definition cross_device_error (e : OsError) : bool := bool_decide (raw_os_error e = Some 18%Z).

Definition add_link (n : Z) (b : Blob) : Blob := mkBlob (data b) (nlink b + n).

(** [remove_file] of a file that is there. *)
Definition remove_file (v : Volume) (p : string) (f : File) (d : Disk) : Disk :=
  if remove_works v p then
    mkDisk (match inode f with Some h => alter (add_link (-1)) h (store d) | None => store d end)
      (delete p (files d))
  else d.

Definition hard_link (v : Volume) (h : ContentHash) (b : Bytes) (p : string) (d : Disk)
    : result OsError unit * Disk :=
  match files d !! p, link_error v p with
  | Some _, _ => (Err EEXIST, d)
  | None, Some e => (Err e, d)
  | None, None =>
      (Ok tt, mkDisk (alter (add_link 1) h (store d)) (<[p := mkFile b (Some h)]> (files d)))
  end.

Definition copy (v : Volume) (b : Bytes) (p : string) (d : Disk) : result OsError unit * Disk :=
  match copy_error v p with
  | Some (e, part) => (Err e, mkDisk (store d) (<[p := mkFile part None]> (files d)))
  | None => (Ok tt, mkDisk (store d) (<[p := mkFile b None]> (files d)))
  end.

(** The link, or the copy when the mirror is on another volume. *)
Definition place (v : Volume) (h : ContentHash) (b : Bytes) (dest : string) (d : Disk)
    : result MirrorError string * Disk :=
  match hard_link v h b dest d with
  | (Ok _, d') => (Ok dest, d')
  | (Err e, d') =>
      if cross_device_error e then
        match copy v b dest d' with
        | (Ok _, d'') => (Ok dest, d'')
        | (Err e', d'') => (Err (Io dest e'), d'')
        end
      else (Err (Io dest e), d')
  end.

Definition ensure_parent (v : Volume) (dest : string) : option MirrorError :=
  parent ← Path.parent dest; Io parent <$> create_dir_all v parent.

Definition materialize (v : Volume) (h : ContentHash) (m2_root : string) (c : Coords) (version : string)
    (classifier : option string) (extension : string) (d : Disk) : result MirrorError string * Disk :=
  match Cas.get h (store d) with
  | None => (Err (CasMiss (to_hex h)), d)
  | Some b =>
      let dest := m2_path m2_root c version classifier extension in
      match ensure_parent v dest with
      | Some e => (Err e, d)
      | None =>
          match files d !! dest with
          | Some f =>
              if bool_decide (inode f = Some h) then (Ok dest, d)
              else place v h b dest (remove_file v dest f d)
          | None => place v h b dest d
          end
      end
  end.

(** ** Links are counted *)

Definition links (h : ContentHash) (m : gmap string File) : nat :=
  size (filter (fun kf => inode kf.2 = Some h) m).

(** Each file that shares an inode holds the bytes of its object, and the
    count of an object is one more than the files of the mirror that are
    links to it. *)
Record linked (d : Disk) : Prop := {
  l_bytes : forall p f h, files d !! p = Some f -> inode f = Some h -> Cas.get h (store d) = Some (bytes f);
  l_count : forall h b, store d !! h = Some b -> nlink b = (1 + Z.of_nat (links h (files d)))%Z
}.

Lemma links_delete h p f m :
  m !! p = Some f ->
  links h m = (if bool_decide (inode f = Some h) then 1 else 0) + links h (delete p m).
Proof.
  intros Hp. unfold links. rewrite <- (insert_delete_id m p f Hp) at 1.
  case_bool_decide as Hi.
  - rewrite map_filter_insert_True by done. rewrite map_size_insert_None; [done |].
    apply map_lookup_filter_None. left. apply lookup_delete_eq.
  - rewrite map_filter_insert_False by done. by rewrite delete_delete_eq.
Qed.

Lemma links_insert h p f m :
  m !! p = None ->
  links h (<[p := f]> m) = (if bool_decide (inode f = Some h) then 1 else 0) + links h m.
Proof.
  intros Hp. rewrite (links_delete h p f) by apply lookup_insert_eq.
  by rewrite delete_insert_id.
Qed.

Lemma get_alter h h' n st : Cas.get h (alter (add_link n) h' st) = Cas.get h st.
Proof.
  unfold Cas.get. destruct (decide (h' = h)) as [->|Hne].
  - rewrite lookup_alter_eq. by destruct (st !! h).
  - by rewrite lookup_alter_ne.
Qed.

Lemma nlink_alter (h h' : ContentHash) n (st : Store) b :
  alter (add_link n) h' st !! h = Some b ->
  exists b0, st !! h = Some b0 /\ nlink b = (nlink b0 + if bool_decide (h' = h) then n else 0)%Z.
Proof.
  case_bool_decide as E.
  - subst h'. rewrite lookup_alter_eq. intros (b0 & H & ->)%fmap_Some_1. by exists b0.
  - rewrite lookup_alter_ne by done. exists b. split; [done | lia].
Qed.

(** What one of the calls leaves: the objects, and the files but one. *)
Record kept (p : string) (d d' : Disk) : Prop := {
  k_objects : forall h, Cas.get h (store d') = Cas.get h (store d);
  k_files : forall q, q <> p -> files d' !! q = files d !! q;
  k_linked : linked d -> linked d'
}.

Lemma kept_refl p d : kept p d d.
Proof. by split. Qed.

Lemma kept_trans p d1 d2 d3 : kept p d1 d2 -> kept p d2 d3 -> kept p d1 d3.
Proof.
  intros [A1 B1 C1] [A2 B2 C2]. split; [intros h; by rewrite A2, A1 | | by auto].
  intros q Hq. by rewrite B2, B1.
Qed.

Lemma remove_file_kept v p f d :
  files d !! p = Some f ->
  kept p d (remove_file v p f d) /\ (remove_works v p = true -> files (remove_file v p f d) !! p = None).
Proof.
  intros Hp. unfold remove_file. destruct (remove_works v p); [| split; [apply kept_refl | done]].
  split; [| intros _; apply lookup_delete_eq].
  assert (Hg : forall h, Cas.get h (match inode f with Some h => alter (add_link (-1)) h (store d) | None => store d end)
    = Cas.get h (store d)) by (intros h; destruct (inode f); [apply get_alter | done]).
  split; cbn; [done | intros q Hq; by rewrite lookup_delete_ne |]. intros [Hb Hc]. split; cbn.
  - intros q f' h [_ Hq]%lookup_delete_Some Hi. rewrite Hg. by apply (Hb q).
  - intros h b Hs. pose proof (links_delete h p f (files d) Hp) as Hl.
    destruct (inode f) as [h'|].
    + apply nlink_alter in Hs as (b0 & Hs & ->). rewrite (Hc h b0 Hs), Hl.
      repeat case_bool_decide; try congruence; lia.
    + rewrite (Hc h b Hs), Hl. case_bool_decide; [congruence | lia].
Qed.

Lemma insert_own_kept p b d :
  (forall f, files d !! p = Some f -> inode f = None) ->
  kept p d (mkDisk (store d) (<[p := mkFile b None]> (files d))).
Proof.
  intros Hp. split; cbn; [done | intros q Hq; by rewrite lookup_insert_ne |]. intros [Hb Hc]. split; cbn.
  - intros q f h [[<- <-]|[_ Hq]]%lookup_insert_Some Hi; [done |]. by apply (Hb q).
  - intros h b' Hs. rewrite (Hc h b' Hs). f_equal. f_equal.
    rewrite <- insert_delete_eq, links_insert by apply lookup_delete_eq. cbn.
    destruct (files d !! p) as [f|] eqn:Hf; [| by rewrite delete_id].
    rewrite (links_delete h p f) by done. rewrite (Hp f eq_refl). cbn. done.
Qed.

Lemma hard_link_kept v h b p d r d' :
  hard_link v h b p d = (r, d') -> Cas.get h (store d) = Some b ->
  kept p d d' /\
  match r with
  | Ok _ => files d' !! p = Some (mkFile b (Some h))
  | Err e => d' = d /\ (cross_device_error e = true -> files d !! p = None)
  end.
Proof.
  unfold hard_link. intros H Hb.
  destruct (files d !! p) as [f|] eqn:Hp; [by injection H as <- <-; split; [apply kept_refl |] |].
  destruct (link_error v p) as [e|]; injection H as <- <-; [split; [apply kept_refl | done] |].
  split; [| apply lookup_insert_eq].
  split; cbn; [intros h'; apply get_alter | intros q Hq; by rewrite lookup_insert_ne |].
  intros [HB HC]. split; cbn.
  - intros q f h' [[<- <-]|[_ Hq]]%lookup_insert_Some Hi; rewrite get_alter.
    + cbn in Hi |- *. by injection Hi as <-.
    + by apply (HB q).
  - intros h' b' (b0 & Hs & ->)%nlink_alter. rewrite (HC h' b0 Hs), links_insert by done. cbn.
    repeat case_bool_decide; try congruence; lia.
Qed.

Lemma place_kept v h b p d r d' :
  place v h b p d = (r, d') -> Cas.get h (store d) = Some b ->
  kept p d d' /\ (forall q, r = Ok q -> q = p /\ exists i, files d' !! p = Some (mkFile b i)).
Proof.
  unfold place. intros H Hb. destruct (hard_link v h b p d) as [[[]|e] d1] eqn:Hl;
    destruct (hard_link_kept _ _ _ _ _ _ _ Hl Hb) as [Hk Hp].
  - injection H as <- <-. split; [done |]. intros q [= <-]. eauto.
  - destruct Hp as [-> Hp]. destruct (cross_device_error e); [| injection H as <- <-; done].
    specialize (Hp eq_refl). unfold copy in H.
    destruct (copy_error v p) as [[e' part]|]; injection H as <- <-;
      (split; [apply insert_own_kept; by rewrite Hp |]); [done |].
    intros q [= <-]. cbn. rewrite lookup_insert_eq. eauto.
Qed.

(** Nothing but the destination changes, and links stay counted. *)
Lemma materialize_kept v h m2_root c version classifier extension d r d' :
  materialize v h m2_root c version classifier extension d = (r, d') ->
  kept (m2_path m2_root c version classifier extension) d d'.
Proof.
  unfold materialize. destruct (Cas.get h (store d)) as [b|] eqn:Hb; [| intros [= <- <-]; apply kept_refl].
  set (dest := m2_path _ _ _ _ _). destruct (ensure_parent v dest); [intros [= <- <-]; apply kept_refl |].
  destruct (files d !! dest) as [f|] eqn:Hf; [| intros H; by eapply place_kept].
  case_bool_decide as Hi; [intros [= <- <-]; apply kept_refl |]. intros H.
  destruct (remove_file_kept v dest f d Hf) as [Hk _]. apply kept_trans with (remove_file v dest f d); [done |].
  eapply place_kept; [done |]. by rewrite (k_objects _ _ _ Hk).
Qed.

(** A file that was placed has the bytes of the object. *)
Lemma materialize_bytes v h m2_root c version classifier extension d p d' :
  materialize v h m2_root c version classifier extension d = (Ok p, d') -> linked d ->
  p = m2_path m2_root c version classifier extension /\
  exists f, files d' !! p = Some f /\ Cas.get h (store d') = Some (bytes f).
Proof.
  intros H Hl. pose proof (materialize_kept _ _ _ _ _ _ _ _ _ _ H) as Hk. rewrite (k_objects _ _ _ Hk).
  revert H. unfold materialize. destruct (Cas.get h (store d)) as [b|] eqn:Hb; [| done].
  set (dest := m2_path _ _ _ _ _) in *. destruct (ensure_parent v dest); [done |].
  destruct (files d !! dest) as [f|] eqn:Hf.
  - case_bool_decide as Hi.
    + intros [= <- <-]. split; [done |]. exists f. split; [done |].
      by rewrite <- (l_bytes d Hl _ _ _ Hf Hi).
    + intros H. destruct (remove_file_kept v dest f d Hf) as [Hr _].
      destruct (place_kept _ _ _ _ _ _ _ H) as [_ Hp]; [by rewrite (k_objects _ _ _ Hr) |].
      destruct (Hp p eq_refl) as (-> & i & Hi'). eauto.
  - intros H. destruct (place_kept _ _ _ _ _ _ _ H Hb) as [_ Hp].
    destruct (Hp p eq_refl) as (-> & i & Hi'). eauto.
Qed.

(** C20. [materialize] keeps the mirror well formed: from a disk on which every
    file that shares an inode has the bytes of its object and every link
    count is exact, whatever it returns and whichever calls fail, the disk is
    again so, no object changes, and no file but the destination does.  When
    it returns a path, that is the Maven path of the artifact and the file
    there has the bytes of the object. *)
Theorem materialize_links v h m2_root c version classifier extension d r d' :
  linked d -> materialize v h m2_root c version classifier extension d = (r, d') ->
  let dest := m2_path m2_root c version classifier extension in
  linked d' /\ (forall h', Cas.get h' (store d') = Cas.get h' (store d)) /\
  (forall q, q <> dest -> files d' !! q = files d !! q) /\
  (forall p, r = Ok p -> p = dest /\ exists f, files d' !! p = Some f /\ Cas.get h (store d') = Some (bytes f)).
Proof.
  intros Hl H. destruct (materialize_kept _ _ _ _ _ _ _ _ _ _ H) as [Ho Hf Hk].
  split_and!; [by apply Hk | done | done |]. intros p ->. by apply (materialize_bytes v h m2_root c version classifier extension d).
Qed.

(** A file that is a link keeps its object from being collected. *)
Lemma linked_pinned d p f h :
  linked d -> files d !! p = Some f -> inode f = Some h ->
  exists b, store d !! h = Some b /\ (2 <= nlink b)%Z.
Proof.
  intros Hl Hp Hi. pose proof (l_bytes d Hl _ _ _ Hp Hi) as Hb. unfold Cas.get in Hb.
  destruct (store d !! h) as [b|] eqn:Hs; [| done]. exists b. split; [done |].
  rewrite (l_count d Hl h b Hs), (links_delete h p f) by done. rewrite bool_decide_true by done. lia.
Qed.

(** ** Paths *)

(** A component of a path that stays where it is put. *)
Definition plain (s : string) : bool := negb (is_empty s) && sep_free "/" s.

(** A group whose dots separate non-empty names at both ends. *)
Definition tidy (c : Coords) (version : string) (classifier : option string) (extension : string) : bool :=
  plain (group c) && negb (str_starts "." (group c))
  && negb (Profile.byte_is (Profile.last_byte (group c)) ".")
  && plain (artifact c) && plain version && plain (filename c version classifier extension).

Definition lead (base : string) : string :=
  match Profile.last_byte base with
  | None => ""
  | Some a => if Ascii.eqb a "/" then base else base +:+ "/"
  end.

Lemma join_lead base p : str_starts "/" p = false -> Profile.join base p = lead base +:+ p.
Proof.
  intros Hp. unfold Profile.join, lead. rewrite Hp. destruct (Profile.last_byte base) as [a|]; [| done].
  destruct (Ascii.eqb a "/"); [done |]. by rewrite str_app_assoc.
Qed.

(** Neither absolute nor ending in a separator. *)
Definition inner (p : string) : Prop :=
  str_starts "/" p = false /\ exists a, Profile.last_byte p = Some a /\ Ascii.eqb a "/" = false.

Lemma lead_inner x p : inner p -> lead (x +:+ p) = x +:+ p +:+ "/".
Proof.
  intros (_ & a & Ha & Hs). unfold lead, Profile.last_byte in *. rewrite list_ascii_app, last_app, Ha, Hs.
  by rewrite str_app_assoc.
Qed.

Lemma last_forallb f s a : str_forallb f s = true -> Profile.last_byte s = Some a -> f a = true.
Proof.
  intros Hf Hl. apply last_Some in Hl as [l' Hl]. rewrite str_forallb_list in Hf.
  apply Hf. rewrite Hl. apply in_or_app. right. by left.
Qed.

Lemma nonempty_last s : is_empty s = false -> exists a, Profile.last_byte s = Some a.
Proof.
  intros Hs. unfold Profile.last_byte. destruct (list.last _) as [a|] eqn:Hl; [eauto |].
  apply last_None in Hl. by destruct s.
Qed.

Lemma plain_inner s : plain s = true -> inner s.
Proof.
  unfold plain. intros [Hn Hf]%andb_prop. apply negb_true_iff in Hn. split.
  - destruct s as [|a s]; [done |]. unfold sep_free in Hf. cbn in *. by destruct (Ascii.eqb a "/").
  - destruct (nonempty_last s Hn) as [a Ha]. exists a. split; [done |].
    apply (last_forallb _ _ _ Hf) in Ha. by destruct (Ascii.eqb a "/").
Qed.

Lemma slashed_last g :
  Profile.last_byte (slashed g)
  = (fun a => if Ascii.eqb a "." then "/"%char else a) <$> Profile.last_byte g.
Proof.
  unfold Profile.last_byte, slashed. rewrite <- fmap_last. f_equal.
  induction g as [|a g IH]; cbn; [done |]. by f_equal.
Qed.

Lemma slashed_inner g :
  plain g = true -> str_starts "." g = false -> Profile.byte_is (Profile.last_byte g) "." = false ->
  inner (slashed g).
Proof.
  intros Hp Hs Hl. destruct (plain_inner g Hp) as (H1 & a & Ha & Hn). split.
  - destruct g as [|b g]; [done |]. cbn in *. by rewrite Hs.
  - exists a. rewrite slashed_last, Ha. cbn. rewrite Ha in Hl. cbn in Hl. by rewrite Hl.
Qed.

Lemma slashed_inj g g' :
  sep_free "/" g = true -> sep_free "/" g' = true -> slashed g = slashed g' -> g = g'.
Proof.
  unfold sep_free, slashed. revert g'. induction g as [|a g IH]; intros [|b g']; cbn; try done.
  intros [Ha Hg]%andb_prop [Hb Hg']%andb_prop [= Hab E]. f_equal; [| by apply IH].
  destruct (Ascii.eqb_spec a "."), (Ascii.eqb_spec b "."); subst; try done.
Qed.

Lemma tidy_parts c version classifier extension :
  tidy c version classifier extension = true ->
  inner (slashed (group c)) /\ sep_free "/" (group c) = true /\ plain (artifact c) = true
  /\ plain version = true /\ plain (filename c version classifier extension) = true.
Proof.
  unfold tidy. intros [[[[[Hg Hd]%andb_prop He]%andb_prop Ha]%andb_prop Hv]%andb_prop Hf]%andb_prop.
  apply negb_true_iff in Hd, He. split_and!; try done; [by apply slashed_inner |].
  by apply andb_prop in Hg as [_ ?].
Qed.

(** The path of tidy coordinates is below the root of the mirror. *)
Lemma m2_path_shape m2_root c version classifier extension :
  tidy c version classifier extension = true ->
  m2_path m2_root c version classifier extension
  = lead m2_root +:+ slashed (group c) +:+ "/" +:+ artifact c +:+ "/" +:+ version +:+ "/"
    +:+ filename c version classifier extension.
Proof.
  intros (Hg & _ & Ha & Hv & Hf)%tidy_parts. apply plain_inner in Ha, Hv, Hf.
  unfold m2_path. rewrite (join_lead _ (slashed _)) by apply Hg.
  rewrite (join_lead _ (artifact c)), lead_inner by (apply Ha || done).
  rewrite (join_lead _ version) by apply Hv. rewrite lead_inner by done.
  rewrite (join_lead _ (filename _ _ _ _)) by apply Hf. rewrite lead_inner by done.
  by rewrite !str_app_assoc.
Qed.

Lemma split_tail c s t :
  sep_free c t = true -> str_split c (s +:+ String c t) = str_split c s ++ [t].
Proof.
  intros Ht. induction s as [|a s IH]; cbn.
  - rewrite Ascii.eqb_refl. by rewrite str_split_free.
  - destruct (Ascii.eqb a c); [by rewrite IH |]. rewrite IH.
    by destruct (str_split c s) as [|p ps] eqn:E; [apply str_split_nonempty in E |].
Qed.

Lemma str_app_inj (x y z : string) : x +:+ y = x +:+ z -> y = z.
Proof. induction x as [|a x IH]; cbn; [done |]. intros [= H]. by apply IH. Qed.

(** Two artifacts of one root never share a path. *)
Lemma m2_path_inj m2_root c v cl e c' v' cl' e' :
  tidy c v cl e = true -> tidy c' v' cl' e' = true ->
  m2_path m2_root c v cl e = m2_path m2_root c' v' cl' e' ->
  c = c' /\ v = v' /\ filename c v cl e = filename c' v' cl' e'.
Proof.
  intros Ht Ht'. rewrite !m2_path_shape by done. intros E%str_app_inj.
  apply tidy_parts in Ht as (_ & Hg & Ha & Hv & Hf), Ht' as (_ & Hg' & Ha' & Hv' & Hf').
  unfold plain in *. apply andb_prop in Ha as [_ Ha], Hv as [_ Hv], Hf as [_ Hf], Ha' as [_ Ha'],
    Hv' as [_ Hv'], Hf' as [_ Hf'].
  apply (f_equal (str_split "/")) in E. rewrite <- !str_app_assoc in E.
  assert (Hsplit : forall x a b f, sep_free "/" a = true -> sep_free "/" b = true -> sep_free "/" f = true ->
    str_split "/" ((((((x +:+ "/") +:+ a) +:+ "/") +:+ b) +:+ "/") +:+ f) = str_split "/" x ++ [a; b; f]).
  { intros x a b f H1 H2 H3. rewrite !(str_app_assoc _ "/" _).
    change ("/" +:+ ?y) with (String "/" y). rewrite !split_tail by done. by rewrite <- !app_assoc. }
  rewrite !Hsplit in E by done. apply app_inj_2 in E as [E1 E2]; [| done].
  injection E2 as Ea Ev Ef. apply (f_equal (str_join "/")) in E1. rewrite !str_join_split in E1.
  apply slashed_inj in E1; [| done..]. destruct c, c'. cbn in *. by subst.
Qed.

(** A mirror on which the destination holds another file. *)
Module Sample.

Definition h : ContentHash := mkHash [1%Z].
Definition c : Coords := mkCoords "org.x" "a".
Definition d : Disk := mkDisk {[h := mkBlob [7%Z] 1]} {["r/org/x/a/1/a-1.jar" := mkFile [9%Z] None]}.
Definition v : Volume := mkVolume (fun _ => None) (fun _ => true) (fun _ => None) (fun _ => None).

Lemma d_linked : linked d.
Proof.
  split.
  - intros p f h' Hp Hi.
    apply (lookup_singleton_Some (M := gmap string) "r/org/x/a/1/a-1.jar" p (mkFile [9%Z] None)) in Hp as [_ <-]. discriminate Hi.
  - intros h' b Hb. apply (lookup_singleton_Some (M := gmap ContentHash) h h' (mkBlob [7%Z] 1)) in Hb as [<- <-]. vm_compute. reflexivity.
Qed.

Lemma materialize_links_witness :
  exists f, files (materialize v h "r" c "1" None "jar" d).2 !! "r/org/x/a/1/a-1.jar" = Some f
    /\ Cas.get h (store (materialize v h "r" c "1" None "jar" d).2) = Some (bytes f).
Proof.
  destruct (materialize_links v h "r" c "1" None "jar" d _ _ d_linked
    (surjective_pairing (materialize v h "r" c "1" None "jar" d))) as (_ & _ & _ & H).
  apply (H "r/org/x/a/1/a-1.jar"). vm_compute. reflexivity.
Defined.

Example sample_links :
  nlink <$> store (materialize v h "r" c "1" None "jar" d).2 !! h = Some 2%Z.
Proof. vm_compute. reflexivity. Qed.

End Sample.

(** A group that begins with a dot names a path outside of the root. *)
Lemma m2_path_escapes :
  exists c, Coords.new ".etc.cron" "job" = Ok c /\
  m2_path "/home/u/.m2/repository" c "1" None "jar" = "/etc/cron/job/1/job-1.jar".
Proof. eexists. split; [reflexivity |]. vm_compute. reflexivity. Qed.

End M2.
