(* ===== verification/SortBy.v ===== *)
(** * Stable sorting by a text key

    [slice::sort_by_key] and [sort_by] of the standard library on text keys:
    a stable sort in the byte order of strings. *)

From S2P Require Import Prelude.
From stdpp Require Import sorting.

Module SortBy.

(** ** The byte order of strings *)

Lemma str_compare_trans a b c :
  String.compare a b <> Gt -> String.compare b c <> Gt -> String.compare a c <> Gt.
Proof.
  revert b c. induction a as [|x a IH]; intros [|y b] [|z c]; cbn; try done.
  unfold Ascii.compare. intros H1 H2.
  destruct (N.compare_spec (N_of_ascii x) (N_of_ascii y)) as [E1|L1|G1];
    destruct (N.compare_spec (N_of_ascii y) (N_of_ascii z)) as [E2|L2|G2]; try done.
  - rewrite E1, E2, N.compare_refl. by eapply IH.
  - by rewrite (proj2 (N.compare_lt_iff _ _)) by lia.
  - by rewrite (proj2 (N.compare_lt_iff _ _)) by lia.
  - by rewrite (proj2 (N.compare_lt_iff _ _)) by lia.
Qed.

Lemma str_leb_compare a b : String.leb a b = true <-> String.compare a b <> Gt.
Proof. unfold String.leb. by destruct (String.compare a b). Qed.

Lemma str_leb_trans a b c : String.leb a b = true -> String.leb b c = true -> String.leb a c = true.
Proof. rewrite !str_leb_compare. apply str_compare_trans. Qed.

Lemma str_leb_flip a b : String.leb a b = false -> String.leb b a = true.
Proof. destruct (String.leb_total a b) as [H|H]; [by rewrite H | done]. Qed.

(** ** The sort *)

Section Sort.
Context {A : Type} (key : A -> string).

Fixpoint insert_by (x : A) (l : list A) : list A :=
  match l with
  | [] => [x]
  | y :: l' => if String.leb (key x) (key y) then x :: l else y :: insert_by x l'
  end.

Definition sort_by_key (l : list A) : list A := foldr insert_by [] l.

Definition key_le (x y : A) : Prop := String.leb (key x) (key y) = true.

Lemma insert_by_perm x l : insert_by x l ≡ₚ x :: l.
Proof.
  induction l as [|y l IH]; cbn; [done |]. case_match; [done |]. rewrite IH. apply Permutation_swap.
Qed.

Lemma sort_by_key_perm l : sort_by_key l ≡ₚ l.
Proof. induction l as [|x l IH]; cbn; [done |]. by rewrite insert_by_perm, IH. Qed.

Lemma insert_by_sorted x l : StronglySorted key_le l -> StronglySorted key_le (insert_by x l).
Proof.
  induction 1 as [|y l Hs IH Hy]; cbn; [by repeat constructor |]. case_match eqn:E.
  - constructor; [by constructor |]. constructor; [done |].
    eapply Forall_impl; [exact Hy |]. intros z Hz. by eapply str_leb_trans.
  - constructor; [done |]. rewrite insert_by_perm. constructor; [by apply str_leb_flip | done].
Qed.

Lemma sort_by_key_sorted l : StronglySorted key_le (sort_by_key l).
Proof. induction l as [|x l IH]; cbn; [constructor | by apply insert_by_sorted]. Qed.

(** With distinct keys the sort forgets the order of its input. *)
Lemma sort_by_key_unique l k : NoDup (map key l) -> l ≡ₚ k -> sort_by_key l = sort_by_key k.
Proof.
  intros Hn Hp. apply (StronglySorted_unique_strong key_le); try apply sort_by_key_sorted.
  - intros x y Hx Hy H1 H2. rewrite sort_by_key_perm in Hx, Hy. rewrite <- Hp in Hy.
    assert (E : key x = key y) by (by apply String.leb_antisym).
    apply list_elem_of_lookup in Hx as [i Hi]. apply list_elem_of_lookup in Hy as [j Hj].
    assert (i = j) as ->; [| congruence].
    eapply NoDup_lookup; [exact Hn | |]; rewrite list_lookup_fmap, ?Hi, ?Hj; cbn; [done | by rewrite E].
  - by rewrite !sort_by_key_perm.
Qed.

End Sort.

#[global] Arguments sort_by_key : simpl never.
End SortBy.
