(* ===== verification/StrictFormat.v ===== *)
(** * barista-resolver: the report of a conflict

    Models crates/barista-resolver/src/strict_format.rs: the message for a
    conflict of strict resolution, with the solver's ranges rewritten in
    Maven's notation. *)

From stdpp Require Import sorting.
From S2P Require Import Prelude Version Coords VersionSpec Pom Source SortBy Strict.

Module StrictFormat.
Import Coords Strict.

Definition newline : string := String "010" "".

(** ** Ranges in Maven's notation *)

Inductive BoundKind : Type := Inclusive | Exclusive.

Definition parse_bound (s : string) : BoundKind * option string :=
  match str_strip_prefix ">=" s with
  | Some v => (Inclusive, Some (trim v))
  | None =>
      match str_strip_prefix "<=" s with
      | Some v => (Inclusive, Some (trim v))
      | None =>
          match str_strip_prefix ">" s with
          | Some v => (Exclusive, Some (trim v))
          | None =>
              match str_strip_prefix "<" s with
              | Some v => (Exclusive, Some (trim v))
              | None => (Inclusive, None)
              end
          end
      end
  end.

Definition bound_bracket (b : BoundKind) (lower : bool) : string :=
  match b, lower with
  | Inclusive, true => "["
  | Inclusive, false => "]"
  | Exclusive, true => "("
  | Exclusive, false => ")"
  end.

(** The [if let] on a compound range. *)
Definition compound (pg : string) : option string :=
  match str_split_once "," pg with
  | None => None
  | Some (lo, hi) =>
      let '(lo_kind, lo_v) := parse_bound (trim lo) in
      let '(hi_kind, hi_v) := parse_bound (trim hi) in
      match lo_v, hi_v with
      | Some lv, Some hv =>
          Some (bound_bracket lo_kind true +:+ lv +:+ "," +:+ hv +:+ bound_bracket hi_kind false)
      | _, _ => None
      end
  end.

Definition open_ended (pg : string) : string :=
  match str_strip_prefix ">=" pg with
  | Some rest => "[" +:+ trim rest +:+ ",)"
  | None =>
      match str_strip_prefix "<=" pg with
      | Some rest => "(," +:+ trim rest +:+ "]"
      | None =>
          match str_strip_prefix ">" pg with
          | Some rest => "(" +:+ trim rest +:+ ",)"
          | None =>
              match str_strip_prefix "<" pg with
              | Some rest => "(," +:+ trim rest +:+ ")"
              | None => pg
              end
          end
      end
  end.

Definition is_bare (pg : string) : bool :=
  negb (str_contains "," pg) && negb (str_contains "=" pg)
  && negb (str_contains "<" pg) && negb (str_contains ">" pg).

Definition pubgrub_range_to_maven (pg : string) : string :=
  let pg := trim pg in
  if is_empty pg then ""
  else if str_starts "[" pg || str_starts "(" pg then pg
  else if is_bare pg then "[" +:+ pg +:+ "]"
  else match compound pg with
       | Some s => s
       | None => open_ended pg
       end.

(** ** The message *)

Definition render_from (e : DepEdge) : string :=
  if String.eqb (group (from_coords e)) "<root>" then "root project"
  else group (from_coords e) +:+ ":" +:+ artifact (from_coords e) +:+ ":" +:+ from_version e.

Definition join_with_and (items : list string) : string :=
  match items with
  | [] => ""
  | [a] => a
  | [a; b] => a +:+ " and " +:+ b
  | _ => str_join ", " (removelast items) +:+ ", and " +:+ default "" (list.last items)
  end.

Definition target (e : DepEdge) : string := group (to_coords e) +:+ ":" +:+ artifact (to_coords e).

(** [entry(key).or_default().push(e)] of a [BTreeMap]. *)
Fixpoint push_group (k : string) (e : DepEdge) (m : list (string * list DepEdge))
    : list (string * list DepEdge) :=
  match m with
  | [] => [(k, [e])]
  | (k', es) :: m' =>
      match String.compare k k' with
      | Eq => (k', es ++ [e]) :: m'
      | Lt => (k, [e]) :: m
      | Gt => (k', es) :: push_group k e m'
      end
  end.

Definition group_by_target (edges : list DepEdge) : list (string * list DepEdge) :=
  foldl (fun m e => push_group (target e) e m) [] edges.

Definition edge_line (t : string) (e : DepEdge) : string :=
  let available := match available_versions e with
                   | [] => ""
                   | vs => "   (available: " +:+ str_join ", " vs +:+ ")"
                   end in
  "    " +:+ render_from e +:+ "   requires  " +:+ t +:+ "  "
  +:+ pubgrub_range_to_maven (required_range e) +:+ available +:+ newline.

Definition group_text (g : string * list DepEdge) : string :=
  "  conflicting requirements on `" +:+ g.1 +:+ "`:" +:+ newline
  +:+ String.concat "" (edge_line g.1 <$> g.2) +:+ newline.

Definition summary_text (g : string * list DepEdge) : string :=
  if 2 <=? length g.2 then
    "  no version of `" +:+ g.1 +:+ "` satisfies "
    +:+ join_with_and ((fun e => "`" +:+ pubgrub_range_to_maven (required_range e) +:+ "`") <$> g.2)
    +:+ "." +:+ newline +:+ newline
  else "".

Definition hints : string :=
  "hints:" +:+ newline
  +:+ "  • Override a transitive's pin by adding your project's own" +:+ newline
  +:+ "    <dependencyManagement> entry for the conflicting coord." +:+ newline
  +:+ "  • Or run without --strict to fall back to nearest-wins" +:+ newline
  +:+ "    resolution (the default; loses the conflict signal)." +:+ newline.

Definition format_derivation (d : StrictDerivation) : string :=
  "error: cannot resolve dependencies — " +:+ root_cause d +:+ "." +:+ newline +:+ newline
  +:+ match contributing_edges d with
      | [] => "  (no contributing edges were recorded by the solver.)" +:+ newline +:+ newline
      | edges =>
          let groups := group_by_target edges in
          String.concat "" (group_text <$> groups) +:+ String.concat "" (summary_text <$> groups)
      end
  +:+ hints.

(** ** The groups *)

Definition keys_sorted (m : list (string * list DepEdge)) : Prop :=
  StronglySorted (fun a b => String.compare a.1 b.1 = Lt) m.

Definition bucket (k : string) (edges : list DepEdge) : list DepEdge :=
  List.filter (fun e => String.eqb (target e) k) edges.

(** The edges of a key in a map. *)
Fixpoint found (k : string) (m : list (string * list DepEdge)) : list DepEdge :=
  match m with
  | [] => []
  | (k', es) :: m' => if String.eqb k k' then es else found k m'
  end.

Lemma compare_lt_trans a b c :
  String.compare a b = Lt -> String.compare b c = Lt -> String.compare a c = Lt.
Proof.
  intros H1 H2. pose proof (SortBy.str_compare_trans a b c) as H. rewrite H1, H2 in H.
  destruct (String.compare a c) eqn:E; [| done | by destruct H].
  apply str_compare_eq in E as ->. rewrite String.compare_antisym, H1 in H2. done.
Qed.

Lemma push_group_keys k e m x : x ∈ push_group k e m -> x.1 = k \/ x.1 ∈ m.*1.
Proof.
  induction m as [|[k' es] m IH]; cbn.
  - intros ->%list_elem_of_singleton. by left.
  - destruct (String.compare k k'); rewrite ?elem_of_cons; cbn.
    + intros [->|Hx]; [by right; left | right; right; by apply list_elem_of_fmap_2].
    + intros [->|[->|Hx]]; [by left | by right; left | right; right; by apply list_elem_of_fmap_2].
    + intros [->|[?|?]%IH]; [by right; left | by left | by right; right].
Qed.

Lemma push_group_sorted k e m : keys_sorted m -> keys_sorted (push_group k e m).
Proof.
  induction 1 as [|[k' es] m Hs IH Hf]; cbn; [repeat constructor |].
  destruct (String.compare k k') eqn:E.
  - by constructor.
  - constructor; [by constructor |]. constructor; [done |].
    eapply List.Forall_impl; [| exact Hf]. cbn. intros x Hx. by eapply compare_lt_trans.
  - constructor; [done |]. apply list.Forall_forall. intros x Hx. cbn.
    apply push_group_keys in Hx as [->|Hx]; [by rewrite String.compare_antisym, E |].
    apply list_elem_of_fmap in Hx as (y & -> & Hy). rewrite list.Forall_forall in Hf. by apply Hf.
Qed.

Lemma found_absent k m : Forall (fun x => String.compare k x.1 = Lt) m -> found k m = [].
Proof.
  induction 1 as [|[k' es] m Hk _ IH]; cbn; [done |]. cbn in Hk.
  destruct (String.eqb_spec k k') as [->|]; [| done]. by rewrite str_compare_refl in Hk.
Qed.

Lemma found_push k e m k' : keys_sorted m ->
  found k' (push_group k e m) = if String.eqb k k' then found k' m ++ [e] else found k' m.
Proof.
  induction 1 as [|[k1 es] m Hs IH Hf]; cbn.
  - rewrite String.eqb_sym. by destruct (String.eqb k k').
  - destruct (String.compare k k1) eqn:E; cbn.
    + apply str_compare_eq in E as ->. rewrite (String.eqb_sym k' k1). by destruct (String.eqb k1 k').
    + rewrite (String.eqb_sym k' k). destruct (String.eqb_spec k k') as [<-|]; [| done].
      destruct (String.eqb_spec k k1) as [->|]; [by rewrite str_compare_refl in E |].
      rewrite found_absent; [done |]. eapply List.Forall_impl; [| exact Hf]. cbn. intros x Hx.
      by eapply compare_lt_trans.
    + rewrite IH. destruct (String.eqb_spec k' k1) as [->|]; [| done].
      destruct (String.eqb_spec k k1) as [->|]; [by rewrite str_compare_refl in E | done].
Qed.

(** The report has one group for each target, in the order of their names,
    with every edge to that target in the order of the derivation. *)
Theorem groups_exact edges k :
  keys_sorted (group_by_target edges) /\ found k (group_by_target edges) = bucket k edges.
Proof.
  unfold group_by_target, bucket. induction edges as [|e edges [IH1 IH2]] using rev_ind.
  { split; [constructor | done]. }
  rewrite foldl_app, List.filter_app. cbn [foldl List.filter]. split; [by apply push_group_sorted |].
  rewrite found_push, IH2 by done. destruct (String.eqb (target e) k); by rewrite ?app_nil_r.
Qed.

(** ** Maven's notation *)

(** What the solver prints for one segment of a range. *)
Definition segment_display (iv : VersionSpec.Interval) : string :=
  let txt := VersionSpec.bound_text in
  match VersionSpec.lower iv, VersionSpec.upper iv with
  | VersionSpec.Unbounded, VersionSpec.Unbounded => "*"
  | VersionSpec.Unbounded, VersionSpec.Included b => "<=" +:+ Version.original b
  | VersionSpec.Unbounded, VersionSpec.Excluded b => "<" +:+ Version.original b
  | VersionSpec.Included a, VersionSpec.Unbounded => ">=" +:+ Version.original a
  | VersionSpec.Excluded a, VersionSpec.Unbounded => ">" +:+ Version.original a
  | VersionSpec.Included a, VersionSpec.Included b =>
      if Version.eq a b then Version.original a
      else ">=" +:+ Version.original a +:+ ", <=" +:+ Version.original b
  | VersionSpec.Included a, VersionSpec.Excluded b => ">=" +:+ Version.original a +:+ ", <" +:+ Version.original b
  | VersionSpec.Excluded a, VersionSpec.Included b => ">" +:+ Version.original a +:+ ", <=" +:+ Version.original b
  | VersionSpec.Excluded a, VersionSpec.Excluded b => ">" +:+ Version.original a +:+ ", <" +:+ Version.original b
  end.

(** A version text without brackets, commas and comparison signs. *)
Definition ordinary (a : ascii) : bool := str_forallb (fun c => negb (Ascii.eqb a c)) ",=<>[(".

Definition plain (t : string) : Prop :=
  is_empty t = false /\ trimmed t /\ str_forallb ordinary t = true.

Lemma trimmed_hi o x c t :
  solid o = true -> solid c = true -> trimmed t -> trimmed (String o (x +:+ String c t)).
Proof.
  intros Ho Hc [_ Ht]. unfold trimmed, trimmed_bytes. cbn [list_ascii_of_string].
  rewrite list_ascii_app. split; [by apply (ws_len_solid []) |].
  cbn [list_ascii_of_string rev]. rewrite rev_app_distr. cbn [rev]. rewrite <- !app_assoc.
  by apply ws_len_rev_solid.
Qed.

Lemma trim_space t : trimmed t -> trim (String " " t) = t.
Proof. intros H. exact (trim_id t H). Qed.

Lemma trimmed_sign c t : solid c = true -> trimmed t -> trimmed (String c t).
Proof. intros Hc Ht. by apply (trimmed_around "" c t). Qed.

Lemma ordinary_free t c : str_forallb ordinary t = true -> In c (list_ascii_of_string ",=<>[(") ->
  sep_free c t = true.
Proof.
  unfold sep_free. rewrite !str_forallb_list. intros H Hc a Ha.
  specialize (H a Ha). unfold ordinary in H. rewrite str_forallb_list in H. by apply H.
Qed.

Lemma starts_free c t : sep_free c t = true -> str_starts c t = false.
Proof. destruct t as [|a t]; [done |]. cbn. by intros [H%negb_true_iff _]%andb_true_iff. Qed.

Lemma no_equals t : str_forallb ordinary t = true -> str_strip_prefix "=" t = None.
Proof.
  intros Ho. pose proof (ordinary_free t "=" Ho ltac:(cbn; auto)) as H. destruct t as [|a t]; [done |].
  apply andb_true_iff in H as [H%negb_true_iff _]. rewrite Ascii.eqb_sym in H.
  change (str_strip_prefix "=" (String a t)) with (if Ascii.eqb "=" a then str_strip_prefix "" t else None).
  by rewrite H.
Qed.

Lemma parse_bound_sign sign kind t :
  plain t -> In (sign, kind) [(">=", Inclusive); ("<=", Inclusive); (">", Exclusive); ("<", Exclusive)] ->
  parse_bound (sign +:+ t) = (kind, Some t) /\ trimmed (sign +:+ t).
Proof.
  intros (Hne & Ht & Ho) Hin.
  pose proof (no_equals t Ho) as He.
  destruct Hin as [[= <- <-]|[[= <- <-]|[[= <- <-]|[[= <- <-]|[]]]]]; unfold parse_bound;
    cbn [str_strip_prefix append Ascii.eqb Bool.eqb andb] in *.
  - rewrite trim_id by done. split; [done |]. by apply trimmed_sign, trimmed_sign.
  - rewrite trim_id by done. split; [done |]. by apply trimmed_sign, trimmed_sign.
  - rewrite He, trim_id by done. split; [done |]. by apply trimmed_sign.
  - rewrite He, trim_id by done. split; [done |]. by apply trimmed_sign.
Qed.

Lemma sign_not_bare c x : c = ">"%char \/ c = "<"%char -> is_bare (String c x) = false.
Proof.
  intros [-> | ->]; unfold is_bare, str_contains; cbn [str_forallb Ascii.eqb Bool.eqb negb andb];
    by rewrite ?andb_false_r.
Qed.

(** A range that starts with a sign goes to the last two cases. *)
Lemma signed_range c x :
  c = ">"%char \/ c = "<"%char -> trimmed (String c x) ->
  pubgrub_range_to_maven (String c x)
  = match compound (String c x) with Some s => s | None => open_ended (String c x) end.
Proof.
  intros Hc Ht. unfold pubgrub_range_to_maven. rewrite trim_id by done. rewrite sign_not_bare by done.
  by destruct Hc as [-> | ->].
Qed.

Lemma no_comma s : sep_free "," s = true -> compound s = None.
Proof.
  intros H. unfold compound. destruct (str_split_once "," s) as [[x y]|] eqn:E; [| done].
  apply VersionSpec.split_once_parts in E as [-> _]. exfalso. revert H. unfold sep_free.
  induction x as [|a x IH]; cbn [append str_forallb]; [done |]. intros [_ H]%andb_true_iff. by apply IH.
Qed.

Lemma bare_range t : plain t -> pubgrub_range_to_maven t = "[" +:+ t +:+ "]".
Proof.
  intros (Hne & Ht & Ho). unfold pubgrub_range_to_maven. rewrite trim_id, Hne by done.
  rewrite !starts_free by (apply ordinary_free; [done | cbn; auto 10]).
  unfold is_bare. rewrite !str_contains_free, !ordinary_free by (done || cbn; auto 10). done.
Qed.

Lemma compound_range s1 k1 lo s2 k2 hi :
  In (s1, k1) [(">=", Inclusive); (">", Exclusive)] -> In (s2, k2) [("<=", Inclusive); ("<", Exclusive)] ->
  plain lo -> plain hi ->
  pubgrub_range_to_maven (s1 +:+ lo +:+ ", " +:+ (s2 +:+ hi))
  = bound_bracket k1 true +:+ lo +:+ "," +:+ hi +:+ bound_bracket k2 false.
Proof.
  intros H1 H2 Hlo Hhi.
  destruct (parse_bound_sign s1 k1 lo Hlo ltac:(cbn in *; tauto)) as [P1 T1].
  destruct (parse_bound_sign s2 k2 hi Hhi ltac:(cbn in *; tauto)) as [P2 T2].
  assert (Hsplit : compound (s1 +:+ lo +:+ ", " +:+ (s2 +:+ hi))
    = Some (bound_bracket k1 true +:+ lo +:+ "," +:+ hi +:+ bound_bracket k2 false)).
  { unfold compound. change (", " +:+ (s2 +:+ hi)) with (String "," (String " " (s2 +:+ hi))).
    rewrite <- str_app_assoc, split_once_free.
    - by rewrite (trim_id _ T1), P1, trim_space, P2.
    - destruct Hlo as (_ & _ & Ho). pose proof (ordinary_free lo "," Ho ltac:(cbn; auto)) as H.
      destruct H1 as [[= <- <-]|[[= <- <-]|[]]]; exact H. }
  assert (E1 : exists s1', s1 = String ">" s1').
  { destruct H1 as [[= <- <-]|[[= <- <-]|[]]]; by eexists. }
  assert (E2 : exists s2', s2 = String "<" s2' /\ trimmed (s2' +:+ hi)).
  { destruct Hhi as (_ & Th & _). destruct H2 as [[= <- <-]|[[= <- <-]|[]]]; eexists; (split; [done |]);
      [by apply trimmed_sign | done]. }
  destruct E1 as [s1' ->], E2 as (s2' & -> & Th). clear P1 T1 P2 T2 H1 H2.
  change (pubgrub_range_to_maven (String ">" (s1' +:+ lo +:+ ", " +:+ String "<" (s2' +:+ hi)))
    = bound_bracket k1 true +:+ lo +:+ "," +:+ hi +:+ bound_bracket k2 false).
  rewrite signed_range;
    [exact (f_equal (fun o => match o with Some s => s | None => open_ended _ end) Hsplit) | by left |].
  replace (s1' +:+ lo +:+ ", " +:+ String "<" (s2' +:+ hi))
    with ((s1' +:+ lo +:+ ", ") +:+ String "<" (s2' +:+ hi)) by by rewrite !str_app_assoc.
  by apply trimmed_hi.
Qed.

Lemma open_range t : plain t ->
  pubgrub_range_to_maven (">=" +:+ t) = "[" +:+ t +:+ ",)"
  /\ pubgrub_range_to_maven ("<=" +:+ t) = "(," +:+ t +:+ "]"
  /\ pubgrub_range_to_maven (">" +:+ t) = "(" +:+ t +:+ ",)"
  /\ pubgrub_range_to_maven ("<" +:+ t) = "(," +:+ t +:+ ")".
Proof.
  intros (Hne & Ht & Ho). pose proof (ordinary_free t "," Ho ltac:(cbn; auto)) as Hf.
  pose proof (no_equals t Ho) as He. cbn [append].
  split_and!; (rewrite signed_range; [| auto | repeat apply trimmed_sign; done]);
    rewrite no_comma by exact Hf; unfold open_ended;
    cbn [str_strip_prefix Ascii.eqb Bool.eqb andb] in He |- *; rewrite ?He, ?trim_id by done; done.
Qed.

(** The texts of a bound are plain. *)
Definition plain_bound (b : VersionSpec.Bound Version.Version) : Prop :=
  match b with
  | VersionSpec.Unbounded => True
  | VersionSpec.Included v | VersionSpec.Excluded v => plain (Version.original v)
  end.

(** The report speaks Maven: for every bounded interval of plain version
    texts, what the solver prints is rewritten into the canonical Maven text
    of the same interval, which the parser of requirements reads back. *)
Theorem maven_range iv :
  plain_bound (VersionSpec.lower iv) -> plain_bound (VersionSpec.upper iv) ->
  ~ (VersionSpec.lower iv = VersionSpec.Unbounded /\ VersionSpec.upper iv = VersionSpec.Unbounded) ->
  pubgrub_range_to_maven (segment_display iv) = VersionSpec.interval_to_string iv.
Proof.
  destruct iv as [lo hi]. unfold segment_display, VersionSpec.interval_to_string.
  cbn [VersionSpec.lower VersionSpec.upper].
  destruct lo as [|a|a], hi as [|b|b]; cbn [plain_bound VersionSpec.bound_text]; intros Ha Hb Hne;
    try (by destruct Hne);
    try (apply open_range in Ha as (? & ? & ? & ?); assumption);
    try (apply open_range in Hb as (? & ? & ? & ?); assumption).
  - destruct (Version.eq a b) eqn:E; [by apply bare_range |].
    exact (compound_range ">=" Inclusive _ "<=" Inclusive _ ltac:(cbn; auto) ltac:(cbn; auto) Ha Hb).
  - exact (compound_range ">=" Inclusive _ "<" Exclusive _ ltac:(cbn; auto) ltac:(cbn; auto) Ha Hb).
  - exact (compound_range ">" Exclusive _ "<=" Inclusive _ ltac:(cbn; auto) ltac:(cbn; auto) Ha Hb).
  - exact (compound_range ">" Exclusive _ "<" Exclusive _ ltac:(cbn; auto) ltac:(cbn; auto) Ha Hb).
Qed.

(** The full range and a union are not passed through: the former is taken
    for a version, of the latter the second half is kept inside the
    brackets. *)
Lemma range_text_garbled :
  pubgrub_range_to_maven "*" = "[*]" /\
  pubgrub_range_to_maven ">=1, <2 | >=3" = "[1,2 | >=3)".
Proof. split; vm_compute; reflexivity. Qed.

End StrictFormat.
