(* ===== verification/Lockfile.v ===== *)
(** * barista-lockfile: schema, validation modes and project signature

    Models crates/barista-lockfile/src/schema.rs (records, version check,
    timestamps), mode.rs and signature.rs.  The TOML reader and bincode are
    parameters; [LockStore] reads and writes the file. *)

From S2P Require Import Prelude Pom Cas Journal SortBy.
From stdpp Require Import pretty.

Module Lockfile.
Import Cas.

(** ** Schema *)

Definition LOCKFILE_SCHEMA_VERSION : Z := 1.

Record Meta := mkMeta {
  schema_version : Z;
  generated_by : string;
  generated_at : string;
  project_signature : string;
  settings_fingerprint : string
}.

Record ReactorEntry := mkReactorEntry { re_coords : string; re_version : string; relative_path : string }.

Record Exclusion := mkExclusion { ex_group : string; ex_artifact : string }.

Record LockfileEntry := mkEntry {
  coords : string;
  version : string;
  scope : string;
  optional : bool;
  sha256 : string;
  sha1 : option string;
  size_bytes : Z;
  source_url : string;
  etag : option string;
  last_modified : option string;
  classifier : option string;
  type_ : string;
  from_path : list string;
  depth : Z;
  snapshot_resolution : option string;
  exclusions : list Exclusion
}.

Record MirrorRef := mkMirror { mi_id : string; mi_url : string; mirror_of : string }.
Record RepositoryRef := mkRepository { rp_id : string; rp_url : string }.
Record SettingsSnapshot := mkSettings { mirrors : list MirrorRef; repositories : list RepositoryRef }.

Record Lockfile := mkLockfile {
  meta : Meta;
  reactor : list ReactorEntry;
  entries : list LockfileEntry;
  settings_snapshot : option SettingsSnapshot
}.

Inductive LockfileError : Type :=
  | TomlParse (detail : string)
  | TomlSerialize (detail : string)
  | Io (path source : string)
  | UnsupportedVersion (got expected : Z).

(** [toml::from_str]. *)
Definition from_toml (toml_from_str : string -> result string Lockfile) (s : string)
    : result LockfileError Lockfile :=
  lf ← map_err TomlParse (toml_from_str s);
  if negb (schema_version (meta lf) =? LOCKFILE_SCHEMA_VERSION)%Z
  then Err (UnsupportedVersion (schema_version (meta lf)) LOCKFILE_SCHEMA_VERSION)
  else Ok lf.

(** ** Timestamps *)

(** [{n:0w}]. *)
Definition pad (w : nat) (n : Z) : string :=
  let s := pretty n in String.concat "" (replicate (w - String.length s) "0") +:+ s.

Record DateTime := mkDateTime { year : Z; month : Z; day : Z; hour : Z; minute : Z; second : Z }.

(** The arithmetic of [epoch_to_rfc3339]; every intermediate value fits its
    type on the whole range of [u64]. *)
Definition civil (days : Z) : Z * Z * Z :=
  let z := (days + 719468)%Z in
  let era := (z / 146097)%Z in
  let doe := (z - era * 146097)%Z in
  let yoe := ((doe - doe / 1460 + doe / 36524 - doe / 146096) / 365)%Z in
  let y := (yoe + era * 400)%Z in
  let doy := (doe - (365 * yoe + yoe / 4 - yoe / 100))%Z in
  let mp := ((5 * doy + 2) / 153)%Z in
  let d := (doy - (153 * mp + 2) / 5 + 1)%Z in
  let m := (if mp <? 10 then mp + 3 else mp - 9)%Z in
  ((if (m <=? 2)%Z then (y + 1)%Z else y), m, d).

Definition date_time (secs : Z) : DateTime :=
  let days := (secs / 86400)%Z in
  let secs_of_day := (secs mod 86400)%Z in
  let '(y, m, d) := civil days in
  mkDateTime y m d (secs_of_day / 3600) (secs_of_day mod 3600 / 60) (secs_of_day mod 60).

Definition render_rfc3339 (t : DateTime) : string :=
  pad 4 (year t) +:+ "-" +:+ pad 2 (month t) +:+ "-" +:+ pad 2 (day t) +:+ "T"
  +:+ pad 2 (hour t) +:+ ":" +:+ pad 2 (minute t) +:+ ":" +:+ pad 2 (second t) +:+ "Z".

Definition epoch_to_rfc3339 (secs : Z) : string := render_rfc3339 (date_time secs).

(** [Lockfile::new]; the clock (the seconds of [SystemTime::now]) and the
    crate version are arguments. *)
Definition new (pkg_version : string) (now_secs : Z) (signature fingerprint : string) : Lockfile :=
  mkLockfile (mkMeta LOCKFILE_SCHEMA_VERSION ("barista " +:+ pkg_version) (epoch_to_rfc3339 now_secs)
                signature fingerprint) [] [] None.

(** ** Validation modes *)

Inductive ValidationMode : Type := Default | Frozen | Update.

Inductive ValidationOutcome : Type :=
  | Authoritative
  | StaleLock (on_disk_signature computed_signature : string)
  | Missing.

Inductive ValidationError : Type :=
  | StaleError (on_disk_signature computed_signature : string).

Definition validate (mode : ValidationMode) (on_disk : option Lockfile) (computed_signature : string)
    : ValidationOutcome :=
  match mode, on_disk with
  | Update, _ => Missing
  | _, None => Missing
  | _, Some lf =>
      if String.eqb (project_signature (meta lf)) computed_signature then Authoritative
      else StaleLock (project_signature (meta lf)) computed_signature
  end.

Definition validate_strict (mode : ValidationMode) (on_disk : option Lockfile)
    (computed_signature : string) : result ValidationError ValidationOutcome :=
  let outcome := validate mode on_disk computed_signature in
  match mode, outcome with
  | Frozen, StaleLock on_disk_signature computed_signature =>
      Err (StaleError on_disk_signature computed_signature)
  | _, _ => Ok outcome
  end.

(** ** Project signature *)

Inductive SignatureError : Type := Encode (detail : string).

Record ReactorModule := mkModule { group_id : string; artifact_id : string; pom : Pom.RawPom }.

Definition sort_key (m : ReactorModule) : string := group_id m +:+ ":" +:+ artifact_id m.

Section Signature.
Context `{Cas.Digest} (encode_to_vec : Pom.RawPom -> result string Bytes).

(** The bytes fed to the hasher, module by module. *)
Fixpoint hasher_input (sorted : list ReactorModule) : result SignatureError Bytes :=
  match sorted with
  | [] => Ok []
  | m :: sorted' =>
      bytes ← map_err Encode (encode_to_vec (pom m));
      rest ← hasher_input sorted';
      Ok (Journal.to_le_bytes (Z.of_nat (length bytes) mod (U32_MAX + 1)) ++ bytes ++ rest)
  end.

(** [hex]: the code has its own copy of the table of [to_hex]. *)
Definition compute_signature (modules : list ReactorModule) : result SignatureError string :=
  input ← hasher_input (SortBy.sort_by_key sort_key modules);
  Ok (encode_hex (hash_bytes (Cas.sha256 input))).

End Signature.
End Lockfile.
