(* ===== verification/LockStore.v ===== *)
(** * barista-lockfile: the file on disk

    Models [read], [to_toml] and [write] of
    crates/barista-lockfile/src/schema.rs.  A write is a sequence of calls of
    std::fs, each of which may fail; the process may stop before any of them,
    or in the middle of the transfer.  The TOML reader and printer are
    parameters. *)

From S2P Require Import Prelude Pom Cas Journal SortBy Lockfile Effective Profile Source Xml Settings.
From S2P Require Import Config Loader.

Module LockStore.
Import Lockfile.

(** The text files of a directory tree. *)
Abbreviation Files := (gmap string string).

(** [toml::from_str] and [toml::to_string_pretty]. *)
Record Toml := mkToml {
  from_str : string -> result string Lockfile;
  to_string_pretty : Lockfile -> result string string
}.

(** The documented law of the pair: what is printed is read back. *)
Definition toml_law (t : Toml) : Prop :=
  forall lf s, to_string_pretty t lf = Ok s -> from_str t s = Ok lf.

(** Which calls fail, with the text of their error. *)
Record LockIo := mkLockIo {
  read_error : string -> option string;
  create_error : string -> option string;
  write_error : string -> option (string * nat);
  sync_error : string -> option string;
  rename_error : string -> option string
}.

Section Store.
Variable toml : Toml.
Variable io : LockIo.

Definition to_toml (lf : Lockfile) : result LockfileError string :=
  map_err TomlSerialize (to_string_pretty toml lf).

(** [Lockfile::read]. *)
Definition read (p : string) (fs : Files) : result LockfileError Lockfile :=
  match read_error io p, fs !! p with
  | Some e, _ => Err (Io p e)
  | None, None => Err (Io p "not found")
  | None, Some s => from_toml (from_str toml) s
  end.

(** ** The calls of [write] *)

Inductive Op : Type :=
  | Create (p : string)
  | WriteAll (p s : string)
  | SyncAll (p : string)
  | Rename (p q : string).

(** A call, and what it leaves when it fails. *)
Definition call (o : Op) (fs : Files) : result LockfileError unit * Files :=
  match o with
  | Create p =>
      match create_error io p with
      | Some e => (Err (Io p e), fs)
      | None => (Ok tt, <[p := ""]> fs)
      end
  | WriteAll p s =>
      match write_error io p with
      | Some (e, n) => (Err (Io p e), <[p := str_take n s]> fs)
      | None => (Ok tt, <[p := s]> fs)
      end
  | SyncAll p =>
      match sync_error io p with
      | Some e => (Err (Io p e), fs)
      | None => (Ok tt, fs)
      end
  | Rename p q =>
      match rename_error io q, fs !! p with
      | Some e, _ => (Err (Io q e), fs)
      | None, None => (Err (Io q "not found"), fs)
      | None, Some s => (Ok tt, <[q := s]> (delete p fs))
      end
  end.

Fixpoint calls (ops : list Op) (fs : Files) : result LockfileError unit * Files :=
  match ops with
  | [] => (Ok tt, fs)
  | o :: ops' =>
      match call o fs with
      | (Ok _, fs') => calls ops' fs'
      | (Err e, fs') => (Err e, fs')
      end
  end.

(** [Path::file_name]: the last component, unless it is [..]. *)
Definition file_name (p : string) : option string :=
  let l := list_ascii_of_string p in
  match Path.trimmed_body (drop (Path.len_before_body l) l) with
  | [] => None
  | t => let seg := (Path.split_last t).2 in
         if bool_decide (seg = [".";"."]%char) then None else Some (string_of_list_ascii seg)
  end.

(** The sibling that is written first; the nonce is the process id and the
    clock. *)
Definition tmp_path (p nonce : string) : string :=
  Profile.join (default "." (Path.parent p))
    ("." +:+ default "barista.lock" (file_name p) +:+ ".tmp-" +:+ nonce).

Definition write_ops (p nonce s : string) : list Op :=
  let tmp := tmp_path p nonce in [Create tmp; WriteAll tmp s; SyncAll tmp; Rename tmp p].

Definition write (lf : Lockfile) (p nonce : string) (fs : Files) : result LockfileError unit * Files :=
  match to_toml lf with
  | Err e => (Err e, fs)
  | Ok s => calls (write_ops p nonce s) fs
  end.

(** ** The write is atomic *)

(** The files a process can leave: it stops before a call or in the middle of
    the transfer, or a call fails. *)
Inductive stops : list Op -> Files -> Files -> Prop :=
  | stop_here ops fs : stops ops fs fs
  | stop_transfer p s n ops fs : stops (WriteAll p s :: ops) fs (<[p := str_take n s]> fs)
  | stop_call o ops fs e fs' : call o fs = (Err e, fs') -> stops (o :: ops) fs fs'
  | stop_later o ops fs fs1 fs' : call o fs = (Ok tt, fs1) -> stops ops fs1 fs' -> stops (o :: ops) fs fs'.

Lemma calls_stop ops : forall fs r fs', calls ops fs = (r, fs') -> stops ops fs fs'.
Proof.
  induction ops as [|o ops IH]; intros fs r fs' H; cbn in H; [injection H as <- <-; constructor |].
  destruct (call o fs) as [[[]|e] fs1] eqn:Ho.
  - by eapply stop_later; [| eapply IH].
  - injection H as <- <-. by eapply stop_call.
Qed.

(** The temporary file is another file. *)
Definition sibling (p nonce : string) : Prop := tmp_path p nonce <> p.

(** The calls before the rename touch the temporary file only. *)
Definition only (tmp : string) (o : Op) : Prop :=
  match o with
  | Create p | WriteAll p _ | SyncAll p => p = tmp
  | Rename _ _ => False
  end.

Lemma call_only tmp o fs r fs' q :
  only tmp o -> call o fs = (r, fs') -> q <> tmp -> fs' !! q = fs !! q.
Proof.
  intros Ho H Hq. destruct o; cbn in Ho; subst; cbn in H; try done;
    repeat case_match; injection H as <- <-; simplify_map_eq; done.
Qed.

(** A stop before the last call, or at it with what was written. *)
Lemma stops_only tmp ops last fs fs' :
  Forall (only tmp) ops -> stops (ops ++ [last]) fs fs' ->
  (forall q, q <> tmp -> fs' !! q = fs !! q) \/
  exists fs1, calls ops fs = (Ok tt, fs1) /\ (forall q, q <> tmp -> fs1 !! q = fs !! q) /\ stops [last] fs1 fs'.
Proof.
  intros Ho. revert fs. induction Ho as [|o ops Ho Hs IH]; intros fs H.
  { right. exists fs. by cbn. }
  cbn [app] in H. inversion H; subst.
  - by left.
  - cbn in Ho. subst. left. intros q Hq. by simplify_map_eq.
  - left. intros q Hq. by eapply call_only.
  - assert (Hc : forall q, q <> tmp -> fs1 !! q = fs !! q) by (intros q Hq; by eapply call_only).
    destruct (IH fs1 ltac:(done)) as [Hl|(fs2 & E2 & E3 & E4)].
    + left. intros q Hq. by rewrite Hl, Hc.
    + right. exists fs2. split_and!; [| | done].
      { cbn. match goal with Hk : call o fs = _ |- _ => by rewrite Hk end. }
      intros q Hq. by rewrite E3, Hc.
Qed.

Lemma written tmp s fs fs1 :
  calls [Create tmp; WriteAll tmp s; SyncAll tmp] fs = (Ok tt, fs1) -> fs1 !! tmp = Some s.
Proof. cbn. repeat case_match; intros [= <-]; simplify_eq; by simplify_map_eq. Qed.

(** Wherever the process stops, the file has its old or its new text, and no
    file changes but it and the temporary one. *)
Lemma write_stop p nonce s fs fs' :
  sibling p nonce -> stops (write_ops p nonce s) fs fs' ->
  (fs' !! p = fs !! p \/ fs' !! p = Some s) /\
  forall q, q <> p -> q <> tmp_path p nonce -> fs' !! q = fs !! q.
Proof.
  unfold sibling, write_ops. generalize (tmp_path p nonce) as tmp. cbn zeta. intros tmp Hne H.
  apply (stops_only tmp [Create tmp; WriteAll tmp s; SyncAll tmp]) in H as [H|(fs1 & H1 & H2 & H3)].
  - split; [left; by apply H | intros q _ Hq; by apply H].
  - apply written in H1. inversion H3 as [| |? ? ? e ? Hc|? ? ? fs2 ? Hc Hl]; subst;
      [split; [left; by apply H2 | intros q _ Hq; by apply H2] | | ];
      cbn in Hc; rewrite H1 in Hc; destruct (rename_error io p); simplify_eq.
    + split; [left; by apply H2 | intros q _ Hq; by apply H2].
    + inversion Hl; subst. split; [right; by simplify_map_eq |].
      intros q Hq Hq'. simplify_map_eq. by apply H2.
  - repeat constructor.
Qed.

Lemma calls_app a b : forall fs,
  calls (a ++ b) fs = match calls a fs with (Ok _, fs1) => calls b fs1 | (Err e, fs1) => (Err e, fs1) end.
Proof.
  induction a as [|o a IH]; intros fs; cbn; [done |]. destruct (call o fs) as [[[]|e] fs1]; [apply IH | done].
Qed.

Lemma calls_only tmp ops : forall fs r fs' q,
  Forall (only tmp) ops -> calls ops fs = (r, fs') -> q <> tmp -> fs' !! q = fs !! q.
Proof.
  induction ops as [|o ops IH]; intros fs r fs' q Ho H Hq; cbn in H; [by injection H as <- <- |].
  apply list.Forall_cons in Ho as [Ho Hs]. destruct (call o fs) as [[[]|e] fs1] eqn:Hc.
  - rewrite (IH _ _ _ _ Hs H Hq). by eapply call_only.
  - injection H as <- <-. by eapply call_only.
Qed.

(** What [write] leaves: the new text, or the old one with an error. *)
Lemma write_result lf p nonce fs r fs' :
  write lf p nonce fs = (r, fs') ->
  match r with
  | Ok _ => exists s, to_string_pretty toml lf = Ok s /\ fs' !! p = Some s
  | Err _ => sibling p nonce -> fs' !! p = fs !! p
  end.
Proof.
  unfold write, to_toml. destruct (to_string_pretty toml lf) as [s|e]; cbn [map_err]; [| by intros [= <- <-]].
  unfold write_ops, sibling. generalize (tmp_path p nonce) as tmp. cbn zeta. intros tmp H.
  change [Create tmp; WriteAll tmp s; SyncAll tmp; Rename tmp p]
    with ([Create tmp; WriteAll tmp s; SyncAll tmp] ++ [Rename tmp p]) in H.
  rewrite calls_app in H. destruct (calls _ fs) as [r1 fs1] eqn:H1.
  assert (Ho : forall q, q <> tmp -> fs1 !! q = fs !! q)
    by (intros q; eapply calls_only; [| exact H1]; repeat constructor).
  destruct r1 as [[]|e]; [| injection H as <- <-; intros Hne; by apply Ho].
  apply written in H1. cbn in H. rewrite H1 in H.
  destruct (rename_error io p); injection H as <- <-; [intros Hne; by apply Ho |].
  exists s. by simplify_map_eq.
Qed.

Lemma write_read lf p nonce fs fs' :
  toml_law toml -> schema_version (meta lf) = LOCKFILE_SCHEMA_VERSION ->
  read_error io p = None -> write lf p nonce fs = (Ok tt, fs') -> read p fs' = Ok lf.
Proof.
  intros Ht Hv Hr (s & Hs & Hp)%write_result. unfold read. rewrite Hr, Hp. unfold from_toml.
  rewrite (Ht lf s Hs). cbn. by rewrite Hv.
Qed.

End Store.
End LockStore.
