(* ===== verification/Pull.v ===== *)
(** * barista-cli: pull

    Models crates/barista-cli/src/cmd/pull.rs: the command that loads the
    configuration, resolves the dependencies of a project, fetches every
    artifact into the cache, links it into the Maven mirror and writes
    barista.lock.

    The [State] is what outlives the command: the cache, the mirror, the
    files of the project, the directories made and the events reported.  The
    calls of std, the HTTP client, TOML and bincode are the record [Host].
    While a project is resolved, [resolve_pom] and [walk] ask the cache
    source; a [Session] is what it answers them and what their requests do to
    the cache.  The outer [None] of a result is fuel exhaustion. *)

From stdpp Require Import pretty.
From S2P Require Import Prelude Version Coords VersionSpec Pom Xml PomXml Effective Profile Source Skipper.
From S2P Require Import Oreq Walker Cas Journal Index MetadataXml Fetch CacheSource Settings Config Loader.
From S2P Require Import LoaderFacts Project M2 SortBy Lockfile LockStore.

Module Pull.
Import Coords Cas Journal Source Fetch CacheSource.

Abbreviation path := Config.path.

(** ** Arguments and reports *)

Inductive ScopeArg : Type := SCompile | SRuntime | STest | SProvided | SSystem.

(** The flags that the command reads. *)
Record PullArgs := mkArgs { update : bool; scope : ScopeArg; no_fetch : bool }.

Record GlobalFlags := mkGlobal { g_root : option path; g_file : option path; strict : bool; frozen : bool }.

Inductive LockfileStatus : Type := Absent | Unchanged | Written | WouldWrite.

Record PullReport := mkReport {
  project_root : path;
  lockfile_status : LockfileStatus;
  r_entries : nat;
  fetched : nat;
  r_signature : option string;
  r_coords : option string;
  r_no_fetch : bool;
  r_strict : bool
}.

(** The calls of the progress sink, and the warning on stderr. *)
Inductive Event : Type :=
  | Started (phase : string)
  | Resolving (coord : string)
  | Fetching (coord : string)
  | Fetched (coord : string)
  | CachedEvent (coord : string)
  | WritingLockfile
  | Completed (phase : string)
  | Flushed
  | TornTail (offset : nat).

(** ** Errors; a [detail] is carried as its cause *)

Inductive ArtifactFetchError : Type :=
  | AFetch (e : FetchError)
  | UnexpectedNotModified (url : string)
  | AChecksum (url : string) (e : ChecksumError)
  | ACas (detail : string)
  | AIndex (e : Index.IndexError).

Inductive PullError : Type :=
  | Project (e : Project.ResolveError)
  | Config (e : Loader.LoaderError)
  | Io (p : path) (detail : string)
  | PomParse (e : PomXml.ParseError)
  | PomResolve (e : Profile.ResolveError)
  | LockfileErr (e : Lockfile.LockfileError)
  | CacheOpen (p : path) (detail : string)
  | IndexOpen (p : path) (e : Index.IndexError)
  | FetcherErr (detail : string)
  | Runtime (detail : string)
  | SignatureErr (e : Lockfile.SignatureError)
  | Resolve (e : Walker.WalkError)
  | FetchArtifact (coord : string) (e : ArtifactFetchError)
  | CasMaterialize (coord : string) (e : CasError + M2.MirrorError)
  | FrozenSignatureMismatch (on_disk computed : string)
  | Panic.

(** ** State *)

Record State := mkState {
  world : World;
  mirror : gmap string M2.File;
  texts : LockStore.Files;
  dirs : gset string;
  events : list Event
}.

Record Host := mkHost {
  create_dir_all : path -> option string;
  cas_open : path -> option string;
  put_object : Bytes -> option string;
  fetcher_new : Z -> bool -> FetchConfig -> option string;
  runtime_new : option string;
  client : Http;
  clock : Z;
  nonce : string;
  volume : M2.Volume;
  lock_io : LockStore.LockIo;
  toml : LockStore.Toml;
  encode_to_vec : Pom.RawPom -> result string Bytes;
  pkg_version : string
}.

Record Session := mkSession {
  source : MetadataSource;
  settle_root : World -> World;
  settle_walk : World -> World
}.

(** ** The monad *)

Definition P (A : Type) : Type := State -> option (result PullError A * State).

#[export] Instance P_ret : MRet P := fun A a s => Some (Ok a, s).
#[export] Instance P_bind : MBind P := fun A B k m s =>
  match m s with
  | None => None
  | Some (Ok a, s') => k a s'
  | Some (Err e, s') => Some (Err e, s')
  end.

Definition lift {A} (r : result PullError A) : P A := fun s => Some (r, s).
Definition need {A} (o : option A) : P A := fun s => match o with Some a => Some (Ok a, s) | None => None end.
Definition stop_on {E} (err : E -> PullError) (o : option E) : P unit :=
  match o with Some e => lift (Err (err e)) | None => mret tt end.
Definition emit (e : Event) : P unit := fun s =>
  Some (Ok tt, mkState (world s) (mirror s) (texts s) (dirs s) (events s ++ [e])).

Definition modify (f : State -> State) : P unit := fun s => Some (Ok tt, f s).

Definition make_dir (d : path) (s : State) : State :=
  mkState (world s) (mirror s) (texts s) ({[d]} ∪ dirs s) (events s).
Definition with_world (w : World) (s : State) : State :=
  mkState w (mirror s) (texts s) (dirs s) (events s).
Definition with_texts (t : LockStore.Files) (s : State) : State :=
  mkState (world s) (mirror s) t (dirs s) (events s).
Definition with_disk (d : M2.Disk) (s : State) : State :=
  mkState (with_store (M2.store d) (world s)) (M2.files d) (texts s) (dirs s) (events s).
Definition disk_of (s : State) : M2.Disk := M2.mkDisk (store (world s)) (mirror s).

(** ** Texts *)

(** [pom_coords_for_summary]. *)
Definition pom_coords_for_summary (p : Pom.RawPom) : string :=
  let g := default "<no-group>" (Effective.or_else (Pom.group_id p) (Pom.par_group_id <$> Pom.parent p)) in
  let v := default "<no-version>" (Effective.or_else (Pom.version p) (Pom.par_version <$> Pom.parent p)) in
  g +:+ ":" +:+ Pom.artifact_id p +:+ ":" +:+ v.

(** [short_sig]; [None] is the panic of a slice inside a character. *)
Definition short_sig (sig : string) : option string :=
  if 12 <? String.length sig then
    if Snapshot.is_char_boundary sig 12 then Some (str_take 12 sig +:+ "…") else None
  else Some sig.

Definition scope_filter (s : ScopeArg) : list Walker.Scope :=
  [match s with
   | SCompile => Walker.Compile
   | SRuntime => Walker.Runtime
   | STest => Walker.Test
   | SProvided => Walker.Provided
   | SSystem => Walker.System
   end].

Definition format_coord (e : Lockfile.LockfileEntry) : string :=
  match Lockfile.classifier e with
  | Some c => Lockfile.coords e +:+ ":" +:+ Lockfile.version e +:+ ":" +:+ c +:+ ":" +:+ Lockfile.type_ e
  | None => Lockfile.coords e +:+ ":" +:+ Lockfile.version e
  end.

Definition scope_to_str (s : Walker.Scope) : string :=
  match s with
  | Walker.Compile => "compile"
  | Walker.Provided => "provided"
  | Walker.Runtime => "runtime"
  | Walker.Test => "test"
  | Walker.System => "system"
  | Walker.Import => "import"
  end.

(** ** The marker of the reactor root *)

(** [str::find] of a string: the offset of its first occurrence. *)
Fixpoint str_find (pat s : string) : option nat :=
  match str_strip_prefix pat s with
  | Some _ => Some 0
  | None => match s with
            | EmptyString => None
            | String _ s' => S <$> str_find pat s'
            end
  end.

Definition trim_start (s : string) : string :=
  let l := list_ascii_of_string s in string_of_list_ascii (strip_ws ws_len (length l) l).

Definition str_prefix (pat s : string) : bool :=
  match str_strip_prefix pat s with Some _ => true | None => false end.

(** A value in either kind of quotes. *)
Definition quoted_true (val : string) : bool :=
  str_prefix (String "034" ("true" +:+ String "034" "")) val || str_prefix "'true'" val.

Definition preceded_ok (tag : string) (abs : nat) : bool :=
  let before := rev (list_ascii_of_string (str_take abs tag)) in
  (abs =? 0) || negb (ws_len_rev before =? 0) || match before with a :: _ => Ascii.eqb a "<" | [] => false end.

Fixpoint attr_loop (fuel : nat) (tag : string) (search_from : nat) : option bool :=
  match fuel with
  | O => None
  | S fuel' =>
      match str_find "root" (str_drop search_from tag) with
      | None => Some false
      | Some idx =>
          let abs := search_from + idx in
          let after := trim_start (str_drop (abs + 4) tag) in
          let found := match str_strip_prefix "=" after with
                       | Some eq_rest => quoted_true (trim_start eq_rest)
                       | None => false
                       end in
          if preceded_ok tag abs && found then Some true else attr_loop fuel' tag (abs + 4)
      end
  end.

Definition attr_root_is_true (tag : string) : option bool := attr_loop (S (String.length tag)) tag 0.

Definition pom_declares_root_true (pom_text : string) : option bool :=
  match str_find "<project" pom_text with
  | None => Some false
  | Some start =>
      let rest := str_drop start pom_text in
      let tag_end := match str_find ">" rest with Some i => i + 1 | None => String.length rest end in
      attr_root_is_true (str_take tag_end rest)
  end.

(** ** The command *)

Section Pull.
Context `{D : Digest} `{S1 : Sha1} `{C : Codec} `{CF : CaseFolding} `{Q : Xml.QuickXml}.
Context `{Env : Environment} `{FS : FileSystem} `{R : Loader.ConfigReader} `{PF : Project.ProjectFiles}.
Variable host : Host.
Variable session : Session.

Definition ensure_root_marker (project_root : path) (pom_text : string) : P unit :=
  declared ← need (pom_declares_root_true pom_text);
  if declared : bool then mret tt
  else
    let mvn_dir := Profile.join project_root ".mvn" in
    _ ← stop_on (Io mvn_dir) (create_dir_all host mvn_dir);
    modify (make_dir mvn_dir).

(** *** The parents of the root *)

(** [{e}] of the two errors that the resolver of parents reports. *)
Definition coords_error (e : ParseError) : string :=
  match e with
  | Empty => "coordinate string is empty"
  | TooFewComponents n => "expected at least 2 components, got " +:+ pretty n
  | TooManyComponents n => "expected at most 5 components, got " +:+ pretty n
  | EmptyComponent field => "component " +:+ String "034" (field +:+ String "034" "") +:+ " is empty"
  end.

Definition metadata_error (e : MetadataError) : string :=
  match e with
  | NotFound coords version => "artifact " +:+ coords +:+ " version " +:+ version +:+ " not found"
  | MetadataNotFound coords => "metadata for " +:+ coords +:+ " not found (no versions known)"
  | Transport coords version detail =>
      "transport error fetching " +:+ coords +:+ ":" +:+ version +:+ ": " +:+ detail
  | Parse what coords version detail =>
      "parse error in " +:+ what +:+ " for " +:+ coords +:+ ":" +:+ version +:+ ": " +:+ detail
  | AuthRequired coords version => "authentication required for " +:+ coords +:+ ":" +:+ version
  | Offline coords version => "the source is offline and " +:+ coords +:+ ":" +:+ version +:+ " is not cached"
  end.

(** [CacheSourceParentResolver::resolve]. *)
Definition parent_resolver : Effective.ParentResolver := fun parent =>
  c ← map_err (fun e => "invalid parent coords: " +:+ coords_error e)
        (Coords.new (Pom.par_group_id parent) (Pom.par_artifact_id parent));
  match @Source.fetch_pom (source session) c (Pom.par_version parent) with
  | Ok (pom, _) => Ok pom
  | Err e => Err ("failed to fetch parent " +:+ Pom.par_group_id parent +:+ ":" +:+ Pom.par_artifact_id parent
                  +:+ ":" +:+ Pom.par_version parent +:+ ": " +:+ metadata_error e)
  end.

Definition resolve_root (raw : Pom.RawPom) : P Profile.ResolvedPom := fun s =>
  Some (map_err PomResolve (Profile.resolve_pom raw parent_resolver Profile.ActivationContext_default),
        with_world (settle_root session (world s)) s).

Definition walk_graph (fuel : nat) (root : Profile.ResolvedPom) (args : PullArgs)
    : P Walker.ResolvedGraph := fun s =>
  let opts := Walker.mkOptions true (scope_filter (scope args)) Profile.ActivationContext_default true "default" in
  '(r, _) ← @Walker.walk CF Env FS (source session) opts fuel root None;
  Some (map_err Resolve r, with_world (settle_walk session (world s)) s).

(** *** Artifacts *)

Inductive FetchSource : Type := FromCache | FromRemote.

Record FetchedArtifact := mkFetched {
  f_sha256 : ContentHash;
  f_sha1 : option string;
  f_size_bytes : Z;
  f_source_url : string;
  f_etag : option string;
  f_last_modified : option string;
  f_source : FetchSource
}.

Definition of_row (e : IndexEntry) : FetchedArtifact :=
  mkFetched (hash e) (sha1_hex e) (size_bytes e) (repository_url (origin e)) (etag (origin e))
    (last_modified (origin e)) FromCache.

Definition requested (urls : list string) (w : World) : World :=
  mkWorld (store w) (index w) (outcomes w) (pushes w) (requests w ++ urls).

(** The three requests, the check, the store and the row. *)
Definition fetch_missing (fc : FetchConfig) (c : Coords) (version type_ : string)
    (classifier : option string) (key : IndexKey) (w : World)
    : result ArtifactFetchError FetchedArtifact * World :=
  let url := url_for_artifact fc None (group c) (artifact c) version classifier type_ in
  let get u := fetch (client host) fc u no_conditions in
  let w := requested [url; url_for_sidecar url "sha256"; url_for_sidecar url "sha1"] w in
  match get url with
  | Err e => (Err (AFetch e), w)
  | Ok NotModified => (Err (UnexpectedNotModified url), w)
  | Ok (Fresh bytes etag last_modified _) =>
      match verify bytes (sidecar_text (get (url_for_sidecar url "sha256")))
              (sidecar_text (get (url_for_sidecar url "sha1"))) with
      | Err e => (Err (AChecksum url e), w)
      | Ok v =>
          match (if contains (sha256 bytes) (store w) then None else put_object host bytes) with
          | Some detail => (Err (ACas detail), w)
          | None =>
              let '(h, st) := Cas.put bytes (store w) in
              let w := with_store st w in
              let entry := mkIndexEntry h (Z.of_nat (length bytes)) (sha1_of v)
                             (mkOrigin url etag last_modified None Upstream) (clock host) (clock host) in
              match Index.put key entry (index w) with
              | (Err e, ix) => (Err (AIndex e), with_index ix w)
              | (Ok _, ix) =>
                  (Ok (mkFetched h (sha1_of v) (Z.of_nat (length bytes)) url etag last_modified FromRemote),
                   with_index ix w)
              end
          end
      end
  end.

Definition fetch_artifact_to_cache (fc : FetchConfig) (c : Coords) (version type_ : string)
    (classifier : option string) (w : World) : result ArtifactFetchError FetchedArtifact * World :=
  let key := mkKey c version type_ classifier in
  match Index.get key (index w) with
  | Some entry =>
      if contains (hash entry) (store w) then (Ok (of_row entry), w)
      else fetch_missing fc c version type_ classifier key w
  | None => fetch_missing fc c version type_ classifier key w
  end.

Definition build_lockfile_entry (dep : Walker.ResolvedDep) (f : FetchedArtifact) : Lockfile.LockfileEntry :=
  Lockfile.mkEntry (ga (Walker.coords dep)) (Walker.version dep) (scope_to_str (Walker.scope dep))
    (Walker.optional dep) (to_hex (f_sha256 f)) (f_sha1 f) (f_size_bytes f) (f_source_url f) (f_etag f)
    (f_last_modified f) (Walker.classifier dep) (Walker.type_ dep) (ga <$> Walker.winning_path dep)
    (Walker.depth dep) None [].

Definition coord_display (dep : Walker.ResolvedDep) : string :=
  ga (Walker.coords dep) +:+ ":" +:+ Walker.version dep.

Definition fetch_one (fc : FetchConfig) (dep : Walker.ResolvedDep) : P FetchedArtifact := fun s =>
  let '(r, w) := fetch_artifact_to_cache fc (Walker.coords dep) (Walker.version dep) (Walker.type_ dep)
                   (Walker.classifier dep) (world s) in
  Some (map_err (FetchArtifact (coord_display dep)) r, with_world w s).

(** The loop over the graph: the entries and how many were downloaded. *)
Fixpoint fetch_all (fc : FetchConfig) (deps : list Walker.ResolvedDep)
    : P (list Lockfile.LockfileEntry * nat) :=
  match deps with
  | [] => mret ([], 0)
  | dep :: deps' =>
      _ ← emit (Fetching (coord_display dep));
      outcome ← fetch_one fc dep;
      _ ← emit (match f_source outcome with
                | FromRemote => Fetched (coord_display dep)
                | FromCache => CachedEvent (coord_display dep)
                end);
      '(entries, n) ← fetch_all fc deps';
      mret (build_lockfile_entry dep outcome :: entries,
            match f_source outcome with FromRemote => S n | FromCache => n end)
  end.

(** *** The mirror *)

Definition materialize_one (m2_root : path) (dep : Walker.ResolvedDep) (entry : Lockfile.LockfileEntry)
    : P unit := fun s =>
  match from_hex (Lockfile.sha256 entry) with
  | Err e => Some (Err (CasMaterialize (format_coord entry) (inl e)), s)
  | Ok h =>
      match M2.materialize (volume host) h m2_root (Walker.coords dep) (Walker.version dep)
              (Walker.classifier dep) (Walker.type_ dep) (disk_of s) with
      | (Ok _, d) => Some (Ok tt, with_disk d s)
      | (Err e, d) => Some (Err (CasMaterialize (format_coord entry) (inr e)), with_disk d s)
      end
  end.

Fixpoint materialize_all (m2_root : path) (deps : list Walker.ResolvedDep)
    (entries : list Lockfile.LockfileEntry) : P unit :=
  match deps, entries with
  | dep :: deps', entry :: entries' =>
      _ ← materialize_one m2_root dep entry; materialize_all m2_root deps' entries'
  | _, _ => mret tt
  end.

(** *** The lockfile *)

(** The hash of no bytes. *)
Definition settings_fingerprint (config : Config.Config) : string := to_hex (sha256 []).

#[local] Instance ReactorEntry_eq_dec : EqDecision Lockfile.ReactorEntry.
Proof. solve_decision. Defined.
#[local] Instance Exclusion_eq_dec : EqDecision Lockfile.Exclusion.
Proof. solve_decision. Defined.
#[local] Instance LockfileEntry_eq_dec : EqDecision Lockfile.LockfileEntry.
Proof. solve_decision. Defined.
#[local] Instance MirrorRef_eq_dec : EqDecision Lockfile.MirrorRef.
Proof. solve_decision. Defined.
#[local] Instance RepositoryRef_eq_dec : EqDecision Lockfile.RepositoryRef.
Proof. solve_decision. Defined.
#[local] Instance SettingsSnapshot_eq_dec : EqDecision Lockfile.SettingsSnapshot.
Proof. solve_decision. Defined.

Definition lockfiles_equal_ignoring_timestamp (a b : Lockfile.Lockfile) : bool :=
  let ma := Lockfile.meta a in let mb := Lockfile.meta b in
  if negb (Lockfile.schema_version ma =? Lockfile.schema_version mb)%Z
     || negb (String.eqb (Lockfile.project_signature ma) (Lockfile.project_signature mb))
     || negb (String.eqb (Lockfile.settings_fingerprint ma) (Lockfile.settings_fingerprint mb))
  then false
  else bool_decide (Lockfile.reactor a = Lockfile.reactor b)
       && bool_decide (Lockfile.entries a = Lockfile.entries b)
       && bool_decide (Lockfile.settings_snapshot a = Lockfile.settings_snapshot b).

Definition lock_path (project_root : path) : path := Profile.join project_root "barista.lock".

(** The lockfile, when there is one. *)
Definition read_on_disk (p : path) : P (option Lockfile.Lockfile) := fun s =>
  match texts s !! p with
  | None => Some (Ok None, s)
  | Some _ => Some (map_err LockfileErr (Some <$> LockStore.read (toml host) (lock_io host) p (texts s)), s)
  end.

Definition write_lock (lf : Lockfile.Lockfile) (p : path) : P unit := fun s =>
  let '(r, t) := LockStore.write (toml host) (lock_io host) lf p (nonce host) (texts s) in
  Some (map_err LockfileErr r, with_texts t s).

Definition root_group (pom : Pom.RawPom) : string :=
  default "" (Effective.or_else (Pom.group_id pom) (Pom.par_group_id <$> Pom.parent pom)).

Definition signature_of (root : Profile.ResolvedPom) : result Lockfile.SignatureError string :=
  let pom := Profile.pom root in
  Lockfile.compute_signature (encode_to_vec host)
    [Lockfile.mkModule (root_group pom) (Pom.artifact_id pom) pom].

(** *** The two paths *)

Definition CENTRAL : string := "https://repo.maven.apache.org/maven2".

(** The upstream and whether HTTP/2 is used. *)
Definition upstream_for (config : Config.Config) : string * bool :=
  match env_var "BARISTA_TEST_UPSTREAM_URL" with
  | Some url => if is_empty url then (CENTRAL, Config.http2_enabled (Config.network config)) else (url, false)
  | None => (CENTRAL, Config.http2_enabled (Config.network config))
  end.

Definition fetch_config_for (config : Config.Config) : FetchConfig :=
  mkFetchConfig (Config.request_timeout_secs (Config.network config) `max` 1) (upstream_for config).1.

Definition open_index (cache_root : path) : P unit := fun s =>
  match Index.open_with_recovery (Index.disk (index (world s))) with
  | None => None
  | Some (Err e) => Some (Err (IndexOpen cache_root e), s)
  | Some (Ok (ix, report)) =>
      let s := with_world (with_index ix (world s)) s in
      if Index.journal_truncated report
      then emit (TornTail (default 0 (Index.journal_truncated_at report))) s
      else Some (Ok tt, s)
  end.

(** The cache stack. *)
Definition open_cache (config : Config.Config) : P unit :=
  let cache_root := Config.cache_dir (Config.paths config) in
  _ ← stop_on (Io cache_root) (create_dir_all host cache_root);
  _ ← stop_on (CacheOpen cache_root) (cas_open host cache_root);
  _ ← open_index cache_root;
  _ ← stop_on FetcherErr (fetcher_new host (Config.max_concurrent_connections (Config.network config) `max` 1)
                            (upstream_for config).2 (fetch_config_for config));
  stop_on Runtime (runtime_new host).

Definition emit_all (es : list Event) : P unit := modify (fun s =>
  mkState (world s) (mirror s) (texts s) (dirs s) (events s ++ es)).

Definition short (sig : string) : P string := lift (ok_or (short_sig sig) Panic).

(** The lockfile pins this source tree. *)
Definition report_authoritative (project_root : path) (raw : Pom.RawPom) (global : GlobalFlags)
    (signature : string) (lf : Lockfile.Lockfile) : P PullReport :=
  _ ← emit_all ((fun e => CachedEvent (Lockfile.coords e)) <$> Lockfile.entries lf);
  sig ← short signature;
  mret (mkReport project_root Unchanged (length (Lockfile.entries lf)) 0 (Some sig)
          (Some (pom_coords_for_summary raw)) false (strict global)).

(** Resolve, fetch, link, write. *)
Definition refresh (fuel : nat) (project_root : path) (raw : Pom.RawPom) (config : Config.Config)
    (global : GlobalFlags) (args : PullArgs) (root : Profile.ResolvedPom) (signature : string)
    (on_disk : option Lockfile.Lockfile) : P PullReport :=
  graph ← walk_graph fuel root args;
  '(entries, n) ← fetch_all (fetch_config_for config) (Walker.resolved graph);
  _ ← materialize_all (Config.m2_repository (Config.paths config)) (Walker.resolved graph) entries;
  _ ← emit WritingLockfile;
  let fresh := Lockfile.new (pkg_version host) (clock host) signature (settings_fingerprint config) in
  let lockfile := Lockfile.mkLockfile (Lockfile.meta fresh) (Lockfile.reactor fresh) entries
                    (Lockfile.settings_snapshot fresh) in
  _ ← write_lock lockfile (lock_path project_root);
  let status := match on_disk with
                | Some prev => if lockfiles_equal_ignoring_timestamp prev lockfile then Unchanged else Written
                | None => Written
                end in
  sig ← short signature;
  mret (mkReport project_root status (length entries) n (Some sig)
          (Some (pom_coords_for_summary raw)) false (strict global)).

(** What the signature decides. *)
Definition decide_lock (global : GlobalFlags) (args : PullArgs) (signature : string)
    (on_disk : option Lockfile.Lockfile) : result PullError (option Lockfile.Lockfile) :=
  match on_disk with
  | Some lf =>
      let sig := Lockfile.project_signature (Lockfile.meta lf) in
      if frozen global && negb (String.eqb sig signature) then Err (FrozenSignatureMismatch sig signature)
      else if negb (update args) && String.eqb sig signature then Ok (Some lf) else Ok None
  | None => Ok None
  end.

Definition run_full_fetch (fuel : nat) (project_root : path) (raw : Pom.RawPom) (config : Config.Config)
    (global : GlobalFlags) (args : PullArgs) : P PullReport :=
  _ ← open_cache config;
  root ← resolve_root raw;
  signature ← lift (map_err SignatureErr (signature_of root));
  on_disk ← read_on_disk (lock_path project_root);
  authoritative ← lift (decide_lock global args signature on_disk);
  match authoritative with
  | Some lf => report_authoritative project_root raw global signature lf
  | None => refresh fuel project_root raw config global args root signature on_disk
  end.

(** The events of the entries, with a flush after every 64th. *)
Fixpoint entry_events (i : nat) (es : list Lockfile.LockfileEntry) : list Event :=
  match es with
  | [] => []
  | e :: es' =>
      CachedEvent (Lockfile.coords e) ::
      (if (i + 1) mod 64 =? 0 then [Flushed] else []) ++ entry_events (i + 1) es'
  end.

Definition run_no_fetch (project_root : path) (raw : Pom.RawPom) (global : GlobalFlags) (args : PullArgs)
    : P PullReport :=
  on_disk ← read_on_disk (lock_path project_root);
  match on_disk with
  | Some lf =>
      _ ← emit_all (entry_events 0 (Lockfile.entries lf));
      sig ← short (Lockfile.project_signature (Lockfile.meta lf));
      mret (mkReport project_root Unchanged (length (Lockfile.entries lf)) 0 (Some sig)
              (Some (pom_coords_for_summary raw)) (no_fetch args) (strict global))
  | None =>
      mret (mkReport project_root Absent 0 0 None (Some (pom_coords_for_summary raw)) (no_fetch args)
              (strict global))
  end.

(** The inputs of the loader that the commands of a project use. *)
Definition loader_inputs (root : path) : Loader.LoaderInputs :=
  Loader.mkInputs None (Some (Profile.join root "barista.toml")) None None None (Some root)
    (Loader.mkCli None None None None None).

Definition file_error (e : Project.FileError) : string :=
  match e with Project.FileNotFound => "not found" | Project.FileFailed d => d end.

Definition run_inner (fuel : nat) (global : GlobalFlags) (args : PullArgs) : P PullReport :=
  _ ← emit (Started "pull");
  found ← need (Project.resolve_project_root (Project.flags (g_root global) (g_file global)));
  root ← lift (map_err Project found);
  loaded ← need (Loader.load_effective_config (loader_inputs (Project.root root)));
  '(config, _) ← lift (map_err Config loaded);
  pom_text ← lift (map_err (fun e => Io (Project.pom root) (file_error e)) (Project.read_file (Project.pom root)));
  parsed ← need (PomXml.parse_pom pom_text);
  raw ← lift (map_err PomParse parsed);
  _ ← emit (Resolving (pom_coords_for_summary raw));
  if no_fetch args then
    report ← run_no_fetch (Project.root root) raw global args;
    _ ← emit (Completed "pull");
    mret report
  else
    _ ← ensure_root_marker (Project.root root) pom_text;
    report ← run_full_fetch fuel (Project.root root) raw config global args;
    _ ← emit (Completed "pull");
    mret report.

(** [run]: the exit code, given whether the report is rendered and the
    output flushed; a panic ends the process with 101. *)
Definition exit_code (r : result PullError PullReport) (rendered flushed : bool) : Z :=
  match r with
  | Err Panic => 101
  | Ok _ => if negb rendered then 1 else if flushed then 0 else 1
  | Err (FrozenSignatureMismatch _ _) => if flushed then 2 else 1
  | Err _ => 1
  end.

End Pull.
End Pull.
