(* ===== verification/PullFacts.v ===== *)
(** * What a pull leaves behind

    Theorems on pull.rs, over the store, the index, the mirror and the
    lockfile together: what a successful pull records and links, that a
    second pull changes nothing, that a failed or a frozen one keeps the
    lockfile, and that linked artifacts survive the collector. *)

From S2P Require Import Prelude Version Coords VersionSpec Pom Xml PomXml Effective Profile Source Skipper.
From S2P Require Import Oreq Walker WalkerFacts WalkerGraph Cas Journal Index IndexFacts MetadataXml Fetch CacheSource.
From S2P Require Import CacheSourceFacts Gc Settings Config Loader LoaderFacts Project M2 SortBy Lockfile.
From S2P Require Import LockStore Pull.

Module PullFacts.
Import Coords Cas Journal Source Fetch CacheSource CacheSourceFacts Pull.

(** ** Stores that grow *)

(** Objects are added with one link, never changed. *)
Definition grows (st st' : Store) : Prop :=
  forall h, st' !! h = st !! h \/ (st !! h = None /\ exists d, st' !! h = Some (mkBlob d 1)).

#[export] Instance grows_refl : Reflexive grows.
Proof. intros st h. by left. Qed.

#[export] Instance grows_trans : Transitive grows.
Proof.
  intros a b c Hab Hbc h. destruct (Hab h) as [E|[E (d & Ed)]], (Hbc h) as [E'|[E' (d' & Ed')]].
  - left. congruence.
  - right. rewrite <- E. eauto.
  - right. rewrite E', Ed. eauto.
  - congruence.
Qed.

Lemma put_grows `{D : Digest} bytes st : grows st (Cas.put bytes st).2.
Proof.
  unfold Cas.put, contains, finalize_tmp. case_bool_decide as Hc; [reflexivity |].
  intros h. cbn. destruct (decide (sha256 bytes = h)) as [<-|Hne].
  - right. rewrite lookup_insert_eq. split; [| eauto]. by apply eq_None_not_Some.
  - left. by rewrite lookup_insert_ne.
Qed.

Lemma grows_linked st st' files :
  grows st st' -> M2.linked (M2.mkDisk st files) -> M2.linked (M2.mkDisk st' files).
Proof.
  intros Hg [Hb Hc]. split; cbn in *.
  - intros p f h Hp Hi. specialize (Hb p f h Hp Hi). unfold Cas.get in *.
    destruct (Hg h) as [->|[E _]]; [done |]. by rewrite E in Hb.
  - intros h b Hs. destruct (Hg h) as [E|[E (d & Ed)]]; [apply Hc; congruence |].
    assert (b = mkBlob d 1) as -> by congruence. cbn.
    assert (M2.links h files = 0) as ->; [| done].
    unfold M2.links. apply map_size_empty_iff, map_empty. intros p.
    apply map_lookup_filter_None. destruct (files !! p) as [f|] eqn:Hp; [right | by left].
    intros f' [= <-] Hi. specialize (Hb p f h Hp Hi). unfold Cas.get in Hb. by rewrite E in Hb.
Qed.

(** ** The requests of a resolution *)

Definition calm `{D : Digest} `{C : Codec} (w w' : World) : Prop := safe w w' /\ grows (store w) (store w').

Lemma calm_trans `{D : Digest} `{C : Codec} w1 w2 w3 : calm w1 w2 -> calm w2 w3 -> calm w1 w3.
Proof.
  intros [A1 B1] [A2 B2]. split; [by eapply safe_trans | by etransitivity].
Qed.

(** What the answers of the source and the effect of the requests may be. *)
Record settles `{D : Digest} `{C : Codec} (s : Session) : Prop := {
  st_root : forall w, sound w -> calm w (settle_root s w);
  st_walk : forall w, sound w -> calm w (settle_walk s w)
}.

Section Requests.
Context `{D : Digest} `{S1 : Sha1} `{C : Codec} `{CF : CaseFolding} `{T : ErrorText}.
Context `{Q : Xml.QuickXml} `{PX : MetadataXml.PlainXml}.
Variable setup : Setup.
Hypothesis Hs : alone setup.

(** An operation adds objects to the store. *)
Definition stocks {A} (m : M A) : Prop := forall w, grows (store w) (store (m w).2).

Lemma stocks_bind {A B} (m : M A) (k : A -> M B) :
  stocks m -> (forall a, stocks (k a)) -> stocks (m ≫= k).
Proof.
  intros Hm Hk w. unfold mbind, M_bind. specialize (Hm w). destruct (m w) as [[a|e] w']; [| done].
  etransitivity; [exact Hm | apply Hk].
Qed.

Lemma stocks_store {A} (m : M A) : (forall w, store (m w).2 = store w) -> stocks m.
Proof. intros H w. by rewrite H. Qed.

Lemma stocks_cas_put bytes : stocks (cas_put setup bytes).
Proof.
  intros w. unfold cas_put. destruct (_ && _); [done |]. pose proof (put_grows bytes (store w)) as H. by destruct (Cas.put _ _).
Qed.

Lemma stocks_index_put c version key e : stocks (index_put c version key e).
Proof. apply stocks_store. intros w. unfold index_put. by destruct (Index.put _ _ _) as [[[]|] ?]. Qed.

Lemma stocks_await : stocks (await setup).
Proof. apply stocks_store. intros w. unfold await. cbn. by rewrite (proj2 (Hs w)). Qed.

Lemma stocks_push client h size : stocks (push_to_roastery setup client h size).
Proof.
  apply stocks_store. intros w. unfold push_to_roastery, mbind, M_bind, await.
  destruct (Cas.get h (store w)); [| done]. rewrite (proj2 (Hs w)).
  by destruct (put_blob _ _ _ _).
Qed.

Ltac stock :=
  lazymatch goal with
  | |- stocks (mbind _ _) => apply stocks_bind; [| intros ?]
  | |- stocks (await _) => apply stocks_await
  | |- stocks (cas_put _ _) => apply stocks_cas_put
  | |- stocks (index_put _ _ _ _) => apply stocks_index_put
  | |- stocks (push_to_roastery _ _ _ _) => apply stocks_push
  | |- stocks (match ?x with _ => _ end) => destruct x
  | |- stocks (let (_, _) := ?x in _) => destruct x
  | |- stocks (if ?x then _ else _) => destruct x
  | |- _ => solve [by apply stocks_store]
  end.

Lemma fetch_stocks c version key lock_key type_ classifier url :
  stocks (get_or_fetch_artifact setup c version key lock_key type_ classifier url).
Proof.
  unfold get_or_fetch_artifact, true_miss, roastery_first, upstream, try_roastery,
    fetch_and_cache, fetch_url_and_cache. cbn zeta.
  assert (Hl : stocks (coord_lock setup)).
  { apply stocks_store. intros w. unfold coord_lock. cbn. by rewrite (proj1 (Hs w)). }
  assert (Hc : forall e, stocks (cached c version e)).
  { intros e. apply stocks_store. intros w. unfold cached. by destruct (Cas.get _ _). }
  apply stocks_bind; [done | intros _]. repeat first [apply Hc | stock].
Qed.

Lemma fetch_calm c version key lock_key type_ classifier url w :
  sound w -> calm w (get_or_fetch_artifact setup c version key lock_key type_ classifier url w).2.
Proof.
  intros Hw. split; [| apply fetch_stocks].
  pose proof (fetch_delivers setup key (rely_alone setup Hs key) w c version lock_key type_ classifier url Hw) as H.
  unfold wp in H. destruct (get_or_fetch_artifact _ _ _ _ _ _ _ _ _) as [[r|] w']; [apply H | done].
Qed.

(** A request of the source, its effect, and the answers in a state. *)
Inductive Query : Type :=
  | QPom (c : Coords) (version : string)
  | QMetadata (c : Coords)
  | QSnapshot (c : Coords) (version : string).

Definition ask (q : Query) (w : World) : World :=
  match q with
  | QPom c v => match CacheSource.fetch_pom setup c v w with Some (_, w') => w' | None => w end
  | QMetadata c => (CacheSource.fetch_metadata setup c w).2
  | QSnapshot c v => match CacheSource.fetch_snapshot_info setup c v w with Some (_, w') => w' | None => w end
  end.

Definition answers (w : World) : MetadataSource := {|
  Source.fetch_pom c v :=
    match CacheSource.fetch_pom setup c v w with
    | Some (r, _) => r | None => Err (NotFound (ga c) v) end;
  Source.fetch_metadata c := (CacheSource.fetch_metadata setup c w).1;
  Source.fetch_snapshot_info c v :=
    match CacheSource.fetch_snapshot_info setup c v w with
    | Some (r, _) => r | None => Err (NotFound (ga c) v) end
|}.

Definition session_of (w : World) (root_queries walk_queries : list Query) : Session :=
  mkSession (answers w) (fun w => foldl (fun w q => ask q w) w root_queries)
    (fun w => foldl (fun w q => ask q w) w walk_queries).

Lemma ask_calm q w : sound w -> calm w (ask q w).
Proof.
  intros Hw. assert (Hr : calm w w) by (split; [by apply safe_refl | reflexivity]).
  destruct q as [c v|c|c v]; unfold ask.
  - unfold CacheSource.fetch_pom. pose proof (fetch_calm c v (pom_key c v) (mkLockKey c v) "pom" None None w Hw) as H.
    unfold get_pom_bytes. destruct (get_or_fetch_artifact _ _ _ _ _ _ _ _ _) as [[[b o]|e] w']; [| done].
    by destruct (PomXml.parse_pom (from_utf8_lossy b)).
  - unfold CacheSource.fetch_metadata.
    pose proof (fetch_calm c "" (metadata_key c METADATA_SENTINEL_VERSION) (mkLockKey c METADATA_SENTINEL_VERSION)
      "maven-metadata.xml" None (Some (metadata_url setup c)) w Hw) as H.
    destruct (get_or_fetch_artifact _ _ _ _ _ _ _ _ _) as [[[b o]|[]] w']; done.
  - unfold CacheSource.fetch_snapshot_info.
    pose proof (fetch_calm c v (metadata_key c (snapshot_meta_version v)) (mkLockKey c (snapshot_meta_version v))
      "maven-metadata.xml" None (Some (snapshot_url setup c v)) w Hw) as H.
    destruct (get_or_fetch_artifact _ _ _ _ _ _ _ _ _) as [[[b o]|e] w']; [| done].
    by destruct (MetadataXml.parse_snapshot_metadata (from_utf8_lossy b)).
Qed.

(** The cache source settles. *)
Lemma session_settles w0 qs qs' : settles (session_of w0 qs qs').
Proof.
  assert (H : forall qs w, sound w -> calm w (foldl (fun w q => ask q w) w qs)).
  { induction qs0 as [|q qs0 IH]; intros w Hw; cbn; [split; [by apply safe_refl | reflexivity] |].
    pose proof (ask_calm q w Hw) as Hq. apply calm_trans with (ask q w); [done |].
    apply IH. apply Hq. }
  split; cbn; apply H.
Qed.

End Requests.

(** ** Reasoning about the command *)

(** What holds of every way an operation can end. *)
Definition post {A} (m : P A) (s : State) (Q : result PullError A -> State -> Prop) : Prop :=
  forall r s', m s = Some (r, s') -> Q r s'.

Lemma post_bind {A B} (m : P A) (k : A -> P B) s Q :
  post m s (fun r s1 => match r with Ok a => post (k a) s1 Q | Err e => Q (Err e) s1 end) ->
  post (m ≫= k) s Q.
Proof.
  intros H r s' E. unfold mbind, P_bind in E. specialize (H).
  destruct (m s) as [[[a|e] s1]|] eqn:Hm; [| | done].
  - by apply (H _ _ Hm).
  - injection E as <- <-. by apply (H _ _ Hm).
Qed.

Lemma post_ret {A} (a : A) s (Q : result PullError A -> State -> Prop) : Q (Ok a) s -> post (mret a) s Q.
Proof. by intros H r s' [= <- <-]. Qed.

Lemma post_lift {A} (r : result PullError A) s (Q : result PullError A -> State -> Prop) :
  Q r s -> post (Pull.lift r) s Q.
Proof. by intros H r' s' [= <- <-]. Qed.

Lemma post_need {A} (o : option A) s (Q : result PullError A -> State -> Prop) :
  (forall a, o = Some a -> Q (Ok a) s) -> post (need o) s Q.
Proof. intros H r s'. unfold need. destruct o; [| done]. intros [= <- <-]. by apply H. Qed.

Lemma post_stop_on {E} (err : E -> PullError) o s (Q : result PullError unit -> State -> Prop) :
  (forall r, Q r s) -> post (stop_on err o) s Q.
Proof. intros H. destruct o; [apply post_lift | apply post_ret]; apply H. Qed.

Lemma post_mono {A} (m : P A) s (Q Q' : result PullError A -> State -> Prop) :
  post m s Q -> (forall r s', Q r s' -> Q' r s') -> post m s Q'.
Proof. intros H HQ r s' E. apply HQ. by apply H. Qed.

(** The cache is sound and the links of the mirror are counted. *)
Record good `{D : Digest} `{C : Codec} (s : State) : Prop := {
  g_sound : sound (world s);
  g_linked : M2.linked (disk_of s)
}.

(** Objects stay, and the rows that name them. *)
Record follows `{D : Digest} `{C : Codec} (s s' : State) : Prop := {
  fo_good : good s';
  fo_objects : forall h d, Cas.get h (store (world s)) = Some d -> Cas.get h (store (world s')) = Some d;
  fo_rows : forall k e, row k (world s) = Some e -> exists e', row k (world s') = Some e' /\ hash e' = hash e
}.

Section Follows.
Context `{D : Digest} `{C : Codec}.

Lemma follows_refl s : good s -> follows s s.
Proof. intros H. split; eauto. Qed.

Lemma follows_trans s1 s2 s3 : follows s1 s2 -> follows s2 s3 -> follows s1 s3.
Proof.
  intros [_ B1 C1] [A2 B2 C2]. split; [done | eauto |].
  intros k e (e' & H & E)%C1. apply C2 in H as (e'' & H & E'). exists e''. by rewrite E'.
Qed.

(** A change of the cache that adds objects. *)
Lemma follows_world s w : good s -> calm (world s) w -> follows s (with_world w s).
Proof.
  intros [Hs Hl] [[Hw [Hx1 Hx2]] Hg]. split; [split | |]; [done | by eapply grows_linked | done | done].
Qed.

(** A change of anything else. *)
Lemma follows_rest s s' :
  good s -> world s' = world s -> mirror s' = mirror s -> follows s s'.
Proof.
  intros [Hs Hl] Ew Em. split; rewrite ?Ew; eauto. split; rewrite ?Ew; [done |].
  unfold disk_of in *. by rewrite Ew, Em.
Qed.

(** A change of the mirror. *)
Lemma follows_disk s p d :
  good s -> M2.kept p (disk_of s) d -> follows s (with_disk d s).
Proof.
  intros [[Hi Hb] Hl] Hk. pose proof (M2.k_objects _ _ _ Hk) as Ho. split; [split; [split |] | | eauto].
  - intros h b Hs. cbn in Hs. unfold intact in Hi. specialize (Ho h). unfold Cas.get in Ho. cbn in Ho.
    rewrite Hs in Ho. cbn in Ho. destruct (store (world s) !! h) as [b0|] eqn:E; [| done].
    injection Ho as Ho. rewrite Ho. by apply Hi.
  - intros k e Hr. cbn. rewrite (Ho (hash e)). by apply (Hb k).
  - destruct d as [st fl]. exact (M2.k_linked _ _ _ Hk Hl).
  - intros h d' Hd. cbn. by rewrite (Ho h).
Qed.

End Follows.

(** ** Fetching *)

Section Fetching.
Context `{D : Digest} `{S1 : Sha1} `{C : Codec}.
Variable host : Host.

(** An artifact that is in the cache under its key. *)
Definition held (c : Coords) (version type_ : string) (classifier : option string) (h : ContentHash)
    (w : World) : Prop :=
  is_Some (Cas.get h (store w)) /\
  exists e, row (mkKey c version type_ classifier) w = Some e /\ hash e = h.

Lemma fetch_missing_spec fc c version type_ classifier w r w' :
  sound w -> row (mkKey c version type_ classifier) w = None ->
  fetch_missing host fc c version type_ classifier (mkKey c version type_ classifier) w = (r, w') ->
  calm w w' /\ (forall f, r = Ok f -> held c version type_ classifier (f_sha256 f) w').
Proof.
  intros Hw Hrow. unfold fetch_missing. cbn zeta. set (w1 := requested _ w).
  assert (H1 : calm w w1) by (split; [by apply safe_logs | reflexivity]).
  assert (Hw1 : sound w1) by apply H1.
  destruct (fetch _ _ _ _) as [[bytes etag lm ct|]|e]; [| by intros [= <- <-]..].
  destruct (verify _ _ _) as [v|e]; [| by intros [= <- <-]].
  destruct (if contains _ _ then _ else _) as [detail|]; [by intros [= <- <-] |].
  destruct (Cas.put bytes (store w1)) as [h st] eqn:Hp.
  destruct (cas_put_safe bytes w1 h st Hw1 Hp) as (Hs & _ & Ho).
  assert (H2 : calm w (with_store st w1)).
  { apply calm_trans with w1; [done |]. split; [done |].
    pose proof (put_grows bytes (store w1)) as Hg. by rewrite Hp in Hg. }
  match goal with |- context [Index.put _ ?e _] => set (entry := e) end.
  destruct (Index.put _ entry _) as [ri ix] eqn:Hi.
  destruct (index_put_safe _ entry ix ri (with_store st w1) (proj1 (proj1 H2)) Hrow Ho Hi) as [Hs' Hok].
  assert (H3 : calm w (with_index ix (with_store st w1))).
  { apply calm_trans with (with_store st w1); [done |]. split; [done | reflexivity]. }
  destruct ri as [[]|e]; intros [= <- <-]; (split; [done |]); [| done].
  intros f [= <-]. split; [done |]. exists entry. split; [by apply Hok | done].
Qed.

Lemma fetch_artifact_spec fc c version type_ classifier w r w' :
  sound w -> fetch_artifact_to_cache host fc c version type_ classifier w = (r, w') ->
  calm w w' /\ (forall f, r = Ok f -> held c version type_ classifier (f_sha256 f) w').
Proof.
  intros Hw. unfold fetch_artifact_to_cache. cbn zeta.
  destruct (Index.get _ (index w)) as [e|] eqn:Hrow; [| by apply fetch_missing_spec].
  destruct (s_backed w Hw _ e Hrow) as [d Hd]. unfold contains.
  rewrite bool_decide_true by (unfold Cas.get in Hd; by destruct (store w !! hash e)).
  intros [= <- <-]. split; [split; [by apply safe_refl | reflexivity] |].
  intros f [= <-]. split; [by exists d | by exists e].
Qed.

(** Neither the lockfile nor the mirror changes. *)
Definition aside (s s' : State) : Prop := texts s' = texts s /\ mirror s' = mirror s.

Lemma post_fetch_one fc dep s :
  good s ->
  post (fetch_one host fc dep) s (fun r s' => follows s s' /\ aside s s' /\
    forall f, r = Ok f ->
      held (Walker.coords dep) (Walker.version dep) (Walker.type_ dep) (Walker.classifier dep) (f_sha256 f) (world s')).
Proof.
  intros Hg r s'. unfold fetch_one.
  destruct (fetch_artifact_to_cache _ _ _ _ _ _ _) as [r0 w] eqn:Hf. intros [= <- <-].
  destruct (fetch_artifact_spec _ _ _ _ _ _ _ _ (g_sound s Hg) Hf) as [Hc Hh].
  split_and!; [by apply follows_world | done |]. intros f Hr. destruct r0 as [f0|]; [| done].
  injection Hr as <-. by apply Hh.
Qed.

(** An entry of the lockfile and the artifact it stands for. *)
Definition recorded (s : State) (dep : Walker.ResolvedDep) (e : Lockfile.LockfileEntry) : Prop :=
  exists f, e = build_lockfile_entry dep f /\
    held (Walker.coords dep) (Walker.version dep) (Walker.type_ dep) (Walker.classifier dep) (f_sha256 f) (world s).

Lemma recorded_follows s s' dep e : follows s s' -> recorded s dep e -> recorded s' dep e.
Proof.
  intros Hf (f & -> & [d Hd] & x & Hr & He). exists f. split; [done |]. split.
  - exists d. by apply (fo_objects _ _ Hf).
  - destruct (fo_rows _ _ Hf _ _ Hr) as (e' & Hr' & He'). exists e'. by rewrite He', He.
Qed.

Lemma post_emit e s (Q : result PullError unit -> State -> Prop) :
  good s -> (forall s', follows s s' -> aside s s' -> Q (Ok tt) s') -> post (emit e) s Q.
Proof.
  intros Hg H r s' [= <- <-]. apply H; [by apply follows_rest | done].
Qed.

Lemma aside_trans s1 s2 s3 : aside s1 s2 -> aside s2 s3 -> aside s1 s3.
Proof. unfold aside. intros [-> ->] [-> ->]. done. Qed.

Lemma post_fetch_all fc deps : forall s,
  good s ->
  post (fetch_all host fc deps) s (fun r s' => follows s s' /\ aside s s' /\
    forall es n, r = Ok (es, n) -> Forall2 (recorded s') deps es).
Proof.
  induction deps as [|dep deps IH]; intros s Hg; cbn [fetch_all].
  { apply post_ret. split_and!; [by apply follows_refl | done |]. intros es n [= <- <-]. constructor. }
  apply post_bind, post_emit; [done |]. intros s1 F1 A1.
  apply post_bind. eapply post_mono; [apply post_fetch_one, F1 |]. intros [f|e] s2 (F2 & A2 & H2).
  2: { split_and!; [by eapply follows_trans | by eapply aside_trans | done]. }
  apply post_bind, post_emit; [apply F2 |]. intros s3 F3 A3.
  apply post_bind. eapply post_mono; [apply IH, F3 |]. intros [[es n]|e] s4 (F4 & A4 & H4).
  - apply post_ret. split_and!; [by do 3 (eapply follows_trans; [done |]) | by do 3 (eapply aside_trans; [done |]) |].
    intros es' n' [= <- <-]. constructor; [| by eapply H4].
    apply recorded_follows with s2; [by eapply follows_trans |]. exists f. split; [done | by apply H2].
  - split_and!; [by do 3 (eapply follows_trans; [done |]) | by do 3 (eapply aside_trans; [done |]) | done].
Qed.

(** ** Linking *)

Definition dest (m2_root : path) (dep : Walker.ResolvedDep) : string :=
  M2.m2_path m2_root (Walker.coords dep) (Walker.version dep) (Walker.classifier dep) (Walker.type_ dep).

(** The file of an artifact has the bytes that the entry pins. *)
Definition placed (m2_root : path) (s : State) (dep : Walker.ResolvedDep) (e : Lockfile.LockfileEntry) : Prop :=
  exists h f, from_hex (Lockfile.sha256 e) = Ok h /\ mirror s !! dest m2_root dep = Some f /\
    Cas.get h (store (world s)) = Some (M2.bytes f).

Lemma post_materialize_one m2_root dep e s :
  good s ->
  post (materialize_one host m2_root dep e) s (fun r s' => follows s s' /\ texts s' = texts s /\
    (forall q, q <> dest m2_root dep -> mirror s' !! q = mirror s !! q) /\
    (r = Ok tt -> placed m2_root s' dep e)).
Proof.
  intros Hg r s'. unfold materialize_one.
  destruct (from_hex (Lockfile.sha256 e)) as [h|err] eqn:Hh.
  - destruct (M2.materialize _ _ _ _ _ _ _ _) as [rm d] eqn:Hm.
    pose proof (M2.materialize_kept _ _ _ _ _ _ _ _ _ _ Hm) as Hk.
    intros H. assert (s' = with_disk d s /\ (r = Ok tt -> exists p, rm = Ok p)) as [-> Hr].
    { destruct rm; injection H as <- <-; split; [done | eauto | done | done]. }
    split_and!; [by eapply follows_disk | done | apply (M2.k_files _ _ _ Hk) |].
    intros [p ->]%Hr. destruct (M2.materialize_bytes _ _ _ _ _ _ _ _ _ _ Hm (g_linked s Hg)) as (-> & f & Hf & Hb).
    by exists h, f.
  - intros [= <- <-]. split_and!; [by apply follows_refl | done | done | done].
Qed.

Lemma post_materialize_all m2_root deps : forall es s,
  good s -> length es = length deps ->
  post (materialize_all host m2_root deps es) s (fun r s' => follows s s' /\ texts s' = texts s /\
    (forall q, q ∉ dest m2_root <$> deps -> mirror s' !! q = mirror s !! q) /\
    (r = Ok tt -> NoDup (dest m2_root <$> deps) -> Forall2 (placed m2_root s') deps es)).
Proof.
  induction deps as [|dep deps IH]; intros [|e es] s Hg Hl; try done; cbn [materialize_all].
  { apply post_ret. split_and!; [by apply follows_refl | done | done |]. constructor. }
  apply post_bind. eapply post_mono; [by apply post_materialize_one |].
  intros [[]|err] s1 (F1 & T1 & M1 & P1).
  2: { split_and!; [done | done | | done]. intros q Hq. apply M1. intros ->. apply Hq. by left. }
  eapply post_mono; [apply (IH es s1); [apply F1 | by injection Hl] |].
  intros r s2 (F2 & T2 & M2' & P2). split_and!; [by eapply follows_trans | congruence | |].
  - intros q Hq. cbn in Hq. apply not_elem_of_cons in Hq as [Hq Hq']. by rewrite M2', M1.
  - intros Hr [Hn Hd]%list.NoDup_cons. constructor; [| by apply P2].
    destruct (P1 eq_refl) as (h & f & Hh & Hf & Hb). exists h, f. rewrite M2' by done.
    split_and!; [done | done | by apply (fo_objects _ _ F2)].
Qed.

End Fetching.

(** ** The command *)

Section Command.
Context `{D : Digest} `{S1 : Sha1} `{C : Codec} `{CF : CaseFolding} `{Q : Xml.QuickXml}.
Context `{Env : Environment} `{FS : FileSystem} `{R : Loader.ConfigReader} `{PF : Project.ProjectFiles}.
Variable host : Host.
Variable session : Session.

(** The rows on disk name objects of the store. *)
Definition reopens (s : State) : Prop :=
  forall ix report, Index.open_with_recovery (Index.disk (index (world s))) = Some (Ok (ix, report)) ->
  sound (with_index ix (world s)).

Lemma post_open_cache config s :
  post (open_cache host config) s (fun r s1 => aside s s1 /\
    (r = Ok tt -> reopens s -> M2.linked (disk_of s) -> good s1)).
Proof.
  unfold open_cache. apply post_bind, post_stop_on. intros [[]|e]; [| done].
  apply post_bind, post_stop_on. intros [[]|e]; [| done].
  apply post_bind. intros r s1 H. unfold open_index in H.
  destruct (Index.open_with_recovery _) as [[[ix report]|e]|] eqn:Ho; [| by injection H as <- <- | done].
  assert (r = Ok tt /\ aside s s1 /\ world s1 = with_index ix (world s)) as (-> & Ha & Hw)
    by (destruct (Index.journal_truncated report); by injection H as <- <-).
  apply post_bind, post_stop_on. intros [[]|e]; [| by split].
  apply post_stop_on. intros r. split; [done |]. intros _ Hr Hl. split; [rewrite Hw; by apply (Hr ix report) |].
  unfold disk_of in *. by rewrite Hw, (proj2 Ha).
Qed.

Hypothesis HS : settles session.

Definition walk_opts (args : PullArgs) : Walker.WalkOptions :=
  Walker.mkOptions true (scope_filter (scope args)) Profile.ActivationContext_default true "default".

Definition walked (fuel : nat) (args : PullArgs) (root : Profile.ResolvedPom) (g : Walker.ResolvedGraph) : Prop :=
  exists x, @Walker.walk CF Env FS (source session) (walk_opts args) fuel root None = Some (Ok g, x).

Lemma post_walk_graph fuel root args s :
  good s ->
  post (walk_graph session fuel root args) s (fun r s' => follows s s' /\ aside s s' /\
    forall g, r = Ok g -> walked fuel args root g).
Proof.
  intros Hg r s'. unfold walk_graph. fold (walk_opts args).
  destruct (Walker.walk _ _ _ _) as [[rw x]|] eqn:Hw; [| done]. cbn. intros [= <- <-].
  split_and!; [apply follows_world, HS; [done | apply Hg] | done |].
  intros g Hr. exists x. destruct rw; [| done]. by injection Hr as ->.
Qed.

Lemma walked_nodup fuel args root g : walked fuel args root g -> NoDup (Walker.coords <$> Walker.resolved g).
Proof.
  intros [x Hx]. exact (@WalkerGraph.walk_nodup CF Env FS (source session) (walk_opts args) fuel root None g x I Hx).
Qed.

(** Coordinates that are names of files. *)
Definition tidied (dep : Walker.ResolvedDep) : Prop :=
  M2.tidy (Walker.coords dep) (Walker.version dep) (Walker.classifier dep) (Walker.type_ dep) = true.

Lemma dest_nodup m2_root deps :
  NoDup (Walker.coords <$> deps) -> Forall tidied deps -> NoDup (dest m2_root <$> deps).
Proof.
  intros Hn. induction deps as [|dep deps IH]; cbn; [constructor |].
  intros [Ht Hf]%list.Forall_cons. cbn in Hn. apply list.NoDup_cons in Hn as [Hx Hn].
  apply list.NoDup_cons. split; [| by apply IH].
  intros (dep' & E & Hin)%list_elem_of_fmap. rewrite list.Forall_forall in Hf.
  apply M2.m2_path_inj in E as [E _]; [| done | by apply Hf].
  apply Hx. rewrite E. apply list_elem_of_fmap. eauto.
Qed.

(** The lockfile pins the graph, and every artifact is cached and linked. *)
Definition pins (project_root : path) (config : Config.Config) (s : State) (g : Walker.ResolvedGraph)
    (lf : Lockfile.Lockfile) : Prop :=
  Forall2 (recorded s) (Walker.resolved g) (Lockfile.entries lf) /\
  (Forall tidied (Walker.resolved g) ->
   Forall2 (placed (Config.m2_repository (Config.paths config)) s) (Walker.resolved g) (Lockfile.entries lf)).

(** The file is there and is read as this lockfile. *)
Definition locked (project_root : path) (s : State) (lf : Lockfile.Lockfile) : Prop :=
  is_Some (texts s !! lock_path project_root) /\
  LockStore.read (toml host) (lock_io host) (lock_path project_root) (texts s) = Ok lf.

Definition sibling : path -> Prop := fun p => LockStore.sibling (lock_path p) (nonce host).

Lemma post_refresh fuel project_root raw config global args root signature on_disk s :
  good s ->
  post (refresh host session fuel project_root raw config global args root signature on_disk) s (fun r s' =>
    (sibling project_root -> forall e, r = Err e -> e <> Panic ->
       texts s' !! lock_path project_root = texts s !! lock_path project_root) /\
    (LockStore.toml_law (toml host) -> LockStore.read_error (lock_io host) (lock_path project_root) = None ->
     forall report, r = Ok report -> good s' /\
       exists g lf sig, walked fuel args root g /\ locked project_root s' lf /\
         Lockfile.project_signature (Lockfile.meta lf) = signature /\ pins project_root config s' g lf /\
         short_sig signature = Some sig /\ r_entries report = length (Lockfile.entries lf))).
Proof.
  intros Hg. unfold refresh. apply post_bind. eapply post_mono; [by apply post_walk_graph |].
  intros [g|e] s1 (F1 & A1 & W1); [| by split; [intros _ e' [= <-] _; by rewrite (proj1 A1) | done]].
  apply post_bind. eapply post_mono; [apply post_fetch_all, F1 |].
  intros [[es n]|e] s2 (F2 & A2 & R2).
  2: { split; [intros _ e' [= <-] _; by rewrite (proj1 A2), (proj1 A1) | done]. }
  specialize (R2 es n eq_refl). apply post_bind. eapply post_mono.
  { apply post_materialize_all; [apply F2 | symmetry; by eapply Forall2_length]. }
  intros [[]|e] s3 (F3 & T3 & _ & P3).
  2: { split; [intros _ e' [= <-] _; by rewrite T3, (proj1 A2), (proj1 A1) | done]. }
  apply post_bind, post_emit; [apply F3 |]. intros s4 F4 A4.
  apply post_bind. intros r s5. unfold write_lock. cbn zeta. set (lf := Lockfile.mkLockfile _ _ _ _).
  destruct (LockStore.write _ _ _ _ _ _) as [rw t] eqn:Hw. intros [= <- <-].
  assert (Ht : texts s4 = texts s) by (by rewrite (proj1 A4), T3, (proj1 A2), (proj1 A1)). rewrite Ht in Hw.
  pose proof (LockStore.write_result _ _ _ _ _ _ _ _ Hw) as Hr.
  destruct rw as [[]|e]; cbn [map_err]; [| split; [intros Hs e' _ _; by apply Hr | done]].
  apply post_bind. unfold short. apply post_lift. destruct (short_sig signature) as [sig|] eqn:Hsig; cbn.
  2: { split; [by intros _ e [= <-] | done]. }
  apply post_ret. split; [done |]. intros Hlaw Hread report [= <-].
  pose proof (LockStore.write_read _ _ lf _ _ _ _ Hlaw eq_refl Hread Hw) as Hlf.
  assert (F5 : follows s4 (with_texts t s4)) by (apply follows_rest; [apply F4 | done | done]).
  assert (F35 : follows s3 (with_texts t s4)) by (by eapply follows_trans).
  split; [apply F5 |]. exists g, lf, sig. split_and!; [by apply W1 | | done | | done | done].
  - split; [| done]. destruct Hr as (x & _ & Hx). by exists x.
  - split.
    + eapply list.Forall2_impl; [exact R2 |]. intros dep e. apply recorded_follows.
      by eapply follows_trans.
    + intros Htidy. assert (Hn : NoDup (dest (Config.m2_repository (Config.paths config)) <$> Walker.resolved g)).
      { apply dest_nodup; [| done]. eapply walked_nodup. by apply W1. }
      eapply list.Forall2_impl; [exact (P3 eq_refl Hn) |]. intros dep e (h & f & Hh & Hf & Hb). exists h, f.
      split_and!; [done | by rewrite <- (proj2 A4) in Hf | by apply (fo_objects _ _ F35)].
Qed.

Definition resolves (raw : Pom.RawPom) (root : Profile.ResolvedPom) : Prop :=
  Profile.resolve_pom raw (parent_resolver session) Profile.ActivationContext_default = Ok root.

Lemma post_resolve_root raw s :
  good s ->
  post (resolve_root session raw) s (fun r s' => follows s s' /\ aside s s' /\
    forall root, r = Ok root -> resolves raw root).
Proof.
  intros Hg r s'. unfold resolve_root. intros [= <- <-].
  split_and!; [apply follows_world, HS; [done | apply Hg] | done |].
  unfold resolves. intros root Hr. destruct (Profile.resolve_pom _ _ _); [| done]. by injection Hr as ->.
Qed.

(** What a pull that succeeded has established. *)
Definition pulled (fuel : nat) (project_root : path) (raw : Pom.RawPom) (config : Config.Config) (args : PullArgs)
    (s s' : State) (report : PullReport) : Prop :=
  good s' /\
  exists root signature lf, resolves raw root /\ signature_of host root = Ok signature /\
    is_Some (short_sig signature) /\ locked project_root s' lf /\
    Lockfile.project_signature (Lockfile.meta lf) = signature /\ r_entries report = length (Lockfile.entries lf) /\
    ((update args = false /\ aside s s' /\ lockfile_status report = Unchanged /\ fetched report = 0)
     \/ exists g, walked fuel args root g /\ pins project_root config s' g lf).

(** The three things said of the end of a pull: an error keeps the lockfile,
    a frozen pull writes nothing, a success is recorded. *)
Record ending (fuel : nat) (project_root : path) (raw : Pom.RawPom) (config : Config.Config)
    (global : GlobalFlags) (args : PullArgs) (s : State) (r : result PullError PullReport) (s' : State) : Prop := {
  e_error : sibling project_root -> forall e, r = Err e -> e <> Panic ->
    texts s' !! lock_path project_root = texts s !! lock_path project_root;
  e_frozen : frozen global = true -> update args = false -> is_Some (texts s !! lock_path project_root) ->
    aside s s';
  e_success : LockStore.toml_law (toml host) ->
    LockStore.read_error (lock_io host) (lock_path project_root) = None ->
    forall report, r = Ok report -> pulled fuel project_root raw config args s s' report
}.

Lemma ending_aside fuel project_root raw config global args s e s' :
  aside s s' -> ending fuel project_root raw config global args s (Err e) s'.
Proof. intros A. split; [intros _ e' _ _; by rewrite (proj1 A) | done | done]. Qed.

Lemma ending_refresh fuel project_root raw config global args root signature on_disk s s1 :
  good s1 -> aside s s1 -> resolves raw root -> signature_of host root = Ok signature ->
  (frozen global = true -> update args = false -> ~ is_Some (texts s !! lock_path project_root)) ->
  post (refresh host session fuel project_root raw config global args root signature on_disk) s1
    (ending fuel project_root raw config global args s).
Proof.
  intros Hg A Hroot Hsig Hfr. eapply post_mono; [by apply post_refresh |]. intros r s' [H1 H2].
  rewrite (proj1 A) in H1. split; [done | intros Hf Hu Ht; by destruct (Hfr Hf Hu) |].
  intros Hl Hr report ->. destruct (H2 Hl Hr report eq_refl) as (Hg' & g & lf & sig & Hw & Hk & Hp & Hpins & Hs & Hn).
  split; [done |]. exists root, signature, lf. split_and!; eauto.
Qed.

Lemma ending_authoritative fuel project_root raw config global args root signature lf s s1 :
  good s1 -> aside s s1 -> resolves raw root -> signature_of host root = Ok signature ->
  update args = false -> locked project_root s1 lf -> Lockfile.project_signature (Lockfile.meta lf) = signature ->
  post (report_authoritative project_root raw global signature lf) s1
    (ending fuel project_root raw config global args s).
Proof.
  intros Hg A Hroot Hsig Hu Hlf E. unfold report_authoritative. apply post_bind. intros r s2 [= <- <-].
  apply post_bind. unfold short. apply post_lift. destruct (short_sig signature) as [sig|] eqn:Hss; cbn;
    [| by apply ending_aside].
  apply post_ret. split; [done | done |]. intros _ _ report [= <-].
  split; [apply (fo_good s1); by apply follows_rest |].
  exists root, signature, lf. split_and!; try done; by left.
Qed.

Lemma post_full_fetch fuel project_root raw config global args s :
  reopens s -> M2.linked (disk_of s) ->
  post (run_full_fetch host session fuel project_root raw config global args) s
    (ending fuel project_root raw config global args s).
Proof.
  intros Hopen Hlink. unfold run_full_fetch. apply post_bind.
  eapply post_mono; [apply post_open_cache |]. intros [[]|e] s1 [A1 G1]; [| by apply ending_aside].
  specialize (G1 eq_refl Hopen Hlink). apply post_bind.
  eapply post_mono; [by apply post_resolve_root |]. intros [root|e] s2 (F2 & A2 & R2);
    (assert (A : aside s s2) by (by eapply aside_trans)); [| by apply ending_aside].
  specialize (R2 root eq_refl). pose proof (fo_good _ _ F2) as G2.
  apply post_bind, post_lift. destruct (signature_of host root) as [signature|e] eqn:Hsig; cbn [map_err];
    [| by apply ending_aside].
  apply post_bind. intros r s3. unfold read_on_disk.
  destruct (texts s2 !! lock_path project_root) as [text|] eqn:Htext; intros [= <- <-].
  - destruct (LockStore.read _ _ _ _) as [lf|e] eqn:Hlf; cbn [map_err]; [| by apply ending_aside].
    apply post_bind, post_lift. unfold decide_lock. cbn zeta.
    destruct (String.eqb_spec (Lockfile.project_signature (Lockfile.meta lf)) signature) as [E|E].
    + rewrite andb_false_r, andb_true_r. destruct (update args) eqn:Hu; cbn.
      * apply ending_refresh; try done. intros _. by rewrite Hu.
      * by apply ending_authoritative with root.
    + rewrite andb_false_r, andb_true_r. destruct (frozen global) eqn:Hf; cbn; [by apply ending_aside |].
      apply ending_refresh; try done. by rewrite Hf.
  - apply post_bind, post_lift. cbn. apply ending_refresh; try done.
    intros _ _. rewrite <- (proj1 A), Htext. by intros [].
Qed.

(** C8. What a successful pull leaves.  From a cache whose rows have their
    objects and a mirror whose links are counted, with every answer of the
    cache source and every outcome of the network: the cache and the mirror
    are still so, and barista.lock is read back as a lockfile with the
    signature of the resolved root.  Either it was there already and nothing
    was written, or its entries are, in order, those of the resolved graph:
    each names an object that is in the store under that hash and in the
    index under the artifact's key, and (for coordinates that are plain file
    names) the file of the mirror has the bytes of the object. *)
Theorem pull_records fuel project_root raw config global args s report s' :
  reopens s -> M2.linked (disk_of s) ->
  LockStore.toml_law (toml host) -> LockStore.read_error (lock_io host) (lock_path project_root) = None ->
  run_full_fetch host session fuel project_root raw config global args s = Some (Ok report, s') ->
  pulled fuel project_root raw config args s s' report.
Proof. intros Ho Hl Ht Hr H. by apply (e_success _ _ _ _ _ _ _ _ _ (post_full_fetch _ _ _ _ _ _ _ Ho Hl _ _ H)). Qed.

(** C10. A failed pull never spoils the lockfile, and a frozen one leaves it
    alone.  Whatever error a pull returns (of the cache, the resolution, the
    network, a checksum, the mirror, the write itself), the lockfile keeps its
    text; a panic is not covered, since the short form of a signature is also
    printed after the write.  And a pull with [--frozen] and without
    [--update], on a project that has a lockfile, changes neither it nor any
    other text file nor the mirror, whether it succeeds or fails (with
    [--update] it writes: [frozen_writes]).  Assumed: the rows of the index on
    disk name objects of the store, the mirror's links are intact, the requests
    of the resolution only add to the store ([settles]), and the temporary file
    that the write renames is not the lockfile itself ([sibling]: its name
    begins with a dot and ends in the process id and the clock). *)
Theorem pull_keeps_lock fuel project_root raw config global args s r s' :
  reopens s -> M2.linked (disk_of s) -> sibling project_root ->
  run_full_fetch host session fuel project_root raw config global args s = Some (r, s') ->
  (forall e, r = Err e -> e <> Panic ->
     texts s' !! lock_path project_root = texts s !! lock_path project_root) /\
  (frozen global = true -> update args = false -> is_Some (texts s !! lock_path project_root) ->
     texts s' = texts s /\ mirror s' = mirror s).
Proof.
  intros Ho Hl Hs H. destruct (post_full_fetch fuel project_root raw config global args s Ho Hl _ _ H) as [H1 H2 _].
  split; [by apply H1 | exact H2].
Qed.

Lemma again project_root raw config s lf root signature fuel global args s1 :
  resolves raw root -> signature_of host root = Ok signature -> is_Some (short_sig signature) ->
  locked project_root s lf -> Lockfile.project_signature (Lockfile.meta lf) = signature ->
  update args = false -> open_cache host config s = Some (Ok tt, s1) ->
  exists report s2, run_full_fetch host session fuel project_root raw config global args s = Some (Ok report, s2) /\
    lockfile_status report = Unchanged /\ fetched report = 0 /\
    r_entries report = length (Lockfile.entries lf) /\ aside s s2 /\
    world s2 = settle_root session (world s1).
Proof.
  intros Hroot Hsig [sig Hss] [[text Htext] Hlf] E Hu Ho.
  destruct (post_open_cache config s _ _ Ho) as [A _].
  unfold run_full_fetch. unfold mbind at 1, P_bind at 1. rewrite Ho.
  unfold mbind at 1, P_bind at 1, resolve_root. unfold resolves in Hroot. rewrite Hroot. cbn [map_err].
  unfold mbind at 1, P_bind at 1, Pull.lift at 1. rewrite Hsig. cbn [map_err].
  unfold mbind at 1, P_bind at 1, read_on_disk. cbn [texts with_world]. rewrite (proj1 A), Htext, Hlf. cbn [fmap result_fmap map_err].
  unfold mbind at 1, P_bind at 1, Pull.lift at 1, decide_lock. cbn zeta. rewrite E, String.eqb_refl, Hu, andb_false_r. cbn [negb andb].
  unfold report_authoritative, mbind, P_bind, emit_all, modify, short, Pull.lift. rewrite Hss. cbn.
  eexists _, _. by split_and!.
Qed.

(** Pulling is idempotent.  After a pull that succeeded, with any flags,
    a pull of the same project without [--update] (frozen or not, for any
    scope) succeeds, fetches nothing, reports the same number of entries and
    changes neither the lockfile nor the mirror; only the requests for the
    parents of the root reach the cache. *)
Theorem pull_again fuel project_root raw config global args s report s' fuel2 global2 args2 s1 :
  reopens s -> M2.linked (disk_of s) ->
  LockStore.toml_law (toml host) -> LockStore.read_error (lock_io host) (lock_path project_root) = None ->
  run_full_fetch host session fuel project_root raw config global args s = Some (Ok report, s') ->
  update args2 = false -> open_cache host config s' = Some (Ok tt, s1) ->
  exists report2 s2,
    run_full_fetch host session fuel2 project_root raw config global2 args2 s' = Some (Ok report2, s2) /\
    lockfile_status report2 = Unchanged /\ fetched report2 = 0 /\ r_entries report2 = r_entries report /\
    texts s2 = texts s' /\ mirror s2 = mirror s' /\ world s2 = settle_root session (world s1).
Proof.
  intros Ho Hl Ht Hr H Hu Hopen.
  destruct (e_success _ _ _ _ _ _ _ _ _ (post_full_fetch _ _ _ _ _ _ _ Ho Hl _ _ H) Ht Hr report eq_refl)
    as (_ & root & signature & lf & Hroot & Hsig & Hss & Hlf & E & Hn & _).
  destruct (again project_root raw config s' lf root signature fuel2 global2 args2 s1) as (report2 & s2 & H2 & H3 & H4 & H5 & [H6 H7] & H8);
    try done.
  exists report2, s2. split_and!; try done. by rewrite H5.
Qed.

(** [--no-fetch] writes no lockfile and changes nothing but the log. *)
Lemma no_fetch_writes_nothing project_root raw global args :
  forall s, post (run_no_fetch host project_root raw global args) s
    (fun _ s' => world s' = world s /\ mirror s' = mirror s /\ texts s' = texts s /\ dirs s' = dirs s).
Proof.
  intros s. unfold run_no_fetch. apply post_bind. intros r s1 H. unfold read_on_disk in H.
  assert (s1 = s) as -> by (destruct (texts s !! _); by injection H).
  destruct r as [[lf|]|e]; [| by apply post_ret | done].
  apply post_bind. intros r s2 [= <- <-]. apply post_bind, post_lift.
  destruct (short_sig _); cbn; [by apply post_ret | done].
Qed.

(** [--strict] changes the report and nothing else: the resolution is the
    nearest-wins walk either way. *)
Definition says_strict (b : bool) (r : PullReport) : PullReport :=
  mkReport (project_root r) (lockfile_status r) (r_entries r) (fetched r) (r_signature r) (r_coords r)
    (r_no_fetch r) b.

Definition with_strict (b : bool) (g : GlobalFlags) : GlobalFlags := mkGlobal (g_root g) (g_file g) b (frozen g).

Lemma bind_ext {A B} (m : P A) (k k' : A -> P B) : (forall a s, k a s = k' a s) -> forall s, (m ≫= k) s = (m ≫= k') s.
Proof. intros H s. unfold mbind, P_bind. destruct (m s) as [[[a|e] s']|]; [apply H | done | done]. Qed.

Lemma bind_assoc {A B B'} (m : P A) (k : A -> P B) (k' : B -> P B') s :
  ((m ≫= k) ≫= k') s = (m ≫= (fun a => k a ≫= k')) s.
Proof. unfold mbind, P_bind. by destruct (m s) as [[[a|e] s']|]. Qed.

Theorem strict_ignored b fuel project_root raw config global args s :
  run_full_fetch host session fuel project_root raw config (with_strict b global) args s
  = (run_full_fetch host session fuel project_root raw config global args ≫= (fun r => mret (says_strict b r))) s.
Proof.
  unfold run_full_fetch. do 5 (rewrite bind_assoc; apply bind_ext; intros ? ?). cbn beta. destruct a3 as [lf|].
  - unfold report_authoritative. do 2 (rewrite bind_assoc; apply bind_ext; intros ? ?). done.
  - unfold refresh. rewrite bind_assoc. apply bind_ext. intros g ?.
    rewrite bind_assoc. apply bind_ext. intros [es n] ?. cbn zeta.
    do 4 (rewrite bind_assoc; apply bind_ext; intros ? ?). done.
Qed.

(** ** The command ends *)

(** The scan of the root tag ends: each round moves past an occurrence. *)
Lemma str_find_bound pat s i : str_find pat s = Some i -> i + String.length pat <= String.length s.
Proof.
  revert i. induction s as [|a s IH]; intros i; cbn.
  - destruct pat; cbn; [by intros [= <-] | done].
  - destruct pat as [|b pat]; cbn; [intros [= <-]; lia |]. destruct (Ascii.eqb b a); [destruct (str_strip_prefix pat s) as [t|] eqn:Hp |].
    + intros [= <-]. clear IH. cbn. revert s Hp. induction pat as [|c pat IHp]; intros [|d s]; cbn; try lia; try done.
      destruct (Ascii.eqb c d); [| done]. intros Hp%IHp. lia.
    + intros (j & Hj & ->)%fmap_Some_1. specialize (IH j Hj). cbn in *. lia.
    + intros (j & Hj & ->)%fmap_Some_1. specialize (IH j Hj). cbn in *. lia.
Qed.

Lemma attr_loop_total fuel tag : forall i,
  String.length tag < i + fuel -> i <= String.length tag -> is_Some (attr_loop fuel tag i).
Proof.
  induction fuel as [|fuel IH]; intros i Hf Hi; [lia |]. cbn [attr_loop].
  destruct (str_find "root" (str_drop i tag)) as [idx|] eqn:Hr; [| by eexists].
  apply str_find_bound in Hr. rewrite str_drop_length in Hr. cbn zeta.
  destruct (_ && _); [by eexists |]. change (String.length "root") with 4 in Hr. apply IH; lia.
Qed.

Lemma declares_total text : is_Some (pom_declares_root_true text).
Proof.
  unfold pom_declares_root_true, attr_root_is_true. destruct (str_find _ _); [| by eexists].
  apply attr_loop_total; lia.
Qed.

(** An operation that always returns. *)
Definition total {A} (m : P A) : Prop := forall s, is_Some (m s).

Lemma ends_bind {A B} (m : P A) (k : A -> P B) : total m -> (forall a, total (k a)) -> total (m ≫= k).
Proof.
  intros Hm Hk s. unfold mbind, P_bind. destruct (Hm s) as [[[a|e] s'] ->]; [apply Hk | by eexists].
Qed.

Lemma total_need {A} (o : option A) : is_Some o -> total (need o).
Proof. intros [a ->] s. by eexists. Qed.

Lemma total_stop_on {E} (err : E -> PullError) o : total (stop_on err o).
Proof. by destruct o; intros s; eexists. Qed.

Lemma total_fetch_all fc deps : total (fetch_all host fc deps).
Proof.
  induction deps as [|dep deps IH]; cbn [fetch_all]; [by intros s; eexists |].
  apply ends_bind; [by intros s; eexists | intros _]. apply ends_bind; [| intros f].
  { intros s. unfold fetch_one. destruct (fetch_artifact_to_cache _ _ _ _ _ _ _). by eexists. }
  apply ends_bind; [by intros s; eexists | intros _]. apply ends_bind; [done |].
  intros [es n] s. by eexists.
Qed.

Lemma total_materialize_all m2_root deps : forall es, total (materialize_all host m2_root deps es).
Proof.
  induction deps as [|dep deps IH]; intros [|e es]; cbn [materialize_all]; try by intros s; eexists.
  apply ends_bind; [| done]. intros s. unfold materialize_one.
  destruct (from_hex _); [destruct (M2.materialize _ _ _ _ _ _ _ _) as [[] ?] |]; by eexists.
Qed.

Lemma total_after {A B} (m : P A) (k : A -> P B) :
  total m -> (forall a s s', m s = Some (Ok a, s') -> total (k a)) -> total (m ≫= k).
Proof.
  intros Hm Hk s. unfold mbind, P_bind. destruct (Hm s) as [[[a|e] s'] E]; rewrite E; [by eapply Hk | by eexists].
Qed.

Ltac ends := solve [intros ?; by eexists].

Lemma total_open_cache config : total (open_cache host config).
Proof.
  unfold open_cache. do 2 (apply ends_bind; [apply total_stop_on | intros _]).
  apply ends_bind; [| intros _; apply ends_bind; intros; apply total_stop_on].
  intros s. unfold open_index.
  destruct (IndexFacts.open_terminates true (Index.disk (index (world s)))) as [r Hr].
  unfold Index.open_with_recovery. rewrite Hr. destruct r as [[ix report]|e]; [| by eexists].
  destruct (Index.journal_truncated report); by eexists.
Qed.

Lemma total_refresh fuel project_root raw config global args root signature on_disk :
  @Walker.walk CF Env FS (source session) (walk_opts args) fuel root None <> None ->
  total (refresh host session fuel project_root raw config global args root signature on_disk).
Proof.
  intros Hw. unfold refresh. apply ends_bind; [| intros g].
  { intros s. unfold walk_graph. fold (walk_opts args). destruct (Walker.walk _ _ _ _) as [[r x]|]; [by eexists | done]. }
  apply ends_bind; [apply total_fetch_all | intros [es n]].
  apply ends_bind; [apply total_materialize_all | intros _].
  apply ends_bind; [ends | intros _]. cbn zeta. apply ends_bind; [| intros _].
  { intros s. unfold write_lock. destruct (LockStore.write _ _ _ _ _ _). by eexists. }
  apply ends_bind; [ends | intros sig; ends].
Qed.

(** The walk of the resolved root ends with this fuel. *)
Definition walk_ends (fuel : nat) (args : PullArgs) (raw : Pom.RawPom) : Prop :=
  forall root, resolves raw root -> @Walker.walk CF Env FS (source session) (walk_opts args) fuel root None <> None.

Lemma total_full_fetch fuel project_root raw config global args :
  walk_ends fuel args raw -> total (run_full_fetch host session fuel project_root raw config global args).
Proof.
  intros Hw. unfold run_full_fetch. apply ends_bind; [apply total_open_cache | intros _].
  apply total_after; [ends |]. intros root s s' Hroot.
  assert (Hr : resolves raw root).
  { unfold resolves. unfold resolve_root in Hroot. destruct (Profile.resolve_pom _ _ _); [| done].
    by injection Hroot as ->. }
  apply ends_bind; [ends | intros signature].
  apply ends_bind; [intros s2; unfold read_on_disk; destruct (texts s2 !! _); by eexists | intros on_disk].
  apply ends_bind; [ends | intros [lf|]]; [| by apply total_refresh, Hw].
  apply ends_bind; [ends | intros _]. apply ends_bind; [ends | intros sig; ends].
Qed.

Lemma total_needed {A B} (o : option A) (k : A -> P B) :
  is_Some o -> (forall a, o = Some a -> total (k a)) -> total (need o ≫= k).
Proof. intros [a ->] Hk s. by apply Hk. Qed.

Lemma total_lifted {A B} (r : result PullError A) (k : A -> P B) :
  (forall a, r = Ok a -> total (k a)) -> total (Pull.lift r ≫= k).
Proof. intros Hk s. destruct r as [a|e]; [by apply (Hk a) | by eexists]. Qed.

Lemma total_no_fetch project_root raw global args : total (run_no_fetch host project_root raw global args).
Proof.
  unfold run_no_fetch. apply ends_bind.
  { intros s. unfold read_on_disk. destruct (texts s !! _); by eexists. }
  intros [lf|]; [| ends]. apply ends_bind; [ends | intros _]. apply ends_bind; [ends | intros sig; ends].
Qed.

Lemma total_marker project_root text : total (ensure_root_marker host project_root text).
Proof.
  unfold ensure_root_marker. apply ends_bind; [apply total_need, declares_total |].
  intros []; [ends |]. apply ends_bind; [apply total_stop_on | intros _; ends].
Qed.

(** A pull always ends, with a report or an error, when the walk of its
    dependencies does. *)
Theorem pull_total fuel global args s :
  (forall p text raw, Project.resolve_project_root (Project.flags (g_root global) (g_file global)) = Some (Ok p) ->
     Project.read_file (Project.pom p) = Ok text -> PomXml.parse_pom text = Some (Ok raw) ->
     walk_ends fuel args raw) ->
  is_Some (run_inner host session fuel global args s).
Proof.
  intros Hw. revert s. change (total (run_inner host session fuel global args)). unfold run_inner.
  apply ends_bind; [ends | intros _]. apply total_needed.
  { destruct (Project.project_root_exact (Project.flags (g_root global) (g_file global))) as (found & Hf & _).
    by exists found. }
  intros found Hfound. apply total_lifted. intros p Hp. destruct found as [p'|]; [| done]. injection Hp as ->.
  apply total_needed; [apply LoaderFacts.load_total | intros loaded _].
  apply ends_bind; [ends | intros [config audit]].
  apply total_lifted. intros text Htext.
  destruct (Project.read_file (Project.pom p)) as [text'|] eqn:Hread; [| done]. injection Htext as ->.
  apply total_needed; [apply PomXml.parse_pom_total | intros parsed Hparsed].
  apply total_lifted. intros raw Hraw. destruct parsed as [raw'|]; [| done]. injection Hraw as ->.
  apply ends_bind; [ends | intros _]. destruct (no_fetch args).
  - apply ends_bind; [apply total_no_fetch | intros report]. apply ends_bind; [ends | intros _; ends].
  - apply ends_bind; [apply total_marker | intros _].
    apply ends_bind; [apply total_full_fetch; by eapply Hw | intros report].
    apply ends_bind; [ends | intros _; ends].
Qed.

End Command.

(** ** Linked artifacts are not collected *)

Section Collect.
Context `{C : Codec}.

Lemma gc_loop_keeps low rows : forall total stats c r c' h b,
  Gc.gc_loop true low rows total stats c = (r, c') ->
  Gc.cas c !! h = Some b -> (2 <= nlink b)%Z -> Gc.cas c' !! h = Some b.
Proof.
  induction rows as [|[key entry] rows IH]; intros total stats c r c' h b H Hb Hn; cbn in H;
    [by injection H as <- <- |].
  destruct (total <? low)%Z; [by injection H as <- <- |]. unfold Gc.action in H.
  destruct (Gc.cas c !! hash entry) as [b0|] eqn:He.
  - destruct (Z.leb_spec 2 (nlink b0)); [by eapply IH |].
    assert (Hd : delete (hash entry) (Gc.cas c) !! h = Some b).
    { rewrite lookup_delete_ne; [done |]. intros E. rewrite E in He. assert (b0 = b) as -> by congruence. lia. }
    unfold Gc.remove_row in H. cbn in H. destruct (Index.remove key _) as [[x|e] ix].
    + by eapply IH.
    + injection H as <- <-. exact Hd.
  - unfold Gc.remove_row in H. destruct (Index.remove key _) as [[x|e] ix].
    + by eapply IH.
    + by injection H as <- <-.
Qed.

(** A collection with [keep_hardlinked] leaves every file of the mirror its
    object: what a pull linked stays in the cache. *)
Theorem linked_kept config d ix r c' p f h :
  M2.linked d -> M2.files d !! p = Some f -> M2.inode f = Some h ->
  Gc.keep_hardlinked config = true ->
  Gc.run_gc config (Gc.mkCache (M2.store d) ix) = (r, c') ->
  Cas.get h (Gc.cas c') = Some (M2.bytes f).
Proof.
  intros Hl Hp Hi Hk H. destruct (M2.linked_pinned d p f h Hl Hp Hi) as (b & Hb & Hn).
  pose proof (M2.l_bytes d Hl _ _ _ Hp Hi) as Hd. unfold Cas.get in *. rewrite Hb in Hd.
  assert (Gc.cas c' !! h = Some b) as ->; [| done].
  unfold Gc.run_gc in H. cbn zeta in H. destruct (_ <? _)%Z; [by injection H as <- <- |].
  rewrite Hk in H. destruct (Gc.gc_loop _ _ _ _ _ _) as [[[t st]|e] c1] eqn:E;
    injection H as <- <-; exact (gc_loop_keeps _ _ _ _ _ _ _ _ _ E Hb Hn).
Qed.

End Collect.
End PullFacts.
