(* ===== verification/Pour.v ===== *)
(** * barista-cli: pour

    Models crates/barista-cli/src/cmd/pour.rs: the artifacts of barista.lock
    are linked from the store into a repository.  The state is that of
    [Pull]; the theorem at the end composes the two commands. *)

From S2P Require Import Prelude Version Coords VersionSpec Pom Xml PomXml Effective Profile Source Skipper.
From S2P Require Import Oreq Walker WalkerFacts WalkerGraph Cas Journal Index IndexFacts MetadataXml Fetch CacheSource.
From S2P Require Import CacheSourceFacts Gc Settings Config Loader LoaderFacts Project M2 SortBy Lockfile.
From S2P Require Import LockStore Pull PullFacts.

Module Pour.
Import Coords Cas Journal Fetch CacheSource CacheSourceFacts Pull PullFacts.

Record PourArgs := mkPourArgs { p_scope : ScopeArg; p_target : option path; dry_run : bool }.

Record PourReport := mkPourReport {
  target : path;
  pr_scope : string;
  considered : nat;
  planned : nat;
  materialized : nat;
  pr_dry_run : bool;
  planned_paths : list path
}.

Inductive PourError : Type :=
  | Project (e : Project.ResolveError)
  | Config (e : Loader.LoaderError)
  | LockfileErr (e : Lockfile.LockfileError)
  | NoLockfile (expected_at : path)
  | CasOpen (p : path) (detail : string)
  | BadHash (coord : string) (e : CasError)
  | BadCoords (coord : string) (e : ParseError)
  | NotInCache (coords : list string)
  | Mirror (coord : string) (e : M2.MirrorError)
  | NotYetImplemented (detail : string).

Definition is_precondition (e : PourError) : bool :=
  match e with
  | Project _ | NoLockfile _ | NotInCache _ | BadCoords _ _ | BadHash _ _ | NotYetImplemented _ => true
  | _ => false
  end.

Definition scope_str (s : ScopeArg) : string :=
  match s with
  | SCompile => "compile"
  | SRuntime => "runtime"
  | STest => "test"
  | SProvided => "provided"
  | SSystem => "system"
  end.

Definition scope_matches (requested entry_scope : string) : bool := eq_ignore_ascii_case requested entry_scope.

Definition path_of (target : path) (c : Coords) (e : Lockfile.LockfileEntry) : path :=
  M2.m2_path target c (Lockfile.version e) (Lockfile.classifier e) (Lockfile.type_ e).

Definition parse_coords (e : Lockfile.LockfileEntry) : result PourError Coords :=
  map_err (BadCoords (Lockfile.coords e)) (Coords.from_str (Lockfile.coords e)).

Fixpoint plan_dry_run (selected : list Lockfile.LockfileEntry) (target : path) : result PourError (list path) :=
  match selected with
  | [] => Ok []
  | e :: selected' =>
      c ← parse_coords e;
      rest ← plan_dry_run selected' target;
      Ok (path_of target c e :: rest)
  end.

(** The check of the store: what is there, and what is missing. *)
Fixpoint plan (st : Store) (selected : list Lockfile.LockfileEntry)
    : result PourError (list (ContentHash * Lockfile.LockfileEntry) * list string) :=
  match selected with
  | [] => Ok ([], [])
  | e :: selected' =>
      h ← map_err (BadHash (format_coord e)) (from_hex (Lockfile.sha256 e));
      '(p, missing) ← plan st selected';
      Ok (if contains h st then ((h, e) :: p, missing) else (p, format_coord e :: missing))
  end.

Fixpoint place_all (v : M2.Volume) (target : path) (p : list (ContentHash * Lockfile.LockfileEntry))
    (d : M2.Disk) : result PourError (list path) * M2.Disk :=
  match p with
  | [] => (Ok [], d)
  | (h, e) :: p' =>
      match parse_coords e with
      | Err err => (Err err, d)
      | Ok c =>
          match M2.materialize v h target c (Lockfile.version e) (Lockfile.classifier e) (Lockfile.type_ e) d with
          | (Err err, d1) => (Err (Mirror (format_coord e) err), d1)
          | (Ok dest, d1) =>
              match place_all v target p' d1 with
              | (Err err, d2) => (Err err, d2)
              | (Ok dests, d2) => (Ok (dest :: dests), d2)
              end
          end
      end
  end.

Section Pour.
Context `{Q : Xml.QuickXml} `{Env : Environment} `{FS : FileSystem} `{R : Loader.ConfigReader}.
Context `{PF : Project.ProjectFiles}.
Variable host : Host.

(** Everything after the lockfile was read. *)
Definition pour_lockfile (lockfile : Lockfile.Lockfile) (config : Config.Config) (args : PourArgs) (s : State)
    : result PourError PourReport * State :=
  let requested := scope_str (p_scope args) in
  let selected := filter (fun e => scope_matches requested (Lockfile.scope e) = true) (Lockfile.entries lockfile) in
  let target := default (Config.m2_repository (Config.paths config)) (p_target args) in
  let n := length (Lockfile.entries lockfile) in
  if dry_run args then
    (p ← plan_dry_run selected target; Ok (mkPourReport target requested n (length p) 0 true p), s)
  else
    match cas_open host (Config.cache_dir (Config.paths config)) with
    | Some detail => (Err (CasOpen (Config.cache_dir (Config.paths config)) detail), s)
    | None =>
        match plan (store (world s)) selected with
        | Err e => (Err e, s)
        | Ok (_, (_ :: _) as missing) => (Err (NotInCache missing), s)
        | Ok (p, []) =>
            match place_all (volume host) target p (disk_of s) with
            | (Err e, d) => (Err e, with_disk d s)
            | (Ok dests, d) =>
                (Ok (mkPourReport target requested n (length p) (length dests) false dests), with_disk d s)
            end
        end
    end.

Definition pour_in (project_root : path) (config : Config.Config) (args : PourArgs) (s : State)
    : result PourError PourReport * State :=
  let p := lock_path project_root in
  match texts s !! p with
  | None => (Err (NoLockfile p), s)
  | Some _ =>
      match LockStore.read (toml host) (lock_io host) p (texts s) with
      | Err e => (Err (LockfileErr e), s)
      | Ok lockfile => pour_lockfile lockfile config args s
      end
  end.

(** [run_inner]; the outer [None] is fuel exhaustion of the search and the
    loader. *)
Definition run_inner (global : GlobalFlags) (args : PourArgs) (s : State)
    : option (result PourError PourReport * State) :=
  match Project.resolve_project_root (Project.flags (g_root global) (g_file global)) with
  | None => None
  | Some (Err e) => Some (Err (Project e), s)
  | Some (Ok root) =>
      match Loader.load_effective_config (loader_inputs (Project.root root)) with
      | None => None
      | Some (Err e) => Some (Err (Config e), s)
      | Some (Ok (config, _)) => Some (pour_in (Project.root root) config args s)
      end
  end.

(** [run]: the exit code, given whether the report is rendered and the output
    flushed. *)
Definition exit_code (r : result PourError PourReport) (rendered flushed : bool) : Z :=
  match r with
  | Ok _ => if rendered && flushed then 0 else 1
  | Err e => if flushed && is_precondition e then 2 else 1
  end.

End Pour.

(** ** What a pour does *)

Section Placing.
Context `{D : Digest}.

Lemma Forall2_with {A B} (R R' : A -> B -> Prop) (Q : B -> Prop) l k :
  Forall2 R l k -> Forall Q k -> (forall x y, R x y -> Q y -> R' x y) -> Forall2 R' l k.
Proof. intros H HQ Himp. induction H; inversion HQ; subst; constructor; auto. Qed.

(** Where an entry goes. *)
Definition goes (target : path) (e : Lockfile.LockfileEntry) (p : path) : Prop :=
  exists c, Coords.from_str (Lockfile.coords e) = Ok c /\ p = path_of target c e.

(** The file of an entry has the bytes that the entry pins. *)
Definition poured (target : path) (d : M2.Disk) (e : Lockfile.LockfileEntry) : Prop :=
  exists h p f, from_hex (Lockfile.sha256 e) = Ok h /\ goes target e p /\
    M2.files d !! p = Some f /\ Cas.get h (M2.store d) = Some (M2.bytes f).

Lemma plan_ready st selected :
  Forall (fun e => exists h, from_hex (Lockfile.sha256 e) = Ok h /\ is_Some (Cas.get h st)) selected ->
  exists p, plan st selected = Ok (p, []) /\ p.*2 = selected /\
    Forall (fun x => from_hex (Lockfile.sha256 x.2) = Ok x.1) p.
Proof.
  induction 1 as [|e selected (h & Hh & Hg) _ (p & Hp & E & HF)]; [by exists [] |].
  cbn [plan]. rewrite Hh. cbn. rewrite Hp. cbn. unfold contains.
  rewrite bool_decide_true by (unfold Cas.get in Hg; by destruct (st !! h), Hg).
  exists ((h, e) :: p). cbn. rewrite E. split_and!; [done | done | by constructor].
Qed.

(** Objects and other files stay; on success each entry is in its place. *)
Lemma place_all_spec v target p : forall d r d',
  place_all v target p d = (r, d') -> M2.linked d ->
  Forall (fun x => from_hex (Lockfile.sha256 x.2) = Ok x.1 /\ exists c, Coords.from_str (Lockfile.coords x.2) = Ok c) p ->
  M2.linked d' /\ (forall h, Cas.get h (M2.store d') = Cas.get h (M2.store d)) /\
  (forall q, (forall x, x ∈ p -> ~ goes target x.2 q) -> M2.files d' !! q = M2.files d !! q) /\
  match r with
  | Ok dests => Forall2 (fun x q => goes target x.2 q) p dests /\
      (NoDup dests -> Forall (fun x => poured target d' x.2) p)
  | Err e => exists coord err, e = Mirror coord err
  end.
Proof.
  induction p as [|[h e] p IH]; intros d r d' H Hl HF; cbn in H.
  { injection H as <- <-. split_and!; [done | done | done | constructor |]. constructor. }
  apply list.Forall_cons in HF as [[Hh [c Hc]] HF]. cbn in Hh, Hc. unfold parse_coords in H. rewrite Hc in H. cbn in H.
  destruct (M2.materialize _ _ _ _ _ _ _ _) as [rm d1] eqn:Hm.
  pose proof (M2.materialize_kept _ _ _ _ _ _ _ _ _ _ Hm) as [Ko Kf Kl]. specialize (Kl Hl).
  assert (Hstay : forall q, ~ goes target e q -> M2.files d1 !! q = M2.files d !! q).
  { intros q Hq. apply Kf. intros ->. apply Hq. by exists c. }
  destruct rm as [q|err].
  2: { injection H as <- <-. split_and!; [done | done | | eauto].
       intros q Hq. apply Hstay. apply (Hq (h, e)). by left. }
  destruct (M2.materialize_bytes _ _ _ _ _ _ _ _ _ _ Hm Hl) as (-> & f & Hf & Hb).
  destruct (place_all v target p d1) as [r2 d2] eqn:Hp.
  destruct (IH d1 r2 d2 Hp Kl HF) as (L2 & O2 & F2 & R2).
  assert (Hkeep : forall q, (forall x, x ∈ (h, e) :: p -> ~ goes target x.2 q) -> M2.files d2 !! q = M2.files d !! q).
  { intros q Hq. rewrite F2 by (intros x Hx; apply Hq; by right). apply Hstay. apply (Hq (h, e)). by left. }
  destruct r2 as [dests|err]; injection H as <- <-;
    (split; [done | split; [intros h'; by rewrite O2 | split; [done |]]]); [| done].
  destruct R2 as [R2 P2]. split; [constructor; [by exists c | done] |].
  intros [Hn Hd]%list.NoDup_cons. constructor; [| by apply P2].
  exists h, (path_of target c e), f. split_and!; [done | by exists c | | by rewrite O2].
  rewrite F2; [done |]. intros x Hx Hg. apply Hn.
  apply list_elem_of_lookup in Hx as [i Hi]. destruct (Forall2_lookup_l _ _ _ _ _ R2 Hi) as (q & Hq & c' & Hc' & ->).
  destruct Hg as (c'' & Hc'' & E). fold (path_of target c e). rewrite E. assert (c'' = c') as -> by congruence.
  by apply list_elem_of_lookup_2 with i.
Qed.

End Placing.

(** ** Pull, then pour *)

Section Compose.
Context `{D : Digest} `{S1 : Sha1} `{C : Codec} `{CF : CaseFolding} `{Q : Xml.QuickXml}.
Context `{Env : Environment} `{FS : FileSystem} `{R : Loader.ConfigReader} `{PF : Project.ProjectFiles}.
Variable host : Host.

(** SHA-256 has 32 bytes. *)
Definition digest_law : Prop := forall b, hash_wf (sha256 b).

(** Coordinates that can be written and read back, as text and as files. *)
Definition neat (dep : Walker.ResolvedDep) : Prop := tidied dep /\ coords_wf (Walker.coords dep) = true.

Definition wanted (args : PourArgs) (dep : Walker.ResolvedDep) : Prop :=
  scope_matches (scope_str (p_scope args)) (scope_to_str (Walker.scope dep)) = true.

Definition selects (args : PourArgs) (e : Lockfile.LockfileEntry) : Prop :=
  scope_matches (scope_str (p_scope args)) (Lockfile.scope e) = true.

#[export] Instance wanted_dec args dep : Decision (wanted args dep) :=
  decide (scope_matches (scope_str (p_scope args)) (scope_to_str (Walker.scope dep)) = true).
#[export] Instance selects_dec args e : Decision (selects args e) :=
  decide (scope_matches (scope_str (p_scope args)) (Lockfile.scope e) = true).

Lemma from_to_hex h : hash_wf h -> from_hex (to_hex h) = Ok h.
Proof.
  intros [Hl Hb]. unfold from_hex, to_hex. rewrite encode_length, Hl. cbn. rewrite decode_encode by done.
  by destruct h.
Qed.

(** A recorded artifact can be poured. *)
Lemma recorded_ready s dep e :
  digest_law -> good s -> coords_wf (Walker.coords dep) = true -> recorded s dep e ->
  (exists h, from_hex (Lockfile.sha256 e) = Ok h /\ is_Some (Cas.get h (store (world s)))) /\
  Coords.from_str (Lockfile.coords e) = Ok (Walker.coords dep) /\
  forall target, path_of target (Walker.coords dep) e = dest target dep.
Proof.
  intros Hd Hg Hc (f & -> & [d Hget] & _). split_and!; [| by apply coords_roundtrip | done].
  exists (f_sha256 f). split; [| by exists d]. cbn. apply from_to_hex.
  unfold Cas.get in Hget. destruct (store (world s) !! f_sha256 f) as [b|] eqn:Hb; [| done].
  rewrite <- (s_intact _ (g_sound s Hg) _ _ Hb). apply Hd.
Qed.

Lemma dests_of target s deps es p dests :
  Forall2 (fun dep e => recorded s dep e /\ Coords.from_str (Lockfile.coords e) = Ok (Walker.coords dep)) deps es ->
  p.*2 = es -> Forall2 (fun (x : ContentHash * Lockfile.LockfileEntry) q => goes target x.2 q) p dests ->
  dests = dest target <$> deps.
Proof.
  intros H. revert p dests. induction H as [|dep e deps es [(f & -> & _) Hc] _ IH]; intros [|[h e'] p] dests E HF;
    try done; inversion HF as [|? q ? qs Hq Hqs]; subst; [done |].
  cbn in E. injection E as E1 E2. cbn. f_equal; [| by apply (IH p)].
  destruct Hq as (c & Hc' & ->). cbn in Hc'. subst e'. by assert (c = Walker.coords dep) as -> by congruence.
Qed.

(** A recorded artifact that is neat and in the scope. *)
Definition ready (s : State) (dep : Walker.ResolvedDep) (e : Lockfile.LockfileEntry) : Prop :=
  recorded s dep e /\ neat dep.

Lemma ready_selected s args deps es :
  Forall2 (recorded s) deps es -> Forall neat deps ->
  Forall2 (ready s) (filter (wanted args) deps) (filter (selects args) es).
Proof.
  intros H Hn. apply Forall2_filter; [by intros dep e [(f & -> & _) _] |].
  induction H as [|dep e deps es Hr _ IH]; [constructor |]. apply list.Forall_cons in Hn as [Hd Hn].
  constructor; [by split | by apply IH].
Qed.

(** The artifacts of a graph, poured into a repository. *)
Lemma pour_pins lf config args s deps r s' :
  digest_law -> good s -> NoDup (Walker.coords <$> deps) -> Forall neat deps ->
  Forall2 (recorded s) deps (Lockfile.entries lf) ->
  dry_run args = false -> cas_open host (Config.cache_dir (Config.paths config)) = None ->
  pour_lockfile host lf config args s = (r, s') ->
  (exists coord e, r = Err (Mirror coord e)) \/
  exists report, r = Ok report /\ planned report = materialized report /\
    materialized report = length (filter (wanted args) deps) /\
    Forall2 (placed (target report) s') (filter (wanted args) deps) (filter (selects args) (Lockfile.entries lf)).
Proof.
  intros Hd Hg Hnd Hn Hrec Hdry Hopen H. unfold pour_lockfile in H. cbn zeta in H. rewrite Hdry, Hopen in H.
  pose proof (ready_selected s args deps _ Hrec Hn) as Hsel.
  change (filter _ (Lockfile.entries lf)) with (filter (selects args) (Lockfile.entries lf)) in H.
  set (ds := filter (wanted args) deps) in *. set (es := filter (selects args) (Lockfile.entries lf)) in *.
  set (t := default _ (p_target args)) in *.
  assert (Hparse : Forall2 (fun dep e => recorded s dep e /\ Coords.from_str (Lockfile.coords e) = Ok (Walker.coords dep)) ds es).
  { eapply list.Forall2_impl; [exact Hsel |]. intros dep e [Hr [_ Hc]]. split; [done |].
    by apply (recorded_ready s dep e). }
  assert (Hin : Forall (fun e => (exists h, from_hex (Lockfile.sha256 e) = Ok h /\ is_Some (Cas.get h (store (world s))))
    /\ exists c, Coords.from_str (Lockfile.coords e) = Ok c) es).
  { eapply Forall2_Forall_r; [exact Hsel |]. apply list.Forall_forall. intros dep _ e [Hr [_ Hc]].
    destruct (recorded_ready s dep e Hd Hg Hc Hr) as (H1 & H2 & _). eauto. }
  destruct (plan_ready (store (world s)) es) as (p & Hp & Ep & HFp); [by eapply list.Forall_impl; [exact Hin | intros e []] |].
  rewrite Hp in H. destruct (place_all (volume host) t p (disk_of s)) as [rp d] eqn:Hpl.
  destruct (place_all_spec _ _ _ _ _ _ Hpl (g_linked s Hg)) as (L & O & _ & HR).
  { rewrite <- Ep in Hin. apply Forall_fmap in Hin. eapply list.Forall_impl; [exact (List.Forall_and HFp Hin) |].
    by intros x (H1 & _ & H2). }
  destruct rp as [dests|err]; injection H as <- <-; [right | left; destruct HR as (coord & err' & ->); eauto].
  destruct HR as [HR HP]. pose proof (dests_of t s ds es p dests Hparse Ep HR) as ->.
  assert (length p = length ds) as Elen.
  { rewrite <- (length_fmap snd p), Ep. symmetry. by eapply Forall2_length. }
  eexists. split; [done |]. cbn. rewrite length_fmap. split_and!; [done | done |].
  assert (Hnodup : NoDup (dest t <$> ds)).
  { apply dest_nodup; [by apply nodup_fmap_filter |].
    rewrite list.Forall_forall in *. intros dep [_ Hdep]%list_elem_of_filter. by apply Hn. }
  assert (HPe : Forall (poured t d) es) by (rewrite <- Ep; apply Forall_fmap; exact (HP Hnodup)).
  eapply Forall2_with; [exact Hparse | exact HPe |]. intros dep e [(f & -> & _) Hc] (h & q & file & Hh & (c & Hc' & ->) & Hf & Hb).
  assert (c = Walker.coords dep) as -> by congruence. by exists h, file.
Qed.

(** C9. Pull, then pour: after a pull that resolved the graph (there was no
    lockfile, or [--update]), of coordinates that are plain names, pouring
    one scope into any repository finds every artifact it needs; unless a
    link cannot be made there, as many files are placed as the graph has
    artifacts of that scope, and each of these is at its Maven path with the
    bytes of the object that the lockfile pins. *)
Theorem pull_then_pour session fuel project_root raw config global args s report s' pargs r s'' :
  settles session -> digest_law -> reopens s -> M2.linked (disk_of s) ->
  LockStore.toml_law (toml host) -> LockStore.read_error (lock_io host) (lock_path project_root) = None ->
  (update args = true \/ texts s !! lock_path project_root = None) ->
  (forall root g, resolves session raw root -> walked session fuel args root g -> Forall neat (Walker.resolved g)) ->
  run_full_fetch host session fuel project_root raw config global args s = Some (Ok report, s') ->
  dry_run pargs = false -> cas_open host (Config.cache_dir (Config.paths config)) = None ->
  pour_in host project_root config pargs s' = (r, s'') ->
  (exists coord e, r = Err (Mirror coord e)) \/
  exists preport root g lf, r = Ok preport /\ resolves session raw root /\ walked session fuel args root g /\
    locked host project_root s' lf /\
    materialized preport = length (filter (wanted pargs) (Walker.resolved g)) /\
    Forall2 (placed (target preport) s'') (filter (wanted pargs) (Walker.resolved g))
      (filter (selects pargs) (Lockfile.entries lf)).
Proof.
  intros Hset Hdig Ho Hl Ht Hre Hcase Hneat Hrun Hdry Hcas Hpour.
  destruct (e_success _ _ _ _ _ _ _ _ _ _ _ (post_full_fetch host session Hset _ _ _ _ _ _ _ Ho Hl _ _ Hrun) Ht Hre report eq_refl)
    as (Hg & root & signature & lf & Hroot & _ & _ & [Htext Hlf] & _ & _ & Hend).
  assert (exists g, walked session fuel args root g /\ Forall2 (recorded s') (Walker.resolved g) (Lockfile.entries lf))
    as (g & Hw & Hrec).
  { destruct Hend as [(Hu & [E _] & _)|(g & Hw & Hp & _)]; [| eauto]. exfalso.
    destruct Hcase as [Hc|Hc]; [congruence |]. rewrite E, Hc in Htext. by destruct Htext. }
  unfold pour_in in Hpour. destruct Htext as [x Hx]. rewrite Hx, Hlf in Hpour.
  destruct (pour_pins lf config pargs s' (Walker.resolved g) r s'' Hdig Hg (walked_nodup _ _ _ _ _ Hw)
    (Hneat _ _ Hroot Hw) Hrec Hdry Hcas Hpour) as [He|(preport & -> & _ & Hn & HF)]; [by left |].
  right. exists preport, root, g, lf. by split_and!.
Qed.

End Compose.
End Pour.
