(* ===== verification/LockfileFacts.v ===== *)
(** * Theorems on the lockfile's timestamps, modes and signature *)

From S2P Require Import Prelude Pom Cas Journal SortBy Lockfile.

Module LockfileFacts.
Import Cas Lockfile.

(** ** The Gregorian calendar *)

Definition leap (y : Z) : bool :=
  ((y mod 4 =? 0) && (negb (y mod 100 =? 0) || (y mod 400 =? 0)))%Z.

Definition days_in_month (y m : Z) : Z :=
  if (m =? 2)%Z then (if leap y then 29 else 28)
  else if ((m =? 4) || (m =? 6) || (m =? 9) || (m =? 11))%Z then 30 else 31.

Definition next_day (t : Z * Z * Z) : Z * Z * Z :=
  let '(y, m, d) := t in
  if (d <? days_in_month y m)%Z then (y, m, d + 1)%Z
  else if (m <? 12)%Z then (y, m + 1, 1)%Z else (y + 1, 1, 1)%Z.

(** The date [n] days after 1970-01-01. *)
Definition date_after (n : nat) : Z * Z * Z := Nat.iter n next_day (1970, 1, 1)%Z.

(** *** Hinnant's years, from March to February *)

(** The year of an era from the day of the era, and a year's first day. *)
Definition year_of (doe : Z) : Z := ((doe - doe / 1460 + doe / 36524 - doe / 146096) / 365)%Z.
Definition year_start (y : Z) : Z := (365 * y + y / 4 - y / 100)%Z.
Definition year_len (y : Z) : Z := if leap (y + 1) then 366 else 365.

Lemma leap_shift y k : leap (y + 400 * k) = leap y.
Proof.
  unfold leap. replace (y + 400 * k)%Z with (y + (100 * k) * 4)%Z at 1 by lia.
  replace (y + 400 * k)%Z with (y + (4 * k) * 100)%Z at 1 by lia.
  replace (y + 400 * k)%Z with (y + k * 400)%Z by lia. by rewrite !Z.mod_add by lia.
Qed.

Lemma year_of_mono a b : (a <= b -> year_of a <= year_of b)%Z.
Proof.
  intros H. apply Z.div_le_mono; [lia |]. revert H. Z.to_euclidean_division_equations. lia.
Qed.

Lemma year_start_mono a b : (a <= b -> year_start a <= year_start b)%Z.
Proof. unfold year_start. Z.to_euclidean_division_equations. lia. Qed.

(** A check of every integer of a range. *)
Lemma check_range (P : Z -> bool) n :
  forallb P (map Z.of_nat (seq 0 n)) = true -> forall z, (0 <= z < Z.of_nat n)%Z -> P z = true.
Proof.
  rewrite forallb_forall. intros H z Hz. apply H, in_map_iff. exists (Z.to_nat z).
  split; [lia |]. apply in_seq. lia.
Qed.

Definition year_ok (y : Z) : bool :=
  ((year_of (year_start y) =? y) && (year_of (year_start y + year_len y - 1) =? y)
   && (year_start y + year_len y =? (if y =? 399 then 146097 else year_start (y + 1))))%Z.

Lemma year_facts y : (0 <= y < 400)%Z ->
  year_of (year_start y) = y /\ year_of (year_start y + year_len y - 1) = y
  /\ (year_start y + year_len y = if y =? 399 then 146097 else year_start (y + 1))%Z.
Proof.
  intros Hy. assert (H : year_ok y = true) by (apply (check_range year_ok 400); [by vm_compute | done]).
  unfold year_ok in H. rewrite !andb_true_iff, !Z.eqb_eq in H. tauto.
Qed.

Lemma year_within y doe : (0 <= y < 400)%Z ->
  (year_start y <= doe < year_start y + year_len y)%Z -> year_of doe = y.
Proof.
  intros Hy Hd. destruct (year_facts y Hy) as (H1 & H2 & _).
  pose proof (year_of_mono (year_start y) doe). pose proof (year_of_mono doe (year_start y + year_len y - 1)). lia.
Qed.

Lemma year_of_bounds doe : (0 <= doe < 146097)%Z ->
  let y := year_of doe in
  (0 <= y < 400 /\ year_start y <= doe < year_start y + year_len y)%Z.
Proof.
  intros Hd y. assert (Hy : (0 <= y < 400)%Z).
  { pose proof (year_of_mono 0 doe) as H0. pose proof (year_of_mono doe 146096) as H1.
    change (year_of 0) with 0%Z in H0. change (year_of 146096) with 399%Z in H1. lia. }
  split; [done |]. destruct (year_facts y Hy) as (_ & _ & H3). split.
  - apply Z.nlt_ge. intros Hlt. assert (Hp : (0 <= y - 1 < 400)%Z).
    { split; [| lia]. destruct (decide (y = 0)%Z) as [E|]; [| lia]. rewrite E in Hlt. change (year_start 0) with 0%Z in Hlt. lia. }
    destruct (year_facts (y - 1) Hp) as (_ & H2 & H3'). rewrite (proj2 (Z.eqb_neq (y - 1) 399)) in H3' by lia.
    replace (y - 1 + 1)%Z with y in H3' by lia. rewrite H3' in H2.
    pose proof (year_of_mono doe (year_start y - 1)). lia.
  - apply Z.nle_gt. intros Hge. destruct (Z.eqb_spec y 399) as [E|Hne]; [lia |].
    destruct (year_facts (y + 1)) as (H1 & _); [lia |]. rewrite H3 in Hge.
    pose proof (year_of_mono _ _ Hge). lia.
Qed.

(** *** Days of a March year *)

(** The year (relative to the March year), month and day of a day. *)
Definition of_day (doy : Z) : Z * Z * Z :=
  let mp := ((5 * doy + 2) / 153)%Z in
  let m := (if mp <? 10 then mp + 3 else mp - 9)%Z in
  ((if (m <=? 2)%Z then 1%Z else 0%Z), m, (doy - (153 * mp + 2) / 5 + 1)%Z).

Definition shift_years (k : Z) (t : Z * Z * Z) : Z * Z * Z :=
  let '(y, m, d) := t in (y + k, m, d)%Z.

Lemma civil_of_day era y doy :
  (0 <= y < 400)%Z -> (0 <= doy < year_len y)%Z ->
  civil (year_start y + doy + era * 146097 - 719468) = shift_years (y + era * 400) (of_day doy).
Proof.
  intros Hy Hd. destruct (year_facts y Hy) as (_ & _ & H3).
  assert (Hs : (0 <= year_start y + doy < 146097)%Z).
  { split; [pose proof (year_start_mono 0 y); change (year_start 0) with 0%Z in *; lia |].
    destruct (Z.eqb_spec y 399); [lia |]. destruct (year_facts 399) as (_ & _ & H399); [lia |]. cbn in H399.
    pose proof (year_start_mono (y + 1) 399). change (year_start 399) with 145731%Z in *. lia. }
  unfold civil. replace (year_start y + doy + era * 146097 - 719468 + 719468)%Z
    with (year_start y + doy + era * 146097)%Z by lia.
  rewrite (Z.div_add (year_start y + doy) era 146097), (Z.div_small (year_start y + doy) 146097) by lia. cbv zeta.
  replace (year_start y + doy + era * 146097 - (0 + era) * 146097)%Z with (year_start y + doy)%Z by lia.
  fold (year_of (year_start y + doy)). rewrite (year_within y) by lia. fold (year_start y).
  replace (year_start y + doy - year_start y)%Z with doy by lia. unfold of_day, shift_years.
  repeat case_match; repeat (f_equal; try lia).
Qed.

(** The next day of a March year, given whether its February has 29 days. *)
Definition next_rel (b : bool) (t : Z * Z * Z) : Z * Z * Z :=
  let '(c, m, d) := t in
  let n := if (m =? 2)%Z then (if b then 29 else 28)%Z else days_in_month 0 m in
  if (d <? n)%Z then (c, m, d + 1)%Z
  else if (m <? 12)%Z then (c, m + 1, 1)%Z else (c + 1, 1, 1)%Z.

Definition date_eqb (a b : Z * Z * Z) : bool :=
  let '(y, m, d) := a in let '(y', m', d') := b in ((y =? y') && (m =? m') && (d =? d'))%Z.

Lemma date_eqb_eq a b : date_eqb a b = true -> a = b.
Proof.
  destruct a as [[y m] d], b as [[y' m'] d']. cbn. intros [[]%andb_prop]%andb_prop.
  repeat f_equal; by apply Z.eqb_eq.
Qed.

Definition day_ok (doy : Z) : bool :=
  forallb (fun b : bool =>
    let len := (if b then 366 else 365)%Z in
    implb (doy <? len)%Z
      (date_eqb (next_rel b (of_day doy)) (if (doy + 1 =? len)%Z then (1, 3, 1)%Z else of_day (doy + 1))
       && (let '(c, m, _) := of_day doy in implb (m =? 2)%Z (c =? 1)%Z))) [true; false].

Lemma next_day_rel Y c m d : (m = 2 -> c = 1)%Z ->
  next_day (shift_years Y (c, m, d)) = shift_years Y (next_rel (leap (Y + 1)) (c, m, d)).
Proof.
  intros Hc. unfold next_day, next_rel, shift_years, days_in_month.
  destruct (Z.eqb_spec m 2) as [E|E].
  - rewrite (Hc E). replace (1 + Y)%Z with (Y + 1)%Z by lia.
    repeat case_match; congruence || (repeat (f_equal; try lia)).
  - repeat case_match; congruence || (repeat (f_equal; try lia)).
Qed.

Lemma next_of_day Y doy :
  let len := (if leap (Y + 1) then 366 else 365)%Z in
  (0 <= doy < len)%Z ->
  next_day (shift_years Y (of_day doy))
  = shift_years Y (if (doy + 1 =? len)%Z then (1, 3, 1)%Z else of_day (doy + 1)).
Proof.
  intros len Hd. assert (H : day_ok doy = true).
  { apply (check_range day_ok 366); [by vm_compute |]. subst len. case_match; lia. }
  unfold day_ok in H. rewrite forallb_forall in H.
  specialize (H (leap (Y + 1)) ltac:(destruct (leap (Y + 1)); cbn; auto)). cbv zeta in H. fold len in H.
  rewrite (proj2 (Z.ltb_lt doy len)) in H by lia. cbn [implb] in H. apply andb_prop in H as [H1 H2].
  apply date_eqb_eq in H1. destruct (of_day doy) as [[c m] d] eqn:E. rewrite next_day_rel, H1; [done |].
  intros ->. cbn in H2. by apply Z.eqb_eq.
Qed.

Lemma civil_next n : civil (n + 1) = next_day (civil n).
Proof.
  pose proof (Z.div_mod (n + 719468) 146097 ltac:(lia)) as E.
  pose proof (Z.mod_pos_bound (n + 719468) 146097 ltac:(lia)) as B.
  set (era := ((n + 719468) / 146097)%Z) in *. set (doe := ((n + 719468) mod 146097)%Z) in *.
  destruct (year_of_bounds doe B) as [Hy Hs]. set (y := year_of doe) in *.
  destruct (year_facts y Hy) as (_ & _ & H3). set (doy := (doe - year_start y)%Z).
  replace n with (year_start y + doy + era * 146097 - 719468)%Z at 2 by lia.
  rewrite civil_of_day by lia. rewrite next_of_day.
  - replace (y + era * 400 + 1)%Z with (y + 1 + 400 * era)%Z by lia. rewrite leap_shift. fold (year_len y).
    destruct (Z.eqb_spec (doy + 1) (year_len y)) as [El|El].
    + destruct (Z.eqb_spec y 399) as [E399|E399].
      * replace (n + 1)%Z with (year_start 0 + 0 + (era + 1) * 146097 - 719468)%Z
          by (change (year_start 0) with 0%Z; lia).
        rewrite civil_of_day by (done || lia). change (of_day 0) with (0, 3, 1)%Z. unfold shift_years. do 2 f_equal. lia.
      * replace (n + 1)%Z with (year_start (y + 1) + 0 + era * 146097 - 719468)%Z by lia.
        rewrite civil_of_day by (unfold year_len; try case_match; lia). change (of_day 0) with (0, 3, 1)%Z.
        unfold shift_years. do 2 f_equal. lia.
    + replace (n + 1)%Z with (year_start y + (doy + 1) + era * 146097 - 719468)%Z by lia.
      by rewrite civil_of_day by lia.
  - replace (y + era * 400 + 1)%Z with (y + 1 + 400 * era)%Z by lia. rewrite leap_shift. fold (year_len y). lia.
Qed.

Lemma civil_after n : civil (Z.of_nat n) = date_after n.
Proof.
  induction n as [|n IH]; [done |]. rewrite Nat2Z.inj_succ. unfold Z.succ. rewrite civil_next, IH. done.
Qed.

(** Timestamps are right on the whole range of the clock.  The date that
    [epoch_to_rfc3339] computes from a count of seconds is the one reached
    from 1970-01-01 by stepping whole days through the Gregorian calendar
    (leap years every fourth year, not every hundredth, but every four
    hundredth), its time of day is in range, and counting the elapsed days
    and that time back in seconds gives the input. *)
Theorem rfc3339_exact (secs : Z) :
  (0 <= secs)%Z ->
  let t := date_time secs in
  let days := Z.to_nat (secs / 86400) in
  (year t, month t, day t) = date_after days
  /\ (0 <= hour t < 24)%Z /\ (0 <= minute t < 60)%Z /\ (0 <= second t < 60)%Z
  /\ secs = (Z.of_nat days * 86400 + hour t * 3600 + minute t * 60 + second t)%Z
  /\ epoch_to_rfc3339 secs = render_rfc3339 t.
Proof.
  intros Hs t days. assert (Ht : (year t, month t, day t) = date_after days).
  { subst t days. rewrite <- civil_after, Z2Nat.id by (apply Z.div_pos; lia).
    unfold date_time. by destruct (civil _) as [[y m] d]. }
  split; [done |]. subst t days. rewrite Z2Nat.id by (apply Z.div_pos; lia).
  unfold epoch_to_rfc3339, date_time. destruct (civil _) as [[y m] d]. cbn [hour minute second].
  pose proof (Z.mod_pos_bound secs 86400 ltac:(lia)) as B. pose proof (Z.div_mod secs 86400 ltac:(lia)) as E.
  set (r := (secs mod 86400)%Z) in *.
  pose proof (Z.mod_pos_bound r 3600 ltac:(lia)). pose proof (Z.div_mod r 3600 ltac:(lia)).
  pose proof (Z.div_mod (r mod 3600) 60 ltac:(lia)).
  assert ((r mod 3600) mod 60 = r mod 60)%Z by (apply Z.mod_mod_divide; by exists 60%Z).
  pose proof (Z.mod_pos_bound r 60 ltac:(lia)).
  by split_and!; try lia.
Qed.

Lemma rfc3339_exact_witness :
  date_after (Z.to_nat (1709164800 / 86400)) = (2024, 2, 29)%Z.
Proof.
  destruct (rfc3339_exact 1709164800) as [H _]; [lia |]. rewrite <- H. reflexivity.
Defined.

(** ** The signature *)

Section Signature.
Context `{Cas.Digest} (encode_to_vec : Pom.RawPom -> result string Bytes).

#[local] Abbreviation hasher_input := (hasher_input encode_to_vec).
#[local] Abbreviation compute_signature := (compute_signature encode_to_vec).

(** bincode's output for a POM is below 4 GiB. *)
Definition encodable (p : Pom.RawPom) : Prop :=
  exists bytes, encode_to_vec p = Ok bytes /\ (Z.of_nat (length bytes) <= U32_MAX)%Z.

Lemma hasher_input_cons m l bytes rest :
  encode_to_vec (pom m) = Ok bytes -> (Z.of_nat (length bytes) <= U32_MAX)%Z -> hasher_input l = Ok rest ->
  hasher_input (m :: l) = Ok (Journal.to_le_bytes (Z.of_nat (length bytes)) ++ bytes ++ rest).
Proof.
  intros E L R. cbn -[Journal.to_le_bytes U32_MAX]. rewrite E, R. cbn -[Journal.to_le_bytes U32_MAX].
  rewrite Z.mod_small; [done |]. unfold U32_MAX in *. lia.
Qed.

Lemma hasher_input_ok l : Forall (fun m => encodable (pom m)) l -> exists input, hasher_input l = Ok input.
Proof.
  induction 1 as [|m l (bytes & E & L) _ (rest & R)]; [by exists [] |]. eexists. by apply hasher_input_cons.
Qed.

Lemma Ok_inj {E A} (x y : A) : @Ok E A x = Ok y -> x = y.
Proof. by intros [=]. Qed.

Lemma frame_inj a b x y :
  (Z.of_nat (length a) <= U32_MAX)%Z -> (Z.of_nat (length b) <= U32_MAX)%Z ->
  Journal.to_le_bytes (Z.of_nat (length a)) ++ a ++ x = Journal.to_le_bytes (Z.of_nat (length b)) ++ b ++ y ->
  a = b /\ x = y.
Proof.
  intros La Lb E. apply app_inj_1 in E as [El E]; [| done].
  apply (f_equal Journal.from_le_bytes) in El. rewrite !Journal.le_bytes_roundtrip in El by lia.
  apply app_inj_1 in E as [-> ->]; [done | lia].
Qed.

(** The length prefixes make the module boundaries unambiguous: equal
    hasher inputs come from modules with equal encodings, one by one. *)
Lemma hasher_input_inj l k input :
  Forall (fun m => encodable (pom m)) l -> Forall (fun m => encodable (pom m)) k ->
  hasher_input l = Ok input -> hasher_input k = Ok input ->
  map (fun m => encode_to_vec (pom m)) l = map (fun m => encode_to_vec (pom m)) k.
Proof.
  intros Hl. revert k input. induction Hl as [|m l (a & Ea & La) Hl IH]; intros k input Hk Hi Hj.
  - injection Hi as <-. destruct Hk as [|m' k (b & Eb & Lb) Hk]; [done |].
    destruct (hasher_input_ok k Hk) as [rest R]. by rewrite (hasher_input_cons _ _ _ _ Eb Lb R) in Hj.
  - destruct (hasher_input_ok l Hl) as [x X]. rewrite (hasher_input_cons _ _ _ _ Ea La X) in Hi.
    injection Hi as <-. destruct Hk as [|m' k (b & Eb & Lb) Hk]; [done |].
    destruct (hasher_input_ok k Hk) as [y Y]. rewrite (hasher_input_cons _ _ _ _ Eb Lb Y) in Hj.
    assert (Hf := Ok_inj _ _ Hj). symmetry in Hf. apply (frame_inj a b x y La Lb) in Hf as [-> ->].
    cbn. rewrite Ea, Eb. f_equal. by eapply IH.
Qed.

Lemma hasher_input_determined l k :
  map (fun m => encode_to_vec (pom m)) l = map (fun m => encode_to_vec (pom m)) k -> hasher_input l = hasher_input k.
Proof.
  revert k. induction l as [|m l IH]; intros [|m' k] E; try done. cbn in E. injection E as E1 E2.
  cbn. by rewrite E1, (IH k).
Qed.

Lemma encode_hex_inj a b : Forall byte a -> Forall byte b -> encode_hex a = encode_hex b -> a = b.
Proof.
  intros Ha Hb E. apply (f_equal decode_hex) in E. rewrite !decode_encode in E by done. by injection E.
Qed.

(** The canonical content of a reactor: the encoded POMs in the order of
    their module keys. *)
Definition content (ms : list ReactorModule) : list (result string Bytes) :=
  map (fun m => encode_to_vec (pom m)) (SortBy.sort_by_key sort_key ms).

(** SHA-256 does not collide on the two inputs at hand, and its digests are
    32 bytes. *)
Definition no_collision (ms ms' : list ReactorModule) : Prop :=
  (forall x, hash_wf (Cas.sha256 x))
  /\ forall x y, hasher_input (SortBy.sort_by_key sort_key ms) = Ok x ->
       hasher_input (SortBy.sort_by_key sort_key ms') = Ok y -> Cas.sha256 x = Cas.sha256 y -> x = y.

Lemma sorted_encodable ms :
  Forall (fun m => encodable (pom m)) ms ->
  Forall (fun m => encodable (pom m)) (SortBy.sort_by_key sort_key ms).
Proof. by rewrite SortBy.sort_by_key_perm. Qed.

Lemma signature_content ms ms' :
  Forall (fun m => encodable (pom m)) ms -> Forall (fun m => encodable (pom m)) ms' -> no_collision ms ms' ->
  exists s s', compute_signature ms = Ok s /\ compute_signature ms' = Ok s' /\ (s = s' <-> content ms = content ms').
Proof.
  intros He%sorted_encodable He'%sorted_encodable [Hwf Hc].
  destruct (hasher_input_ok _ He) as [x X], (hasher_input_ok _ He') as [y Y].
  unfold compute_signature, content. rewrite X, Y. cbn. do 2 eexists. split_and!; [done | done | split].
  - intros E. apply encode_hex_inj in E; [| apply Hwf ..].
    assert (Hd : Cas.sha256 x = Cas.sha256 y) by (destruct (Cas.sha256 x), (Cas.sha256 y); cbn in E; by f_equal).
    apply (Hc x y X Y) in Hd as <-. by eapply hasher_input_inj.
  - intros E%hasher_input_determined. rewrite X, Y in E. by injection E as <-.
Qed.

Lemma content_perm ms ms' : NoDup (map sort_key ms) -> ms ≡ₚ ms' -> content ms = content ms'.
Proof. intros Hn Hp. unfold content. by rewrite (SortBy.sort_by_key_unique sort_key ms ms'). Qed.

(** C40: A frozen build accepts exactly the project the lockfile was made
    for.  When a lockfile carries the signature of one reactor, checking it
    in frozen mode against the signature of another accepts it as
    authoritative when the two have the same encoded POMs in the order of
    their module keys, in particular when the same modules are listed in
    another order, and fails with the stale-lockfile error otherwise
    (barring a SHA-256 collision); the default mode then asks for a fresh
    resolution, and the update mode always does. *)
Theorem frozen_exact (ms ms' : list ReactorModule) (lf : Lockfile) :
  Forall (fun m => encodable (pom m)) ms -> Forall (fun m => encodable (pom m)) ms' -> no_collision ms ms' ->
  compute_signature ms = Ok (project_signature (meta lf)) ->
  exists s', compute_signature ms' = Ok s'
    /\ (content ms = content ms' ->
          validate_strict Frozen (Some lf) s' = Ok Authoritative
          /\ validate_strict Default (Some lf) s' = Ok Authoritative)
    /\ (content ms <> content ms' ->
          validate_strict Frozen (Some lf) s' = Err (StaleError (project_signature (meta lf)) s')
          /\ validate_strict Default (Some lf) s' = Ok (StaleLock (project_signature (meta lf)) s'))
    /\ (NoDup (map sort_key ms) -> ms ≡ₚ ms' -> content ms = content ms')
    /\ validate_strict Update (Some lf) s' = Ok Missing.
Proof.
  intros He He' Hc Hs. destruct (signature_content ms ms' He He' Hc) as (s & s' & E & E' & Hiff).
  rewrite Hs in E. injection E as E. exists s'. unfold validate_strict, validate.
  destruct (String.eqb_spec (project_signature (meta lf)) s') as [Heq|Hne]; split_and!; try done.
  - intros Hn. destruct Hn. apply Hiff. congruence.
  - apply content_perm.
  - intros Hcc. destruct Hne. rewrite E. by apply Hiff.
  - apply content_perm.
Qed.

End Signature.

(** *** Two modules, listed in either order *)

Definition toy_digest : Cas.Digest :=
  fun x => mkHash (take 32 (map (fun b => b mod 256)%Z x ++ replicate 32 0%Z)).

Definition toy_encode (p : Pom.RawPom) : result string Bytes :=
  Ok (map byte_of (list_ascii_of_string (Pom.artifact_id p))).

Definition toy_module (a : string) : ReactorModule :=
  mkModule "g" a (Pom.mkPom "4.0.0" None None a None "jar" None None None None [] None [] [] None [] [] []).

Lemma toy_digest_wf x : hash_wf (toy_digest x).
Proof.
  split; cbn [hash_bytes toy_digest].
  - rewrite length_take, length_app, length_replicate. lia.
  - apply Forall_take, Forall_app. split; [| by apply Forall_replicate].
    apply Forall_fmap. apply list.Forall_forall. intros b _. unfold byte. cbn. apply Z.mod_pos_bound. lia.
Qed.

Lemma toy_encodable a : (String.length a < 100)%nat -> encodable toy_encode (pom (toy_module a)).
Proof.
  intros Ha. eexists. split; [done |]. rewrite length_map, list_ascii_length. cbn. unfold U32_MAX. lia.
Qed.

Lemma frozen_exact_witness :
  exists lf, compute_signature (H := toy_digest) toy_encode [toy_module "a"; toy_module "b"]
               = Ok (project_signature (meta lf))
    /\ exists s', compute_signature (H := toy_digest) toy_encode [toy_module "b"; toy_module "a"] = Ok s'
         /\ validate_strict Frozen (Some lf) s' = Ok Authoritative.
Proof.
  exists (new "0" 0 "0100000061010000006200000000000000000000000000000000000000000000" "").
  split; [vm_compute; reflexivity |].
  destruct (frozen_exact (H := toy_digest) toy_encode [toy_module "a"; toy_module "b"]
              [toy_module "b"; toy_module "a"]
              (new "0" 0 "0100000061010000006200000000000000000000000000000000000000000000" ""))
    as (s' & E & Hok & _ & Hp & _).
  - repeat constructor; apply toy_encodable; cbn; lia.
  - repeat constructor; apply toy_encodable; cbn; lia.
  - split; [apply toy_digest_wf |]. intros x y Hx Hy _. vm_compute in Hx, Hy. congruence.
  - vm_compute. reflexivity.
  - exists s'. split; [done |]. apply Hok. reflexivity.
Defined.

End LockfileFacts.
