(* ===== verification/PullRuns.v ===== *)
(** * A pull and a pour, run

    A project with one dependency, a repository that serves it, and the
    commands on them: the hypotheses of the theorems on pull.rs and pour.rs
    hold of a concrete machine.  The behaviours at the end depart from the
    documentation of the flags. *)

From S2P Require Import Prelude Version Coords VersionSpec Pom Xml PomXml Effective Profile Source Skipper.
From S2P Require Import Oreq Walker WalkerFacts WalkerGraph Cas Journal Index IndexFacts MetadataXml Fetch CacheSource.
From S2P Require Import CacheSourceFacts Gc Settings Config Loader LoaderFacts Project M2 SortBy Lockfile.
From S2P Require Import LockfileFacts LockStore Pull PullFacts Pour.

Module PullRuns.
Import Coords Cas Journal Source Fetch CacheSource CacheSourceFacts Pull PullFacts Pour.

#[local] Instance Event_eq_dec : EqDecision Event.
Proof. solve_decision. Defined.

#[local] Instance digest : Digest := LockfileFacts.toy_digest.
#[local] Instance sha1_run : Sha1 := fun b => take 20 (b ++ repeat 0%Z 20).
#[local] Instance codec : Codec := bit_codec (fun _ => 0).
#[local] Instance text : ErrorText := fun _ => "error".
#[local] Instance env : Environment := fun v =>
  if String.eqb v "BARISTA_TEST_UPSTREAM_URL" then Some "u" else None.
#[local] Instance lexer : MetadataXml.PlainXml := fun _ => [].

(** Every POM that is fetched is that of an artifact without dependencies. *)
#[local] Instance xml : Xml.QuickXml :=
  PomXml.Example.plain (Xml.flatten (Xml.Elem "project" [] [PomXml.Example.leaf "artifactId" "a"])).

Definition bytes_of (s : string) : Bytes := byte_of <$> list_ascii_of_string s.

Definition jar : Bytes := [1; 2; 3]%Z.

Definition served (b : Bytes) : result SendError Response := Ok (mkResponse 200 (fun _ => None) (Ok b)).

Definition net : Http := mkHttp (fun url _ =>
  if String.eqb url "u/ex/a/1/a-1.pom" then served [7]%Z
  else if String.eqb url "u/ex/a/1/a-1.jar" then served jar
  else if String.eqb url "u/ex/a/1/a-1.jar.sha256" then served (bytes_of (to_hex (sha256 jar)))
  else Ok (mkResponse 404 (fun _ => None) (Ok []))) (fun _ => true).

Definition setup : Setup :=
  mkSetup net (mkFetchConfig 30 "u") None None false (fun _ => Ok tt) 5 (fun _ => false) (fun _ => true) id id.

Definition start_world : World :=
  mkWorld ∅ (Index.mkIndex Index.IndexState_default 10 (Index.mkDisk None [])) [] [] [].

Definition a : Coords := mkCoords "ex" "a".

Definition session : Session := session_of setup start_world [] [QPom a "1"].

Definition raw : Pom.RawPom := WalkerGraph.ex_pom "app" "1" [WalkerGraph.ex_dep "a" "1"].

(** The lockfile that is expected. *)
Definition entry : Lockfile.LockfileEntry :=
  Lockfile.mkEntry "ex:a" "1" "compile" false (to_hex (sha256 jar)) None 3 "u/ex/a/1/a-1.jar" None None None
    "jar" ["ex:a"] 1 None [].

Definition encode (p : Pom.RawPom) : result string Bytes := Ok (bytes_of (Pom.artifact_id p)).

Definition signature : string :=
  match Lockfile.compute_signature encode [Lockfile.mkModule "ex" "app" raw] with Ok s => s | Err _ => "" end.

Definition lock : Lockfile.Lockfile :=
  let fresh := Lockfile.new "0.1" 5 signature (settings_fingerprint Config.Config_default) in
  Lockfile.mkLockfile (Lockfile.meta fresh) [] [entry] None.

#[local] Instance Meta_eq_dec : EqDecision Lockfile.Meta.
Proof. solve_decision. Defined.
#[local] Instance ReactorEntry_eq_dec : EqDecision Lockfile.ReactorEntry.
Proof. solve_decision. Defined.
#[local] Instance Exclusion_eq_dec : EqDecision Lockfile.Exclusion.
Proof. solve_decision. Defined.
#[local] Instance LockfileEntry_eq_dec : EqDecision Lockfile.LockfileEntry.
Proof. solve_decision. Defined.
#[local] Instance MirrorRef_eq_dec : EqDecision Lockfile.MirrorRef.
Proof. solve_decision. Defined.
#[local] Instance RepositoryRef_eq_dec : EqDecision Lockfile.RepositoryRef.
Proof. solve_decision. Defined.
#[local] Instance SettingsSnapshot_eq_dec : EqDecision Lockfile.SettingsSnapshot.
Proof. solve_decision. Defined.
#[local] Instance Lockfile_eq_dec : EqDecision Lockfile.Lockfile.
Proof. solve_decision. Defined.

(** A printer and a reader for that lockfile. *)
Definition toml_one : LockStore.Toml :=
  LockStore.mkToml (fun s => if String.eqb s "lock" then Ok lock else Err "syntax")
    (fun lf => if bool_decide (lf = lock) then Ok "lock" else Err "unsupported").

Lemma toml_one_law : LockStore.toml_law toml_one.
Proof.
  intros lf s. cbn. case_bool_decide as E; [| done]. intros [= <-]. rewrite E. reflexivity.
Qed.

Definition quiet_io : LockStore.LockIo :=
  LockStore.mkLockIo (fun _ => None) (fun _ => None) (fun _ => None) (fun _ => None) (fun _ => None).

Definition host : Host :=
  mkHost (fun _ => None) (fun _ => None) (fun _ => None) (fun _ _ _ => None) None net 5 "1-1"
    (M2.mkVolume (fun _ => None) (fun _ => true) (fun _ => None) (fun _ => None))
    quiet_io toml_one encode "0.1".

Definition global : GlobalFlags := mkGlobal None None false false.
Definition args : PullArgs := mkArgs false SCompile false.

Definition start : State := mkState start_world ∅ ∅ ∅ [].

Definition run := run_full_fetch host session 10 "p" raw Config.Config_default global args start.

Definition final : State := match run with Some (_, s) => s | None => start end.
Definition report : PullReport :=
  match run with Some (Ok r, _) => r | _ => mkReport "" Absent 0 0 None None false false end.

(** A run is determined by the fact that it succeeds. *)
Definition succeeds {A} (o : option (result PullError A * State)) : bool :=
  match o with Some (Ok _, _) => true | _ => false end.

Lemma succeeds_ok {A} (o : option (result PullError A * State)) (d : A) (s : State) :
  succeeds o = true ->
  o = Some (Ok (match o with Some (Ok r, _) => r | _ => d end), match o with Some (_, s') => s' | None => s end).
Proof. by destruct o as [[[r|e] s']|]. Qed.

Lemma run_ok : run = Some (Ok report, final).
Proof. apply succeeds_ok. vm_compute. reflexivity. Qed.

Lemma setup_alone : alone setup.
Proof. intros w. split; reflexivity. Qed.

(** The cache is new and the mirror is empty. *)
Lemma start_reopens t : reopens (mkState start_world ∅ t ∅ []).
Proof.
  intros ix r H. change (Index.open_with_recovery (Index.mkDisk None []) = Some (Ok (ix, r))) in H.
  unfold Index.open_with_recovery in H. change (Index.mkDisk None []) with IndexFacts.fresh in H.
  rewrite IndexFacts.fresh_open in H. injection H as <- <-.
  split; [intros h b Hb | intros k e He]; [cbn in Hb | unfold row, Index.get in He; cbn in He];
    rewrite lookup_empty in *; discriminate.
Qed.

Lemma start_linked t : M2.linked (disk_of (mkState start_world ∅ t ∅ [])).
Proof.
  split; cbn; [intros p f h H | intros h b H]; rewrite lookup_empty in H; discriminate H.
Qed.

Lemma pull_records_witness : pulled host session 10 "p" raw Config.Config_default args start final report.
Proof.
  apply (pull_records host session (session_settles setup setup_alone start_world [] [QPom a "1"])
    10 "p" raw Config.Config_default global args start report final (start_reopens ∅) (start_linked ∅)
    toml_one_law eq_refl run_ok).
Defined.

(** Another project with the lockfile of the first. *)
Definition other : Pom.RawPom := WalkerGraph.ex_pom "lib" "1" [WalkerGraph.ex_dep "a" "1"].

Definition with_lock : State := mkState start_world ∅ {["p/barista.lock" := "lock"]} ∅ [].

Definition frozen_flags : GlobalFlags := mkGlobal None None false true.

Definition stale := run_full_fetch host session 10 "p" other Config.Config_default frozen_flags args with_lock.

Definition mismatch (o : option (result PullError PullReport * State)) : bool :=
  match o with Some (Err (FrozenSignatureMismatch _ _), _) => true | _ => false end.

Lemma pull_keeps_lock_witness :
  exists e s', stale = Some (Err e, s') /\ texts s' !! "p/barista.lock" = Some "lock".
Proof.
  assert (H : mismatch stale = true) by (vm_compute; reflexivity). unfold mismatch in H.
  destruct stale as [[[r|e] s']|] eqn:Hrun; try discriminate H.
  exists e, s'. split; [reflexivity |].
  destruct (pull_keeps_lock host session (session_settles setup setup_alone start_world [] [QPom a "1"])
    10 "p" other Config.Config_default frozen_flags args with_lock (Err e) s'
    (start_reopens _) (start_linked _)) as [_ H2].
  - vm_compute. discriminate.
  - exact Hrun.
  - destruct (H2 eq_refl eq_refl) as [-> _]; [vm_compute; eexists; reflexivity |]. vm_compute. reflexivity.
Defined.

Definition reopened := open_cache host Config.Config_default final.

Definition final_open : State := match reopened with Some (_, s) => s | None => final end.

Lemma reopened_ok : reopened = Some (Ok tt, final_open).
Proof.
  assert (H : succeeds reopened = true) by (vm_compute; reflexivity).
  unfold final_open. by destruct reopened as [[[[]|e] s']|].
Qed.

Definition test_scope : PullArgs := mkArgs false STest false.

Lemma pull_again_witness :
  exists r2 s2,
    run_full_fetch host session 0 "p" raw Config.Config_default frozen_flags test_scope final = Some (Ok r2, s2) /\
    lockfile_status r2 = Unchanged /\ fetched r2 = 0 /\ r_entries r2 = 1.
Proof.
  destruct (pull_again host session (session_settles setup setup_alone start_world [] [QPom a "1"])
    10 "p" raw Config.Config_default global args start report final 0 frozen_flags test_scope final_open
    (start_reopens ∅) (start_linked ∅) toml_one_law eq_refl run_ok eq_refl reopened_ok)
    as (r2 & s2 & H1 & H2 & H3 & H4 & _).
  exists r2, s2. split; [exact H1 |]. split; [exact H2 |]. split; [exact H3 |].
  rewrite H4. vm_compute. reflexivity.
Defined.

Definition neat_b (dep : Walker.ResolvedDep) : bool :=
  M2.tidy (Walker.coords dep) (Walker.version dep) (Walker.classifier dep) (Walker.type_ dep)
  && coords_wf (Walker.coords dep).

Lemma run_neat root g :
  resolves session raw root -> walked session 10 args root g -> Forall neat (Walker.resolved g).
Proof.
  intros Hr [x Hx].
  assert (H : match Profile.resolve_pom raw (parent_resolver session) Profile.ActivationContext_default with
              | Ok root => match Walker.walk (SRC := source session) (walk_opts args) 10 root None with
                           | Some (Ok g, _) => forallb neat_b (Walker.resolved g)
                           | _ => false
                           end
              | Err _ => false
              end = true) by (vm_compute; reflexivity).
  unfold resolves in Hr. rewrite Hr, Hx in H. rewrite forallb_forall in H. apply List.Forall_forall.
  intros dep Hd. apply H in Hd. unfold neat_b in Hd. apply andb_prop in Hd as [H1 H2]. by split.
Qed.

Definition pour_args : PourArgs := mkPourArgs SCompile (Some "t") false.

Definition poured := pour_in host "p" Config.Config_default pour_args final.

Definition no_error {E A} (r : result E A) : bool := match r with Ok _ => true | Err _ => false end.

Lemma pull_then_pour_witness :
  exists preport lf, poured.1 = Ok preport /\ locked host "p" final lf /\
    Forall (fun e => exists h f, from_hex (Lockfile.sha256 e) = Ok h /\ Cas.get h (store (world poured.2)) = Some (M2.bytes f))
      (filter (selects pour_args) (Lockfile.entries lf)).
Proof.
  pose proof (pull_then_pour host session 10 "p" raw Config.Config_default global args start report final pour_args
    poured.1 poured.2) as H.
  destruct (H (session_settles setup setup_alone start_world [] [QPom a "1"])
    LockfileFacts.toy_digest_wf (start_reopens ∅) (start_linked ∅) toml_one_law eq_refl (or_intror eq_refl)
    run_neat run_ok eq_refl eq_refl (surjective_pairing poured))
    as [(coord & e & He)|(preport & root & g & lf & Hr & _ & _ & Hlf & _ & HF)].
  - exfalso. assert (no_error poured.1 = true) as Hok by (vm_compute; reflexivity). rewrite He in Hok. discriminate Hok.
  - exists preport, lf. split; [exact Hr |]. split; [exact Hlf |].
    eapply Forall2_Forall_r; [exact HF |]. apply List.Forall_forall.
    intros dep _ e (h & f & H1 & _ & H2). exists h, f. split; [exact H1 | exact H2].
Defined.

(** What the pour left. *)
Example poured_files :
  M2.files (disk_of poured.2) !! "t/ex/a/1/a-1.jar" = Some (M2.mkFile jar (Some (sha256 jar))).
Proof. vm_compute. reflexivity. Qed.

(** ** Flags that do less than they say *)

(** [--frozen] promises an error instead of a rewrite, but it writes a
    lockfile when there is none, and with [--update] it rewrites one. *)
Theorem frozen_writes :
  let writes s args := match run_full_fetch host session 10 "p" raw Config.Config_default frozen_flags args s with
                       | Some (Ok _, s') => bool_decide (WritingLockfile ∈ events s')
                       | _ => false
                       end in
  writes start args = true /\ writes with_lock (mkArgs true SCompile false) = true.
Proof. split; vm_compute; reflexivity. Qed.

(** [--scope] promises to limit the resolution, but the signature does not
    cover it: a lockfile of compile dependencies answers a pull for tests. *)
Theorem scope_ignored :
  match run_full_fetch host session 10 "p" raw Config.Config_default global test_scope with_lock with
  | Some (Ok r, s') => lockfile_status r = Unchanged /\ r_entries r = 1 /\ texts s' = texts with_lock
  | _ => False
  end /\ Lockfile.scope <$> Lockfile.entries lock = ["compile"].
Proof. vm_compute. repeat split. Qed.

(** A signature from a lockfile that is cut inside a character ends
    [pull --no-fetch] with a panic. *)
Definition odd_lock : Lockfile.Lockfile :=
  Lockfile.mkLockfile (Lockfile.mkMeta 1 "barista" "" "aaaaaaaaaaaéa" "") [] [] None.

Definition odd_host : Host :=
  mkHost (fun _ => None) (fun _ => None) (fun _ => None) (fun _ _ _ => None) None net 5 "1-1"
    (M2.mkVolume (fun _ => None) (fun _ => true) (fun _ => None) (fun _ => None))
    quiet_io (LockStore.mkToml (fun _ => Ok odd_lock) (fun _ => Err "")) encode "0.1".

Theorem no_fetch_panics :
  exists s, run_no_fetch odd_host "p" raw global args with_lock = Some (Err Panic, s).
Proof. eexists. vm_compute. reflexivity. Qed.

End PullRuns.
