(* ===== verification/LockDiff.v ===== *)
(** * barista-lockfile: the semantic diff

    Models crates/barista-lockfile/src/diff.rs: entries, the staged matching
    of two snapshots, the ordering of the report, and its rendering. *)

From S2P Require Import Prelude Version SortBy Lockfile.
From stdpp Require Import pretty.

Module LockDiff.

Record LockEntry := mkLockEntry {
  group_id : string;
  artifact_id : string;
  version : string;
  scope : string;
  classifier : option string;
  type_ : string
}.

#[export] Instance LockEntry_eq_dec : EqDecision LockEntry.
Proof. solve_decision. Defined.

Definition coords_key (e : LockEntry) : string :=
  let cls := default "" ((fun c => ":" +:+ c) <$> classifier e) in
  group_id e +:+ ":" +:+ artifact_id e +:+ ":" +:+ type_ e +:+ cls.

Definition ga (e : LockEntry) : string := group_id e +:+ ":" +:+ artifact_id e.

Definition parse_coords (coords : string) : string * string :=
  match str_split_once ":" coords with
  | Some (g, a) => (g, a)
  | None => ("", coords)
  end.

Definition from_lockfile_entry (e : Lockfile.LockfileEntry) : LockEntry :=
  let '(g, a) := parse_coords (Lockfile.coords e) in
  mkLockEntry g a (Lockfile.version e) (Lockfile.scope e) (Lockfile.classifier e) (Lockfile.type_ e).

Definition display_coords (e : LockEntry) : string :=
  let s := group_id e +:+ ":" +:+ artifact_id e in
  let s := if negb (String.eqb (type_ e) "jar") then s +:+ ":" +:+ type_ e else s in
  match classifier e with
  | Some cls => (if String.eqb (type_ e) "jar" then s +:+ ":jar" else s) +:+ ":" +:+ cls
  | None => s
  end.

Record VersionChange := mkVersionChange { vc_coords : string; vc_from : string; vc_to : string }.
Record ScopeChange := mkScopeChange { sc_coords : string; sc_from : string; sc_to : string }.
Record TypeChange := mkTypeChange { tc_coords : string; tc_from : string; tc_to : string }.

Record LockDiff := mkDiff {
  added : list LockEntry;
  removed : list LockEntry;
  upgraded : list VersionChange;
  downgraded : list VersionChange;
  rescoped : list ScopeChange;
  reclassified : list TypeChange
}.

Definition LockDiff_default : LockDiff := mkDiff [] [] [] [] [] [].

Definition change_count (d : LockDiff) : nat :=
  length (added d) + length (removed d) + length (upgraded d) + length (downgraded d)
  + length (rescoped d) + length (reclassified d).

Definition is_empty (d : LockDiff) : bool := (change_count d =? 0)%nat.

(** ** Versions *)

Definition dot_or_dash (c : ascii) : bool := Ascii.eqb c "." || Ascii.eqb c "-".

Definition compare_part (pa pb : string) : comparison :=
  match parse_uint U64_MAX pa, parse_uint U64_MAX pb with
  | Some na, Some nb => (na ?= nb)%Z
  | _, _ => String.compare pa pb
  end.

Fixpoint compare_from (indices : list nat) (parts_a parts_b : list string) : comparison :=
  match indices with
  | [] => Eq
  | i :: indices' =>
      match compare_part (default "0" (parts_a !! i)) (default "0" (parts_b !! i)) with
      | Eq => compare_from indices' parts_a parts_b
      | ord => ord
      end
  end.

Definition compare_versions (a b : string) : comparison :=
  let parts_a := str_split_on dot_or_dash a in
  let parts_b := str_split_on dot_or_dash b in
  compare_from (seq 0 (length parts_a `max` length parts_b)) parts_a parts_b.

Definition short_type (t : string) (classifier : option string) : string :=
  match classifier with Some c => t +:+ ":" +:+ c | None => t end.

(** ** Matching *)

(** [r.iter().position(p)] and [r.remove(j)]. *)
Fixpoint take_first (p : LockEntry -> bool) (r : list LockEntry) : option (LockEntry * list LockEntry) :=
  match r with
  | [] => None
  | y :: r' =>
      if p y then Some (y, r')
      else match take_first p r' with Some (z, r'') => Some (z, y :: r'') | None => None end
  end.

(** One stage: each entry of [l], in order, is paired with the first match
    in what is left of [r].  The unpaired entries of both, and the pairs. *)
Fixpoint pair_off (same : LockEntry -> LockEntry -> bool) (l r : list LockEntry)
    : list LockEntry * list LockEntry * list (LockEntry * LockEntry) :=
  match l with
  | [] => ([], r, [])
  | x :: l' =>
      match take_first (same x) r with
      | Some (y, r') => let '(l1, r1, ps) := pair_off same l' r' in (l1, r1, (x, y) :: ps)
      | None => let '(l1, r1, ps) := pair_off same l' r in (x :: l1, r1, ps)
      end
  end.

Definition same_entry (a b : LockEntry) : bool := bool_decide (a = b).
Definition same_type (a b : LockEntry) : bool :=
  String.eqb (type_ b) (type_ a) && bool_decide (classifier b = classifier a).
Definition same_version (a b : LockEntry) : bool := String.eqb (version b) (version a).

(** What a pair of stage 2 contributes to each list. *)
Definition version_change (p : LockEntry * LockEntry) : VersionChange :=
  mkVersionChange (display_coords p.1) (version p.1) (version p.2).
Definition is_upgrade (p : LockEntry * LockEntry) : bool :=
  match compare_versions (version p.1) (version p.2) with Lt => true | _ => false end.
Definition upgrade_of (p : LockEntry * LockEntry) : option VersionChange :=
  if negb (String.eqb (version p.1) (version p.2)) && is_upgrade p then Some (version_change p) else None.
Definition downgrade_of (p : LockEntry * LockEntry) : option VersionChange :=
  if negb (String.eqb (version p.1) (version p.2)) && negb (is_upgrade p) then Some (version_change p) else None.
Definition rescope_of (p : LockEntry * LockEntry) : option ScopeChange :=
  if String.eqb (version p.1) (version p.2) && negb (String.eqb (scope p.1) (scope p.2))
  then Some (mkScopeChange (display_coords p.1) (scope p.1) (scope p.2)) else None.

(** What a pair of stage 3 contributes. *)
Definition type_change (p : LockEntry * LockEntry) : TypeChange :=
  mkTypeChange (group_id p.1 +:+ ":" +:+ artifact_id p.1 +:+ ":" +:+ version p.1)
    (short_type (type_ p.1) (classifier p.1)) (short_type (type_ p.2) (classifier p.2)).

(** The four stages on the entries of one [group:artifact]. *)
Definition diff_ga (out : LockDiff) (l r : list LockEntry) : LockDiff :=
  let '(l, r, _) := pair_off same_entry l r in
  let '(l, r, ps) := pair_off same_type l r in
  let '(l, r, qs) := pair_off same_version l r in
  mkDiff (added out ++ r) (removed out ++ l)
    (upgraded out ++ omap upgrade_of ps) (downgraded out ++ omap downgrade_of ps)
    (rescoped out ++ omap rescope_of ps) (reclassified out ++ map type_change qs).

Definition group_by_ga (l : list LockEntry) : gmap string (list LockEntry) :=
  foldl (fun m e => <[ga e := default [] (m !! ga e) ++ [e]]> m) ∅ l.

(** [Vec::dedup] on strings. *)
Fixpoint dedup (l : list string) : list string :=
  match l with
  | x :: ((y :: _) as l') => if String.eqb x y then dedup l' else x :: dedup l'
  | _ => l
  end.

Definition group_by_prefix (items : list VersionChange) : list VersionChange := items.

Definition sort_diff (d : LockDiff) : LockDiff :=
  mkDiff (SortBy.sort_by_key coords_key (added d)) (SortBy.sort_by_key coords_key (removed d))
    (group_by_prefix (SortBy.sort_by_key vc_coords (upgraded d)))
    (group_by_prefix (SortBy.sort_by_key vc_coords (downgraded d)))
    (SortBy.sort_by_key sc_coords (rescoped d)) (SortBy.sort_by_key tc_coords (reclassified d)).

Definition all_gas (left_by_ga right_by_ga : gmap string (list LockEntry)) : list string :=
  dedup (SortBy.sort_by_key (fun s => s) ((map_to_list left_by_ga).*1 ++ (map_to_list right_by_ga).*1)).

Definition diff (left right : list LockEntry) : LockDiff :=
  let left_by_ga := group_by_ga left in
  let right_by_ga := group_by_ga right in
  sort_diff
    (foldl (fun out g => diff_ga out (default [] (left_by_ga !! g)) (default [] (right_by_ga !! g)))
       LockDiff_default (all_gas left_by_ga right_by_ga)).

Definition diff_lockfiles (left right : Lockfile.Lockfile) : LockDiff :=
  diff (map from_lockfile_entry (Lockfile.entries left)) (map from_lockfile_entry (Lockfile.entries right)).

(** ** Rendering *)

Definition newline : string := String (ascii_of_nat 10) "".

(** One section: its title line and one line per item, when there are any. *)
Definition section {A} (title : string) (line : A -> string) (items : list A) : string :=
  match items with
  | [] => ""
  | _ => newline +:+ title +:+ " (" +:+ pretty (length items) +:+ "):" +:+ newline
         +:+ String.concat "" (map line items)
  end.

Definition summary {A} (mark what : string) (items : list A) : string :=
  match items with
  | [] => ""
  | _ => "  " +:+ mark +:+ " " +:+ pretty (length items) +:+ " " +:+ what +:+ newline
  end.

Definition entry_line (mark : string) (e : LockEntry) : string :=
  "  " +:+ mark +:+ " " +:+ display_coords e +:+ ":" +:+ version e +:+ " " +:+ scope e +:+ newline.
Definition version_line (mark : string) (v : VersionChange) : string :=
  "  " +:+ mark +:+ " " +:+ vc_coords v +:+ ":" +:+ vc_from v +:+ " -> " +:+ vc_to v +:+ newline.

Definition render (d : LockDiff) : string :=
  if is_empty d then "Lockfile diff: no changes" +:+ newline
  else
    "Lockfile diff: " +:+ pretty (change_count d) +:+ " changes total" +:+ newline
    +:+ summary "+" "added" (added d) +:+ summary "-" "removed" (removed d)
    +:+ summary "^" "upgraded" (upgraded d) +:+ summary "v" "downgraded" (downgraded d)
    +:+ summary ">" "re-scoped" (rescoped d) +:+ summary "*" "re-classified" (reclassified d)
    +:+ section "Added" (entry_line "+") (added d) +:+ section "Removed" (entry_line "-") (removed d)
    +:+ section "Upgraded" (version_line "^") (upgraded d)
    +:+ section "Downgraded" (version_line "v") (downgraded d)
    +:+ section "Re-scoped"
          (fun s => "  > " +:+ sc_coords s +:+ " " +:+ sc_from s +:+ " -> " +:+ sc_to s +:+ newline) (rescoped d)
    +:+ section "Re-classified"
          (fun t => "  * " +:+ tc_coords t +:+ " " +:+ tc_from t +:+ " -> " +:+ tc_to t +:+ newline) (reclassified d).

End LockDiff.
