(* ===== verification/LockDiffFacts.v ===== *)
(** * Theorems on the lockfile diff *)

From S2P Require Import Prelude Version SortBy Lockfile LockDiff.
From stdpp Require Import sorting.

Module LockDiffFacts.
Import LockDiff.

(** ** One stage *)

Lemma take_first_some p r y r' : take_first p r = Some (y, r') -> r ≡ₚ y :: r' /\ p y = true.
Proof.
  revert y r'. induction r as [|z r IH]; intros y r' H; cbn in H; [done |].
  destruct (p z) eqn:E; [by injection H as <- <- |].
  destruct (take_first p r) as [[w r'']|]; [| done]. injection H as <- <-.
  destruct (IH w r'' eq_refl) as [-> Hw]. split; [apply Permutation_swap | done].
Qed.

Lemma take_first_none p r : take_first p r = None -> forall y, y ∈ r -> p y = false.
Proof.
  induction r as [|z r IH]; intros H y Hy; cbn in H; [set_solver |]. destruct (p z) eqn:E; [done |].
  destruct (take_first p r) as [[w r'']|]; [done |]. apply elem_of_cons in Hy as [->|Hy]; [done |]. by apply IH.
Qed.

(** The pairs match, both lists are partitioned, and no match is left. *)
Lemma pair_off_spec same l r l1 r1 ps :
  pair_off same l r = (l1, r1, ps) ->
  l ≡ₚ ps.*1 ++ l1 /\ r ≡ₚ ps.*2 ++ r1
  /\ (forall p, p ∈ ps -> same p.1 p.2 = true)
  /\ (forall x y, x ∈ l1 -> y ∈ r1 -> same x y = false).
Proof.
  revert r l1 r1 ps. induction l as [|x l IH]; intros r l1 r1 ps H; cbn in H.
  { injection H as <- <- <-. split_and!; [done | done | set_solver | set_solver]. }
  destruct (take_first (same x) r) as [[y r']|] eqn:E.
  - destruct (pair_off same l r') as [[l2 r2] qs] eqn:E2. injection H as <- <- <-.
    apply take_first_some in E as [Hr Hy]. destruct (IH _ _ _ _ E2) as (H1 & H2 & H3 & H4).
    split_and!; [by rewrite H1 | by rewrite Hr, H2 | set_solver | done].
  - destruct (pair_off same l r) as [[l2 r2] qs] eqn:E2. injection H as <- <- <-.
    destruct (IH _ _ _ _ E2) as (H1 & H2 & H3 & H4). split_and!; [| done | done |].
    + rewrite H1. apply Permutation_middle.
    + intros a b Ha Hb. apply elem_of_cons in Ha as [->|Ha]; [| auto].
      apply (take_first_none _ _ E). rewrite H2. set_solver.
Qed.

(** ** The four stages *)

(** What the stages make of the entries of one group: exact matches, pairs
    with the same type, pairs with the same version, and leftovers. *)
Record staged (l r kept : list LockEntry) (ps qs : list (LockEntry * LockEntry)) (old new : list LockEntry)
    : Prop := mkStaged {
  st_left : l ≡ₚ kept ++ ps.*1 ++ qs.*1 ++ old;
  st_right : r ≡ₚ kept ++ ps.*2 ++ qs.*2 ++ new;
  st_type : forall a b, (a, b) ∈ ps -> ga a = ga b /\ type_ a = type_ b /\ classifier a = classifier b;
  st_version : forall a b, (a, b) ∈ qs ->
    ga a = ga b /\ version a = version b /\ (type_ a, classifier a) <> (type_ b, classifier b);
  st_fresh : forall x, x ∈ ps.*1 ++ qs.*1 ++ old -> x ∉ ps.*2 ++ qs.*2 ++ new;
  st_apart : forall a b, a ∈ old -> b ∈ new -> ga a = ga b ->
    version a <> version b /\ (type_ a, classifier a) <> (type_ b, classifier b)
}.

Lemma same_type_true a b :
  same_type a b = true <-> type_ a = type_ b /\ classifier a = classifier b.
Proof. unfold same_type. rewrite andb_true_iff, String.eqb_eq, bool_decide_eq_true. naive_solver. Qed.

Lemma same_type_false a b :
  same_type a b = false <-> (type_ a, classifier a) <> (type_ b, classifier b).
Proof.
  rewrite <- not_true_iff_false, same_type_true.
  split; intros H E; apply H; [by injection E | by destruct E as [-> ->]].
Qed.

Lemma same_version_true a b : same_version a b = true <-> version a = version b.
Proof. unfold same_version. rewrite String.eqb_eq. naive_solver. Qed.

Lemma pairs_fst {A B} (ps : list (A * B)) a b : (a, b) ∈ ps -> a ∈ ps.*1 /\ b ∈ ps.*2.
Proof. intros H. split; apply list_elem_of_fmap; exists (a, b); done. Qed.

Lemma diagonal (ps : list (LockEntry * LockEntry)) :
  (forall p, p ∈ ps -> same_entry p.1 p.2 = true) -> ps.*1 = ps.*2.
Proof.
  induction ps as [|[a b] ps IH]; intros H; [done |]. cbn. f_equal.
  - apply (bool_decide_eq_true (a = b)). apply (H (a, b)). set_solver.
  - apply IH. set_solver.
Qed.

Lemma stages_exact out g l r :
  (forall e, e ∈ l \/ e ∈ r -> ga e = g) ->
  exists kept ps qs old new, staged l r kept ps qs old new
    /\ diff_ga out l r
       = mkDiff (added out ++ new) (removed out ++ old)
           (upgraded out ++ omap upgrade_of ps) (downgraded out ++ omap downgrade_of ps)
           (rescoped out ++ omap rescope_of ps) (reclassified out ++ map type_change qs).
Proof.
  intros Hg. unfold diff_ga. destruct (pair_off same_entry l r) as [[l1 r1] ks] eqn:E1.
  destruct (pair_off same_type l1 r1) as [[l2 r2] ps] eqn:E2.
  destruct (pair_off same_version l2 r2) as [[l3 r3] qs] eqn:E3.
  apply pair_off_spec in E1 as (A1 & B1 & C1 & D1), E2 as (A2 & B2 & C2 & D2), E3 as (A3 & B3 & C3 & D3).
  exists ks.*1, ps, qs, l3, r3. split; [| done]. apply diagonal in C1 as Hk.
  assert (HL : l1 ≡ₚ ps.*1 ++ qs.*1 ++ l3) by (by rewrite A2, A3).
  assert (HR : r1 ≡ₚ ps.*2 ++ qs.*2 ++ r3) by (by rewrite B2, B3).
  assert (Gl : forall e, e ∈ ps.*1 ++ qs.*1 ++ l3 -> ga e = g).
  { intros e He. rewrite <- HL in He. apply Hg. left. rewrite A1. set_solver. }
  assert (Gr : forall e, e ∈ ps.*2 ++ qs.*2 ++ r3 -> ga e = g).
  { intros e He. rewrite <- HR in He. apply Hg. right. rewrite B1. set_solver. }
  split.
  - by rewrite A1, HL.
  - by rewrite B1, Hk, HR.
  - intros a b Hab. pose proof (C2 _ Hab) as Ht. apply same_type_true in Ht. apply pairs_fst in Hab as [Ha Hb].
    rewrite Gl, Gr by set_solver. done.
  - intros a b Hab. pose proof (C3 _ Hab) as Ht. apply same_version_true in Ht.
    apply pairs_fst in Hab as [Ha Hb]. rewrite Gl, Gr by set_solver. split_and!; [done | done |].
    apply same_type_false, D2; [rewrite A3 | rewrite B3]; set_solver.
  - intros x Hx Hy. rewrite <- HL in Hx. rewrite <- HR in Hy. specialize (D1 x x Hx Hy).
    unfold same_entry in D1. by rewrite bool_decide_eq_false in D1.
  - intros a b Ha Hb _. split.
    + intros E. apply (same_version_true a b) in E. rewrite D3 in E by done. done.
    + apply same_type_false, D2; [rewrite A3 | rewrite B3]; set_solver.
Qed.

(** ** All the groups *)

(** Groups with different names do not interact. *)
Lemma staged_app l r k p q o n l' r' k' p' q' o' n' :
  (forall x y, x ∈ l ++ r -> y ∈ l' ++ r' -> ga x <> ga y) ->
  staged l r k p q o n -> staged l' r' k' p' q' o' n' ->
  staged (l ++ l') (r ++ r') (k ++ k') (p ++ p') (q ++ q') (o ++ o') (n ++ n').
Proof.
  intros Hd [A1 B1 C1 D1 F1 G1] [A2 B2 C2 D2 F2 G2].
  assert (Hl : forall x, x ∈ p.*1 ++ q.*1 ++ o -> x ∈ l) by (intros x Hx; rewrite A1; set_solver).
  assert (Hr : forall x, x ∈ p.*2 ++ q.*2 ++ n -> x ∈ r) by (intros x Hx; rewrite B1; set_solver).
  assert (Hl' : forall x, x ∈ p'.*1 ++ q'.*1 ++ o' -> x ∈ l') by (intros x Hx; rewrite A2; set_solver).
  assert (Hr' : forall x, x ∈ p'.*2 ++ q'.*2 ++ n' -> x ∈ r') by (intros x Hx; rewrite B2; set_solver).
  assert (Hne : forall x y, x ∈ l \/ x ∈ r -> y ∈ l' \/ y ∈ r' -> ga x <> ga y).
  { intros x y Hx Hy. apply Hd; by apply elem_of_app. }
  clear Hd. split.
  - rewrite A1, A2, !fmap_app. solve_Permutation.
  - rewrite B1, B2, !fmap_app. solve_Permutation.
  - intros a b Hab. apply elem_of_app in Hab as [?|?]; auto.
  - intros a b Hab. apply elem_of_app in Hab as [?|?]; auto.
  - clear A1 B1 A2 B2 C1 C2 D1 D2 G1 G2. intros x Hx Hy. rewrite !fmap_app, !elem_of_app in Hx, Hy.
    assert (Hx2 : x ∈ p.*1 ++ q.*1 ++ o \/ x ∈ p'.*1 ++ q'.*1 ++ o') by (rewrite !elem_of_app; tauto).
    assert (Hy2 : x ∈ p.*2 ++ q.*2 ++ n \/ x ∈ p'.*2 ++ q'.*2 ++ n') by (rewrite !elem_of_app; tauto).
    destruct Hx2 as [Hx2|Hx2], Hy2 as [Hy2|Hy2].
    + by apply (F1 x).
    + apply (Hne x x); auto.
    + apply (Hne x x); auto.
    + by apply (F2 x).
  - intros a b Ha Hb E. apply elem_of_app in Ha as [Ha|Ha], Hb as [Hb|Hb]; auto.
    + destruct (Hne a b); [left; apply Hl; set_solver | right; apply Hr'; set_solver | done].
    + destruct (Hne b a); [right; apply Hr; set_solver | left; apply Hl'; set_solver | done].
Qed.

Definition in_group (L : list LockEntry) (g : string) : list LockEntry := filter (fun e => ga e = g) L.

Lemma in_group_elem L g e : e ∈ in_group L g <-> ga e = g /\ e ∈ L.
Proof. unfold in_group. by rewrite list_elem_of_filter. Qed.

Definition grouped (L : list LockEntry) (gas : list string) : list LockEntry := gas ≫= in_group L.

Lemma grouped_elem L gas e : e ∈ grouped L gas -> ga e ∈ gas /\ e ∈ L.
Proof. intros (g & He & Hg)%list_elem_of_bind. apply in_group_elem in He as [<- ?]. done. Qed.

Lemma grouped_all L gas : NoDup gas -> (forall e, e ∈ L -> ga e ∈ gas) -> grouped L gas ≡ₚ L.
Proof.
  intros Hn. revert L. induction Hn as [|g gas Hg Hn IH]; intros L HL; unfold grouped; cbn.
  { destruct L as [|e L]; [done |]. specialize (HL e). set_solver. }
  etransitivity; [| apply (filter_app_complement (fun e => ga e = g) L)]. apply Permutation_app; [done |].
  rewrite <- (IH (filter (fun e => ga e <> g) L)).
  - unfold grouped. erewrite Forall_bind_ext; [done |]. apply list.Forall_forall. intros g' Hg'. unfold in_group.
    rewrite list_filter_filter_l; [done |]. intros e -> ->. done.
  - intros e [He1 He2]%list_elem_of_filter. specialize (HL e He2). set_solver.
Qed.

Definition fold_groups (L R : list LockEntry) (out : LockDiff) (gas : list string) : LockDiff :=
  foldl (fun out g => diff_ga out (in_group L g) (in_group R g)) out gas.

Lemma fold_exact L R gas out :
  NoDup gas ->
  exists kept ps qs old new, staged (grouped L gas) (grouped R gas) kept ps qs old new
    /\ fold_groups L R out gas
       = mkDiff (added out ++ new) (removed out ++ old)
           (upgraded out ++ omap upgrade_of ps) (downgraded out ++ omap downgrade_of ps)
           (rescoped out ++ omap rescope_of ps) (reclassified out ++ map type_change qs).
Proof.
  intros Hn. revert out. induction Hn as [|g gas Hg Hn IH]; intros out; cbn.
  { exists [], [], [], [], []. split; [| destruct out; cbn; by rewrite !app_nil_r].
    split; set_solver. }
  destruct (stages_exact out g (in_group L g) (in_group R g)) as (k & p & q & o & n & H1 & E).
  { intros e. rewrite !in_group_elem. tauto. }
  destruct (IH (diff_ga out (in_group L g) (in_group R g))) as (k' & p' & q' & o' & n' & H2 & E').
  exists (k ++ k'), (p ++ p'), (q ++ q'), (o ++ o'), (n ++ n'). split.
  - apply staged_app; [| done | done]. intros x y Hx Hy E1. rewrite elem_of_app, !in_group_elem in Hx.
    assert (Hgy : ga y ∈ gas).
    { apply elem_of_app in Hy as [Hy|Hy]; by apply grouped_elem in Hy as [? _]. }
    assert (ga x = g) as Ex by tauto. rewrite <- E1, Ex in Hgy. done.
  - unfold fold_groups in *. cbn. rewrite E', E. cbn. by rewrite !omap_app, map_app, !app_assoc.
Qed.

Lemma group_snoc L e :
  group_by_ga (L ++ [e]) = <[ga e := default [] (group_by_ga L !! ga e) ++ [e]]> (group_by_ga L).
Proof. unfold group_by_ga. by rewrite foldl_app. Qed.

Lemma group_lookup L g : default [] (group_by_ga L !! g) = in_group L g.
Proof.
  induction L as [|e L IH] using rev_ind; [done |]. rewrite group_snoc. unfold in_group in *.
  rewrite filter_app. destruct (decide (ga e = g)) as [<-|Hne].
  - rewrite lookup_insert_eq. cbn. rewrite decide_True by done. by rewrite IH.
  - rewrite lookup_insert_ne by done. cbn. rewrite decide_False by done. by rewrite IH, app_nil_r.
Qed.

Lemma group_dom L g : is_Some (group_by_ga L !! g) <-> exists e, e ∈ L /\ ga e = g.
Proof.
  induction L as [|e L IH] using rev_ind; [split; [by intros [? ?] | set_solver] |].
  rewrite group_snoc. destruct (decide (ga e = g)) as [<-|Hne].
  - rewrite lookup_insert_eq. split; [exists e; set_solver | eauto].
  - rewrite lookup_insert_ne, IH by done. split; intros (x & Hx & <-); exists x; set_solver.
Qed.

Lemma gas_dedup_cons y z l :
  dedup (y :: z :: l) = if String.eqb y z then dedup (z :: l) else y :: dedup (z :: l).
Proof. done. Qed.

Lemma gas_dedup_elem x l : x ∈ dedup l <-> x ∈ l.
Proof.
  induction l as [|y [|z l] IH]; try done. rewrite gas_dedup_cons.
  destruct (String.eqb_spec y z) as [->|]; [rewrite IH; set_solver |]. rewrite !elem_of_cons in *. tauto.
Qed.

Lemma gas_dedup_nodup l : StronglySorted (SortBy.key_le (fun s => s)) l -> NoDup (dedup l).
Proof.
  induction l as [|y [|z l] IH]; intros H; [constructor | apply NoDup_singleton |].
  apply StronglySorted_inv in H as [Hs Hy]. specialize (IH Hs). rewrite gas_dedup_cons.
  destruct (String.eqb_spec y z) as [->|Hne]; [done |]. constructor; [| done].
  rewrite gas_dedup_elem. intros Hin. rewrite list.Forall_forall in Hy.
  apply StronglySorted_inv in Hs as [_ Hz]. apply elem_of_cons in Hin as [->|Hin]; [done |].
  rewrite list.Forall_forall in Hz. destruct Hne. apply String.leb_antisym; [apply Hy; set_solver | by apply Hz].
Qed.

Lemma all_gas_spec L R :
  let gas := all_gas (group_by_ga L) (group_by_ga R) in
  NoDup gas /\ (forall e, e ∈ L -> ga e ∈ gas) /\ (forall e, e ∈ R -> ga e ∈ gas).
Proof.
  intros gas. assert (Hk : forall M e, e ∈ M -> ga e ∈ (map_to_list (group_by_ga M)).*1).
  { intros M e He. destruct (proj2 (group_dom M (ga e))) as [l Hl]; [by exists e |].
    apply list_elem_of_fmap. exists (ga e, l). split; [done |]. by apply elem_of_map_to_list. }
  split; [apply gas_dedup_nodup, SortBy.sort_by_key_sorted |].
  split; intros e He; subst gas; unfold all_gas; rewrite gas_dedup_elem, SortBy.sort_by_key_perm, elem_of_app; auto.
Qed.

Lemma diff_fold L R :
  diff L R = sort_diff (fold_groups L R LockDiff_default (all_gas (group_by_ga L) (group_by_ga R))).
Proof.
  unfold diff, fold_groups. f_equal. generalize LockDiff_default as out.
  induction (all_gas (group_by_ga L) (group_by_ga R)) as [|g gas IH]; intros out; [done |]. cbn.
  by rewrite !group_lookup, IH.
Qed.

(** The changes a diff reports, without their order. *)
Definition reports (d : LockDiff) (ps qs : list (LockEntry * LockEntry)) : Prop :=
  upgraded d ≡ₚ omap upgrade_of ps /\ downgraded d ≡ₚ omap downgrade_of ps
  /\ rescoped d ≡ₚ omap rescope_of ps /\ reclassified d ≡ₚ map type_change qs.

Lemma staged_perm l r l' r' kept ps qs old new old' new' :
  l ≡ₚ l' -> r ≡ₚ r' -> old ≡ₚ old' -> new ≡ₚ new' ->
  staged l r kept ps qs old new -> staged l' r' kept ps qs old' new'.
Proof.
  intros Hl Hr Ho Hn [A B C D F G]. split; try done.
  - by rewrite <- Hl, <- Ho.
  - by rewrite <- Hr, <- Hn.
  - intros x. rewrite <- Ho, <- Hn. apply F.
  - intros a b. rewrite <- Ho, <- Hn. apply G.
Qed.

Lemma diff_staged L R :
  exists kept ps qs, staged L R kept ps qs (removed (diff L R)) (added (diff L R)) /\ reports (diff L R) ps qs.
Proof.
  destruct (all_gas_spec L R) as (Hn & HL & HR).
  destruct (fold_exact L R _ LockDiff_default Hn) as (k & p & q & o & n & H & E).
  rewrite diff_fold, E. exists k, p, q. split.
  - eapply staged_perm; [by apply grouped_all | by apply grouped_all | | | exact H];
      cbn; by rewrite SortBy.sort_by_key_perm.
  - unfold reports, sort_diff, group_by_prefix. cbn. by rewrite !SortBy.sort_by_key_perm.
Qed.

(** ** Empty diffs *)

Lemma ga_inj a b :
  sep_free ":" (group_id a) = true -> sep_free ":" (group_id b) = true -> ga a = ga b ->
  group_id a = group_id b /\ artifact_id a = artifact_id b.
Proof.
  intros Ha Hb E. apply (f_equal (str_split_once ":")) in E. unfold ga in E.
  change (":" +:+ artifact_id a) with (String ":" (artifact_id a)) in E.
  change (":" +:+ artifact_id b) with (String ":" (artifact_id b)) in E.
  rewrite !split_once_free in E by done. by injection E.
Qed.

Lemma from_entry_free e : sep_free ":" (group_id (from_lockfile_entry e)) = true.
Proof.
  unfold from_lockfile_entry, parse_coords.
  destruct (str_split_once ":" (Lockfile.coords e)) as [[g a]|] eqn:E; [| done]. by apply split_once_sep_free in E.
Qed.

(** A pair that leaves no trace in the report is a pair of equal entries. *)
Lemma silent_pair a b :
  sep_free ":" (group_id a) = true -> sep_free ":" (group_id b) = true ->
  ga a = ga b -> type_ a = type_ b -> classifier a = classifier b ->
  upgrade_of (a, b) = None -> downgrade_of (a, b) = None -> rescope_of (a, b) = None -> a = b.
Proof.
  intros Fa Fb G T C U D S. destruct (ga_inj a b Fa Fb G) as [Hg Ha].
  unfold upgrade_of, downgrade_of, rescope_of in *. cbn in *.
  destruct (String.eqb_spec (version a) (version b)) as [Hv|]; cbn in *.
  - destruct (String.eqb_spec (scope a) (scope b)) as [Hs|]; cbn in *; [| done].
    destruct a, b; cbn in *. congruence.
  - by destruct (is_upgrade (a, b)).
Qed.

Lemma omap_nil {A B} (f : A -> option B) l x : omap f l = [] -> x ∈ l -> f x = None.
Proof.
  intros H Hx. destruct (f x) as [y|] eqn:E; [| done].
  assert (y ∈ omap f l) by (apply list_elem_of_omap; by exists x). rewrite H in *. set_solver.
Qed.

Lemma staged_silent l r kept ps qs old new :
  staged l r kept ps qs old new -> Forall (fun e => sep_free ":" (group_id e) = true) (l ++ r) ->
  omap upgrade_of ps = [] -> omap downgrade_of ps = [] -> omap rescope_of ps = [] -> ps = [].
Proof.
  intros [A B C _ F _] HF U D S. destruct ps as [|[a b] ps]; [done | exfalso].
  destruct (C a b) as (G & T & Cl); [set_solver |]. rewrite list.Forall_forall in HF.
  assert (Ha : a ∈ l) by (rewrite A; set_solver). assert (Hb : b ∈ r) by (rewrite B; set_solver).
  assert (a = b) as <-.
  { apply silent_pair; try done; try (by eapply omap_nil; [eassumption | set_solver]); apply HF; set_solver. }
  apply (F a); set_solver.
Qed.

Lemma staged_same l r kept ps qs old new :
  staged l r kept ps qs old new -> l ≡ₚ r -> ps = [] /\ qs = [] /\ old = [] /\ new = [].
Proof.
  intros [A B _ _ F _] E. rewrite A, B in E. apply Permutation_app_inv_l in E.
  assert (HL : ps.*1 ++ qs.*1 ++ old = []).
  { apply elem_of_nil_inv. intros x Hx. apply (F x Hx). by rewrite <- E. }
  rewrite HL in E. symmetry in E. apply Permutation_nil_r in E.
  destruct ps, qs; cbn in *; try done.
Qed.

(** ** The report *)

(** A pair of the second stage is one of three changes. *)
Definition upgrade (p : LockEntry * LockEntry) : Prop :=
  version p.1 <> version p.2 /\ compare_versions (version p.1) (version p.2) = Lt.
Definition downgrade (p : LockEntry * LockEntry) : Prop :=
  version p.1 <> version p.2 /\ compare_versions (version p.1) (version p.2) <> Lt.
Definition rescope (p : LockEntry * LockEntry) : Prop := version p.1 = version p.2 /\ scope p.1 <> scope p.2.

#[local] Instance upgrade_dec p : Decision (upgrade p) := ltac:(unfold upgrade; apply _).
#[local] Instance downgrade_dec p : Decision (downgrade p) := ltac:(unfold downgrade; apply _).
#[local] Instance rescope_dec p : Decision (rescope p) := ltac:(unfold rescope; apply _).

Lemma omap_filter {A B} (P : A -> Prop) `{!forall x, Decision (P x)} (f : A -> option B) (g : A -> B) (l : list A) :
  (forall x, f x = if decide (P x) then Some (g x) else None) -> omap f l = g <$> filter P l.
Proof.
  intros Hf. induction l as [|x l IH]; [done |]. cbn [omap list_omap]. rewrite Hf, IH.
  destruct (decide (P x)); [by rewrite filter_cons_True | by rewrite filter_cons_False].
Qed.

Lemma upgrade_exact p : upgrade_of p = if decide (upgrade p) then Some (version_change p) else None.
Proof.
  unfold upgrade_of, is_upgrade. destruct (decide (upgrade p)) as [[Hv Hc]|D].
  - by rewrite Hc, (proj2 (String.eqb_neq _ _) Hv).
  - unfold upgrade in D. destruct (String.eqb_spec (version p.1) (version p.2)); [done |]. cbn.
    destruct (compare_versions _ _); [done | exfalso; tauto | done].
Qed.

Lemma downgrade_exact p : downgrade_of p = if decide (downgrade p) then Some (version_change p) else None.
Proof.
  unfold downgrade_of, is_upgrade. destruct (decide (downgrade p)) as [[Hv Hc]|D].
  - rewrite (proj2 (String.eqb_neq _ _) Hv). by destruct (compare_versions _ _).
  - unfold downgrade in D. destruct (String.eqb_spec (version p.1) (version p.2)); [done |]. cbn.
    destruct (compare_versions _ _); [exfalso; naive_solver | done | exfalso; naive_solver].
Qed.

Lemma rescope_exact p : rescope_of p = if decide (rescope p)
  then Some (mkScopeChange (display_coords p.1) (scope p.1) (scope p.2)) else None.
Proof.
  unfold rescope_of. destruct (decide (rescope p)) as [[Hv Hc]|D].
  - by rewrite (proj2 (String.eqb_eq _ _) Hv), (proj2 (String.eqb_neq _ _) Hc).
  - unfold rescope in D. destruct (String.eqb_spec (version p.1) (version p.2)); [| done].
    destruct (String.eqb_spec (scope p.1) (scope p.2)); [done | exfalso; tauto].
Qed.

Lemma pairs_split ps : Forall (fun p => version p.1 <> version p.2 \/ scope p.1 <> scope p.2) ps ->
  ps ≡ₚ filter upgrade ps ++ filter downgrade ps ++ filter rescope ps.
Proof.
  induction 1 as [|p ps Hp _ IH]; [done |].
  rewrite (filter_cons upgrade), (filter_cons downgrade), (filter_cons rescope).
  destruct (decide (version p.1 = version p.2)) as [E|E].
  - rewrite (decide_False (P := upgrade p)), (decide_False (P := downgrade p)), (decide_True (P := rescope p))
      by (unfold upgrade, downgrade, rescope; tauto). rewrite IH at 1. rewrite !app_assoc. apply Permutation_middle.
  - rewrite (decide_False (P := rescope p)) by (unfold rescope; tauto).
    destruct (decide (compare_versions (version p.1) (version p.2) = Lt)) as [C|C].
    + rewrite (decide_True (P := upgrade p)), (decide_False (P := downgrade p)) by (unfold upgrade, downgrade; tauto).
      by rewrite IH at 1.
    + rewrite (decide_False (P := upgrade p)), (decide_True (P := downgrade p)) by (unfold upgrade, downgrade; tauto).
      rewrite IH at 1. cbn. apply Permutation_middle.
Qed.

(** Two entries of the same artifact. *)
Definition same_artifact (a b : LockEntry) : Prop := group_id a = group_id b /\ artifact_id a = artifact_id b.
Definition same_kind (a b : LockEntry) : Prop := type_ a = type_ b /\ classifier a = classifier b.

(** What a diff [d] of [l] and [r] says: [ups], [downs], [scopes] and [kinds]
    are the pairs of entries behind the changes that it reports. *)
Record accounts (l r : list LockEntry) (d : LockDiff) (kept : list LockEntry)
    (ups downs scopes kinds : list (LockEntry * LockEntry)) : Prop := mkAccounts {
  ac_left : l ≡ₚ kept ++ (ups ++ downs ++ scopes ++ kinds).*1 ++ removed d;
  ac_right : r ≡ₚ kept ++ (ups ++ downs ++ scopes ++ kinds).*2 ++ added d;
  ac_artifact : forall a b, (a, b) ∈ ups ++ downs ++ scopes ++ kinds -> same_artifact a b;
  ac_ups : forall a b, (a, b) ∈ ups -> same_kind a b /\ version a <> version b /\ compare_versions (version a) (version b) = Lt;
  ac_downs : forall a b, (a, b) ∈ downs -> same_kind a b /\ version a <> version b /\ compare_versions (version a) (version b) <> Lt;
  ac_scopes : forall a b, (a, b) ∈ scopes -> same_kind a b /\ version a = version b /\ scope a <> scope b;
  ac_kinds : forall a b, (a, b) ∈ kinds -> ~ same_kind a b /\ version a = version b;
  ac_fresh : forall x, x ∈ (ups ++ downs ++ scopes ++ kinds).*1 ++ removed d -> x ∉ (ups ++ downs ++ scopes ++ kinds).*2 ++ added d;
  ac_apart : forall a b, a ∈ removed d -> b ∈ added d -> same_artifact a b -> version a <> version b /\ ~ same_kind a b;
  ac_upgraded : upgraded d ≡ₚ (fun p => mkVersionChange (display_coords p.1) (version p.1) (version p.2)) <$> ups;
  ac_downgraded : downgraded d ≡ₚ (fun p => mkVersionChange (display_coords p.1) (version p.1) (version p.2)) <$> downs;
  ac_rescoped : rescoped d ≡ₚ (fun p => mkScopeChange (display_coords p.1) (scope p.1) (scope p.2)) <$> scopes;
  ac_reclassified : reclassified d ≡ₚ (fun p => mkTypeChange (group_id p.1 +:+ ":" +:+ artifact_id p.1 +:+ ":" +:+ version p.1)
    (short_type (type_ p.1) (classifier p.1)) (short_type (type_ p.2) (classifier p.2))) <$> kinds
}.

(** A pair of the second stage differs in version or scope. *)
Lemma staged_differ l r kept ps qs old new a b :
  staged l r kept ps qs old new -> (forall e, e ∈ l ++ r -> sep_free ":" (group_id e) = true) -> (a, b) ∈ ps ->
  version a <> version b \/ scope a <> scope b.
Proof.
  intros [A B C _ F _] Hf Hin. destruct (C a b Hin) as (G & T & Cl).
  assert (Ha : a ∈ ps.*1) by (apply list_elem_of_fmap; by exists (a, b)).
  assert (Hb : b ∈ ps.*2) by (apply list_elem_of_fmap; by exists (a, b)).
  destruct (ga_inj a b) as [Hg Har]; [apply Hf; rewrite A; set_solver | apply Hf; rewrite B; set_solver | done |].
  destruct (decide (version a = version b)) as [Hv|]; [| by left]. right. intros Hs.
  assert (a = b) as -> by (destruct a, b; cbn in *; congruence). apply (F b); set_solver.
Qed.

Lemma staged_accounts l r kept ps qs d :
  (forall e, e ∈ l ++ r -> sep_free ":" (group_id e) = true) ->
  staged l r kept ps qs (removed d) (added d) -> reports d ps qs ->
  accounts l r d kept (filter upgrade ps) (filter downgrade ps) (filter rescope ps) qs.
Proof.
  intros Hf H (R1 & R2 & R3 & R4). pose proof H as [A B C D F G].
  assert (Hps : ps ≡ₚ filter upgrade ps ++ filter downgrade ps ++ filter rescope ps).
  { apply pairs_split, list.Forall_forall. intros [a b] Hin. by eapply staged_differ. }
  assert (Hall : ps ++ qs ≡ₚ filter upgrade ps ++ filter downgrade ps ++ filter rescope ps ++ qs).
  { rewrite Hps at 1. by rewrite <- !app_assoc. }
  assert (Hga : forall a b, a ∈ l -> b ∈ r -> ga a = ga b -> same_artifact a b).
  { intros a b Ha Hb. apply ga_inj; apply Hf; set_solver. }
  split.
  - rewrite <- Hall, fmap_app, <- app_assoc. exact A.
  - rewrite <- Hall, fmap_app, <- app_assoc. exact B.
  - intros a b. rewrite <- Hall. intros Hin.
    assert (Ha : a ∈ (ps ++ qs).*1) by (apply list_elem_of_fmap; by exists (a, b)).
    assert (Hb : b ∈ (ps ++ qs).*2) by (apply list_elem_of_fmap; by exists (a, b)).
    rewrite fmap_app in Ha, Hb. apply Hga; [rewrite A; set_solver | rewrite B; set_solver |].
    apply elem_of_app in Hin as [Hin|Hin]; [apply (C a b Hin) | apply (D a b Hin)].
  - intros a b [Hu Hin]%list_elem_of_filter. destruct (C a b Hin) as (_ & T). split; [done | exact Hu].
  - intros a b [Hu Hin]%list_elem_of_filter. destruct (C a b Hin) as (_ & T). split; [done | exact Hu].
  - intros a b [Hu Hin]%list_elem_of_filter. destruct (C a b Hin) as (_ & T). split; [done | exact Hu].
  - intros a b Hin. destruct (D a b Hin) as (_ & Hv & Hk). split; [| done]. intros [T Cl]. congruence.
  - intros x. rewrite <- Hall, !fmap_app, <- !app_assoc. apply F.
  - intros a b Ha Hb [Hg Har]. destruct (G a b Ha Hb) as [Hv Hk]; [unfold ga; congruence |]. split; [done |].
    intros [T Cl]. congruence.
  - rewrite R1. by rewrite (omap_filter upgrade _ _ _ upgrade_exact).
  - rewrite R2. by rewrite (omap_filter downgrade _ _ _ downgrade_exact).
  - rewrite R3. by rewrite (omap_filter rescope _ _ _ rescope_exact).
  - exact R4.
Qed.

(** C39: The diff of two lockfiles accounts for every entry of both.  The
    left entries are, as a multiset, the common ones, the left sides of the
    reported changes and the removed ones; the right entries are the common
    ones, the right sides and the added ones.  Each change is one pair of
    entries of the same group and artifact: an upgrade for each pair of the
    same type and classifier whose version goes up in the order of
    [compare_versions], a downgrade when the version differs otherwise, a
    change of scope when the version is the same and the scope is not, a
    reclassification when the version is the same and the type or classifier
    is not; the report has exactly these, with their coordinates and both
    values.  Nothing reported on the left occurs among what is reported on
    the right, and an addition and a removal of the same group and artifact
    differ in version and in type or classifier, so no change is reported as
    an addition and a removal.  Every list is sorted by its coordinates. *)
Theorem diff_exact (left right : Lockfile.Lockfile) :
  let d := diff_lockfiles left right in
  (exists kept ups downs scopes kinds,
     accounts (from_lockfile_entry <$> Lockfile.entries left) (from_lockfile_entry <$> Lockfile.entries right)
       d kept ups downs scopes kinds)
  /\ StronglySorted (SortBy.key_le coords_key) (added d)
  /\ StronglySorted (SortBy.key_le coords_key) (removed d)
  /\ StronglySorted (SortBy.key_le vc_coords) (upgraded d)
  /\ StronglySorted (SortBy.key_le vc_coords) (downgraded d)
  /\ StronglySorted (SortBy.key_le sc_coords) (rescoped d)
  /\ StronglySorted (SortBy.key_le tc_coords) (reclassified d).
Proof.
  intros d. split.
  - subst d. unfold diff_lockfiles. change (map from_lockfile_entry) with (fmap (M := list) from_lockfile_entry).
    match goal with |- context [accounts ?l ?r] => destruct (diff_staged l r) as (k & p & q & H & R) end.
    eexists _, _, _, _, _. eapply staged_accounts; [| exact H | exact R].
    intros e He. apply elem_of_app in He as [He|He]; apply list_elem_of_fmap in He as (x & -> & _); apply from_entry_free.
  - subst d. unfold diff_lockfiles, diff, sort_diff, group_by_prefix. cbn.
    split_and!; apply SortBy.sort_by_key_sorted.
Qed.

(** The diff of two lockfiles is empty exactly when they list the same
    entries, in any order and with the same multiplicities, as far as the
    diff looks at them (coordinates, version, scope, classifier, type). *)
Theorem diff_empty_iff (left right : Lockfile.Lockfile) :
  is_empty (diff_lockfiles left right) = true
  <-> map from_lockfile_entry (Lockfile.entries left) ≡ₚ map from_lockfile_entry (Lockfile.entries right).
Proof.
  unfold diff_lockfiles. set (l := map from_lockfile_entry (Lockfile.entries left)).
  set (r := map from_lockfile_entry (Lockfile.entries right)).
  destruct (diff_staged l r) as (k & p & q & H & R1 & R2 & R3 & R4).
  unfold is_empty, change_count. rewrite Nat.eqb_eq. split.
  - intros Hc. assert (Hz : length (added (diff l r)) = 0 /\ length (removed (diff l r)) = 0
      /\ length (upgraded (diff l r)) = 0 /\ length (downgraded (diff l r)) = 0
      /\ length (rescoped (diff l r)) = 0 /\ length (reclassified (diff l r)) = 0) by lia.
    destruct Hz as (Z1%nil_length_inv & Z2%nil_length_inv & Z3%nil_length_inv & Z4%nil_length_inv
                    & Z5%nil_length_inv & Z6%nil_length_inv).
    rewrite Z1, Z2 in H. rewrite Z3 in R1. rewrite Z4 in R2. rewrite Z5 in R3. rewrite Z6 in R4.
    apply Permutation_nil_l in R1, R2, R3, R4.
    assert (q = []) as -> by (by destruct q).
    assert (p = []) as ->.
    { eapply staged_silent; [exact H | | done ..]. apply list.Forall_forall. intros e He.
      apply elem_of_app in He as [He|He]; apply list_elem_of_fmap in He as (x & -> & _); apply from_entry_free. }
    destruct H as [A B _ _ _ _]. rewrite A, B. done.
  - intros E. destruct (staged_same _ _ _ _ _ _ _ H E) as (-> & -> & -> & ->). cbn in *.
    apply Permutation_nil_r in R1, R2, R3, R4. rewrite R1, R2, R3, R4. done.
Qed.

(** ** Version order *)

Lemma split_on_free sep s : str_forallb (fun c => negb (sep c)) s = true -> str_split_on sep s = [s].
Proof.
  induction s as [|a s IH]; [done |]. cbn. intros [H1%negb_true_iff H2]%andb_prop. rewrite H1. by rewrite IH.
Qed.

Lemma split_on_app sep s c t :
  str_forallb (fun c => negb (sep c)) s = true -> sep c = true ->
  str_split_on sep (s +:+ String c t) = s :: str_split_on sep t.
Proof.
  intros Hs Hc. induction s as [|a s IH]; cbn; [by rewrite Hc |].
  cbn in Hs. apply andb_prop in Hs as [H1%negb_true_iff H2]. rewrite H1. by rewrite IH.
Qed.

Lemma digits_free d : Version.digits d = true -> str_forallb (fun c => negb (dot_or_dash c)) d = true.
Proof.
  unfold Version.digits. induction d as [|c d IH]; [done |]. cbn. intros [H1 H2]%andb_prop.
  rewrite IH by done. rewrite andb_true_r. unfold dot_or_dash. apply negb_true_iff, orb_false_iff.
  split; apply Ascii.eqb_neq; intros ->; done.
Qed.

Lemma split_dotted xs :
  Version.components xs -> str_split_on dot_or_dash (Version.dotted xs) = xs.
Proof.
  intros [Hne HF]. unfold Version.dotted. induction HF as [|x xs [Hx _] HF IH]; [done |].
  destruct xs as [|y xs]; [by apply split_on_free, digits_free |].
  rewrite str_join_cons. change ("." +:+ str_join "." (y :: xs)) with (String "." (str_join "." (y :: xs))).
  rewrite split_on_app by (done || by apply digits_free). f_equal. by apply IH.
Qed.

Lemma decimal_num_value acc d :
  Version.digits d = true ->
  decimal acc d = (acc * 10 ^ Z.of_nat (String.length d) + Z.of_N (Version.num_value d))%Z.
Proof.
  unfold Version.digits. revert acc. induction d as [|c d IH]; intros acc; [cbn; lia |].
  cbn [str_forallb decimal Version.num_value String.length]. intros [Hc Hd]%andb_prop. rewrite IH by done.
  apply Version.is_ascii_digit_bound in Hc. unfold Version.digit_value.
  rewrite Nat2Z.inj_succ, Z.pow_succ_r by lia. rewrite N2Z.inj_add, N2Z.inj_mul, N2Z.inj_pow, N2Z.inj_sub by lia.
  rewrite nat_N_Z. change (Z.of_N 10) with 10%Z. change (Z.of_N 48) with 48%Z. lia.
Qed.

(** The component is a number that fits in 64 bits. *)
Definition small (d : string) : Prop := (Z.of_N (Version.num_value d) <= U64_MAX)%Z.

Lemma parse_digits d :
  Version.digits d = true -> d <> "" -> small d -> parse_uint U64_MAX d = Some (Z.of_N (Version.num_value d)).
Proof.
  intros Hd Hne Hs. unfold parse_uint. destruct d as [|c d]; [done |].
  assert (Hp : Ascii.eqb c "+" = false).
  { apply Ascii.eqb_neq. intros ->. done. }
  rewrite Hp. cbn [Prelude.is_empty String.eqb orb]. unfold Version.digits in Hd. rewrite Hd. cbn [negb].
  rewrite decimal_num_value by done. rewrite Z.mul_0_l, Z.add_0_l.
  by rewrite (proj2 (Z.leb_le _ _)).
Qed.

Definition numbers (xs : list string) : Prop :=
  Forall (fun d => Version.digits d = true /\ d <> "") xs /\ Forall small xs.

Lemma compare_part_digits a b :
  Version.digits a = true /\ a <> "" -> small a -> Version.digits b = true /\ b <> "" -> small b ->
  compare_part a b = (Version.num_value a ?= Version.num_value b)%N.
Proof.
  intros [? ?] ? [? ?] ?. unfold compare_part. rewrite !parse_digits by done. apply N2Z.inj_compare.
Qed.

Lemma compare_from_shift n k xs ys x y :
  compare_from (seq (S k) n) (x :: xs) (y :: ys) = compare_from (seq k n) xs ys.
Proof. revert k. induction n as [|n IH]; intros k; [done |]. cbn. destruct (compare_part _ _); [apply IH | done | done]. Qed.

Lemma compare_from_cons n x xs y ys :
  compare_from (seq 0 (S n)) (x :: xs) (y :: ys)
  = match compare_part x y with Eq => compare_from (seq 0 n) xs ys | ord => ord end.
Proof. cbn. by rewrite compare_from_shift. Qed.

Lemma compare_from_pad n k xs : compare_from (seq k n) xs [] = compare_from (seq k n) xs ["0"]
  /\ compare_from (seq k n) [] xs = compare_from (seq k n) ["0"] xs.
Proof.
  revert k. induction n as [|n IH]; intros k; [done |]. cbn. destruct (IH (S k)) as [-> ->].
  by destruct k as [|[|k]].
Qed.

Lemma zero_number : (Version.digits "0" = true /\ "0" <> "") /\ small "0".
Proof. by repeat split. Qed.

Lemma compare_from_lex xs ys n :
  numbers xs -> numbers ys -> length xs <= n -> length ys <= n ->
  compare_from (seq 0 n) xs ys = Version.lex_pad (map Version.num_value xs) (map Version.num_value ys).
Proof.
  revert xs ys. induction n as [|n IH]; intros xs ys HX HY Lx Ly.
  { destruct xs, ys; cbn in *; try lia. done. }
  assert (Hnil : numbers []) by (by split; constructor). destruct zero_number as [Z1 Z2].
  destruct xs as [|x xs], ys as [|y ys].
  - cbn. clear. generalize 1. induction n as [|n IH]; intros k; [done |]. cbn. apply IH.
  - destruct HY as [HY1 HY2]. apply list.Forall_cons in HY1 as [Hy1 HY1], HY2 as [Hy2 HY2].
    rewrite (proj2 (compare_from_pad _ _ _)).
    rewrite compare_from_cons, IH by (done || cbn in *; lia). rewrite map_cons, Version.lex_pad_nil_cons.
    cbn. rewrite compare_part_digits by done. done.
  - destruct HX as [HX1 HX2]. apply list.Forall_cons in HX1 as [Hx1 HX1], HX2 as [Hx2 HX2].
    rewrite (proj1 (compare_from_pad _ _ _)).
    rewrite compare_from_cons, IH by (done || cbn in *; lia). rewrite map_cons, Version.lex_pad_cons_nil.
    cbn. rewrite compare_part_digits by done. done.
  - destruct HX as [HX1 HX2], HY as [HY1 HY2].
    apply list.Forall_cons in HX1 as [Hx1 HX1], HX2 as [Hx2 HX2], HY1 as [Hy1 HY1], HY2 as [Hy2 HY2].
    rewrite compare_from_cons, IH by (done || cbn in *; lia). rewrite !map_cons, Version.lex_pad_cons.
    cbn. rewrite compare_part_digits by done. done.
Qed.

(** On dotted numeric versions whose numbers fit in 64 bits, the
    diff's own version comparison agrees with Maven's order, as the version
    crate implements it: the two orders give the same answer on every pair. *)
Theorem compare_versions_maven `{CF : CaseFolding} (xs ys : list string) :
  Version.components xs -> Version.components ys -> Forall small xs -> Forall small ys ->
  compare_versions (Version.dotted xs) (Version.dotted ys)
  = Version.cmp (Version.parse (Version.dotted xs)) (Version.parse (Version.dotted ys)).
Proof.
  intros HX HY SX SY. rewrite Version.cmp_dotted by done. unfold compare_versions.
  rewrite !split_dotted by done. destruct HX as [_ HX], HY as [_ HY].
  apply compare_from_lex; [done | done | lia | lia].
Qed.

Lemma compare_versions_maven_witness :
  compare_versions "1.9" "1.10.0" = Version.cmp (Version.parse "1.9") (Version.parse "1.10.0").
Proof.
  apply (compare_versions_maven ["1"; "9"] ["1"; "10"; "0"]).
  - by split; [| repeat constructor].
  - by split; [| repeat constructor].
  - by repeat constructor.
  - by repeat constructor.
Defined.

Definition lib (v : string) : LockEntry := mkLockEntry "g" "a" v "compile" None "jar".

(** The comparison departs from Maven's order on qualifiers: the release
    of a snapshot, an upgrade in Maven's order, is reported as a downgrade,
    and so is a change between two spellings of one version. *)
Theorem release_reported_as_downgrade :
  Version.cmp (Version.parse "1.0-SNAPSHOT") (Version.parse "1.0") = Lt
  /\ downgraded (diff [lib "1.0-SNAPSHOT"] [lib "1.0"]) = [mkVersionChange "g:a" "1.0-SNAPSHOT" "1.0"]
  /\ upgraded (diff [lib "1.0-SNAPSHOT"] [lib "1.0"]) = []
  /\ Version.cmp (Version.parse "1.0") (Version.parse "1.0.0") = Eq
  /\ downgraded (diff [lib "1.0"] [lib "1.0.0"]) = [mkVersionChange "g:a" "1.0" "1.0.0"].
Proof. vm_compute. repeat split. Qed.

(** The order of the input matters: with two versions of one artifact on the
    left, the first of them is the one reported as upgraded and the other as
    removed. *)
Theorem diff_order_matters :
  [lib "1"; lib "2"] ≡ₚ [lib "2"; lib "1"]
  /\ removed (diff [lib "1"; lib "2"] [lib "3"]) = [lib "2"]
  /\ removed (diff [lib "2"; lib "1"] [lib "3"]) = [lib "1"].
Proof. split; [apply Permutation_swap |]. vm_compute. done. Qed.

End LockDiffFacts.
