(* ===== verification/Mux.v ===== *)
(** * barista-ipc: the connection multiplexer

    Models crates/barista-ipc/src/mux/mod.rs, handle.rs and cancel.rs: one
    endpoint of a connection, with its reader and writer tasks, the client
    and server handles, and the bounded channels between them.  A step is
    what a task does between two suspension points.  Protobuf messages are
    generated code: of each, the model keeps the correlation id and an opaque
    rest.  The transport is an environment that delivers envelopes, accepts
    them, or fails. *)

From S2P Require Import Prelude.

Module Mux.

(** ** Messages *)

Record Message := mkMessage { action_id : string; rest : string }.

Definition with_id (id : string) (m : Message) : Message := mkMessage id (rest m).

Record ProtoError := mkProtoError {
  code : string;
  message : string;
  err_action_id : string;
  details : list (string * string)
}.

Inductive Body : Type :=
  | BAction (req : Message)
  | BStream (chunk : Message)
  | BProgress (prog : Message)
  | BResult (res : Message)
  | BError (err : ProtoError)
  | BCancel (id : string)
  | BPing | BPong | BShutdown | BStatusRequest | BStatus.

#[export] Instance Message_eq_dec : EqDecision Message.
Proof. solve_decision. Defined.
#[export] Instance ProtoError_eq_dec : EqDecision ProtoError.
Proof. solve_decision. Defined.
#[export] Instance Body_eq_dec : EqDecision Body.
Proof. solve_decision. Defined.

Record Envelope := mkEnvelope { version : Z; request_id : Z; body : option Body }.

Inductive StreamEvent : Type :=
  | Progress (m : Message)
  | Stream (m : Message)
  | Result (m : Message)
  | Error (e : ProtoError).

Definition event_id (ev : StreamEvent) : string :=
  match ev with Progress m | Stream m | Result m => action_id m | Error e => err_action_id e end.

Definition terminal (ev : StreamEvent) : bool :=
  match ev with Result _ | Error _ => true | _ => false end.

Inductive ErrorKind : Type := BrokenPipe | ConnectionReset | UnexpectedEof.

Definition kind_text (k : ErrorKind) : string :=
  match k with
  | BrokenPipe => "BrokenPipe" | ConnectionReset => "ConnectionReset" | UnexpectedEof => "UnexpectedEof"
  end.

Inductive TransportError : Type := Closed | DaemonCrashed (kind : ErrorKind) | OtherError.

Definition OUTBOUND_BUFFER : nat := 64.
Definition PER_ACTION_BUFFER : nat := 32.
Definition DAEMON_CRASHED_CODE : string := "BAR-DAEMON-CRASHED".

(** ** State *)

(** The life of an [ActionHandle] and of its receiver. *)
Inductive Handle : Type :=
  | Submitting (env : Envelope)
  | Live
  | Cancelling (env : Envelope)
  | Gone.

(** A submitted action: its inbound channel, what its handle has received,
    and its termination guard. *)
Record Action := mkAction {
  queue : list StreamEvent;
  got : list StreamEvent;
  flagged : bool;
  handle : Handle;
  act_request_id : Z
}.

(** An inbound action's [ResponseChannel], and what it has sent. *)
Inductive Response : Type :=
  | Queued
  | Ready
  | Sending (env : Envelope) (ev : StreamEvent)
  | Dropped.

Record Channel := mkChannel {
  ch_action_id : string;
  ch_request_id : Z;
  ch_terminated : bool;
  response : Response;
  sent : list StreamEvent
}.

(** What a shutdown still has to do for a drained client. *)
Inductive DrainOp : Type := DrainSend (id : string) | DrainFlag (id : string).

#[export] Instance DrainOp_eq_dec : EqDecision DrainOp.
Proof. solve_decision. Defined.

Inductive Reader : Type :=
  | RecvWait
  | Dispatch (env : Envelope)
  | Route (id : string) (ev : StreamEvent) (fin : bool)
  | Cleanup (id : string)
  | Accept (k : nat)
  | ReaderDrain (ops : list DrainOp)
  | ReaderDone.

Inductive Writer : Type :=
  | SendWait
  | WriterDrain (ops : list DrainOp)
  | WriterDone.

(** [MuxState]: the registered clients, the server-side actions with the
    index of their cancellation token, and the shutdown flag. *)
Record MuxState := mkMuxState {
  clients : gset string;
  servers : gmap string nat;
  shutdown : bool
}.

(** An endpoint.  [dispatched] and [wire_out] record the envelopes handled
    and written so far, [lost] the one a failing write took with it, and
    [crash] the classification of the first shutdown. *)
Record Mux := mkMux {
  state : MuxState;
  actions : gmap string Action;
  tokens : list bool;
  channels : list Channel;
  outbound : list Envelope;
  incoming : list nat;
  reader : Reader;
  writer : Writer;
  dispatched : list Envelope;
  wire_out : list Envelope;
  lost : list Envelope;
  crash : option ErrorKind
}.

Definition init : Mux :=
  mkMux (mkMuxState ∅ ∅ false) ∅ [] [] [] [] RecvWait SendWait [] [] [] None.

Definition set_state v s := mkMux v (actions s) (tokens s) (channels s) (outbound s) (incoming s)
  (reader s) (writer s) (dispatched s) (wire_out s) (lost s) (crash s).
Definition set_actions v s := mkMux (state s) v (tokens s) (channels s) (outbound s) (incoming s)
  (reader s) (writer s) (dispatched s) (wire_out s) (lost s) (crash s).
Definition set_tokens v s := mkMux (state s) (actions s) v (channels s) (outbound s) (incoming s)
  (reader s) (writer s) (dispatched s) (wire_out s) (lost s) (crash s).
Definition set_channels v s := mkMux (state s) (actions s) (tokens s) v (outbound s) (incoming s)
  (reader s) (writer s) (dispatched s) (wire_out s) (lost s) (crash s).
Definition set_outbound v s := mkMux (state s) (actions s) (tokens s) (channels s) v (incoming s)
  (reader s) (writer s) (dispatched s) (wire_out s) (lost s) (crash s).
Definition set_incoming v s := mkMux (state s) (actions s) (tokens s) (channels s) (outbound s) v
  (reader s) (writer s) (dispatched s) (wire_out s) (lost s) (crash s).
Definition set_reader v s := mkMux (state s) (actions s) (tokens s) (channels s) (outbound s) (incoming s)
  v (writer s) (dispatched s) (wire_out s) (lost s) (crash s).
Definition set_writer v s := mkMux (state s) (actions s) (tokens s) (channels s) (outbound s) (incoming s)
  (reader s) v (dispatched s) (wire_out s) (lost s) (crash s).
Definition set_dispatched v s := mkMux (state s) (actions s) (tokens s) (channels s) (outbound s) (incoming s)
  (reader s) (writer s) v (wire_out s) (lost s) (crash s).
Definition set_wire_out v s := mkMux (state s) (actions s) (tokens s) (channels s) (outbound s) (incoming s)
  (reader s) (writer s) (dispatched s) v (lost s) (crash s).
Definition set_lost v s := mkMux (state s) (actions s) (tokens s) (channels s) (outbound s) (incoming s)
  (reader s) (writer s) (dispatched s) (wire_out s) v (crash s).
Definition set_crash v s := mkMux (state s) (actions s) (tokens s) (channels s) (outbound s) (incoming s)
  (reader s) (writer s) (dispatched s) (wire_out s) (lost s) v.

Definition set_clients v (st : MuxState) := mkMuxState v (servers st) (shutdown st).
Definition set_servers v (st : MuxState) := mkMuxState (clients st) v (shutdown st).

Definition set_queue v a := mkAction v (got a) (flagged a) (handle a) (act_request_id a).
Definition set_flagged v a := mkAction (queue a) (got a) v (handle a) (act_request_id a).
Definition set_handle v a := mkAction (queue a) (got a) (flagged a) v (act_request_id a).
Definition receive ev q a := mkAction q (got a ++ [ev]) (flagged a) (handle a) (act_request_id a).

Definition set_response v c := mkChannel (ch_action_id c) (ch_request_id c) (ch_terminated c) v (sent c).
Definition log_sent ev v c := mkChannel (ch_action_id c) (ch_request_id c) (ch_terminated c) v (sent c ++ [ev]).
Definition start_terminal v c := mkChannel (ch_action_id c) (ch_request_id c) true v (sent c).

(** The receiver of an action's channel exists until its handle is gone. *)
Definition rx_alive (a : Action) : bool := match handle a with Gone => false | _ => true end.

(** [tx.send(ev)] on an action's channel: dropped without a receiver,
    refused (the task waits) on a full buffer. *)
Definition push_event (ev : StreamEvent) (a : Action) : option Action :=
  if negb (rx_alive a) then Some a
  else if (length (queue a) <? PER_ACTION_BUFFER)%nat then Some (set_queue (queue a ++ [ev]) a)
  else None.

Definition push_event_to (id : string) (ev : StreamEvent) (s : Mux) : option Mux :=
  match actions s !! id with
  | Some a => (fun a' => set_actions (<[id := a']> (actions s)) s) <$> push_event ev a
  | None => Some s
  end.

Definition flag (id : string) (s : Mux) : Mux := set_actions (alter (set_flagged true) id (actions s)) s.

(** ** The reader *)

Definition cancel_tokens (ks : list nat) (tokens : list bool) : list bool :=
  foldl (fun ts k => <[k := true]> ts) tokens ks.

(** [handle_inbound_action] up to its wait on the accept channel. *)
Definition handle_inbound_action (req : Message) (rid : Z) (s : Mux) : Mux :=
  if shutdown (state s) then set_reader RecvWait s
  else
    let k := length (channels s) in
    set_reader (Accept k)
      (set_channels (channels s ++ [mkChannel (action_id req) rid false Queued []])
         (set_tokens (tokens s ++ [false])
            (set_state (set_servers (<[action_id req := k]> (servers (state s))) (state s)) s))).

Definition handle_inbound_cancel (id : string) (s : Mux) : Mux :=
  match servers (state s) !! id with
  | Some k => set_tokens (<[k := true]> (tokens s)) s
  | None => s
  end.

(** [route_to_client] up to its wait on the client's channel; [fin] is the
    cleanup that follows a terminal event. *)
Definition route_to_client (id : string) (ev : StreamEvent) (fin : bool) (s : Mux) : Mux :=
  if bool_decide (id ∈ clients (state s)) then set_reader (Route id ev fin) s
  else set_reader (if fin then Cleanup id else RecvWait) s.

Definition cleanup_client (id : string) (s : Mux) : Mux :=
  let s1 := if bool_decide (id ∈ clients (state s)) then flag id s else s in
  set_state (mkMuxState (clients (state s1) ∖ {[id]}) (delete id (servers (state s1))) (shutdown (state s1))) s1.

Definition dispatch_inbound (env : Envelope) (s : Mux) : Mux :=
  match body env with
  | None => set_reader RecvWait s
  | Some (BAction req) => handle_inbound_action req (request_id env) s
  | Some (BStream chunk) => route_to_client (action_id chunk) (Stream chunk) false s
  | Some (BProgress prog) => route_to_client (action_id prog) (Progress prog) false s
  | Some (BResult res) => route_to_client (action_id res) (Result res) true s
  | Some (BError err) =>
      if is_empty (err_action_id err) then set_reader RecvWait s
      else route_to_client (err_action_id err) (Error err) true s
  | Some (BCancel id) => set_reader RecvWait (handle_inbound_cancel id s)
  | Some (BPing | BPong | BShutdown | BStatusRequest | BStatus) => set_reader RecvWait s
  end.

(** ** Shutdown *)

Definition crash_error (kind : ErrorKind) (id : string) : StreamEvent :=
  Error (mkProtoError DAEMON_CRASHED_CODE
           ("barback daemon disappeared mid-action (" +:+ kind_text kind +:+ "); the action is retryable")
           id [("retryable", "true"); ("kind", kind_text kind)]).

Definition drain_ops (ids : list string) : list DrainOp := ids ≫= (fun id => [DrainSend id; DrainFlag id]).

(** The locked part of [shutdown_state]: the classification, the cancelled
    tokens, and the clients it drains, in the order of the map. *)
Definition shutdown_state (cause : TransportError) (ids : list string) (s : Mux) : Mux * list DrainOp :=
  let crash_kind := match cause with DaemonCrashed kind => Some kind | _ => None end in
  let effective_kind :=
    match crash_kind with
    | Some k => Some k
    | None => if bool_decide (clients (state s) = ∅) then None else Some UnexpectedEof
    end in
  (set_crash (match crash s with Some k => Some k | None => effective_kind end)
     (set_tokens (cancel_tokens ((map_to_list (servers (state s))).*2) (tokens s))
        (set_state (mkMuxState ∅ ∅ true) s)),
   match effective_kind with Some _ => drain_ops ids | None => [] end).

(** One send or flag of the unlocked part; [None] while the channel is full. *)
Definition drain_step (kind : ErrorKind) (op : DrainOp) (s : Mux) : option Mux :=
  match op with
  | DrainSend id => push_event_to id (crash_error kind id) s
  | DrainFlag id => Some (flag id s)
  end.

(** ** Client and server operations *)

Definition action_envelope (id : string) (rid : Z) (req : Message) : Envelope :=
  mkEnvelope 1 rid (Some (BAction (with_id id req))).

Definition cancel_envelope (id : string) (rid : Z) : Envelope := mkEnvelope 1 rid (Some (BCancel id)).

(** The registration of [submit_action]; [None] is [MultiplexerShutDown]. *)
Definition submit_action (id : string) (rid : Z) (req : Message) (s : Mux) : option Mux :=
  if shutdown (state s) then None
  else Some (set_actions (<[id := mkAction [] [] false (Submitting (action_envelope id rid req)) rid]> (actions s))
              (set_state (set_clients ({[id]} ∪ clients (state s)) (state s)) s)).

(** The writer still receives. *)
Definition outbound_open (s : Mux) : bool := match writer s with WriterDone => false | _ => true end.

(** [outbound.send(env)]: refused when full, an error when closed. *)
Definition push_outbound (env : Envelope) (s : Mux) : option Mux :=
  if negb (outbound_open s) then Some s
  else if (length (outbound s) <? OUTBOUND_BUFFER)%nat then Some (set_outbound (outbound s ++ [env]) s)
  else None.

(** [try_send]: nothing happens when full or closed. *)
Definition try_push_outbound (env : Envelope) (s : Mux) : Mux := default s (push_outbound env s).

Definition set_action (id : string) (a : Action) (s : Mux) : Mux := set_actions (<[id := a]> (actions s)) s.

(** [next_event]: the next event, if the channel has one. *)
Definition next_event (id : string) (s : Mux) : option (StreamEvent * Mux) :=
  a ← actions s !! id;
  match handle a, queue a with
  | Live, ev :: q => Some (ev, set_action id (receive ev q a) s)
  | _, _ => None
  end.

(** [cancel], up to its send. *)
Definition cancel (id : string) (a : Action) (s : Mux) : Mux :=
  if flagged a then set_action id (set_handle Gone a) s
  else set_action id (set_handle (Cancelling (cancel_envelope id (act_request_id a))) (set_flagged true a)) s.

(** [Drop for ActionHandle]. *)
Definition drop_handle (id : string) (a : Action) (s : Mux) : Mux :=
  let s1 := set_action id (set_handle Gone (set_flagged true a)) s in
  if flagged a then s1 else try_push_outbound (cancel_envelope id (act_request_id a)) s1.

Definition set_channel (k : nat) (c : Channel) (s : Mux) : Mux := set_channels (<[k := c]> (channels s)) s.

(** The envelope of a response; the channel sets the correlation fields. *)
Definition respond_body (id : string) (ev : StreamEvent) : StreamEvent * Body :=
  match ev with
  | Progress m => (Progress (with_id id m), BProgress (with_id id m))
  | Stream m => (Stream (with_id id m), BStream (with_id id m))
  | Result m => (Result (with_id id m), BResult (with_id id m))
  | Error e => let e' := mkProtoError (code e) (message e) id (details e) in (Error e', BError e')
  end.

(** [send_progress], [send_chunk], [send_result] and [send_error], up to
    their send; [None] is [MultiplexerShutDown]. *)
Definition respond (k : nat) (c : Channel) (ev : StreamEvent) (s : Mux) : option Mux :=
  if ch_terminated c then None
  else
    let '(ev', b) := respond_body (ch_action_id c) ev in
    let env := mkEnvelope 1 (ch_request_id c) (Some b) in
    Some (set_channel k (if terminal ev then start_terminal (Sending env ev') c
                         else set_response (Sending env ev') c) s).

(** ** Steps *)

(** The action an envelope reports on. *)
Definition event_of (env : Envelope) : option StreamEvent :=
  match body env with
  | Some (BStream m) => Some (Stream m)
  | Some (BProgress m) => Some (Progress m)
  | Some (BResult m) => Some (Result m)
  | Some (BError e) => if is_empty (err_action_id e) then None else Some (Error e)
  | _ => None
  end.

Definition events_for (id : string) (l : list Envelope) : list StreamEvent :=
  filter (fun ev => event_id ev = id) (omap event_of l).

(** A freshly minted UUIDv7: no action has it, and no envelope received so
    far reports on it. *)
Definition fresh_id (id : string) (s : Mux) : Prop :=
  actions s !! id = None
  /\ events_for id (dispatched s ++ match reader s with Dispatch env => [env] | _ => [] end) = [].

Inductive step : Mux -> Mux -> Prop :=
  (** reader *)
  | recv_ok s env :
      reader s = RecvWait -> step s (set_reader (Dispatch env) s)
  | dispatch s env :
      reader s = Dispatch env ->
      step s (dispatch_inbound env (set_dispatched (dispatched s ++ [env]) s))
  | route_send s s' id ev fin :
      reader s = Route id ev fin -> push_event_to id ev s = Some s' ->
      step s (set_reader (if fin then Cleanup id else RecvWait) s')
  | cleanup s id :
      reader s = Cleanup id -> step s (set_reader RecvWait (cleanup_client id s))
  | accept_send s k :
      reader s = Accept k -> length (incoming s) < PER_ACTION_BUFFER ->
      step s (set_reader RecvWait (set_incoming (incoming s ++ [k]) s))
  | recv_err s cause ids s' ops :
      reader s = RecvWait -> ids ≡ₚ elements (clients (state s)) ->
      shutdown_state cause ids s = (s', ops) -> step s (set_reader (ReaderDrain ops) s')
  | reader_drain s s' op ops kind :
      reader s = ReaderDrain (op :: ops) -> crash s = Some kind -> drain_step kind op s = Some s' ->
      step s (set_reader (ReaderDrain ops) s')
  | reader_done s :
      reader s = ReaderDrain [] -> step s (set_reader ReaderDone s)
  (** writer *)
  | write_ok s env q :
      writer s = SendWait -> outbound s = env :: q ->
      step s (set_wire_out (wire_out s ++ [env]) (set_outbound q s))
  | write_err s env q cause ids s' ops :
      writer s = SendWait -> outbound s = env :: q -> ids ≡ₚ elements (clients (state s)) ->
      shutdown_state cause ids (set_lost (lost s ++ [env]) (set_outbound q s)) = (s', ops) ->
      step s (set_writer (WriterDrain ops) s')
  | writer_drain s s' op ops kind :
      writer s = WriterDrain (op :: ops) -> crash s = Some kind -> drain_step kind op s = Some s' ->
      step s (set_writer (WriterDrain ops) s')
  | writer_done s :
      writer s = WriterDrain [] -> step s (set_writer WriterDone s)
  (** client *)
  | submit s s' id rid req :
      fresh_id id s -> submit_action id rid req s = Some s' -> step s s'
  | submit_sent s s' id a env :
      actions s !! id = Some a -> handle a = Submitting env -> push_outbound env s = Some s' ->
      step s (set_action id (set_handle (if outbound_open s then Live else Gone) a) s')
  | submit_dropped s id a env :
      actions s !! id = Some a -> handle a = Submitting env -> step s (set_action id (set_handle Gone a) s)
  | event s s' id ev :
      next_event id s = Some (ev, s') -> step s s'
  | cancel_begin s id a :
      actions s !! id = Some a -> handle a = Live -> step s (cancel id a s)
  | cancel_sent s s' id a env :
      actions s !! id = Some a -> handle a = Cancelling env -> push_outbound env s = Some s' ->
      step s (set_action id (set_handle Gone a) s')
  | handle_drop s id a :
      actions s !! id = Some a -> handle a = Live -> step s (drop_handle id a s)
  (** server *)
  | next_action s k q c :
      incoming s = k :: q -> channels s !! k = Some c -> response c = Queued ->
      step s (set_channel k (set_response Ready c) (set_incoming q s))
  | respond_begin s s' k c ev :
      channels s !! k = Some c -> response c = Ready -> respond k c ev s = Some s' -> step s s'
  | respond_sent s s' k c env ev :
      channels s !! k = Some c -> response c = Sending env ev -> outbound_open s = true ->
      push_outbound env s = Some s' ->
      step s (set_channel k (log_sent ev (if ch_terminated c then Dropped else Ready) c) s')
  | respond_failed s k c env ev :
      channels s !! k = Some c -> response c = Sending env ev -> outbound_open s = false ->
      step s (set_channel k (set_response (if ch_terminated c then Dropped else Ready) c) s)
  | response_drop s k c :
      channels s !! k = Some c -> response c = Ready -> step s (set_channel k (set_response Dropped c) s).

Definition reachable : Mux -> Prop := rtc step init.

End Mux.
