(* ===== verification/MuxFacts.v ===== *)
(** * Delivery on a multiplexed connection

    What a client's handle receives, in every interleaving of the reader, the
    writer and the users of the connection. *)

From S2P Require Import Prelude Mux.

Module MuxFacts.
Import Mux.

(** ** Streams of events *)

(** The events up to the first terminal one. *)
Fixpoint cut (l : list StreamEvent) : list StreamEvent :=
  match l with
  | [] => []
  | ev :: l' => if terminal ev then [ev] else ev :: cut l'
  end.

Definition has_terminal (l : list StreamEvent) : bool := existsb terminal l.

Lemma has_terminal_app l k : has_terminal (l ++ k) = has_terminal l || has_terminal k.
Proof. apply existsb_app. Qed.

Lemma cut_done l k : has_terminal l = true -> cut (l ++ k) = cut l.
Proof.
  induction l as [|ev l IH]; [done |]. cbn. destruct (terminal ev); [done |]. intros H. by rewrite IH.
Qed.

Lemma cut_all l : has_terminal l = false -> cut l = l.
Proof.
  induction l as [|ev l IH]; [done |]. cbn. destruct (terminal ev); [done |]. intros H. by rewrite IH.
Qed.

Lemma cut_snoc l ev : has_terminal l = false -> cut (l ++ [ev]) = l ++ [ev].
Proof.
  induction l as [|x l IH]; cbn; [by destruct (terminal ev) |]. destruct (terminal x); [done |].
  intros H. by rewrite IH.
Qed.

Lemma events_for_app id l k : events_for id (l ++ k) = events_for id l ++ events_for id k.
Proof. unfold events_for. by rewrite omap_app, list.filter_app. Qed.

Lemma events_for_one id env :
  events_for id [env]
  = match event_of env with Some ev => if decide (event_id ev = id) then [ev] else [] | None => [] end.
Proof.
  unfold events_for. cbn. destruct (event_of env) as [ev|]; [| done]. rewrite filter_cons, filter_nil. done.
Qed.

#[local] Arguments has_terminal : simpl never.
#[local] Arguments events_for : simpl never.
#[local] Arguments cut : simpl never.

(** ** The invariant *)

(** The reader is about to clean up after a terminal event of [id]. *)
Definition finishing (r : Reader) (id : string) : bool :=
  match r with
  | Route id' _ true | Cleanup id' => bool_decide (id' = id)
  | _ => false
  end.

(** What the reader holds for [id]. *)
Definition in_flight (s : Mux) (id : string) : list StreamEvent :=
  match reader s with
  | Route id' ev _ => if decide (id' = id) then [ev] else []
  | ReaderDrain ops =>
      if decide (DrainSend id ∈ ops) then [crash_error (default UnexpectedEof (crash s)) id] else []
  | _ => []
  end.

(** What is due to [id]: the events received for it up to the first terminal
    one and, when the connection went down before that, the crash report. *)
Definition due (s : Mux) (id : string) : list StreamEvent :=
  let evs := events_for id (dispatched s) in
  cut evs ++
  (if has_terminal evs then [] else if shutdown (state s) then
     match crash s with Some k => [crash_error k id] | None => [] end else []).

#[local] Arguments in_flight : simpl never.
#[local] Arguments due : simpl never.

Definition draining (r : Reader) : bool :=
  match r with ReaderDrain _ | ReaderDone => true | _ => false end.

Record delivery (s : Mux) : Prop := mkDelivery {
  d_clients : forall id, id ∈ clients (state s) -> is_Some (actions s !! id);
  d_down : shutdown (state s) = draining (reader s);
  d_calm : shutdown (state s) = false -> crash s = None;
  d_ops : match reader s with ReaderDrain ops => NoDup ops | _ => True end;
  d_crash : shutdown (state s) = true -> crash s = None ->
    forall id a, actions s !! id = Some a -> has_terminal (events_for id (dispatched s)) = true;
  d_empty : shutdown (state s) = true -> clients (state s) = ∅;
  d_route : forall id ev fin, reader s = Route id ev fin ->
    fin = terminal ev /\ event_id ev = id /\ id ∈ clients (state s);
  d_open : forall id, id ∈ clients (state s) ->
    has_terminal (events_for id (dispatched s)) = finishing (reader s) id;
  d_closed : forall id a, actions s !! id = Some a -> id ∉ clients (state s) -> shutdown (state s) = false ->
    has_terminal (events_for id (dispatched s)) = true;
  d_fresh : forall id, finishing (reader s) id = true -> has_terminal (events_for id (dispatched s)) = true;
  d_events : forall id a, actions s !! id = Some a -> rx_alive a = true ->
    got a ++ queue a ++ in_flight s id = due s id
}.

Lemma delivery_ext s s' :
  clients (state s) = clients (state s') -> shutdown (state s) = shutdown (state s') ->
  actions s = actions s' -> reader s = reader s' -> dispatched s = dispatched s' ->
  crash s = crash s' -> delivery s -> delivery s'.
Proof.
  intros E0 E1 E2 E3 E4 E5 []. split; rewrite <- ?E0, <- ?E1, <- ?E2, <- ?E3, <- ?E4, <- ?E5; try done.
  intros id a Ha Hr. unfold in_flight, due. rewrite <- E1, <- E3, <- E4, <- E5. eauto.
Qed.

(** A change of one action that keeps its events in place. *)
Lemma delivery_action s id a a' :
  actions s !! id = Some a -> got a' ++ queue a' = got a ++ queue a -> (rx_alive a' = true -> rx_alive a = true) ->
  delivery s -> delivery (set_action id a' s).
Proof.
  intros Ha Hq Hr []. assert (Hs : forall i, is_Some (<[id := a']> (actions s) !! i) <-> is_Some (actions s !! i)).
  { intros i. destruct (decide (id = i)) as [->|Hne]; [rewrite lookup_insert_eq, Ha; by split; eauto |].
    by rewrite lookup_insert_ne. }
  split; cbn; try done.
  - intros i Hi. apply Hs. auto.
  - intros H1 H2 i b Hb. destruct (proj1 (Hs i)) as [c Hc]; [eauto | by eapply d_crash0].
  - intros i b Hb. destruct (proj1 (Hs i)) as [c Hc]; [eauto | by eapply d_closed0].
  - intros i b Hb Hrb. destruct (decide (id = i)) as [->|Hne].
    + rewrite lookup_insert_eq in Hb. injection Hb as <-. rewrite app_assoc, Hq, <- app_assoc.
      apply (d_events0 i a Ha). auto.
    + rewrite lookup_insert_ne in Hb by done. by apply d_events0.
Qed.

Lemma delivery_flag s id : delivery s -> delivery (flag id s).
Proof.
  intros H. unfold flag. destruct (actions s !! id) as [a|] eqn:Ha.
  - eapply (delivery_ext (set_action id (set_flagged true a) s)); try done.
    + cbn. symmetry. apply map_eq. intros i. destruct (decide (id = i)) as [->|Hne].
      * by rewrite lookup_alter_eq, Ha, lookup_insert_eq.
      * by rewrite lookup_alter_ne, lookup_insert_ne.
    + by eapply delivery_action.
  - eapply (delivery_ext s); try done. cbn. apply map_eq. intros i. destruct (decide (id = i)) as [->|Hne].
    + by rewrite lookup_alter_eq, Ha.
    + by rewrite lookup_alter_ne.
Qed.

(** A change of the reader between states that hold nothing. *)
Definition idle_reader (r : Reader) : Prop :=
  match r with RecvWait | Dispatch _ | Accept _ => True | _ => False end.

Lemma delivery_reader s r :
  idle_reader (reader s) -> idle_reader r -> delivery s -> delivery (set_reader r s).
Proof.
  intros H1 H2 []. assert (F : forall id, finishing (reader s) id = false) by (by destruct (reader s)).
  assert (F' : forall id, finishing r id = false) by (by destruct r).
  assert (I : forall id, in_flight s id = [] /\ in_flight (set_reader r s) id = []).
  { intros id. unfold in_flight. cbn. by destruct (reader s), r. }
  assert (D : draining (reader s) = draining r) by (by destruct (reader s), r).
  split; cbn; try done.
  - congruence.
  - by destruct r.
  - by destruct r.
  - intros id. rewrite F', <- (F id). auto.
  - intros id. by rewrite F'.
  - intros id a Ha Hr. rewrite (proj2 (I id)). specialize (d_events0 id a Ha Hr). by rewrite (proj1 (I id)) in d_events0.
Qed.

(** ** Dispatch *)

Definition log (env : Envelope) (s : Mux) : Mux := set_dispatched (dispatched s ++ [env]) s.

Lemma log_silent env s : event_of env = None -> delivery s -> delivery (log env s).
Proof.
  intros He []. assert (E : forall id, events_for id (dispatched s ++ [env]) = events_for id (dispatched s)).
  { intros id. by rewrite events_for_app, events_for_one, He, app_nil_r. }
  split; cbn; try done; try (intros; rewrite E; eauto).
  intros id a Ha Hr. unfold due. cbn. rewrite E. by apply d_events0.
Qed.

(** Dispatch of an envelope that reports on an action. *)
Lemma dispatch_event_eq env ev s :
  event_of env = Some ev -> dispatch_inbound env s = route_to_client (event_id ev) ev (terminal ev) s.
Proof.
  unfold event_of, dispatch_inbound. destruct (body env) as [[]|]; try done; try by intros [= <-].
  destruct (is_empty (err_action_id err)); [done |]. by intros [= <-].
Qed.

Lemma events_for_log env ev id s :
  event_of env = Some ev ->
  events_for id (dispatched (log env s)) = events_for id (dispatched s) ++ if decide (event_id ev = id) then [ev] else [].
Proof. intros He. cbn. by rewrite events_for_app, events_for_one, He. Qed.

Lemma has_terminal_one ev : has_terminal [ev] = terminal ev.
Proof. unfold has_terminal. cbn. by rewrite orb_false_r. Qed.

Lemma route_known env ev s :
  event_of env = Some ev -> reader s = Dispatch env -> event_id ev ∈ clients (state s) -> delivery s ->
  delivery (set_reader (Route (event_id ev) ev (terminal ev)) (log env s)).
Proof.
  intros He Hr Hc []. set (id := event_id ev) in *. rewrite Hr in *. cbn in d_down0.
  assert (Hev : has_terminal (events_for id (dispatched s)) = false) by (by apply d_open0).
  assert (Hfin : forall i, finishing (Route id ev (terminal ev)) i = bool_decide (id = i) && terminal ev).
  { intros i. cbn. destruct (terminal ev); [by rewrite andb_true_r | by rewrite andb_false_r]. }
  assert (Hmono : forall i, has_terminal (events_for i (dispatched s)) = true ->
                            has_terminal (events_for i (dispatched (log env s))) = true).
  { intros i Hi. rewrite (events_for_log env ev i s He), has_terminal_app, Hi. done. }
  split; cbn -[finishing log]; try done.
  - cbn. eauto.
  - intros i b fin [= <- <- <-]. done.
  - intros i Hi. rewrite Hfin, (events_for_log env ev i s He), has_terminal_app, (d_open0 i Hi). fold id.
    destruct (decide (id = i)) as [->|Hne]; [by rewrite bool_decide_true, has_terminal_one by done |].
    by rewrite bool_decide_false.
  - intros i b Hb Hi Hs. apply Hmono. by eapply d_closed0.
  - intros i. rewrite Hfin. intros [Hi Ht]%andb_prop. apply bool_decide_eq_true in Hi as <-.
    rewrite (events_for_log env ev id s He), has_terminal_app. fold id. rewrite decide_True by done.
    by rewrite has_terminal_one, Ht, orb_true_r.
  - intros i b Hb Hrb. specialize (d_events0 i b Hb Hrb). revert d_events0.
    unfold in_flight, due. cbn -[log]. rewrite (events_for_log env ev i s He), d_down0, Hr. cbn.
    rewrite has_terminal_app. fold id. destruct (decide (id = i)) as [<-|Hne].
    + rewrite Hev, !app_nil_r. cbn. rewrite has_terminal_one, cut_snoc by done. rewrite cut_all by done.
      intros <-. rewrite d_down0. destruct (terminal ev); by rewrite ?app_nil_r, app_assoc.
    + by rewrite d_down0, !app_nil_r, orb_false_r.
Qed.

Lemma route_unknown env ev s :
  event_of env = Some ev -> reader s = Dispatch env -> event_id ev ∉ clients (state s) -> delivery s ->
  delivery (set_reader (if terminal ev then Cleanup (event_id ev) else RecvWait) (log env s)).
Proof.
  intros He Hr Hc []. set (id := event_id ev) in *. rewrite Hr in *. cbn in d_down0.
  set (r := if terminal ev then Cleanup id else RecvWait).
  assert (Hfin : forall i, finishing r i = bool_decide (id = i) && terminal ev).
  { intros i. subst r. destruct (terminal ev); cbn; [by rewrite andb_true_r | by rewrite andb_false_r]. }
  assert (Hmono : forall i, has_terminal (events_for i (dispatched s)) = true ->
                            has_terminal (events_for i (dispatched (log env s))) = true).
  { intros i Hi. rewrite (events_for_log env ev i s He), has_terminal_app, Hi. done. }
  assert (Hd : draining r = false) by (subst r; by destruct (terminal ev)).
  split; cbn -[finishing log]; try done.
  - exact (eq_trans d_down0 (eq_sym Hd)).
  - subst r. by destruct (terminal ev).
  - cbn. by rewrite d_down0.
  - subst r. by destruct (terminal ev).
  - intros i Hi. rewrite Hfin, (events_for_log env ev i s He), has_terminal_app, (d_open0 i Hi). fold id.
    assert (Hne : id <> i) by (by intros ->). rewrite decide_False, bool_decide_false by done. done.
  - intros i b Hb Hi Hs. apply Hmono. by eapply d_closed0.
  - intros i. rewrite Hfin. intros [Hi Ht]%andb_prop. apply bool_decide_eq_true in Hi as <-.
    rewrite (events_for_log env ev id s He), has_terminal_app. fold id. rewrite decide_True by done.
    by rewrite has_terminal_one, Ht, orb_true_r.
  - intros i b Hb Hrb. specialize (d_events0 i b Hb Hrb). revert d_events0.
    assert (in_flight s i = []) as -> by (unfold in_flight; by rewrite Hr).
    assert (in_flight (set_reader r (log env s)) i = []) as ->
      by (unfold in_flight; subst r; by destruct (terminal ev)).
    unfold due. cbn -[log]. rewrite (events_for_log env ev i s He), has_terminal_app. fold id.
    destruct (decide (id = i)) as [<-|Hne].
    + rewrite (d_closed0 id b Hb Hc d_down0). cbn. by rewrite cut_done by (by eapply d_closed0).
    + by rewrite !app_nil_r, orb_false_r.
Qed.

(** ** Delivery of what the reader holds *)

Lemma push_event_to_spec id ev s s' :
  push_event_to id ev s = Some s' ->
  s' = set_actions (actions s') s
  /\ (forall i, is_Some (actions s !! i) -> is_Some (actions s' !! i))
  /\ (forall i, i <> id -> actions s' !! i = actions s !! i)
  /\ forall a', actions s' !! id = Some a' ->
       exists a, actions s !! id = Some a /\ rx_alive a' = rx_alive a
         /\ (rx_alive a = true -> got a' = got a /\ queue a' = queue a ++ [ev]).
Proof.
  unfold push_event_to. destruct (actions s !! id) as [a|] eqn:Ha.
  - destruct (push_event ev a) as [b|] eqn:Eb; [| done]. intros [= <-]. cbn. split_and!; [done | | |].
    + intros i Hi. destruct (decide (i = id)) as [->|]; [rewrite lookup_insert_eq; eauto | by rewrite lookup_insert_ne].
    + intros i Hi. by rewrite lookup_insert_ne.
    + intros a'. rewrite lookup_insert_eq. intros [= <-]. exists a. split; [done |].
      unfold push_event in Eb. destruct (rx_alive a) eqn:Er; cbn [negb] in Eb; [| injection Eb as <-; split; [exact Er | done]].
      destruct (length (queue a) <? PER_ACTION_BUFFER)%nat; [| done]. injection Eb as <-. split; [exact Er | done].
  - intros [= <-]. split_and!; [by destruct s | done | done |]. intros a'. by rewrite Ha.
Qed.

(** Hypotheses on the reader's state after it has handed [ev] to [id]. *)
Definition handed (s : Mux) (r : Reader) (id : string) (ev : StreamEvent) : Prop :=
  in_flight s id = [ev] /\ in_flight (set_reader r s) id = []
  /\ (forall i, i <> id -> in_flight (set_reader r s) i = in_flight s i)
  /\ (forall i, finishing r i = finishing (reader s) i) /\ draining r = draining (reader s)
  /\ match r with ReaderDrain ops => NoDup ops | Route _ _ _ => False | _ => True end.

Lemma delivery_push s s' id ev r :
  push_event_to id ev s = Some s' -> handed s r id ev -> delivery s -> delivery (set_reader r s').
Proof.
  intros Hp (I1 & I2 & I3 & F & D & N) []. apply push_event_to_spec in Hp as (-> & Hdom & Ho & Hs).
  set (m := actions s') in *. clearbody m. cbn in *.
  assert (Hlk : forall i a', m !! i = Some a' -> is_Some (actions s !! i)).
  { intros i a' Hi. destruct (decide (i = id)) as [->|Hne]; [destruct (Hs a' Hi) as (a & -> & _); eauto |].
    rewrite Ho in Hi by done. eauto. }
  assert (Hin : forall i, in_flight (set_reader r (set_actions m s)) i = in_flight (set_reader r s) i) by done.
  split; cbn; try done.
  - auto.
  - congruence.
  - by destruct r.
  - intros H1 H2 i a Hi. apply Hlk in Hi as [b Hb]. by eapply d_crash0.
  - intros i ev' fin ->. done.
  - intros i. rewrite F. apply d_open0.
  - intros i a Hi. apply Hlk in Hi as [b Hb]. by eapply d_closed0.
  - intros i. rewrite F. apply d_fresh0.
  - intros i a Hi Hr. change (due (set_reader r (set_actions m s)) i) with (due s i). rewrite Hin.
    destruct (decide (i = id)) as [->|Hne].
    + destruct (Hs a Hi) as (b & Hb & Er & Eq). rewrite Er in Hr. destruct (Eq Hr) as [-> ->].
      rewrite I2, app_nil_r, <- (d_events0 id b Hb Hr), I1. done.
    + rewrite I3 by done. rewrite Ho in Hi by done. by apply d_events0.
Qed.

Lemma route_handed s id ev fin :
  reader s = Route id ev fin -> handed s (if fin then Cleanup id else RecvWait) id ev.
Proof.
  intros Hr. unfold handed, in_flight. rewrite Hr. cbn. destruct fin; cbn;
    (split_and!; [by rewrite decide_True | done | intros i Hi; by rewrite decide_False | done | done | done]).
Qed.

Lemma drain_handed s id ops :
  reader s = ReaderDrain (DrainSend id :: ops) -> delivery s ->
  handed s (ReaderDrain ops) id (crash_error (default UnexpectedEof (crash s)) id).
Proof.
  intros Hr []. rewrite Hr in *. cbn in *. apply list.NoDup_cons in d_ops0 as [Hn Hd].
  unfold handed, in_flight. rewrite Hr. cbn. split_and!; try done.
  - by rewrite decide_True by set_solver.
  - by rewrite decide_False.
  - intros i Hi. destruct (decide (DrainSend i ∈ ops)); [rewrite decide_True by set_solver |
      rewrite decide_False by set_solver]; done.
Qed.

(** The reader's state changes, and nothing it holds. *)
Lemma delivery_same_reader s r :
  (forall i, in_flight (set_reader r s) i = in_flight s i) ->
  (forall i, finishing r i = finishing (reader s) i) -> draining r = draining (reader s) ->
  match r with ReaderDrain ops => NoDup ops | Route _ _ _ => False | _ => True end ->
  delivery s -> delivery (set_reader r s).
Proof.
  intros I F D N []. split; cbn; try done.
  - congruence.
  - by destruct r.
  - by intros i ev fin ->.
  - intros i. rewrite F. auto.
  - intros i. rewrite F. auto.
  - intros i a Ha Hr. rewrite I. by apply d_events0.
Qed.

Lemma drain_flag s id ops :
  reader s = ReaderDrain (DrainFlag id :: ops) -> delivery s -> delivery (set_reader (ReaderDrain ops) (flag id s)).
Proof.
  intros Hr H%(delivery_flag s id). pose proof (d_ops _ H) as Hn. cbn in Hn. rewrite Hr in Hn.
  apply list.NoDup_cons in Hn as [Hn Hd].
  apply delivery_same_reader; cbn; rewrite ?Hr; try done. intros i. unfold in_flight. cbn. rewrite Hr.
  destruct (decide (DrainSend i ∈ ops)); [rewrite decide_True by set_solver |
    rewrite decide_False by set_solver]; done.
Qed.

Lemma drain_done s : reader s = ReaderDrain [] -> delivery s -> delivery (set_reader ReaderDone s).
Proof.
  intros Hr. apply delivery_same_reader; rewrite ?Hr; try done. intros i. unfold in_flight. cbn. by rewrite Hr.
Qed.

(** ** Cleanup, shutdown and submission *)

Lemma delivery_remove s id sv :
  reader s = Cleanup id -> delivery s ->
  delivery (set_reader RecvWait (set_state (mkMuxState (clients (state s) ∖ {[id]}) sv (shutdown (state s))) s)).
Proof.
  intros Hr []. rewrite Hr in *. cbn in d_down0. split; cbn; try done.
  - intros i Hi. apply d_clients0. set_solver.
  - by rewrite d_down0.
  - intros i Hi. assert (Hc : i ∈ clients (state s)) by set_solver. rewrite (d_open0 i Hc). cbn.
    apply bool_decide_false. set_solver.
  - intros i a Ha Hi Hs. destruct (decide (i = id)) as [->|Hne].
    + apply d_fresh0. cbn. by apply bool_decide_true.
    + eapply d_closed0; [done | set_solver | done].
  - intros i a Ha Hra. specialize (d_events0 i a Ha Hra). unfold in_flight in *. rewrite Hr in d_events0. exact d_events0.
Qed.

Lemma cleanup_delivery s id :
  reader s = Cleanup id -> delivery s -> delivery (set_reader RecvWait (cleanup_client id s)).
Proof.
  intros Hr H. unfold cleanup_client. destruct (bool_decide (id ∈ clients (state s))).
  - apply (delivery_remove (flag id s)); [done |]. by apply delivery_flag.
  - by apply delivery_remove.
Qed.

Lemma drain_ops_elem ids id : DrainSend id ∈ drain_ops ids <-> id ∈ ids.
Proof. unfold drain_ops. rewrite list_elem_of_bind. set_solver. Qed.

Lemma drain_ops_flag ids id : DrainFlag id ∈ drain_ops ids -> id ∈ ids.
Proof. unfold drain_ops. rewrite list_elem_of_bind. set_solver. Qed.

Lemma drain_ops_nodup ids : NoDup ids -> NoDup (drain_ops ids).
Proof.
  induction 1 as [|id ids Hid Hn IH]; [constructor |]. change (NoDup ([DrainSend id; DrainFlag id] ++ drain_ops ids)).
  apply list.NoDup_app. split_and!; [by repeat constructor; set_solver | | done].
  intros op Hop Hin. apply elem_of_cons in Hop as [->|Hop]; [by apply drain_ops_elem in Hin |].
  apply list_elem_of_singleton in Hop as ->. by apply drain_ops_flag in Hin.
Qed.

Lemma shutdown_delivery s s' cause ids ops :
  reader s = RecvWait -> ids ≡ₚ elements (clients (state s)) -> shutdown_state cause ids s = (s', ops) ->
  delivery s -> delivery (set_reader (ReaderDrain ops) s').
Proof.
  intros Hr Hids Hsh []. rewrite Hr in *. cbn in d_down0. pose proof (d_calm0 d_down0) as Hcr.
  unfold shutdown_state in Hsh. rewrite Hcr in Hsh. injection Hsh as <- <-.
  set (k := match match cause with DaemonCrashed kind => Some kind | _ => None end with
            | Some k => Some k
            | None => if bool_decide (clients (state s) = ∅) then None else Some UnexpectedEof
            end).
  assert (Hk : k = None -> clients (state s) = ∅).
  { subst k. destruct cause; cbn; try case_bool_decide; done. }
  assert (Hn : NoDup ids) by (rewrite Hids; apply NoDup_elements).
  assert (Hin : forall i, DrainSend i ∈ drain_ops ids <-> i ∈ clients (state s)).
  { intros i. rewrite drain_ops_elem, Hids. apply elem_of_elements. }
  assert (Ht : forall i a, actions s !! i = Some a -> i ∉ clients (state s) ->
                 has_terminal (events_for i (dispatched s)) = true) by (intros; by eapply d_closed0).
  clearbody k. split; cbn; try done.
  - destruct k; [by apply drain_ops_nodup | constructor].
  - intros _ -> i a Ha. apply (Ht i a Ha). rewrite Hk by done. apply not_elem_of_empty.
  - intros i a Ha Hra. specialize (d_events0 i a Ha Hra). revert d_events0.
    unfold in_flight, due. cbn. rewrite Hr, d_down0, !app_nil_r.
    assert ((if has_terminal (events_for i (dispatched s)) then [] else []) = (@nil StreamEvent)) as ->
      by (by destruct (has_terminal _)). rewrite app_nil_r, app_assoc. intros ->. f_equal.
    destruct (decide (i ∈ clients (state s))) as [Hi|Hi].
    + rewrite (d_open0 i Hi). cbn. destruct k as [k|]; [by rewrite decide_True by (by apply Hin) |].
      rewrite Hk in Hi by done. set_solver.
    + rewrite (Ht i a Ha Hi). destruct k; [by rewrite decide_False by (by rewrite Hin) | done].
Qed.

Lemma submit_delivery s s' id rid req :
  fresh_id id s -> submit_action id rid req s = Some s' -> delivery s -> delivery s'.
Proof.
  intros [Ha He] Hs []. unfold submit_action in Hs. destruct (shutdown (state s)) eqn:Hd; [done |]. injection Hs as <-.
  rewrite events_for_app in He. apply app_eq_nil in He as [He _].
  assert (Hfin : finishing (reader s) id = false).
  { apply not_true_is_false. intros Hf%d_fresh0. by rewrite He in Hf. }
  split; cbn -[finishing]; try done.
  - intros i Hi. destruct (decide (id = i)) as [->|Hne]; [rewrite lookup_insert_eq; eauto |].
    rewrite lookup_insert_ne by done. apply d_clients0. set_solver.
  - by rewrite Hd.
  - by rewrite Hd.
  - by rewrite Hd.
  - by rewrite Hd.
  - intros i ev fin Hr. destruct (d_route0 i ev fin Hr) as (? & ? & ?). set_solver.
  - intros i Hi. destruct (decide (id = i)) as [<-|Hne]; [by rewrite He, Hfin |]. apply d_open0. set_solver.
  - intros i a Hi Hc _. destruct (decide (id = i)) as [<-|Hne]; [set_solver |].
    rewrite lookup_insert_ne in Hi by done. eapply d_closed0; [done | set_solver | done].
  - intros i a Hi Hra. destruct (decide (id = i)) as [<-|Hne].
    + rewrite lookup_insert_eq in Hi. injection Hi as <-. cbn. unfold due, in_flight. cbn. rewrite He, Hd. cbn.
      destruct (reader s) as [| |i ev fin| | |ops|] eqn:Hr; try done.
      destruct (decide (i = id)) as [->|]; [| done].
      destruct (d_route0 id ev fin eq_refl) as (_ & _ & Hc). destruct (d_clients0 id Hc) as [a Hb]. congruence.
    + rewrite lookup_insert_ne in Hi by done. specialize (d_events0 i a Hi Hra). exact d_events0.
Qed.

(** ** Every step *)

Lemma init_delivery : delivery init.
Proof. split; cbn; try done; set_solver. Qed.

Lemma dispatch_delivery s env :
  reader s = Dispatch env -> delivery s -> delivery (dispatch_inbound env (log env s)).
Proof.
  intros Hr H. destruct (event_of env) as [ev|] eqn:He.
  - rewrite (dispatch_event_eq env ev) by done. unfold route_to_client. case_bool_decide as Hc.
    + by apply route_known.
    + by apply route_unknown.
  - assert (HA : forall r, idle_reader r -> delivery (set_reader r (log env s))).
    { intros r Hi. apply delivery_reader; [cbn; by rewrite Hr | done | by apply log_silent]. }
    assert (HL := HA RecvWait I).
    unfold event_of, dispatch_inbound in *. destruct (body env) as [[]|]; try done.
    + unfold handle_inbound_action. case_match; [done |].
      by eapply (delivery_ext (set_reader (Accept (length (channels s))) (log env s))); [.. | apply HA].
    + by destruct (is_empty (err_action_id err)).
    + unfold handle_inbound_cancel. case_match; [| done]. by eapply delivery_ext; [.. | exact HL].
Qed.

(** Changes outside the fields of the invariant. *)
Ltac outside H := eapply delivery_ext; [.. | exact H]; done.

Lemma push_outbound_spec env s s' :
  push_outbound env s = Some s' -> s' = set_outbound (outbound s') s.
Proof.
  unfold push_outbound. repeat case_match; intros [= <-]; [by destruct s | done].
Qed.

Lemma push_outbound_delivery env s s' : push_outbound env s = Some s' -> delivery s -> delivery s'.
Proof. intros ->%push_outbound_spec H. outside H. Qed.

Lemma respond_delivery k c ev s s' : respond k c ev s = Some s' -> delivery s -> delivery s'.
Proof.
  unfold respond. intros E H. case_match; [done |]. destruct (respond_body _ _) as [ev' b]. injection E as <-. outside H.
Qed.

Lemma drop_delivery s id a :
  actions s !! id = Some a -> handle a = Live -> delivery s -> delivery (drop_handle id a s).
Proof.
  intros Ha Hh H. unfold drop_handle, try_push_outbound.
  assert (H1 : delivery (set_action id (set_handle Gone (set_flagged true a)) s)).
  { eapply delivery_action; [done | done | done | done]. }
  destruct (flagged a); [done |]. destruct (push_outbound _ _) as [s'|] eqn:E; cbn; [| done].
  by eapply push_outbound_delivery.
Qed.

Lemma cancel_delivery s id a :
  actions s !! id = Some a -> handle a = Live -> delivery s -> delivery (cancel id a s).
Proof.
  intros Ha Hh H. unfold cancel. destruct (flagged a); (eapply delivery_action; [done | done | | done]).
  - done.
  - intros _. unfold rx_alive. by rewrite Hh.
Qed.

Lemma event_delivery s s' id ev : next_event id s = Some (ev, s') -> delivery s -> delivery s'.
Proof.
  unfold next_event. intros E H. destruct (actions s !! id) as [a|] eqn:Ha; [| done]. cbn in E.
  destruct (handle a) eqn:Hh; try done. destruct (queue a) as [|x q] eqn:Eq; [done |]. injection E as <- <-.
  eapply delivery_action; [done | cbn; by rewrite Eq, <- app_assoc | | done].
  intros _. unfold rx_alive. by rewrite Hh.
Qed.

Lemma writer_dispatch env s : writer (dispatch_inbound env s) = writer s.
Proof.
  unfold dispatch_inbound, handle_inbound_action, handle_inbound_cancel, route_to_client.
  repeat case_match; done.
Qed.

Lemma writer_cleanup id s : writer (cleanup_client id s) = writer s.
Proof. unfold cleanup_client. by case_match. Qed.

Lemma writer_event id s ev s' : next_event id s = Some (ev, s') -> writer s' = writer s.
Proof.
  unfold next_event. destruct (actions s !! id) as [a|]; [| done]. cbn.
  destruct (handle a), (queue a); intros; by simplify_eq.
Qed.

Lemma writer_drop id a s : writer (drop_handle id a s) = writer s.
Proof.
  unfold drop_handle, try_push_outbound. case_match; [done |].
  destruct (push_outbound _ _) as [s'|] eqn:E; cbn; [by apply push_outbound_spec in E as -> | done].
Qed.

Lemma writer_drain_step k op s s' : drain_step k op s = Some s' -> writer s' = writer s.
Proof.
  destruct op; cbn; [intros H; by apply push_event_to_spec in H as (-> & _) | by intros [= <-]].
Qed.

#[local] Arguments cleanup_client : simpl never.
#[local] Arguments drop_handle : simpl never.
#[local] Arguments cancel : simpl never.

(** Once the writer has failed it stays so. *)
Lemma step_writer s s' : step s s' -> writer s' = SendWait -> writer s = SendWait.
Proof.
  intros Hs Hw. destruct Hs as
    [ | | s s1 ? ? ? ? Hp | | | s ? ? s1 ? ? ? Hp | s s1 ? ? ? ? ? Hp | | | s ? ? ? ? s1 ? ? ? ? Hp | s s1 ? ? ? ? ? Hp
    | | s s1 ? ? ? ? Hp | s s1 ? ? ? ? ? Hp | | s s1 ? ? Hp | s ? a ? ? | s s1 ? ? ? ? ? Hp | | | s s1 ? ? ? ? ? Hp
    | s s1 ? ? ? ? ? ? ? Hp | | ]; cbn in *; try done.
  - by rewrite writer_dispatch in Hw.
  - apply push_event_to_spec in Hp as (E & _). by rewrite E in Hw.
  - by rewrite writer_cleanup in Hw.
  - injection Hp as <- <-. done.
  - by rewrite (writer_drain_step _ _ _ _ Hp) in Hw.
  - unfold submit_action in Hp. case_match; [done |]. by injection Hp as <-.
  - by rewrite (push_outbound_spec _ _ _ Hp) in Hw.
  - by rewrite (writer_event _ _ _ _ Hp) in Hw.
  - unfold cancel in Hw. by destruct (flagged a).
  - by rewrite (push_outbound_spec _ _ _ Hp) in Hw.
  - by rewrite writer_drop in Hw.
  - unfold respond in Hp. case_match; [done |]. destruct (respond_body _ _). by injection Hp as <-.
  - by rewrite (push_outbound_spec _ _ _ Hp) in Hw.
Qed.

Lemma step_delivery s s' : step s s' -> delivery s -> writer s' = SendWait -> delivery s'.
Proof.
  intros Hs H Hw. destruct Hs as
    [ s env Hr | s env Hr | s s1 id ev fin Hr Hp | s id Hr | s k Hr _ | s cause ids s1 ops Hr Hi Hp
    | s s1 op ops kind Hr Hc Hp | s Hr | s env q _ _ | | | | s s1 id rid req Hf Hp | s s1 id a env Ha Hh Hp
    | s id a env Ha Hh | s s1 id ev Hp | s id a Ha Hh | s s1 id a env Ha Hh Hp | s id a Ha Hh
    | s k q c _ _ _ | s s1 k c ev _ _ Hp | s s1 k c env ev _ _ _ Hp | s k c env ev _ _ _ | s k c _ _ ]; cbn in Hw; try done.
  - apply delivery_reader; [by rewrite Hr | done | done].
  - by apply dispatch_delivery.
  - eapply delivery_push; [exact Hp | by apply route_handed | done].
  - by apply cleanup_delivery.
  - assert (H1 : delivery (set_reader RecvWait s)) by (apply delivery_reader; [by rewrite Hr | done | done]).
    outside H1.
  - by eapply shutdown_delivery.
  - destruct op as [id|id]; cbn in Hp.
    + eapply delivery_push; [exact Hp | | done]. pose proof (drain_handed s id ops Hr H) as Hh. by rewrite Hc in Hh.
    + injection Hp as <-. by apply drain_flag.
  - by apply drain_done.
  - outside H.
  - by eapply submit_delivery.
  - apply push_outbound_spec in Hp as ->. eapply delivery_action; [done | done | | outside H].
    intros _. unfold rx_alive. by rewrite Hh.
  - by eapply delivery_action.
  - by eapply event_delivery.
  - by apply cancel_delivery.
  - apply push_outbound_spec in Hp as ->. eapply delivery_action; [done | done | done | outside H].
  - by apply drop_delivery.
  - outside H.
  - by eapply respond_delivery.
  - apply push_outbound_spec in Hp as ->. outside H.
  - outside H.
  - outside H.
Qed.

Lemma reachable_delivery s : reachable s -> writer s = SendWait -> delivery s.
Proof.
  revert s. apply (rtc_ind_r (fun s => writer s = SendWait -> delivery s)); [intros _; apply init_delivery |].
  intros s s' _ Hs IH Hw. eapply step_delivery; [exact Hs | | done]. by apply IH, (step_writer s s').
Qed.

End MuxFacts.
