(* ===== verification/MuxStream.v ===== *)
(** * Bounds of an endpoint, and the stream of an action across a connection *)

From S2P Require Import Prelude Mux MuxFacts.

Module MuxStream.
Import Mux MuxFacts.

#[local] Arguments events_for : simpl never.
#[local] Arguments dispatch_inbound : simpl never.
#[local] Arguments cleanup_client : simpl never.
#[local] Arguments drop_handle : simpl never.
#[local] Arguments cancel : simpl never.
#[local] Arguments PER_ACTION_BUFFER : simpl never.
#[local] Arguments OUTBOUND_BUFFER : simpl never.

(** ** What each operation changes *)

(** Everything handed to the writer, in order. *)
Definition out (s : Mux) : list Envelope := wire_out s ++ lost s ++ outbound s.

#[local] Arguments out : simpl never.

(** The fields the invariants below read. *)
Definition same_client (s s' : Mux) : Prop :=
  actions s' = actions s /\ outbound s' = outbound s /\ wire_out s' = wire_out s /\ lost s' = lost s /\ writer s' = writer s.

Lemma dispatch_same env s : same_client s (dispatch_inbound env s).
Proof.
  unfold dispatch_inbound, handle_inbound_action, handle_inbound_cancel, route_to_client.
  repeat case_match; done.
Qed.

(** The channels after a dispatch: a new one may be appended. *)
Lemma dispatch_channels env s :
  channels (dispatch_inbound env s) = channels s
  \/ exists id rid, channels (dispatch_inbound env s) = channels s ++ [mkChannel id rid false Queued []].
Proof.
  unfold dispatch_inbound, handle_inbound_action, handle_inbound_cancel, route_to_client.
  repeat case_match; eauto.
Qed.

Lemma dispatch_route env s id ev fin :
  reader (dispatch_inbound env s) = Route id ev fin -> event_id ev = id.
Proof.
  destruct (event_of env) as [x|] eqn:He.
  - rewrite (dispatch_event_eq env x) by done. unfold route_to_client. repeat case_match; cbn; by intros [= <- <- <-].
  - unfold event_of, dispatch_inbound, handle_inbound_action, handle_inbound_cancel in *. repeat case_match; done.
Qed.

Lemma push_outbound_out env s s' :
  push_outbound env s = Some s' ->
  s' = set_outbound (outbound s') s /\ length (outbound s') <= length (outbound s) `max` OUTBOUND_BUFFER
  /\ out s' = out s ++ if outbound_open s then [env] else [].
Proof.
  unfold push_outbound, out. destruct (outbound_open s); cbn [negb].
  - case_match eqn:E; [| done]. intros [= <-]. apply Nat.ltb_lt in E. cbn. rewrite length_app. cbn.
    split_and!; [done | lia | by rewrite !app_assoc].
  - intros [= <-]. rewrite app_nil_r. split_and!; [by destruct s | lia | done].
Qed.

(** ** Shapes of envelopes *)

Definition carries (env : Envelope) (ev : StreamEvent) : Prop :=
  body env = Some (match ev with
                   | Progress m => BProgress m | Stream m => BStream m
                   | Result m => BResult m | Error e => BError e
                   end).

Definition handle_ok (id : string) (a : Action) : Prop :=
  match handle a with
  | Submitting env => exists req, body env = Some (BAction req)
  | Cancelling env => body env = Some (BCancel id) /\ flagged a = true
  | _ => True
  end.

(** The state of a response channel: nothing terminal before it is flagged,
    one terminal event after. *)
Definition channel_ok (c : Channel) : Prop :=
  match response c with
  | Sending env ev =>
      carries env ev /\ event_id ev = ch_action_id c /\ terminal ev = ch_terminated c
      /\ has_terminal (sent c) = false
  | Dropped => cut (sent c) = sent c
  | _ => ch_terminated c = false /\ has_terminal (sent c) = false
  end.

Record shapes (s : Mux) : Prop := mkShapes {
  sh_handle : forall id a, actions s !! id = Some a -> handle_ok id a;
  sh_channel : forall k c, channels s !! k = Some c -> channel_ok c;
  sh_lost : writer s = SendWait -> lost s = []
}.

Lemma shapes_ext s s' :
  actions s = actions s' -> channels s = channels s' -> lost s = lost s' -> (writer s' = SendWait -> writer s = SendWait) ->
  shapes s -> shapes s'.
Proof. intros E1 E2 E3 E4 []. split; rewrite <- ?E1, <- ?E2, <- ?E3; auto. Qed.

Lemma shapes_action s id a : handle_ok id a -> shapes s -> shapes (set_action id a s).
Proof.
  intros Ha []. split; cbn; [| done | done]. intros i b. destruct (decide (id = i)) as [->|Hne].
  - rewrite lookup_insert_eq. by intros [= <-].
  - rewrite lookup_insert_ne by done. apply sh_handle0.
Qed.

Lemma shapes_flag s id : shapes s -> shapes (flag id s).
Proof.
  intros []. split; cbn; [| done | done]. intros i b Hb. destruct (decide (id = i)) as [->|Hne].
  - rewrite lookup_alter_eq in Hb. destruct (actions s !! i) as [a|] eqn:Ea; [| done]. injection Hb as <-.
    specialize (sh_handle0 i a Ea). unfold handle_ok in *. cbn. destruct (handle a); naive_solver.
  - rewrite lookup_alter_ne in Hb by done. by apply sh_handle0.
Qed.

Lemma shapes_channel s k c : channel_ok c -> shapes s -> shapes (set_channel k c s).
Proof.
  intros Hc []. split; cbn; [done | | done]. intros i b Hb. destruct (decide (k = i)) as [->|Hne].
  - destruct (decide (i < length (channels s))).
    + rewrite list_lookup_insert_eq in Hb by done. by injection Hb as <-.
    + rewrite list_insert_ge in Hb by lia. by apply (sh_channel0 i).
  - rewrite list_lookup_insert_ne in Hb by done. by apply (sh_channel0 i).
Qed.

Lemma shapes_push s s' id ev : push_event_to id ev s = Some s' -> shapes s -> shapes s'.
Proof.
  unfold push_event_to. destruct (actions s !! id) as [a|] eqn:Ha; [| by intros [= <-]].
  destruct (push_event ev a) as [b|] eqn:E; [| done]. intros [= <-] H.
  apply (shapes_action s id b); [| done]. pose proof (sh_handle _ H id a Ha) as Hok.
  assert (handle b = handle a /\ flagged b = flagged a) as [E1 E2].
  { unfold push_event in E. destruct (negb (rx_alive a)); [by injection E as <- |].
    destruct (_ <? _)%nat; [by injection E as <- | done]. }
  unfold handle_ok in *. by rewrite E1, E2.
Qed.

Lemma shapes_drain s s' k op : drain_step k op s = Some s' -> shapes s -> shapes s'.
Proof. destruct op; cbn; [apply shapes_push | intros [= <-]; apply shapes_flag]. Qed.

Lemma respond_body_ok id ev :
  let '(ev', b) := respond_body id ev in
  b = match ev' with Progress m => BProgress m | Stream m => BStream m | Result m => BResult m | Error e => BError e end
  /\ event_id ev' = id /\ terminal ev' = terminal ev.
Proof. by destruct ev. Qed.

Lemma respond_shapes s s' k c ev :
  channels s !! k = Some c -> response c = Ready -> respond k c ev s = Some s' -> shapes s -> shapes s'.
Proof.
  intros Hc Hr E H. pose proof (sh_channel _ H k c Hc) as Hok. unfold channel_ok in Hok. rewrite Hr in Hok.
  destruct Hok as [Ht Hs]. unfold respond in E. rewrite Ht in E.
  pose proof (respond_body_ok (ch_action_id c) ev) as Hb. destruct (respond_body (ch_action_id c) ev) as [ev' b].
  destruct Hb as (-> & Hid & Hter). injection E as <-. apply shapes_channel; [| done].
  destruct (terminal ev) eqn:Et; unfold channel_ok; cbn; rewrite Hter; by split_and!.
Qed.

Lemma sent_shapes c ev env b :
  channel_ok c -> response c = Sending env ev ->
  channel_ok (if b : bool then log_sent ev (if ch_terminated c then Dropped else Ready) c
              else set_response (if ch_terminated c then Dropped else Ready) c).
Proof.
  unfold channel_ok. intros H E. rewrite E in H. destruct H as (_ & _ & Ht & Hs).
  destruct b, (ch_terminated c) eqn:Ec; cbn; rewrite ?Ec.
  - by apply cut_snoc.
  - rewrite has_terminal_app, has_terminal_one, Hs, Ht. done.
  - by apply cut_all.
  - done.
Qed.

Lemma step_shapes s s' : step s s' -> shapes s -> shapes s'.
Proof.
  intros Hs H. destruct Hs as
    [ s env Hr | s env Hr | s s1 id ev fin Hr Hp | s id Hr | s k Hr _ | s cause ids s1 ops Hr Hi Hp
    | s s1 op ops kind Hr Hc Hp | s Hr | s env q Hw Ho | s env q cause ids s1 ops Hw Ho Hi Hp
    | s s1 op ops kind Hw Hc Hp | s Hw | s s1 id rid req Hf Hp | s s1 id a env Ha Hh Hp
    | s id a env Ha Hh | s s1 id ev Hp | s id a Ha Hh | s s1 id a env Ha Hh Hp | s id a Ha Hh
    | s k q c _ Hc Hq | s s1 k c ev Hc Hr Hp | s s1 k c env ev Hc Hr _ Hp | s k c env ev Hc Hr _ | s k c Hc Hr ].
  - by eapply shapes_ext; [.. | exact H].
  - destruct (dispatch_same env (set_dispatched (dispatched s ++ [env]) s)) as (E1 & E2 & E3 & E4 & E5).
    destruct H. split.
    + rewrite E1. done.
    + destruct (dispatch_channels env (set_dispatched (dispatched s ++ [env]) s)) as [->|(id & rid & ->)]; [done |].
      intros k c Hc. apply lookup_snoc in Hc as [Hc|[_ ->]]; [by eapply sh_channel0 | done].
    + rewrite E4, E5. done.
  - eapply shapes_ext; [.. | exact (shapes_push _ _ _ _ Hp H)]; done.
  - unfold cleanup_client. case_match; [pose proof (shapes_flag s id H) as H' | pose proof H as H'];
      by eapply shapes_ext; [.. | exact H'].
  - by eapply shapes_ext; [.. | exact H].
  - injection Hp as <- <-. by eapply shapes_ext; [.. | exact H].
  - eapply shapes_ext; [.. | exact (shapes_drain _ _ _ _ Hp H)]; done.
  - by eapply shapes_ext; [.. | exact H].
  - by eapply shapes_ext; [.. | exact H].
  - injection Hp as <- <-. destruct H. by split.
  - pose proof (shapes_drain _ _ _ _ Hp H) as []. by split.
  - destruct H. by split.
  - unfold submit_action in Hp. case_match; [done |]. injection Hp as <-.
    eapply (shapes_action (set_state _ s)); [by eexists |]. by eapply shapes_ext; [.. | exact H].
  - apply push_outbound_out in Hp as (-> & _).
    apply shapes_action; [by unfold handle_ok; cbn; destruct (outbound_open s) |].
    by eapply shapes_ext; [.. | exact H].
  - by apply shapes_action.
  - unfold next_event in Hp. destruct (actions s !! id) as [a|] eqn:Ha; [| done]. cbn in Hp.
    destruct (handle a) eqn:Hh, (queue a); try done. injection Hp as <- <-.
    apply shapes_action; [| done]. unfold handle_ok. cbn. by rewrite Hh.
  - unfold cancel. destruct (flagged a); by apply shapes_action.
  - apply push_outbound_out in Hp as (-> & _). apply shapes_action; [done |]. by eapply shapes_ext; [.. | exact H].
  - unfold drop_handle, try_push_outbound.
    assert (H1 : shapes (set_action id (set_handle Gone (set_flagged true a)) s)) by (by apply shapes_action).
    destruct (flagged a); [done |]. destruct (push_outbound _ _) as [s1|] eqn:E; cbn; [| done].
    apply push_outbound_out in E as (-> & _). by eapply shapes_ext; [.. | exact H1].
  - apply shapes_channel; [| by eapply shapes_ext; [.. | exact H]].
    pose proof (sh_channel _ H k c Hc) as Hok. unfold channel_ok in *. rewrite Hq in Hok. done.
  - by eapply respond_shapes.
  - apply push_outbound_out in Hp as (-> & _). apply shapes_channel; [| by eapply shapes_ext; [.. | exact H]].
    apply (sent_shapes c ev env true); [by eapply sh_channel | done].
  - apply shapes_channel; [| done]. apply (sent_shapes c ev env false); [by eapply sh_channel | done].
  - apply shapes_channel; [| done]. pose proof (sh_channel _ H k c Hc) as Hok. unfold channel_ok in *.
    rewrite Hr in Hok. cbn. apply cut_all, Hok.
Qed.

Lemma reachable_shapes s : reachable s -> shapes s.
Proof.
  revert s. apply (rtc_ind_r shapes); [by split | intros s s' _ Hs IH]. by eapply step_shapes.
Qed.

(** ** The stream of a response channel *)

Definition owners (id : string) (cs : list Channel) : list Channel := filter (fun c => ch_action_id c = id) cs.

(** What reaches the writer for an action with one response channel is what
    that channel sent, in order. *)
Definition streams (s : Mux) : Prop :=
  forall id, id <> "" ->
    match owners id (channels s) with
    | [] => events_for id (out s) = []
    | [c] => events_for id (out s) = sent c
    | _ => True
    end.

Lemma streams_ext s s' :
  (forall id, events_for id (out s') = events_for id (out s)) -> channels s' = channels s -> streams s -> streams s'.
Proof. intros E1 E2 H id Hid. specialize (H id Hid). by rewrite E1, E2. Qed.

Lemma streams_append s s' id rid :
  (forall id, events_for id (out s') = events_for id (out s)) ->
  channels s' = channels s ++ [mkChannel id rid false Queued []] -> streams s -> streams s'.
Proof.
  intros E1 E2 H i Hi. specialize (H i Hi). rewrite E1, E2. unfold owners in *. rewrite list.filter_app, filter_cons.
  cbn. destruct (decide (id = i)) as [->|Hne]; [| by rewrite app_nil_r].
  destruct (filter _ (channels s)) as [|x [|y l]]; by cbn.
Qed.

(** One channel changes and the writer's input grows accordingly. *)
Lemma streams_channel s s' k c c' evs :
  channels s !! k = Some c -> channels s' = <[k := c']> (channels s) -> ch_action_id c' = ch_action_id c ->
  sent c' = sent c ++ evs ->
  (forall id, id <> "" -> events_for id (out s') = events_for id (out s) ++ if decide (ch_action_id c = id) then evs else []) ->
  streams s -> streams s'.
Proof.
  intros Hc Ec Eid Es Eo H id Hid. specialize (H id Hid). rewrite Ec, (Eo id Hid).
  apply list_elem_of_split_length in Hc as (l1 & l2 & El & ->). rewrite El in *. clear El.
  rewrite insert_app_r_alt, Nat.sub_diag by lia. cbn [insert list_insert]. unfold owners in *.
  rewrite list.filter_app, filter_cons in *. rewrite Eid. destruct (decide (ch_action_id c = id)) as [E|E].
  - revert H. destruct (filter _ l1) as [|x l]; cbn.
    + destruct (filter _ l2); [intros ->; by rewrite Es | done].
    + by destruct l.
  - by rewrite app_nil_r.
Qed.

Lemma events_for_push id l env :
  events_for id (l ++ [env])
  = events_for id l ++ match event_of env with Some ev => if decide (event_id ev = id) then [ev] else [] | None => [] end.
Proof. by rewrite events_for_app, events_for_one. Qed.

Lemma silent_push s s' env :
  event_of env = None -> push_outbound env s = Some s' ->
  (forall id, events_for id (out s') = events_for id (out s)) /\ channels s' = channels s.
Proof.
  intros He Hp. apply push_outbound_out in Hp as (E & _ & Eo). split; [| by rewrite E].
  intros id. rewrite Eo. destruct (outbound_open s); [by rewrite events_for_push, He, app_nil_r | by rewrite app_nil_r].
Qed.

Lemma carries_event env ev : carries env ev -> event_id ev <> "" -> event_of env = Some ev.
Proof.
  unfold carries, event_of. intros -> Hid. destruct ev as [m|m|m|e]; try done. cbn in Hid.
  unfold is_empty. by destruct (String.eqb_spec (err_action_id e) "").
Qed.

Lemma sent_streams s s1 k c env ev r :
  channels s !! k = Some c -> response c = Sending env ev -> channel_ok c -> outbound_open s = true ->
  push_outbound env s = Some s1 -> streams s -> streams (set_channel k (log_sent ev r c) s1).
Proof.
  intros Hc Hr Hok Hop Hp. unfold channel_ok in Hok. rewrite Hr in Hok. destruct Hok as (Hca & Hid & _ & _).
  apply push_outbound_out in Hp as (E & _ & Eo). rewrite Hop in Eo.
  eapply (streams_channel _ _ k c _ [ev]); [done | by rewrite E | done | done |].
  intros id Hne. change (out (set_channel k (log_sent ev r c) s1)) with (out s1).
  rewrite Eo, events_for_push. destruct (decide (ch_action_id c = id)) as [Ei|Ei].
  - rewrite (carries_event env ev) by (done || congruence). by rewrite decide_True by congruence.
  - destruct (decide (event_id ev = "")) as [E0|E0].
    + assert (He : event_of env = None \/ event_of env = Some ev).
      { unfold event_of. rewrite Hca. destruct ev; cbn; try (by right). case_match; auto. }
      destruct He as [He|He]; rewrite He; [done |]. by rewrite decide_False by congruence.
    + rewrite (carries_event env ev) by done. by rewrite decide_False by congruence.
Qed.

Lemma out_ext s s' : wire_out s' = wire_out s -> lost s' = lost s -> outbound s' = outbound s -> out s' = out s.
Proof. intros E1 E2 E3. unfold out. by rewrite E1, E2, E3. Qed.

(** Steps that leave the channels and the writer's input alone. *)
Lemma push_event_same id ev s s' :
  push_event_to id ev s = Some s' ->
  channels s' = channels s /\ out s' = out s.
Proof. intros H. apply push_event_to_spec in H as (-> & _). done. Qed.

Lemma drain_same k op s s' : drain_step k op s = Some s' -> channels s' = channels s /\ out s' = out s.
Proof. destruct op; cbn; [apply push_event_same | by intros [= <-]]. Qed.

Lemma step_streams s s' : step s s' -> shapes s -> streams s -> streams s'.
Proof.
  intros Hs Hsh H. destruct Hs as
    [ s env Hr | s env Hr | s s1 id ev fin Hr Hp | s id Hr | s k Hr _ | s cause ids s1 ops Hr Hi Hp
    | s s1 op ops kind Hr Hc Hp | s Hr | s env q Hw Ho | s env q cause ids s1 ops Hw Ho Hi Hp
    | s s1 op ops kind Hw Hc Hp | s Hw | s s1 id rid req Hf Hp | s s1 id a env Ha Hh Hp
    | s id a env Ha Hh | s s1 id ev Hp | s id a Ha Hh | s s1 id a env Ha Hh Hp | s id a Ha Hh
    | s k q c _ Hc Hq | s s1 k c ev Hc Hr Hp | s s1 k c env ev Hc Hr Ho Hp | s k c env ev Hc Hr _ | s k c Hc Hr ].
  - by eapply streams_ext; [.. | exact H].
  - destruct (dispatch_same env (set_dispatched (dispatched s ++ [env]) s)) as (E1 & E2 & E3 & E4 & E5).
    assert (Eo : out (dispatch_inbound env (set_dispatched (dispatched s ++ [env]) s)) = out s) by (by apply out_ext).
    destruct (dispatch_channels env (set_dispatched (dispatched s ++ [env]) s)) as [Ec|(id & rid & Ec)].
    + eapply streams_ext; [.. | exact H]; [intros; by rewrite Eo | done].
    + eapply streams_append; [.. | exact H]; [intros; by rewrite Eo | exact Ec].
  - apply push_event_same in Hp as [Ec Eo]. eapply (streams_ext s); [| exact Ec | done].
    intros i. change (out (set_reader _ s1)) with (out s1). by rewrite Eo.
  - unfold cleanup_client. case_match; by eapply streams_ext; [.. | exact H].
  - by eapply streams_ext; [.. | exact H].
  - injection Hp as <- <-. by eapply streams_ext; [.. | exact H].
  - apply drain_same in Hp as [Ec Eo]. eapply (streams_ext s); [| exact Ec | done].
    intros i. change (out (set_reader _ s1)) with (out s1). by rewrite Eo.
  - by eapply streams_ext; [.. | exact H].
  - eapply streams_ext; [.. | exact H]; [| done]. intros i. unfold out. cbn.
    rewrite (sh_lost _ Hsh Hw), Ho. cbn. by rewrite <- app_assoc.
  - injection Hp as <- <-. eapply streams_ext; [.. | exact H]; [| done]. intros i. unfold out. cbn.
    rewrite Ho. by rewrite <- app_assoc.
  - apply drain_same in Hp as [Ec Eo]. eapply (streams_ext s); [| exact Ec | done].
    intros i. change (out (set_writer _ s1)) with (out s1). by rewrite Eo.
  - by eapply streams_ext; [.. | exact H].
  - unfold submit_action in Hp. case_match; [done |]. injection Hp as <-. by eapply streams_ext; [.. | exact H].
  - pose proof (sh_handle _ Hsh id a Ha) as Hok. unfold handle_ok in Hok. rewrite Hh in Hok. destruct Hok as [req Hb].
    apply silent_push in Hp as [Eo Ec]; [| unfold event_of; by rewrite Hb]. by eapply streams_ext; [.. | exact H].
  - by eapply streams_ext; [.. | exact H].
  - unfold next_event in Hp. destruct (actions s !! id) as [a|]; [| done]. cbn in Hp.
    destruct (handle a), (queue a); try done. injection Hp as <- <-. by eapply streams_ext; [.. | exact H].
  - unfold cancel. destruct (flagged a); by eapply streams_ext; [.. | exact H].
  - pose proof (sh_handle _ Hsh id a Ha) as Hok. unfold handle_ok in Hok. rewrite Hh in Hok. destruct Hok as [Hb _].
    apply silent_push in Hp as [Eo Ec]; [| unfold event_of; by rewrite Hb]. by eapply streams_ext; [.. | exact H].
  - unfold drop_handle, try_push_outbound. destruct (flagged a); [by eapply streams_ext; [.. | exact H] |].
    destruct (push_outbound _ _) as [s1|] eqn:E; cbn; [| by eapply streams_ext; [.. | exact H]].
    apply silent_push in E as [Eo Ec]; [| done]. by eapply streams_ext; [.. | exact H].
  - eapply (streams_channel _ _ k c _ []); [done | done | done | by rewrite app_nil_r | | exact H].
    intros id _. change (out (set_channel _ _ _)) with (out s). by case_match; rewrite app_nil_r.
  - unfold respond in Hp. destruct (ch_terminated c); [done |]. destruct (respond_body _ _) as [ev' b]. injection Hp as <-.
    eapply (streams_channel _ _ k c _ []); [done | done | by destruct (terminal ev) |
      by destruct (terminal ev); cbn; rewrite app_nil_r | | exact H].
    intros id _. change (out (set_channel _ _ _)) with (out s). by case_match; rewrite app_nil_r.
  - eapply sent_streams; [done | done | by eapply sh_channel | done | done | done].
  - eapply (streams_channel _ _ k c _ []); [done | done | done | by rewrite app_nil_r | | exact H].
    intros id _. change (out (set_channel _ _ _)) with (out s). by case_match; rewrite app_nil_r.
  - eapply (streams_channel _ _ k c _ []); [done | done | done | by rewrite app_nil_r | | exact H].
    intros id _. change (out (set_channel _ _ _)) with (out s). by case_match; rewrite app_nil_r.
Qed.

Lemma reachable_streams s : reachable s -> streams s.
Proof.
  intros Hr. cut (shapes s /\ streams s); [tauto |]. revert s Hr.
  apply (rtc_ind_r (fun s => shapes s /\ streams s)); [by split | intros s s' _ Hs [IH1 IH2]].
  split; [by eapply step_shapes | by eapply step_streams].
Qed.

(** ** Bounds *)

Definition cancels (id : string) (l : list Envelope) : nat :=
  length (filter (fun env => body env = Some (BCancel id)) l).

#[local] Arguments cancels : simpl never.

Lemma cancels_app id l k : cancels id (l ++ k) = cancels id l + cancels id k.
Proof. unfold cancels. by rewrite list.filter_app, length_app. Qed.

Lemma cancels_one id env : cancels id [env] = if decide (body env = Some (BCancel id)) then 1 else 0.
Proof. unfold cancels. rewrite filter_cons, filter_nil. by case_match. Qed.

Definition cancelling (a : Action) : nat := match handle a with Cancelling _ => 1 | _ => 0 end.

(** An action's buffer, and the cancel requests it has caused. *)
Definition entry_ok (o : option Action) (n : nat) : Prop :=
  match o with
  | Some a => length (queue a) <= PER_ACTION_BUFFER /\ n + cancelling a <= (if flagged a then 1 else 0)
  | None => n = 0
  end.

Record bounded (s : Mux) : Prop := mkBounded {
  b_outbound : length (outbound s) <= OUTBOUND_BUFFER;
  b_incoming : length (incoming s) <= PER_ACTION_BUFFER;
  b_entry : forall id, entry_ok (actions s !! id) (cancels id (out s))
}.

(** A step on one action. *)
Lemma bounded_update s s' id :
  length (outbound s') <= OUTBOUND_BUFFER -> length (incoming s') <= PER_ACTION_BUFFER ->
  (forall i, i <> id -> actions s' !! i = actions s !! i) ->
  (forall i, i <> id -> cancels i (out s') = cancels i (out s)) ->
  entry_ok (actions s' !! id) (cancels id (out s')) -> bounded s -> bounded s'.
Proof.
  intros Ho Hi Ha Hc He []. split; [done | done |]. intros i.
  destruct (decide (i = id)) as [->|Hne]; [done |]. by rewrite Ha, Hc.
Qed.

Lemma bounded_ext s s' :
  length (outbound s') <= OUTBOUND_BUFFER -> length (incoming s') <= PER_ACTION_BUFFER -> actions s' = actions s ->
  (forall i, cancels i (out s') = cancels i (out s)) -> bounded s -> bounded s'.
Proof. intros Ho Hi Ha Hc []. split; [done | done |]. intros i. by rewrite Ha, Hc. Qed.

(** A change of an action that pushes nothing. *)
Lemma bounded_action s s' id a a' :
  s' = set_actions (actions s') s -> actions s' = <[id := a']> (actions s) -> actions s !! id = Some a ->
  (length (queue a') <= length (queue a) \/ length (queue a') <= PER_ACTION_BUFFER) ->
  cancelling a' + (if flagged a then 1 else 0) <= cancelling a + (if flagged a' then 1 else 0) ->
  bounded s -> bounded s'.
Proof.
  intros E Ea Ha Hq Hf H. pose proof H as [Ho Hi He]. assert (Eo : out s' = out s) by (by rewrite E).
  eapply (bounded_update s _ id); [by rewrite E | by rewrite E | | intros; by rewrite Eo | | done].
  - intros i Hne. by rewrite Ea, lookup_insert_ne.
  - specialize (He id). rewrite Ea, lookup_insert_eq, Eo. rewrite Ha in He. cbn in *. lia.
Qed.

Lemma push_event_bounded s s' id ev : push_event_to id ev s = Some s' -> bounded s -> bounded s'.
Proof.
  unfold push_event_to. destruct (actions s !! id) as [a|] eqn:Ha; [| by intros [= <-]].
  destruct (push_event ev a) as [b|] eqn:E; [| done]. intros [= <-].
  unfold push_event in E. destruct (negb (rx_alive a)).
  - injection E as <-. eapply bounded_action; [done | done | done | by left | done].
  - destruct (_ <? _)%nat eqn:El; [| done]. injection E as <-. apply Nat.ltb_lt in El.
    eapply bounded_action; [done | done | done | | done]. right. cbn. rewrite length_app. cbn. lia.
Qed.

Lemma flag_bounded s id : bounded s -> bounded (flag id s).
Proof.
  intros H. destruct (actions s !! id) as [a|] eqn:Ha.
  - eapply (bounded_action s _ id a (set_flagged true a)); [done | | done | by left | | done].
    + cbn. apply map_eq. intros i. destruct (decide (id = i)) as [->|Hne].
      * by rewrite lookup_alter_eq, Ha, lookup_insert_eq.
      * by rewrite lookup_alter_ne, lookup_insert_ne.
    + unfold cancelling. cbn. destruct (flagged a), (handle a); lia.
  - eapply (bounded_ext s); try done; try apply H. cbn. apply map_eq. intros i. destruct (decide (id = i)) as [->|Hne].
    + by rewrite lookup_alter_eq, Ha.
    + by rewrite lookup_alter_ne.
Qed.

Lemma drain_bounded k op s s' : drain_step k op s = Some s' -> bounded s -> bounded s'.
Proof. destruct op; cbn; [apply push_event_bounded | intros [= <-]; apply flag_bounded]. Qed.

(** A push of an envelope and a change of the handle that pushed it. *)
Lemma push_bounded s s1 id a a' env :
  push_outbound env s = Some s1 -> actions s !! id = Some a -> queue a' = queue a ->
  (forall i, i <> id -> body env <> Some (BCancel i)) ->
  cancels id [env] + cancelling a' + (if flagged a then 1 else 0) <= cancelling a + (if flagged a' then 1 else 0) ->
  (outbound_open s = false -> cancelling a' + (if flagged a then 1 else 0) <= cancelling a + (if flagged a' then 1 else 0)) ->
  bounded s -> bounded (set_action id a' s1).
Proof.
  intros Hp Ha Hq Hb Hc Hc' H. pose proof H as [Ho Hi He]. apply push_outbound_out in Hp as (E & Hl & Eo).
  assert (Ea : actions s1 = actions s) by (by rewrite E).
  eapply (bounded_update s _ id); cbn; [lia | by rewrite E | | | | done].
  - intros i Hne. by rewrite lookup_insert_ne, Ea.
  - intros i Hne. change (out (set_action id a' s1)) with (out s1). rewrite Eo, cancels_app.
    destruct (outbound_open s); [| done]. rewrite cancels_one, decide_False by auto. lia.
  - specialize (He id). rewrite lookup_insert_eq, Ha in *. cbn in *. rewrite Hq.
    change (out (set_action id a' s1)) with (out s1). rewrite Eo, cancels_app.
    destruct (outbound_open s); [lia |]. specialize (Hc' eq_refl). change (cancels id []) with 0. lia.
Qed.

Lemma step_bounded s s' : step s s' -> shapes s -> bounded s -> bounded s'.
Proof.
  intros Hs Hsh H. pose proof H as [Ho Hin He]. destruct Hs as
    [ s env Hr | s env Hr | s s1 id ev fin Hr Hp | s id Hr | s k Hr Hl | s cause ids s1 ops Hr Hi Hp
    | s s1 op ops kind Hr Hc Hp | s Hr | s env q Hw Hq | s env q cause ids s1 ops Hw Hq Hi Hp
    | s s1 op ops kind Hw Hc Hp | s Hw | s s1 id rid req Hf Hp | s s1 id a env Ha Hh Hp
    | s id a env Ha Hh | s s1 id ev Hp | s id a Ha Hh | s s1 id a env Ha Hh Hp | s id a Ha Hh
    | s k q c Hq Hc _ | s s1 k c ev Hc Hr Hp | s s1 k c env ev Hc Hr Hop Hp | s k c env ev Hc Hr _ | s k c Hc Hr ].
  - by eapply bounded_ext; [.. | exact H].
  - destruct (dispatch_same env (set_dispatched (dispatched s ++ [env]) s)) as (E1 & E2 & E3 & E4 & E5).
    assert (Eo : out (dispatch_inbound env (set_dispatched (dispatched s ++ [env]) s)) = out s) by (by apply out_ext).
    eapply bounded_ext; [.. | exact H]; [by rewrite E2 | | done | intros; by rewrite Eo].
    unfold dispatch_inbound, handle_inbound_action, handle_inbound_cancel, route_to_client. repeat case_match; done.
  - pose proof (push_event_bounded _ _ _ _ Hp H) as H1. by eapply bounded_ext; [.. | exact H1]; try apply H1.
  - unfold cleanup_client. case_match; [pose proof (flag_bounded s id H) as H1 | pose proof H as H1];
      by eapply bounded_ext; [.. | exact H1]; try apply H1.
  - eapply bounded_ext; [.. | exact H]; try done. cbn. rewrite length_app. cbn. lia.
  - injection Hp as <- <-. by eapply bounded_ext; [.. | exact H].
  - pose proof (drain_bounded _ _ _ _ Hp H) as H1. by eapply bounded_ext; [.. | exact H1]; try apply H1.
  - by eapply bounded_ext; [.. | exact H].
  - eapply bounded_ext; [.. | exact H]; try done; [cbn; rewrite Hq in Ho; cbn in Ho; lia |].
    intros i. unfold out. cbn. rewrite (sh_lost _ Hsh Hw), Hq. cbn. by rewrite <- app_assoc.
  - injection Hp as <- <-. eapply bounded_ext; [.. | exact H]; try done; [cbn; rewrite Hq in Ho; cbn in Ho; lia |].
    intros i. unfold out. cbn. rewrite Hq. by rewrite <- app_assoc.
  - pose proof (drain_bounded _ _ _ _ Hp H) as H1. by eapply bounded_ext; [.. | exact H1]; try apply H1.
  - by eapply bounded_ext; [.. | exact H].
  - unfold submit_action in Hp. case_match; [done |]. injection Hp as <-. destruct Hf as [Hf _].
    eapply (bounded_update s _ id); cbn; [done | done | | done | | done].
    + intros i Hne. by rewrite lookup_insert_ne.
    + rewrite lookup_insert_eq. specialize (He id). rewrite Hf in He. cbn in *.
      change (out (set_actions _ _)) with (out s). unfold cancelling. cbn. lia.
  - pose proof (sh_handle _ Hsh id a Ha) as Hok. unfold handle_ok in Hok. rewrite Hh in Hok. destruct Hok as [req Hb].
    eapply push_bounded; [done | done | done | | | | done].
    + intros i _. by rewrite Hb.
    + rewrite cancels_one, Hb, decide_False by done. unfold cancelling. cbn. rewrite Hh. destruct (outbound_open s); lia.
    + unfold cancelling. cbn. rewrite Hh. destruct (outbound_open s); lia.
  - eapply bounded_action; [done | done | done | by left | | done]. unfold cancelling. rewrite Hh. cbn. lia.
  - unfold next_event in Hp. destruct (actions s !! id) as [a|] eqn:Ha; [| done]. cbn in Hp.
    destruct (handle a) eqn:Hh, (queue a) as [|x q] eqn:Eq; try done. injection Hp as <- <-.
    eapply bounded_action; [done | done | done | left; rewrite Eq; cbn; lia | | done].
    unfold cancelling. cbn. by rewrite Hh.
  - unfold cancel. destruct (flagged a) eqn:Ef;
      (eapply bounded_action; [done | done | done | by left | unfold cancelling; rewrite Hh; cbn; rewrite ?Ef; lia | done]).
  - pose proof (sh_handle _ Hsh id a Ha) as Hok. unfold handle_ok in Hok. rewrite Hh in Hok. destruct Hok as [Hb Hfl].
    eapply push_bounded; [done | done | done | | | | done].
    + intros i Hne. rewrite Hb. congruence.
    + rewrite cancels_one, Hb, decide_True by done. unfold cancelling. cbn. rewrite Hh, Hfl. lia.
    + unfold cancelling. cbn. rewrite Hh, Hfl. lia.
  - unfold drop_handle, try_push_outbound. set (a' := set_handle Gone (set_flagged true a)).
    assert (H1 : bounded (set_action id a' s)).
    { eapply bounded_action; [done | done | done | by left | | done]. unfold cancelling. rewrite Hh. cbn.
      destruct (flagged a); lia. }
    destruct (flagged a) eqn:Ef; [done |].
    destruct (push_outbound _ (set_action id a' s)) as [s1|] eqn:E; cbn; [| done].
    assert (Ea : actions s !! id = Some a) by done.
    assert (Hp : push_outbound (cancel_envelope id (act_request_id a)) s = Some (set_outbound (outbound s1) s)
                 /\ s1 = set_action id a' (set_outbound (outbound s1) s)).
    { unfold push_outbound in *. change (outbound_open (set_action id a' s)) with (outbound_open s) in E.
      change (outbound (set_action id a' s)) with (outbound s) in E.
      destruct (outbound_open s); cbn [negb] in *; [destruct (_ <? _)%nat; [| done] |]; injection E as <-;
        split; try done; by destruct s. }
    destruct Hp as [Hp ->]. eapply push_bounded; [exact Hp | done | done | | | | done].
    + intros i Hne. cbn. congruence.
    + rewrite cancels_one, decide_True by done. unfold cancelling. cbn. rewrite Hh, Ef. lia.
    + unfold cancelling. cbn. rewrite Hh, Ef. lia.
  - eapply bounded_ext; [.. | exact H]; try done. cbn. rewrite Hq in Hin. cbn in Hin. lia.
  - unfold respond in Hp. destruct (ch_terminated c); [done |]. destruct (respond_body _ _) as [ev' b]. injection Hp as <-.
    by eapply bounded_ext; [.. | exact H].
  - pose proof (sh_channel _ Hsh k c Hc) as Hok. unfold channel_ok in Hok. rewrite Hr in Hok. destruct Hok as (Hca & _).
    apply push_outbound_out in Hp as (E & Hl & Eo).
    eapply bounded_ext; [.. | exact H]; [cbn; lia | by rewrite E | by rewrite E |].
    intros i. change (out (set_channel _ _ s1)) with (out s1). rewrite Eo, Hop, cancels_app, cancels_one.
    rewrite decide_False; [lia |]. unfold carries in Hca. rewrite Hca. by destruct ev.
  - by eapply bounded_ext; [.. | exact H].
  - by eapply bounded_ext; [.. | exact H].
Qed.

Lemma reachable_bounded s : reachable s -> bounded s.
Proof.
  intros Hr. cut (shapes s /\ bounded s); [tauto |]. revert s Hr.
  apply (rtc_ind_r (fun s => shapes s /\ bounded s)).
  - split; [by split |]. split; cbn; unfold OUTBOUND_BUFFER, PER_ACTION_BUFFER; try lia. intros id. done.
  - intros s s' _ Hs [IH1 IH2]. split; [by eapply step_shapes | by eapply step_bounded].
Qed.

(** ** Theorems *)

Lemma events_for_ids id l : Forall (fun ev => event_id ev = id) (events_for id l).
Proof. unfold events_for. apply list.Forall_forall. intros ev Hev. by apply list_elem_of_filter in Hev as [? _]. Qed.

Lemma cut_prefix l : cut l `prefix_of` l.
Proof.
  induction l as [|ev l IH]; [done |]. cbn. destruct (terminal ev); [by exists l | by apply prefix_cons].
Qed.

Lemma cut_of_prefix l k : l `prefix_of` k -> cut k = k -> cut l = l.
Proof.
  revert l. induction k as [|ev k IH]; intros l Hp Hk; [by apply prefix_nil_inv in Hp as -> |].
  destruct l as [|x l]; [done |]. assert (x = ev) as -> by (by apply prefix_cons_inv_1 in Hp).
  apply prefix_cons_inv_2 in Hp. cbn in *. destruct (terminal ev).
  - injection Hk as Hk. rewrite <- Hk in Hp. by apply prefix_nil_inv in Hp as ->.
  - injection Hk as Hk. f_equal. by apply IH.
Qed.

Lemma due_ids s id : Forall (fun ev => event_id ev = id) (due s id).
Proof.
  unfold due. apply Forall_app. split.
  - destruct (cut_prefix (events_for id (dispatched s))) as [k E].
    pose proof (events_for_ids id (dispatched s)) as H. rewrite E in H. by apply Forall_app in H as [H _].
  - repeat case_match; repeat constructor.
Qed.

(** An action's handle receives exactly the events meant for it.  As
    long as the write half has not failed, in every interleaving of the
    tasks and for every action whose handle exists, what the handle has
    received, followed by what is buffered for it and what the reader is
    handing over, is the sequence of events that arrived for its id, in
    order, up to and including the first result or error; and when the
    connection goes down before such an event, the crash report with its id
    ends the sequence.  No event of another action is ever in it. *)
Theorem mux_delivery (s : Mux) (id : string) (a : Action) :
  reachable s -> writer s = SendWait -> actions s !! id = Some a -> rx_alive a = true ->
  let evs := events_for id (dispatched s) in
  (shutdown (state s) = false \/ has_terminal evs = true -> got a ++ queue a ++ in_flight s id = cut evs)
  /\ (shutdown (state s) = true -> has_terminal evs = false ->
       exists k, got a ++ queue a ++ in_flight s id = evs ++ [crash_error k id])
  /\ Forall (fun ev => event_id ev = id) (got a ++ queue a).
Proof.
  intros Hr Hw Ha Halive evs. pose proof (reachable_delivery s Hr Hw) as D.
  pose proof (d_events s D id a Ha Halive) as E. split_and!.
  - intros H. rewrite E. unfold due. fold evs. destruct H as [-> | ->]; [| by rewrite app_nil_r].
    destruct (has_terminal evs); by rewrite app_nil_r.
  - intros Hd Ht. rewrite E. unfold due. fold evs. rewrite Ht, Hd, cut_all by done.
    destruct (crash s) as [k|] eqn:Ec; [by exists k |]. exfalso.
    pose proof (d_crash s D Hd Ec id a Ha) as Hc. fold evs in Hc. congruence.
  - pose proof (due_ids s id) as H. rewrite <- E, app_assoc in H. by apply Forall_app in H as [H _].
Qed.

(** What a handle has received of what the other endpoint has sent. *)
Lemma stream_received (c d : Mux) (id : string) (a : Action) (ch : Channel) :
  reachable c -> reachable d -> dispatched c `prefix_of` wire_out d -> id <> "" ->
  writer c = SendWait -> actions c !! id = Some a -> rx_alive a = true -> owners id (channels d) = [ch] ->
  exists l, l `prefix_of` sent ch
    /\ (got a ++ queue a `prefix_of` l
        \/ (has_terminal l = false /\ shutdown (state c) = true /\ exists k, got a ++ queue a = l ++ [crash_error k id])).
Proof.
  intros Hc Hd Hwire Hid Hw Ha Hr Hch.
  pose proof (reachable_delivery c Hc Hw) as D. pose proof (d_events c D id a Ha Hr) as E.
  pose proof (reachable_streams d Hd id Hid) as S. rewrite Hch in S.
  assert (Hp : events_for id (dispatched c) `prefix_of` sent ch).
  { destruct Hwire as [w Ew]. rewrite <- S. unfold out. rewrite Ew, !events_for_app. rewrite <- !app_assoc. by eexists. }
  exists (cut (events_for id (dispatched c))). split.
  { etransitivity; [apply cut_prefix | done]. }
  unfold due in E. set (evs := events_for id (dispatched c)) in *.
  destruct (has_terminal evs) eqn:Ht; [left; rewrite app_nil_r, app_assoc in E; rewrite <- E; by eexists |].
  rewrite cut_all in * by done. destruct (shutdown (state c)) eqn:Hs;
    [| left; rewrite app_nil_r, app_assoc in E; rewrite <- E; by eexists].
  destruct (crash c) as [k|]; [| left; rewrite app_nil_r, app_assoc in E; rewrite <- E; by eexists].
  rewrite app_assoc in E. destruct (in_flight c id) as [|x [|y l]] eqn:Ef.
  - right. split_and!; [done | done |]. exists k. by rewrite app_nil_r in E.
  - left. apply app_inj_tail in E as [-> _]. done.
  - exfalso. unfold in_flight in Ef. repeat case_match; done.
Qed.

(** C37: Multiplexing is transparent across a connection whose write half has
    not failed at the client.  Take a client endpoint and a server endpoint
    joined by a transport that delivers in order what the server has written,
    and a non-empty action id that the server has accepted exactly once, whose
    handle the client still holds.  As long as the client's writer task waits
    for the next envelope (it has not met a write error, after which the order
    is lost: [event_after_crash_report]), what the handle has received and has
    buffered is a prefix of what the server's response channel for that id
    has sent, whatever other actions do on the connection; or, when the
    reader found the connection down without a result, such a prefix followed
    by the crash report. *)
Theorem mux_end_to_end (c d : Mux) (id : string) (a : Action) (ch : Channel) :
  reachable c -> reachable d -> dispatched c `prefix_of` wire_out d -> id <> "" ->
  writer c = SendWait -> actions c !! id = Some a -> rx_alive a = true -> owners id (channels d) = [ch] ->
  exists l, l `prefix_of` sent ch
    /\ (got a ++ queue a `prefix_of` l
        \/ (has_terminal l = false /\ exists k, got a ++ queue a = l ++ [crash_error k id])).
Proof.
  intros Hc Hd Hwire Hid Hw Ha Hr Hch.
  destruct (stream_received c d id a ch) as (l & Hp & [H|(Ht & _ & H)]); try done; exists l; auto.
Qed.

(** C38: The buffers of an endpoint never exceed their bounds (64 outbound
    envelopes, 32 pending inbound actions, 32 events per action), and an
    action causes at most one cancel request, none before its termination
    guard is set, whatever fails. *)
Theorem mux_bounds (s : Mux) :
  reachable s ->
  length (outbound s) <= OUTBOUND_BUFFER /\ length (incoming s) <= PER_ACTION_BUFFER
  /\ forall id a, actions s !! id = Some a ->
       length (queue a) <= PER_ACTION_BUFFER
       /\ cancels id (wire_out s ++ lost s ++ outbound s) <= (if flagged a then 1 else 0).
Proof.
  intros Hr. destruct (reachable_bounded s Hr) as [H1 H2 H3]. split_and!; [done | done |].
  intros id a Ha. specialize (H3 id). rewrite Ha in H3. cbn in H3. unfold out in H3. lia.
Qed.

End MuxStream.
