(* ===== verification/MuxRuns.v ===== *)
(** * Runs of the multiplexer

    Concrete executions of an endpoint: instances of the theorems, and two
    interleavings in which the code departs from its comments. *)

From S2P Require Import Prelude Mux MuxFacts MuxStream.

Module MuxRuns.
Import Mux MuxFacts MuxStream.

Lemma step_then s t u : step s t -> rtc step init s -> t = u -> rtc step init u.
Proof. intros H Hs <-. eapply rtc_r; [exact Hs | exact H]. Qed.

(** ** A client *)

Definition req : Message := mkMessage "" "compile".
Definition note : Message := mkMessage "a" "50%".
Definition note_env : Envelope := mkEnvelope 1 1 (Some (BProgress note)).
Definition act (q : list StreamEvent) (g : list StreamEvent) (h : Handle) : Action := mkAction q g false h 1.
Definition req_env : Envelope := action_envelope "a" 1 req.

Definition client (o w d : list Envelope) (r : Reader) (a : Action) : Mux :=
  mkMux (mkMuxState {["a"]} ∅ false) {["a" := a]} [] [] o [] r SendWait d w [] None.

Lemma client_submitted : reachable (client [] [] [] RecvWait (act [] [] (Submitting req_env))).
Proof.
  eapply (step_then init); [| apply rtc_refl | reflexivity].
  apply (submit init _ "a" 1 req); [split; reflexivity |]. unfold submit_action. cbn. unfold client. repeat f_equal.
Qed.

Lemma client_sent : reachable (client [req_env] [] [] RecvWait (act [] [] Live)).
Proof.
  eapply step_then; [| apply client_submitted |].
  - eapply (submit_sent _ _ "a" _ req_env); [apply lookup_insert_eq | reflexivity | reflexivity].
  - reflexivity.
Qed.

(** A progress event has been looked up and is about to be handed over. *)
Definition routing (o w : list Envelope) : Mux := client o w [note_env] (Route "a" (Progress note) false) (act [] [] Live).

Lemma client_routing : reachable (routing [req_env] []).
Proof.
  assert (H : reachable (set_reader (Dispatch note_env) (client [req_env] [] [] RecvWait (act [] [] Live))))
    by (eapply rtc_r; [apply client_sent | by apply recv_ok]).
  eapply step_then; [| exact H |]; [eapply dispatch; reflexivity | reflexivity].
Qed.

Lemma client_buffered : reachable (client [req_env] [] [note_env] RecvWait (act [Progress note] [] Live)).
Proof.
  eapply step_then; [| apply client_routing |].
  - eapply (route_send _ _ "a" (Progress note) false); reflexivity.
  - reflexivity.
Qed.

Lemma mux_delivery_witness :
  got (act [Progress note] [] Live) ++ queue (act [Progress note] [] Live) = [Progress note].
Proof.
  destruct (mux_delivery (client [req_env] [] [note_env] RecvWait (act [Progress note] [] Live)) "a"
              (act [Progress note] [] Live)) as [H _].
  - exact client_buffered.
  - reflexivity.
  - apply lookup_insert_eq.
  - reflexivity.
  - rewrite <- (app_nil_r (queue _)). apply H. by left.
Defined.

Lemma mux_bounds_witness :
  length [Progress note] <= PER_ACTION_BUFFER /\ cancels "a" [req_env] <= 0.
Proof.
  destruct (mux_bounds _ client_buffered) as (_ & _ & H).
  exact (H "a" (act [Progress note] [] Live) (lookup_insert_eq _ _ _)).
Defined.

(** *** The write half fails while the reader holds an event *)

Definition crashed : StreamEvent := crash_error UnexpectedEof "a".

Definition failing (ops : list DrainOp) (r : Reader) (q : list StreamEvent) : Mux :=
  mkMux (mkMuxState ∅ ∅ true) {["a" := act q [] Live]} [] [] [] [] r (WriterDrain ops) [note_env] [] [req_env]
    (Some UnexpectedEof).

Lemma client_failing : reachable (failing [DrainSend "a"; DrainFlag "a"] (Route "a" (Progress note) false) []).
Proof.
  eapply step_then; [| apply client_routing |].
  - eapply (write_err _ req_env [] Closed ["a"]); [reflexivity | reflexivity | reflexivity | reflexivity].
  - reflexivity.
Qed.

Lemma client_reported : reachable (failing [DrainFlag "a"] (Route "a" (Progress note) false) [crashed]).
Proof.
  eapply step_then; [| apply client_failing |].
  - eapply (writer_drain _ _ (DrainSend "a") [DrainFlag "a"]); reflexivity.
  - reflexivity.
Qed.

(** The crash report is not always the last event of an action.  When
    the write half of the connection fails after the reader has looked up a
    client's channel and before it has delivered an event to it, the writer
    reports the crash first and the reader's event follows it. *)
Theorem event_after_crash_report :
  exists s a, reachable s /\ actions s !! "a" = Some a
    /\ queue a = [crash_error UnexpectedEof "a"; Progress note].
Proof.
  exists (failing [DrainFlag "a"] RecvWait [crashed; Progress note]), (act [crashed; Progress note] [] Live).
  split_and!; [| apply lookup_insert_eq | reflexivity].
  eapply step_then; [| apply client_reported |].
  - eapply (route_send _ _ "a" (Progress note) false); reflexivity.
  - reflexivity.
Qed.

(** ** A server *)

Definition done_msg : Message := mkMessage "a" "ok".
Definition done_env : Envelope := mkEnvelope 1 1 (Some (BResult done_msg)).

Definition chan (t : bool) (r : Response) (l : list StreamEvent) : Channel := mkChannel "a" 1 t r l.

Definition server (i : list nat) (o w : list Envelope) (r : Reader) (c : Channel) : Mux :=
  mkMux (mkMuxState ∅ {["a" := 0]} false) ∅ [false] [c] o i r SendWait [req_env] w [] None.

Lemma server_accepting : reachable (server [] [] [] (Accept 0) (chan false Queued [])).
Proof.
  assert (H : reachable (set_reader (Dispatch req_env) init))
    by (eapply rtc_r; [apply rtc_refl | by apply recv_ok]).
  eapply step_then; [| exact H |]; [eapply dispatch; reflexivity | reflexivity].
Qed.

Lemma server_ready : reachable (server [] [] [] RecvWait (chan false Ready [])).
Proof.
  assert (H : reachable (server [0] [] [] RecvWait (chan false Queued []))).
  { eapply step_then; [| apply server_accepting |]; [apply (accept_send _ 0) | reflexivity]; [reflexivity |].
    cbn. unfold PER_ACTION_BUFFER. lia. }
  eapply step_then; [| exact H |]; [eapply (next_action _ 0 [] (chan false Queued [])); reflexivity | reflexivity].
Qed.

Lemma server_answered : reachable (server [] [] [done_env] RecvWait (chan true Dropped [Result done_msg])).
Proof.
  assert (H1 : reachable (server [] [] [] RecvWait (chan true (Sending done_env (Result done_msg)) []))).
  { eapply step_then; [| apply server_ready |];
      [apply (respond_begin _ _ 0 (chan false Ready []) (Result done_msg)); reflexivity | reflexivity]. }
  assert (H2 : reachable (server [] [done_env] [] RecvWait (chan true Dropped [Result done_msg]))).
  { eapply step_then; [| exact H1 |];
      [eapply (respond_sent _ _ 0 (chan true (Sending done_env (Result done_msg)) []) done_env); reflexivity | reflexivity]. }
  eapply step_then; [| exact H2 |]; [eapply (write_ok _ done_env []); reflexivity | reflexivity].
Qed.

(** A server endpoint keeps the entry of an action after it has written
    the action's result: only an inbound result or error, which a server
    does not receive, or the end of the connection removes it. *)
Theorem server_entry_leaks :
  exists s c, reachable s /\ wire_out s = [done_env] /\ channels s = [c] /\ response c = Dropped
    /\ sent c = [Result done_msg] /\ servers (state s) !! "a" = Some 0.
Proof.
  exists (server [] [] [done_env] RecvWait (chan true Dropped [Result done_msg])), (chan true Dropped [Result done_msg]).
  split_and!; [apply server_answered | done | done | done | done | apply lookup_insert_eq].
Qed.

(** ** Both ends *)

Lemma client_finishing : reachable (client [req_env] [] [done_env] (Route "a" (Result done_msg) true) (act [] [] Live)).
Proof.
  assert (H : reachable (set_reader (Dispatch done_env) (client [req_env] [] [] RecvWait (act [] [] Live))))
    by (eapply rtc_r; [apply client_sent | by apply recv_ok]).
  eapply step_then; [| exact H |]; [eapply dispatch; reflexivity | reflexivity].
Qed.

(** The result is in the buffer of the handle. *)
Lemma client_answered :
  reachable (client [req_env] [] [done_env] (Cleanup "a") (act [Result done_msg] [] Live)).
Proof.
  eapply step_then; [| apply client_finishing |].
  - eapply (route_send _ _ "a" (Result done_msg) true); reflexivity.
  - reflexivity.
Qed.

Lemma mux_end_to_end_witness :
  exists l, l `prefix_of` [Result done_msg]
    /\ ([Result done_msg] `prefix_of` l \/ (has_terminal l = false /\ exists k, [Result done_msg] = l ++ [crash_error k "a"])).
Proof.
  apply (mux_end_to_end _ _ "a" (act [Result done_msg] [] Live) (chan true Dropped [Result done_msg])
    client_answered server_answered).
  - by exists [].
  - done.
  - reflexivity.
  - apply lookup_insert_eq.
  - reflexivity.
  - reflexivity.
Defined.

End MuxRuns.
