(* ===== verification/Request.v ===== *)
(** * barista-ipc and barista-cli: action requests

    The messages of proto/barista/v1/worker.proto that the lifecycle commands
    build and read, and [build_action_request] of
    crates/barista-cli/src/action_graph/mod.rs.  Of [ActionRequest] the model
    keeps the fields that some code of the command line sets, and of
    [ActionResult] those that it reads; the others hold their protobuf
    defaults and are never looked at. *)

From S2P Require Import Prelude Pom Effective Profile ActionGraph.

Module Request.

Inductive Secret : Type := Password (s : string) | Token (s : string) | SshKey (s : string).

Record Credential := mkCredential { server_id : string; username : string; secret : option Secret }.

Record CredentialsEnvelope := mkEnvelope { entries : list Credential }.

Record ActionRequest := mkRequest {
  action_id : string;
  mojo_coords : string;
  project_root : string;
  pom_path : string;
  system_properties : gmap string string;
  environment : gmap string string;
  working_directory : string;
  stdout_stream_id : Z;
  stderr_stream_id : Z;
  maven_compat : string;
  credentials : option CredentialsEnvelope
}.

(** The typed error of a failed action. *)
Record WireError := mkWireError { err_code : string; err_message : string }.

Record ActionResult := mkResult {
  res_action_id : string;
  status : Z;
  exit_code : Z;
  failure_message : string;
  error : option WireError
}.

Definition build_action_request (graph : ActionGraph.ActionGraph) (action : ActionGraph.PlannedAction)
    (root : string) : ActionRequest :=
  mkRequest "" (ActionGraph.phase action) root (ActionGraph.pom_path graph) ∅ ∅
    (ActionGraph.module_root graph) 1 2 "4" None.

Definition set_project_root (p : string) (r : ActionRequest) : ActionRequest :=
  mkRequest (action_id r) (mojo_coords r) p (pom_path r) (system_properties r) (environment r)
    (working_directory r) (stdout_stream_id r) (stderr_stream_id r) (maven_compat r) (credentials r).

Definition set_credentials (c : CredentialsEnvelope) (r : ActionRequest) : ActionRequest :=
  mkRequest (action_id r) (mojo_coords r) (project_root r) (pom_path r) (system_properties r) (environment r)
    (working_directory r) (stdout_stream_id r) (stderr_stream_id r) (maven_compat r) (Some c).

Definition set_reproducible (props env : gmap string string) (compat : string) (r : ActionRequest) : ActionRequest :=
  mkRequest (action_id r) (mojo_coords r) (project_root r) (pom_path r) props env
    (working_directory r) (stdout_stream_id r) (stderr_stream_id r) compat (credentials r).

End Request.
