(* ===== verification/CiRepro.v ===== *)
(** * barista-cli: reproducible builds

    Models crates/barista-cli/src/cmd/ci_repro.rs: the choice of
    [SOURCE_DATE_EPOCH], its ISO-8601 text, and the seed that [--ci] merges
    into every request.  The environment and the output of [git log] are
    parameters.  The maps of the seed are iterated in the order of a
    [HashMap]; the entries have different keys, so the merge does not depend
    on that order. *)

From stdpp Require Import pretty.
From S2P Require Import Prelude Version Coords VersionSpec Pom Effective Profile Cas SortBy Lockfile LockfileFacts ActionGraph Request.

Module CiRepro.
Import Request.

Inductive EpochSource : Type := EnvOverride | GitHead | FixedZero.

Record ReproducibilitySeed := mkSeed {
  source_date_epoch : string;
  epoch_source : EpochSource;
  env : gmap string string;
  seed_properties : gmap string string
}.

Definition FIXED_SENTINEL_EPOCH : Z := 1577836800.

(** [u64] arguments stay in their range. *)
Definition parse_unsigned_seconds (s : string) : option Z :=
  let s := trim s in
  if is_empty s then None else parse_uint U64_MAX s.

Definition parse_epoch_seconds (s : string) : Z := default 0%Z (parse_unsigned_seconds s).

(** [Command::output]: none when git cannot run, else whether it succeeded
    and its standard output. *)
Definition git_head_time_default (git_log : string -> option (bool * string)) (project_root : string) : option Z :=
  '(success, stdout) ← git_log project_root;
  if negb success then None else parse_unsigned_seconds (trim stdout).

Definition resolve_source_date_epoch (project_root : string) (read_env : string -> option string)
    (git_head_time : string -> option Z) : string * EpochSource :=
  match read_env "BARISTA_SOURCE_DATE_EPOCH" ≫= parse_unsigned_seconds with
  | Some parsed => (pretty parsed, EnvOverride)
  | None =>
      match git_head_time project_root with
      | Some t => (pretty t, GitHead)
      | None => (pretty FIXED_SENTINEL_EPOCH, FixedZero)
      end
  end.

(** [seconds / 86_400] fits [i64]; no operation leaves its type. *)
Definition format_iso8601_utc (seconds : Z) : string :=
  let days := (seconds / 86400)%Z in
  let secs_in_day := (seconds mod 86400)%Z in
  let hh := (secs_in_day / 3600)%Z in
  let mm := (secs_in_day mod 3600 / 60)%Z in
  let ss := (secs_in_day mod 60)%Z in
  let z := (days + 719468)%Z in
  let era := (z / 146097)%Z in
  let doe := (z - era * 146097)%Z in
  let yoe := ((doe - doe / 1460 + doe / 36524 - doe / 146096) / 365)%Z in
  let y := (yoe + era * 400)%Z in
  let doy := (doe - (365 * yoe + yoe / 4 - yoe / 100))%Z in
  let mp := ((5 * doy + 2) / 153)%Z in
  let d := (doy - (153 * mp + 2) / 5 + 1)%Z in
  let m := (if mp <? 10 then mp + 3 else mp - 9)%Z in
  let year := (if m <=? 2 then y + 1 else y)%Z in
  Lockfile.pad 4 year +:+ "-" +:+ Lockfile.pad 2 m +:+ "-" +:+ Lockfile.pad 2 d +:+ "T" +:+ Lockfile.pad 2 hh
  +:+ ":" +:+ Lockfile.pad 2 mm +:+ ":" +:+ Lockfile.pad 2 ss +:+ "Z".

Definition build_seed (git_log : string -> option (bool * string)) (project_root : string)
    (read_env : string -> option string) : ReproducibilitySeed :=
  let '(epoch, source) := resolve_source_date_epoch project_root read_env (git_head_time_default git_log) in
  mkSeed epoch source
    (<["LC_ALL" := "C"]> (<["TZ" := "UTC"]> (<["SOURCE_DATE_EPOCH" := epoch]> ∅)))
    (<["project.build.outputTimestamp" := format_iso8601_utc (parse_epoch_seconds epoch)]> ∅).

(** [entry(k).or_insert(v)] for every entry of the seed. *)
Definition or_insert_all (seed into : gmap string string) : gmap string string :=
  foldr (fun '(k, v) m => match m !! k with Some _ => m | None => <[k := v]> m end) into (map_to_list seed).

Definition apply_to_request (seed : ReproducibilitySeed) (request : ActionRequest) : ActionRequest :=
  set_reproducible (or_insert_all (seed_properties seed) (system_properties request))
    (or_insert_all (env seed) (environment request))
    (if is_empty (maven_compat request) then "4" else maven_compat request) request.

(** ** Properties *)

(** The two copies of the calendar arithmetic agree. *)
Lemma iso_is_rfc3339 secs : format_iso8601_utc secs = Lockfile.epoch_to_rfc3339 secs.
Proof. reflexivity. Qed.

(** Merging is the union of maps that prefers the request. *)
Lemma or_insert_all_union seed into : or_insert_all seed into = into ∪ seed.
Proof.
  unfold or_insert_all.
  rewrite <- (list_to_map_to_list seed) at 2. generalize (NoDup_fst_map_to_list seed).
  induction (map_to_list seed) as [|[k v] l IH]; cbn; intros Hd; [by rewrite map_union_empty |].
  apply list.NoDup_cons in Hd as [Hk Hd]. rewrite IH by done. clear IH.
  assert (Hn : list_to_map (M := gmap string string) l !! k = None).
  { apply not_elem_of_list_to_map_1. exact Hk. }
  destruct (into !! k) as [w|] eqn:Hi.
  - rewrite (lookup_union_Some_l _ _ _ _ Hi). apply map_eq. intros j. rewrite !lookup_union.
    destruct (decide (j = k)) as [->|Hj]; [by rewrite Hi, Hn, lookup_insert_eq | by rewrite lookup_insert_ne by done].
  - rewrite (proj2 (lookup_union_None _ _ _) (conj Hi Hn)). by rewrite insert_union_r.
Qed.

Lemma decimal_go x : forall s, decimal 0 (pretty_N_go x s) = decimal (Z.of_N x) s.
Proof.
  induction (N.lt_wf_0 x) as [x _ IH]. intros s. destruct (decide (x = 0%N)) as [->|Hx].
  { by rewrite pretty_N_go_0. }
  rewrite pretty_N_go_step by lia. rewrite IH by (apply N.div_lt; lia). cbn [decimal]. f_equal.
  assert (Hc : Z.of_N (code (pretty_N_char (x mod 10))) = (48 + Z.of_N (x mod 10))%Z).
  { pose proof (N.mod_lt x 10 ltac:(lia)).
    assert (E : exists k, k < 10 /\ (x `mod` 10)%N = N.of_nat k) by (exists (N.to_nat (x `mod` 10)); lia).
    destruct E as (k & Hk & ->). do 10 (destruct k as [|k]; [reflexivity |]). lia. }
  rewrite Hc. pose proof (N.div_mod x 10 ltac:(lia)). lia.
Qed.

Lemma pretty_char_digit x : (x < 10)%N -> is_ascii_digit (pretty_N_char x) = true.
Proof.
  intros Hx. assert (E : exists k, k < 10 /\ x = N.of_nat k) by (exists (N.to_nat x); lia).
  destruct E as (k & Hk & ->). do 10 (destruct k as [|k]; [reflexivity |]). lia.
Qed.

Lemma pretty_go_digits x : forall s,
  str_forallb is_ascii_digit s = true -> str_forallb is_ascii_digit (pretty_N_go x s) = true.
Proof.
  induction (N.lt_wf_0 x) as [x _ IH]. intros s Hs. destruct (decide (x = 0%N)) as [->|Hx].
  { by rewrite pretty_N_go_0. }
  rewrite pretty_N_go_step by lia. apply IH; [apply N.div_lt; lia |]. cbn.
  rewrite pretty_char_digit by (apply N.mod_lt; lia). done.
Qed.

Lemma pretty_go_nonempty x s : (0 < x)%N \/ s <> "" -> pretty_N_go x s <> "".
Proof.
  revert s. induction (N.lt_wf_0 x) as [x _ IH]. intros s H. destruct (decide (x = 0%N)) as [->|Hx].
  { rewrite pretty_N_go_0. destruct H; [lia | done]. }
  rewrite pretty_N_go_step by lia. apply IH; [apply N.div_lt; lia | by right].
Qed.

(** The decimal text of a natural number. *)
Lemma pretty_text n : (0 <= n)%Z ->
  pretty n <> "" /\ str_forallb is_ascii_digit (pretty n) = true /\ decimal 0 (pretty n) = n.
Proof.
  intros Hn. destruct (decide (n = 0)%Z) as [->|Hz]; [done |].
  destruct n as [|p|p]; [done | | lia].
  change (pretty (Z.pos p)) with (pretty (N.pos p)). unfold pretty, pretty_N.
  rewrite decide_False by done.
  split_and!; [by apply pretty_go_nonempty; left | by apply pretty_go_digits | by rewrite decimal_go].
Qed.

Lemma digits_trimmed s : str_forallb is_ascii_digit s = true -> trimmed s.
Proof.
  induction s as [|a s IH]; cbn; [intros _; apply trimmed_empty |]. intros [Ha Hs]%andb_true_iff.
  apply (trimmed_around "" a s); [apply trimmed_empty | by apply IH |].
  unfold is_ascii_digit in Ha. apply andb_true_iff in Ha as [H1%N.leb_le H2%N.leb_le].
  unfold solid. apply andb_true_iff; split; apply N.leb_le; lia.
Qed.

Lemma parse_pretty n : (0 <= n <= U64_MAX)%Z -> parse_unsigned_seconds (pretty n) = Some n.
Proof.
  intros [Hn Hm]. destruct (pretty_text n Hn) as (Hne & Hd & Hv). unfold parse_unsigned_seconds.
  rewrite (trim_id _ (digits_trimmed _ Hd)). unfold is_empty. rewrite (proj2 (String.eqb_neq _ _) Hne).
  unfold parse_uint. assert (E : match pretty n with String a s' => if Ascii.eqb a "+" then s' else pretty n | "" => pretty n end
    = pretty n).
  { destruct (pretty n) as [|a s] eqn:Ep; [done |]. cbn in Hd. apply andb_true_iff in Hd as [Ha _].
    by destruct (Ascii.eqb_spec a "+") as [->|]. }
  rewrite E, Hd, Hv. unfold is_empty. rewrite (proj2 (String.eqb_neq _ _) Hne). cbn.
  by rewrite (proj2 (Z.leb_le _ _) Hm).
Qed.


Lemma seconds_range s n : parse_unsigned_seconds s = Some n -> (0 <= n <= U64_MAX)%Z.
Proof. unfold parse_unsigned_seconds. cbn zeta. destruct (is_empty (trim s)); [done | apply parse_uint_range]. Qed.

(** Where the epoch comes from: the variable when it holds a number, else
    the commit, else the sentinel. *)
Lemma epoch_chosen git_log root read_env : exists n,
  (0 <= n <= U64_MAX)%Z /\
  resolve_source_date_epoch root read_env (git_head_time_default git_log)
  = (pretty n, if read_env "BARISTA_SOURCE_DATE_EPOCH" ≫= parse_unsigned_seconds is Some _ then EnvOverride
               else if git_head_time_default git_log root is Some _ then GitHead else FixedZero).
Proof.
  unfold resolve_source_date_epoch. destruct (_ ≫= _) as [n|] eqn:He.
  { apply bind_Some in He as (s & _ & Hn). exists n. split; [by eapply seconds_range | done]. }
  destruct (git_head_time_default git_log root) as [n|] eqn:Hg; [| by exists FIXED_SENTINEL_EPOCH].
  apply bind_Some in Hg as ([ok out] & _ & Hn). destruct ok; [| done]. cbn in Hn.
  exists n. split; [by eapply seconds_range | done].
Qed.

(** The seed of a build is one instant in two notations: its decimal
    [SOURCE_DATE_EPOCH], and, as [project.build.outputTimestamp], the date
    and time that stepping through the Gregorian calendar from 1970-01-01
    reaches in as many seconds. *)
Theorem seed_one_instant git_log root read_env :
  let seed := build_seed git_log root read_env in
  exists n, (0 <= n <= U64_MAX)%Z /\
    env seed !! "SOURCE_DATE_EPOCH" = Some (pretty n) /\ source_date_epoch seed = pretty n /\
    seed_properties seed !! "project.build.outputTimestamp" = Some (Lockfile.render_rfc3339 (Lockfile.date_time n)) /\
    let t := Lockfile.date_time n in
    (Lockfile.year t, Lockfile.month t, Lockfile.day t) = LockfileFacts.date_after (Z.to_nat (n / 86400)) /\
    n = (n / 86400 * 86400 + Lockfile.hour t * 3600 + Lockfile.minute t * 60 + Lockfile.second t)%Z.
Proof.
  cbn zeta. unfold build_seed. destruct (epoch_chosen git_log root read_env) as (n & Hn & ->).
  exists n. cbn [env source_date_epoch seed_properties]. unfold parse_epoch_seconds. rewrite parse_pretty by done.
  destruct (LockfileFacts.rfc3339_exact n) as (Hd & _ & _ & _ & Hs & _); [lia |].
  rewrite Z2Nat.id in Hs by (apply Z.div_pos; lia).
  split_and!; try done; lia.
Qed.

(** Applying a seed keeps what the request already had, adds the rest, leaves
    every other field, and doing it again changes nothing. *)
Theorem apply_seed_exact seed r :
  let r' := apply_to_request seed r in
  environment r' = environment r ∪ env seed /\ system_properties r' = system_properties r ∪ seed_properties seed /\
  maven_compat r' <> "" /\ (maven_compat r <> "" -> maven_compat r' = maven_compat r) /\
  mojo_coords r' = mojo_coords r /\ project_root r' = project_root r /\ credentials r' = credentials r /\
  apply_to_request seed r' = r'.
Proof.
  cbn zeta. unfold apply_to_request, set_reproducible. cbn. rewrite !or_insert_all_union. unfold is_empty.
  assert (U : forall m k : gmap string string, (m ∪ k) ∪ k = m ∪ k).
  { intros m k. rewrite <- map_union_assoc. by rewrite (map_union_idemp (M := gmap string)). }
  destruct (String.eqb_spec (maven_compat r) "") as [E|E]; cbn; rewrite !U; split_and!; try done.
  by destruct (String.eqb_spec (maven_compat r) "").
Qed.

End CiRepro.
