(* ===== verification/Workers.v ===== *)
(** * barista-cli: worker counts

    Models crates/barista-cli/src/daemon/workers.rs: an expression is a
    positive integer, or a multiple of the cores such as [0.75C].  The
    multiple is an IEEE binary64 number; [f64::from_str] reads the decimal
    grammar of std and rounds to nearest. *)

From Stdlib Require Import Floats.SpecFloat.
From S2P Require Import Prelude Version Coords Cas Journal Index Gc.

Module Workers.

(** ** [f64::from_str] *)

Definition dec_digits (s : string) : string := str_take_while is_ascii_digit s.

(** [n * 10^e], correctly rounded. *)
Definition round_decimal (neg : bool) (n e : Z) : spec_float :=
  match n with
  | Zpos p =>
      if (0 <=? e)%Z then binary_normalize 53 1024 (if neg then - (n * 10 ^ e) else n * 10 ^ e)%Z 0 neg
      else match (10 ^ (- e))%Z with
           | Zpos q => SFdiv 53 1024 (S754_finite neg p 0) (S754_finite false q 0)
           | _ => S754_nan
           end
  | _ => S754_zero neg
  end.

(** A sign and at least one digit, then the end. *)
Definition read_exponent (s : string) : option Z :=
  let '(neg, ds) :=
    match s with
    | String "+" s' => (false, s')
    | String "-" s' => (true, s')
    | _ => (false, s)
    end in
  if is_empty ds || negb (str_forallb is_ascii_digit ds) then None
  else Some (if neg then - decimal 0 ds else decimal 0 ds)%Z.

Definition read_number (neg : bool) (s : string) : option spec_float :=
  let whole := dec_digits s in
  let r := str_drop (String.length whole) s in
  let '(frac, r) :=
    match r with
    | String "." r' => (dec_digits r', str_drop (String.length (dec_digits r')) r')
    | _ => ("", r)
    end in
  if is_empty (whole +:+ frac) then None
  else
    let n := decimal 0 (whole +:+ frac) in
    let scale := (- Z.of_nat (String.length frac))%Z in
    match r with
    | EmptyString => Some (round_decimal neg n scale)
    | String c r' =>
        if Ascii.eqb c "e" || Ascii.eqb c "E"
        then (fun e => round_decimal neg n (scale + e)) <$> read_exponent r'
        else None
    end.

Definition parse_f64 (s : string) : option spec_float :=
  let '(neg, r) :=
    match s with
    | String "+" s' => (false, s')
    | String "-" s' => (true, s')
    | _ => (false, s)
    end in
  if eq_ignore_ascii_case r "inf" || eq_ignore_ascii_case r "infinity" then Some (S754_infinity neg)
  else if eq_ignore_ascii_case r "nan" then Some S754_nan
  else read_number neg r.

(** ** The resolver *)

Inductive WorkersError : Type := Malformed (expr : string) (detail : string).

Definition ISIZE_MAX_F64 : Z := 2 ^ 63.

Definition is_finite (f : spec_float) : bool :=
  match f with S754_zero _ | S754_finite _ _ _ => true | _ => false end.

(** [f.ceil()] of a number that is not negative, kept as the integer it is;
    [None] is infinity. *)
Definition ceil (f : spec_float) : option Z :=
  match f with
  | S754_zero _ => Some 0%Z
  | S754_finite _ m e => Some (if (0 <=? e)%Z then Z.pos m * 2 ^ e else - (- Z.pos m / 2 ^ (- e)))%Z
  | S754_infinity _ | S754_nan => None
  end.

(** [raw.max(1.0).min(isize::MAX as f64) as usize], then [max(1)]. *)
Definition clamp (raw : option Z) : Z :=
  match raw with
  | None => ISIZE_MAX_F64
  | Some n => Z.max (Z.min (Z.max n 1) ISIZE_MAX_F64) 1
  end.

Definition str_strip_suffix (c : ascii) (s : string) : option string :=
  match String.length s with
  | O => None
  | S n => match String.get n s with
           | Some a => if Ascii.eqb a c then Some (str_take n s) else None
           | None => None
           end
  end.

(** The text before a trailing [C] or [c]. *)
Definition core_part (s : string) : option string :=
  match str_strip_suffix "C" s with Some p => Some p | None => str_strip_suffix "c" s end.

Definition resolve_workers (expr : string) (available_cores : Z) : result WorkersError Z :=
  let trimmed := trim expr in
  if is_empty trimmed then Err (Malformed expr "expression is empty")
  else
    match core_part trimmed with
    | Some num_part =>
        match parse_f64 num_part with
        | None => Err (Malformed expr "core-multiplier prefix is not a number")
        | Some multiplier =>
            if negb (is_finite multiplier) || SFleb multiplier (S754_zero false)
            then Err (Malformed expr "core-multiplier must be positive and finite")
            else Ok (clamp (ceil (SFmul 53 1024 (Gc.f64_of_u64 available_cores) multiplier)))
        end
    | None =>
        match parse_uint U64_MAX trimmed with
        | None => Err (Malformed expr "literal-integer parse failed")
        | Some count =>
            if (count =? 0)%Z then Err (Malformed expr "literal-integer must be >= 1") else Ok count
        end
    end.

(** [None] of the platform is one core. *)
Definition available_parallelism_or_one (cores : option Z) : Z := default 1%Z cores.

(** ** Properties *)

(** The workers that an expression asks for: at least one, and a number that
    a [usize] holds. *)
Theorem workers_in_range expr cores n :
  resolve_workers expr cores = Ok n -> (1 <= n <= U64_MAX)%Z.
Proof.
  unfold resolve_workers. cbn zeta. destruct (is_empty (trim expr)); [done |].
  destruct (core_part (trim expr)) as [p|].
  - destruct (parse_f64 p); [| done]. case_match; [done |]. intros [= <-]. unfold clamp, ISIZE_MAX_F64, U64_MAX.
    case_match; lia.
  - destruct (parse_uint U64_MAX (trim expr)) as [c|] eqn:E; [| done]. apply parse_uint_range in E.
    destruct (Z.eqb_spec c 0); [done |]. intros [= <-]. lia.
Qed.

Lemma workers_in_range_witness : (1 <= 6 <= U64_MAX)%Z.
Proof. apply (workers_in_range "0.75C" 8). vm_compute. reflexivity. Defined.

Example workers_examples :
  resolve_workers "1C" 8 = Ok 8%Z /\ resolve_workers "0.75C" 8 = Ok 6%Z /\ resolve_workers "0.75C" 4 = Ok 3%Z
  /\ resolve_workers "0.1C" 8 = Ok 1%Z /\ resolve_workers " 4 " 8 = Ok 4%Z /\ resolve_workers "1e2c" 3 = Ok 300%Z
  /\ resolve_workers "0" 8 = Err (Malformed "0" "literal-integer must be >= 1")
  /\ is_ok (resolve_workers "-1C" 8) = false /\ is_ok (resolve_workers "nanC" 8) = false
  /\ resolve_workers "1e400C" 8 = Err (Malformed "1e400C" "core-multiplier must be positive and finite")
  /\ resolve_workers "1e308C" 100 = Ok ISIZE_MAX_F64.
Proof. vm_compute. done. Qed.

(** A share whose product with the cores is a whole number can still be
    rounded up: seven hundredths of 100 cores are asked for as 8. *)
Theorem workers_round_up : resolve_workers "0.07C" 100 = Ok 8%Z.
Proof. vm_compute. done. Qed.

End Workers.
