(* ===== verification/Launcher.v ===== *)
(** * barista-cli: the daemon launcher

    Models crates/barista-cli/src/daemon/launcher.rs and maven_home.rs: the
    search for a JVM entry point and a Maven distribution, the spawn of the
    daemon, the wait until it accepts connections, and the reuse of a daemon
    that already does.

    The operating system and the daemon are the class [Os]: a type of states
    with the effect of each call of std on it.  What the code relies on is
    [OsLaws]: the monotonic clock does not go back, and [thread::sleep] lasts
    at least as long as asked.  Times are in milliseconds.  The outer [None]
    of a result is a call that does not return: fuel that runs out, or a wait
    for a process that does not end. *)

From stdpp Require Import pretty.
From S2P Require Import Prelude Pom Effective Profile Source Xml Settings Config Loader LoaderFacts.

(** ** The operating system *)

Inductive IoKind : Type := NotFound | ConnectionRefused | PermissionDenied | OtherIo.

Record IoError := mkIo { io_kind : IoKind; io_text : string }.

(** [Command], up to its working directory and its pipes. *)
Record Command := mkCommand { program : string; args : list string; envs : list (string * string) }.

(** [Output] of a finished command: its exit code ([None] on a signal). *)
Record Output := mkOutput { o_code : option Z; o_stdout : string; o_stderr : string }.

Class Os (W : Type) := {
  now : W -> Z;
  sleep : Z -> W -> W;
  exists_at : string -> W -> bool;
  is_file_at : string -> W -> bool;
  is_dir_at : string -> W -> bool;
  read_to_string : string -> W -> option string;
  write_file : string -> string -> W -> option IoError * W;
  remove_file : string -> W -> W;
  create_dir_all : string -> W -> option IoError * W;
  metadata : string -> W -> option IoError;
  set_mode : string -> Z -> W -> option IoError * W;
  connect : string -> W -> option IoError * W;
  spawn : Command -> W -> result IoError Z * W;
  output : Command -> W -> result IoError Output * W;
  try_wait : Z -> W -> result IoError (option string);
  wait : Z -> W -> option W;
  stderr_chunks : Z -> W -> list (list ascii);
  var_os : string -> option string;
  which_java : option string;
  current_exe : option string;
  canonicalize : string -> W -> option string
}.

Class OsLaws (W : Type) `{Os W} := {
  sleep_lasts d w : (0 <= d)%Z -> (now w + d <= now (sleep d w))%Z;
  connect_later p w : (now w <= now (connect p w).2)%Z
}.

Module Launcher.

Abbreviation path := Config.path.
Abbreviation join := Profile.join.

Definition SOCKET_LEAF : string := "barback.sock".
Definition PID_LEAF : string := "barback.pid".
Definition CLASSPATH_CACHE_LEAF : string := "barback.classpath".
Definition STDERR_TAIL_CAP_BYTES : nat := 64 * 1024.

Inductive LauncherError : Type :=
  | JarNotFound (tried : string)
  | JavaNotFound
  | SpawnFailed (argv : list string) (source : IoError)
  | SpawnTimeout (socket : path) (timeout : Z) (stderr_tail : list ascii)
  | CrashedAtStartup (socket : path) (status : string) (stderr_tail : list ascii)
  | MavenClasspathFailed (exit : option Z) (stderr : string)
  | Io (p : path) (source : IoError).

Record LaunchPlan := mkPlan {
  socket_dir : path;
  socket_path : path;
  workers : Z;
  idle_shutdown_secs : Z;
  crash_after : option Z;
  spawn_timeout : Z
}.

(** [LaunchPlan::new]. *)
Definition new_plan (dir : path) (n idle : Z) : LaunchPlan :=
  mkPlan dir (join dir SOCKET_LEAF) n idle None 30000.

Record DaemonHandle := mkHandle { h_socket_path : path; child : option Z }.

Inductive JvmEntry : Type :=
  | Jar (p : path)
  | Classpath (classpath main_class : string).

(** ** The bounded tail of the daemon's error output *)

(** [StderrTail::append]. *)
Definition append_chunk (buf chunk : list ascii) : list ascii :=
  let b := buf ++ chunk in
  drop (length b - STDERR_TAIL_CAP_BYTES) b.

(** What the drain thread has captured; [snapshot] renders it as text. *)
Definition stderr_tail (chunks : list (list ascii)) : list ascii := foldl append_chunk [] chunks.

(** ** The Maven distribution *)

Definition MAVEN_HOME_ENV : string := "BARISTA_MAVEN_HOME".
Definition BUNDLED_MAVEN_REL : list string := ["share"; "barista"; "maven-4"].
Definition BUNDLED_BARBACK_REL : list string := ["share"; "barista"; "barback-uber.jar"].

Inductive MavenHomeSource : Type := SOverride | SEnv | SBundled | SNone.

Definition label (s : MavenHomeSource) : string :=
  match s with SOverride => "override" | SEnv => "env" | SBundled => "bundled" | SNone => "none" end.

Record ResolvedMavenHome := mkHome { home_path : option path; home_source : MavenHomeSource }.

(** [FsProbe]. *)
Record FsProbe := mkProbe { probe_dir : path -> bool; probe_file : path -> bool }.

(** The grandparent of an executable, and a path below it. *)
Definition below_install_root (current_exe : path) (rel : list string) : option path :=
  bin ← Path.parent current_exe;
  root ← Path.parent bin;
  Some (foldl join root rel).

Definition bundled_maven_home (current_exe : path) (fs : FsProbe) : option path :=
  candidate ← below_install_root current_exe BUNDLED_MAVEN_REL;
  if negb (probe_dir fs candidate) then None
  else
    let has_launcher := probe_file fs (join (join candidate "bin") "mvn")
      || probe_file fs (join (join candidate "bin") "mvn.cmd") in
    let has_lib := probe_dir fs (join candidate "lib") in
    if has_launcher && has_lib then Some candidate else None.

Definition resolve_maven_home (override_home env_home current_exe : option path) (fs : FsProbe) : ResolvedMavenHome :=
  match override_home, env_home with
  | Some p, _ => mkHome (Some p) SOverride
  | None, Some p => mkHome (Some p) SEnv
  | None, None =>
      match exe ← current_exe; bundled_maven_home exe fs with
      | Some bundled => mkHome (Some bundled) SBundled
      | None => mkHome None SNone
      end
  end.

Definition bundled_barback_jar (current_exe : path) (fs : FsProbe) : option path :=
  candidate ← below_install_root current_exe BUNDLED_BARBACK_REL;
  if probe_file fs candidate then Some candidate else None.

Section Launcher.
Context {W : Type} `{OS : Os W}.

(** [RealFs]. *)
Definition real_fs (w : W) : FsProbe := mkProbe (fun p => is_dir_at p w) (fun p => is_file_at p w).

(** The executable, canonical when that works. *)
Definition exe_path (w : W) : option path := (fun p => default p (canonicalize p w)) <$> current_exe.

Definition non_empty (k : string) : option path :=
  v ← var_os k; if is_empty v then None else Some v.

Definition resolve_maven_home_from_env (w : W) : ResolvedMavenHome :=
  resolve_maven_home (non_empty "BARISTA_MAVEN_HOME_OVERRIDE") (non_empty MAVEN_HOME_ENV) (exe_path w) (real_fs w).

(** ** The monad *)

Definition M (A : Type) : Type := W -> option (result LauncherError A * W).

#[export] Instance M_ret : MRet M := fun A a w => Some (Ok a, w).
#[export] Instance M_bind : MBind M := fun A B k m w =>
  match m w with
  | None => None
  | Some (Ok a, w') => k a w'
  | Some (Err e, w') => Some (Err e, w')
  end.

Definition fail {A} (e : LauncherError) : M A := fun w => Some (Err e, w).
Definition asks {A} (f : W -> A) : M A := fun w => Some (Ok (f w), w).
Definition effect (f : W -> W) : M unit := fun w => Some (Ok tt, f w).
Definition need {A} (o : option A) : M A := fun w => (fun a => (Ok a, w)) <$> o.
(** A call of std that may fail. *)
Definition io (p : path) (f : W -> option IoError * W) : M unit := fun w =>
  Some (match f w with
        | (Some e, w') => (Err (Io p e), w')
        | (None, w') => (Ok tt, w')
        end).

(** ** Is a daemon listening? *)

Fixpoint connect_loop (fuel : nat) (p : path) (deadline : Z) (w : W) : option (bool * W) :=
  match fuel with
  | O => None
  | S fuel' =>
      match connect p w with
      | (None, w1) => Some (true, w1)
      | (Some e, w1) =>
          match io_kind e with
          | ConnectionRefused =>
              if (deadline <=? now w1)%Z then Some (false, w1)
              else connect_loop fuel' p deadline (sleep 25 w1)
          | _ => Some (false, w1)
          end
      end
  end.

(** Enough turns: each refused one but the last lasts 25 ms. *)
Definition connect_fuel (timeout : Z) : nat := Z.to_nat (timeout / 25) + 2.

Definition socket_is_live (p : path) (timeout : Z) (w : W) : option (bool * W) :=
  if negb (exists_at p w) then Some (false, w)
  else connect_loop (connect_fuel timeout) p (now w + timeout) w.

Definition socket_live (p : path) (timeout : Z) : M bool := fun w =>
  (fun '(b, w') => (Ok b, w')) <$> socket_is_live p timeout w.

Fixpoint ready_loop (fuel : nat) (p : path) (timeout deadline : Z) (pid : Z) (w : W)
    : option (result LauncherError unit * W) :=
  match fuel with
  | O => None
  | S fuel' =>
      match socket_is_live p 100 w with
      | None => None
      | Some (true, w1) => Some (Ok tt, w1)
      | Some (false, w1) =>
          match try_wait pid w1 with
          | Ok (Some status) =>
              let w2 := sleep 50 w1 in
              Some (Err (CrashedAtStartup p status (stderr_tail (stderr_chunks pid w2))), w2)
          | _ =>
              if (deadline <=? now w1)%Z
              then Some (Err (SpawnTimeout p timeout (stderr_tail (stderr_chunks pid w1))), w1)
              else ready_loop fuel' p timeout deadline pid (sleep 50 w1)
          end
      end
  end.

Definition ready_fuel (timeout : Z) : nat := Z.to_nat (timeout / 50) + 2.

Definition wait_for_ready (p : path) (timeout : Z) (pid : Z) : M unit := fun w =>
  ready_loop (ready_fuel timeout) p timeout (now w + timeout) pid w.

(** ** Spawning *)

Definition locate_java (w : W) : result LauncherError path :=
  let from_path := ok_or which_java JavaNotFound in
  match var_os "JAVA_HOME" with
  | Some home =>
      let candidate := join (join home "bin") "java" in
      if is_file_at candidate w then Ok candidate else from_path
  | None => from_path
  end.

Definition entry_args (entry : JvmEntry) : list string :=
  match entry with
  | Jar jar => ["-jar"; jar]
  | Classpath cp main => ["-cp"; cp; main]
  end.

Definition daemon_args (plan : LaunchPlan) (entry : JvmEntry) : list string :=
  entry_args entry
  ++ ["--socket"; socket_path plan; "--workers"; pretty (workers plan);
      "--idle-shutdown"; pretty (idle_shutdown_secs plan)]
  ++ match crash_after plan with Some n => ["--crash-after"; pretty n] | None => [] end.

Definition daemon_env (w : W) : list (string * string) :=
  match home_path (resolve_maven_home_from_env w) with Some home => [(MAVEN_HOME_ENV, home)] | None => [] end.

(** The new child. *)
Definition spawn_daemon (plan : LaunchPlan) (entry : JvmEntry) : M Z := fun w =>
  match locate_java w with
  | Err e => Some (Err e, w)
  | Ok java =>
      match spawn (mkCommand java (daemon_args plan entry) (daemon_env w)) w with
      | (Ok pid, w1) => Some (Ok pid, w1)
      | (Err e, w1) => Some (Err (SpawnFailed (java :: daemon_args plan entry) e), w1)
      end
  end.

(** [s.parse::<i32>().ok()]. *)
Definition parse_i32 (s : string) : option Z :=
  match s with
  | String "-" s' =>
      if is_empty s' || negb (str_forallb is_ascii_digit s') then None
      else if (decimal 0 s' <=? 2147483648)%Z then Some (- decimal 0 s')%Z else None
  | _ => parse_uint 2147483647 s
  end.

Definition reap_stale_daemon (plan : LaunchPlan) (w : W) : W :=
  let w1 :=
    match s ← read_to_string (join (socket_dir plan) PID_LEAF) w; parse_i32 (trim s) with
    | Some pid => (output (mkCommand "kill" ["-9"; pretty pid] []) w).2
    | None => w
    end in
  remove_file (socket_path plan) w1.

Definition ensure_socket_dir (dir : path) : M unit :=
  b ← asks (exists_at dir);
  if (b : bool) then mret tt
  else
    io dir (create_dir_all dir);;
    io dir (fun w => (metadata dir w, w));;
    io dir (set_mode dir 448).

Definition write_pid (dir : path) (pid : Z) (w : W) : option IoError * W := write_file (join dir PID_LEAF) (pretty pid) w.

(** A failure to write the PID file is a warning. *)
Definition discover_or_spawn (plan : LaunchPlan) (classpath : M JvmEntry) : M DaemonHandle :=
  ensure_socket_dir (socket_dir plan);;
  live ← socket_live (socket_path plan) 500;
  if (live : bool) then mret (mkHandle (socket_path plan) None)
  else
    effect (reap_stale_daemon plan);;
    entry ← classpath;
    pid ← spawn_daemon plan entry;
    effect (fun w => (write_pid (socket_dir plan) pid w).2);;
    wait_for_ready (socket_path plan) (spawn_timeout plan) pid;;
    mret (mkHandle (socket_path plan) (Some pid)).

(** ** The entry point *)

Definition SERVER_CLASS : string := "com.bluminal.barista.barback.Server".

Definition TRIED_LIST : string :=
  "$BARISTA_BARBACK_JAR, $BARISTA_BARBACK_CLASSPATH, $BARISTA_BARBACK_HOME/target/classes, <install-root>/share/barista/barback-uber.jar".

Definition mvn_run (barback_dir : path) (goals : list string) : M string := fun w =>
  match output (mkCommand "mvn" (["-f"; join barback_dir "pom.xml"; "-q"] ++ goals) []) w with
  | (Err e, w1) => Some (Err (Io barback_dir e), w1)
  | (Ok out, w1) =>
      if decide (o_code out = Some 0%Z) then Some (Ok (trim (o_stdout out)), w1)
      else Some (Err (MavenClasspathFailed (o_code out) (o_stderr out)), w1)
  end.

Definition mvn_dependency_classpath (barback_dir : path) : M string :=
  mvn_run barback_dir ["dependency:build-classpath"; "-Dmdep.outputFile=/dev/stdout"].

Definition mvn_compile (barback_dir : path) : M unit := mvn_run barback_dir ["test-compile"];; mret tt.

Definition cached_classpath (cache_file classes : path) (w : W) : option string :=
  if is_file_at cache_file w && is_dir_at classes w then trim <$> read_to_string cache_file w else None.

Definition build_classpath_from_dev_dir (barback_dir : path) : M string :=
  let target := join barback_dir "target" in
  let cache_file := join target CLASSPATH_CACHE_LEAF in
  let classes := join target "classes" in
  let test_classes := join target "test-classes" in
  cached ← asks (cached_classpath cache_file classes);
  resolved ← match cached with
             | Some cp => mret cp
             | None => out ← mvn_dependency_classpath barback_dir;
                       effect (fun w => (write_file cache_file out w).2);;
                       mret out
             end;
  has_tests ← asks (is_dir_at test_classes);
  compiled ← asks (is_dir_at classes);
  (if (compiled : bool) then mret tt else mvn_compile barback_dir);;
  mret ((if (has_tests : bool) then test_classes +:+ ":" else "") +:+ classes +:+ ":" +:+ resolved).

(** The directory [barback] of the nearest directory at or above [cwd] whose
    [barback] has a POM; the walk ends at the root. *)
Definition find_barback_dev_dir (cwd : path) (w : W) : option (option path) :=
  option_map (option_map (fun d => join d "barback"))
    (LoaderFacts.climb (fun d => is_file_at (join (join d "barback") "pom.xml") w) (fun _ => false)
       (S (String.length cwd)) cwd).

Definition barback_home (cwd : path) (w : W) : option (option path) :=
  match var_os "BARISTA_BARBACK_HOME" with
  | Some d => Some (Some d)
  | None => find_barback_dev_dir cwd w
  end.

Definition explicit_jar (w : W) : option path :=
  p ← var_os "BARISTA_BARBACK_JAR"; if is_file_at p w then Some p else None.

Definition bundled_jar (w : W) : option path := exe ← exe_path w; bundled_barback_jar exe (real_fs w).

Definition discover_jvm_entry (cwd : path) : M JvmEntry :=
  jar ← asks explicit_jar;
  match jar, var_os "BARISTA_BARBACK_CLASSPATH" with
  | Some p, _ => mret (Jar p)
  | None, Some cp => mret (Classpath cp SERVER_CLASS)
  | None, None =>
      found ← asks (barback_home cwd);
      dir ← need found;
      match dir with
      | Some d => cp ← build_classpath_from_dev_dir d; mret (Classpath cp SERVER_CLASS)
      | None =>
          bundled ← asks bundled_jar;
          match bundled with
          | Some p => mret (Jar p)
          | None => fail (JarNotFound TRIED_LIST)
          end
      end
  end.

End Launcher.
Arguments M W A : clear implicits.
End Launcher.
