(* ===== verification/LauncherFacts.v ===== *)
(** * The launcher returns, and says why

    The loops of the launcher end on any machine whose clock obeys [OsLaws];
    an accepted connection, an exit and a deadline are told apart; the tail
    of the daemon's error output is exactly its last 64 KiB. *)

From S2P Require Import Prelude Pom Effective Profile Source Xml Settings Config Loader LoaderFacts Launcher.

Module LauncherFacts.
Import Launcher.

(** ** The tail *)

(** The last [m] items of a list. *)
Definition last_n {A} (m : nat) (l : list A) : list A := drop (length l - m) l.

Lemma last_n_app {A} m (l k : list A) : last_n m (last_n m l ++ k) = last_n m (l ++ k).
Proof.
  unfold last_n. rewrite !length_app, length_drop. destruct (decide (length l <= m)) as [H|H].
  { replace (length l - m) with 0 by lia. by rewrite Nat.sub_0_r, drop_0. }
  rewrite !drop_app, !drop_drop, !length_drop. f_equal; f_equal; lia.
Qed.

(** The tail of the daemon's error output is the last 64 KiB of everything
    that it wrote, however it was cut into chunks. *)
Theorem stderr_tail_exact chunks :
  stderr_tail chunks = last_n STDERR_TAIL_CAP_BYTES (List.concat chunks) /\
  length (stderr_tail chunks) = length (List.concat chunks) `min` STDERR_TAIL_CAP_BYTES.
Proof.
  assert (E : stderr_tail chunks = last_n STDERR_TAIL_CAP_BYTES (List.concat chunks)).
  { unfold stderr_tail. set (m := STDERR_TAIL_CAP_BYTES).
    enough (forall buf, foldl append_chunk (last_n m buf) chunks = last_n m (buf ++ List.concat chunks)) as H by apply (H []).
    induction chunks as [|c chunks IH]; intros buf; cbn [foldl List.concat]; [by rewrite app_nil_r |].
    rewrite app_assoc, <- IH. f_equal. apply last_n_app. }
  split; [done |]. rewrite E. unfold last_n. rewrite length_drop. lia.
Qed.

(** ** The loops *)

Section Loops.
Context {W : Type} {OS : Os W} {OL : OsLaws W}.

Lemma connect_loop_total fuel p deadline : forall w,
  (deadline - now w <= 25 * (Z.of_nat fuel - 1))%Z -> (0 < fuel)%nat ->
  exists b w', connect_loop fuel p deadline w = Some (b, w').
Proof.
  induction fuel as [|fuel IH]; intros w Hd Hf; [lia |]. cbn [connect_loop].
  destruct (connect p w) as [[e|] w1] eqn:E; [| by eexists _, _].
  destruct (io_kind e); try by eexists _, _.
  destruct (Z.leb_spec deadline (now w1)) as [|Hlt]; [by eexists _, _ |].
  pose proof (connect_later p w) as H1. rewrite E in H1. cbn in H1.
  pose proof (sleep_lasts 25 w1 ltac:(lia)). apply IH; lia.
Qed.

(** What a connection attempt found: [true] is the state right after an
    accepted connection. *)
Definition accepted (p : path) (w' : W) : Prop := exists w0, connect p w0 = (None, w').

Lemma connect_loop_spec fuel p deadline : forall w b w',
  connect_loop fuel p deadline w = Some (b, w') ->
  (now w <= now w')%Z /\ (b = true -> accepted p w').
Proof.
  induction fuel as [|fuel IH]; intros w b w' H; cbn in H; [done |].
  pose proof (connect_later p w) as H1.
  destruct (connect p w) as [[e|] w1] eqn:E; cbn in H1; [| injection H as <- <-; split; [lia | by exists w]].
  destruct (io_kind e); try (injection H as <- <-; done).
  destruct (deadline <=? now w1)%Z; [by injection H as <- <- |].
  pose proof (sleep_lasts 25 w1 ltac:(lia)). apply IH in H as [Hn Ha]. split; [lia | done].
Qed.

Lemma socket_is_live_total p timeout w : (0 <= timeout)%Z -> exists b w', socket_is_live p timeout w = Some (b, w').
Proof.
  intros Ht. unfold socket_is_live. destruct (exists_at p w); [| by eexists _, _]. cbn.
  apply connect_loop_total; unfold connect_fuel; [| lia].
  pose proof (Z.div_mod timeout 25 ltac:(lia)). pose proof (Z.mod_pos_bound timeout 25 ltac:(lia)).
  pose proof (Z.div_pos timeout 25 ltac:(lia) ltac:(lia)). lia.
Qed.

Lemma socket_is_live_spec p timeout w b w' :
  socket_is_live p timeout w = Some (b, w') -> (now w <= now w')%Z /\ (b = true -> accepted p w').
Proof.
  unfold socket_is_live. destruct (exists_at p w); cbn; [apply connect_loop_spec |]. by intros [= <- <-].
Qed.

Lemma ready_loop_total fuel p timeout deadline pid : forall w,
  (deadline - now w <= 50 * (Z.of_nat fuel - 1))%Z -> (0 < fuel)%nat ->
  exists r w', ready_loop fuel p timeout deadline pid w = Some (r, w').
Proof.
  induction fuel as [|fuel IH]; intros w Hd Hf; [lia |]. cbn [ready_loop].
  destruct (socket_is_live_total p 100 w ltac:(lia)) as (b & w1 & E). rewrite E.
  destruct (socket_is_live_spec _ _ _ _ _ E) as [H1 _]. destruct b; [by eexists _, _ |].
  assert (K : exists r w', (if (deadline <=? now w1)%Z
      then Some (Err (SpawnTimeout p timeout (stderr_tail (stderr_chunks pid w1))), w1)
      else ready_loop fuel p timeout deadline pid (sleep 50 w1)) = Some (r, w')).
  { destruct (Z.leb_spec deadline (now w1)) as [|Hlt]; [by eexists _, _ |].
    pose proof (sleep_lasts 50 w1 ltac:(lia)). apply IH; lia. }
  destruct (try_wait pid w1) as [[status|]|e]; [by eexists _, _ | done | done].
Qed.

(** Why a wait for the daemon ends. *)
Definition ready_reason (p : path) (timeout start : Z) (pid : Z) (r : result LauncherError unit) (w' : W) : Prop :=
  match r with
  | Ok _ => accepted p w'
  | Err (CrashedAtStartup q status tail) =>
      q = p /\ exists w1, try_wait pid w1 = Ok (Some status) /\ w' = sleep 50 w1 /\ tail = stderr_tail (stderr_chunks pid w')
  | Err (SpawnTimeout q t tail) =>
      q = p /\ t = timeout /\ (start + timeout <= now w')%Z /\ (forall status, try_wait pid w' <> Ok (Some status)) /\
      tail = stderr_tail (stderr_chunks pid w')
  | Err _ => False
  end.

Lemma ready_loop_reason fuel p timeout start pid : forall w r w',
  ready_loop fuel p timeout (start + timeout) pid w = Some (r, w') -> ready_reason p timeout start pid r w'.
Proof.
  induction fuel as [|fuel IH]; intros w r w' H; cbn in H; [done |].
  destruct (socket_is_live p 100 w) as [[b w1]|] eqn:E; [| done].
  destruct (socket_is_live_spec _ _ _ _ _ E) as [_ H1].
  destruct b; [injection H as <- <-; by apply H1 |].
  destruct (try_wait pid w1) as [[status|]|e] eqn:Ew.
  - injection H as <- <-. split; [done |]. by exists w1.
  - destruct (Z.leb_spec (start + timeout) (now w1)); [| by eapply IH].
    injection H as <- <-. cbn. rewrite Ew. by split_and!.
  - destruct (Z.leb_spec (start + timeout) (now w1)); [| by eapply IH].
    injection H as <- <-. cbn. rewrite Ew. by split_and!.
Qed.

Lemma wait_total p timeout pid w : (0 <= timeout)%Z -> exists r w', wait_for_ready p timeout pid w = Some (r, w').
Proof.
  intros Ht. apply ready_loop_total; unfold ready_fuel; [| lia].
  pose proof (Z.div_mod timeout 50 ltac:(lia)). pose proof (Z.mod_pos_bound timeout 50 ltac:(lia)).
  pose proof (Z.div_pos timeout 50 ltac:(lia) ltac:(lia)). lia.
Qed.

(** The wait for a new daemon ends, whatever the daemon and the system do,
    and its result is the truth: ready only right after the daemon accepted a
    connection; crashed only when the process had exited, with the last of
    its error output; and a timeout only at or after the deadline, of a
    process that the last look did not find exited. *)
Theorem wait_for_ready_exact p timeout pid w :
  (0 <= timeout)%Z ->
  exists r w', wait_for_ready p timeout pid w = Some (r, w') /\ ready_reason p timeout (now w) pid r w'.
Proof.
  intros Ht. destruct (wait_total p timeout pid w Ht) as (r & w' & E).
  exists r, w'. split; [done |]. by eapply ready_loop_reason.
Qed.

(** ** Discovery *)

(** A computation that returns. *)
Definition returns {A} (m : M W A) : Prop := forall w, exists r w', m w = Some (r, w').

Lemma returns_bind {A B} (m : M W A) (k : A -> M W B) : returns m -> (forall a, returns (k a)) -> returns (m ≫= k).
Proof.
  intros Hm Hk w. destruct (Hm w) as ([a|e] & w' & E); unfold mbind, M_bind; rewrite E; [apply Hk | by eexists _, _].
Qed.

Lemma returns_io p f : returns (io (W := W) p f).
Proof. intros w. unfold io. destruct (f w) as [[e|] w']; by eexists _, _. Qed.

Lemma returns_ret {A} (a : A) : returns (mret a : M W A).
Proof. intros w. by eexists _, _. Qed.

Lemma returns_asks {A} (f : W -> A) : returns (asks f).
Proof. intros w. by eexists _, _. Qed.

Lemma returns_effect f : returns (effect (W := W) f).
Proof. intros w. by eexists _, _. Qed.

Lemma returns_spawn plan entry : returns (spawn_daemon plan entry).
Proof. intros w. unfold spawn_daemon. case_match; [| by eexists _, _]. case_match; case_match; by eexists _, _. Qed.

Lemma returns_live p timeout : (0 <= timeout)%Z -> returns (socket_live p timeout).
Proof. intros Ht w. unfold socket_live. destruct (socket_is_live_total p timeout w Ht) as (b & w' & ->). by eexists _, _. Qed.

Lemma returns_ensure dir : returns (ensure_socket_dir dir).
Proof.
  apply returns_bind; [apply returns_asks |]. intros []; [apply returns_ret |].
  repeat (apply returns_bind; [apply returns_io | intros _]). apply returns_io.
Qed.

Lemma returns_mvn dir goals : returns (mvn_run (W := W) dir goals).
Proof. intros w. unfold mvn_run. case_match. case_match; [case_match |]; by eexists _, _. Qed.

#[local] Hint Resolve returns_bind returns_io returns_ret returns_asks returns_effect returns_spawn
  returns_live returns_ensure returns_mvn : returns.

Lemma returns_build dir : returns (build_classpath_from_dev_dir dir).
Proof.
  unfold build_classpath_from_dev_dir. apply returns_bind; [auto with returns |]. intros cached.
  apply returns_bind.
  { destruct cached; [auto with returns |]. apply returns_bind; [apply returns_mvn |]. intros out.
    apply returns_bind; auto with returns. }
  intros resolved. apply returns_bind; [auto with returns |]. intros has_tests.
  apply returns_bind; [auto with returns |]. intros compiled.
  apply returns_bind; [| auto with returns]. destruct compiled; [auto with returns |].
  apply returns_bind; [apply returns_mvn | auto with returns].
Qed.

Lemma returns_entry cwd : returns (discover_jvm_entry (W := W) cwd).
Proof.
  unfold discover_jvm_entry. apply returns_bind; [auto with returns |]. intros [p|]; [auto with returns |].
  destruct (var_os _); [auto with returns |].
  intros w. unfold mbind, M_bind, asks, need. cbn.
  assert (exists d, barback_home cwd w = Some d) as [d ->].
  { unfold barback_home. destruct (var_os _); [by eexists |]. unfold find_barback_dev_dir.
    destruct (LoaderFacts.climb_exact (fun d => is_file_at (join (join d "barback") "pom.xml") w) (fun _ => false)
      (S (String.length cwd)) cwd ltac:(lia)) as (r & -> & _). by eexists. }
  cbn. destruct d as [d|].
  - destruct (returns_build d w) as ([cp|e] & w' & ->); by eexists _, _.
  - destruct (bundled_jar w); by eexists _, _.
Qed.

Lemma bind_inv {A B} (m : M W A) (k : A -> M W B) w b w' :
  (m ≫= k) w = Some (Ok b, w') -> exists a w1, m w = Some (Ok a, w1) /\ k a w1 = Some (Ok b, w').
Proof. unfold mbind, M_bind. intros H. destruct (m w) as [[[a|e] w1]|]; try done. by exists a, w1. Qed.

(** C32: Finding or starting a daemon ends, on any machine, when finding its entry
    point does; a handle that it gives names the socket of the plan, and is
    given right after a connection to that socket was accepted.  A child in
    it is the process that this call spawned with the arguments of the
    plan. *)
Theorem discover_or_spawn_exact plan classpath w :
  (0 <= spawn_timeout plan)%Z -> returns classpath ->
  exists r w', discover_or_spawn plan classpath w = Some (r, w') /\
  match r with
  | Ok h => h_socket_path h = socket_path plan /\ accepted (socket_path plan) w' /\
      forall pid, child h = Some pid -> exists java entry envs w1 w2,
        spawn (mkCommand java (daemon_args plan entry) envs) w1 = (Ok pid, w2)
  | Err _ => True
  end.
Proof.
  intros Ht Hc. assert (R : returns (discover_or_spawn plan classpath)).
  { unfold discover_or_spawn. apply returns_bind; [auto with returns |]. intros _.
    apply returns_bind; [apply returns_live; lia |]. intros []; [auto with returns |].
    apply returns_bind; [auto with returns |]. intros _. apply returns_bind; [done |]. intros entry.
    apply returns_bind; [auto with returns |]. intros pid. apply returns_bind; [auto with returns |]. intros _.
    apply returns_bind; [| auto with returns]. intros w0. by apply wait_total. }
  destruct (R w) as (r & w' & E). exists r, w'. split; [done |]. destruct r as [h|]; [| done].
  unfold discover_or_spawn in E. apply bind_inv in E as ([] & w1 & _ & E). apply bind_inv in E as (live & w2 & El & E).
  unfold socket_live in El. destruct (socket_is_live _ _ w1) as [[b wl]|] eqn:Es; [| done]. injection El as <- <-.
  destruct (socket_is_live_spec _ _ _ _ _ Es) as [_ Ha]. destruct b.
  { injection E as <- <-. split_and!; [done | by apply Ha | done]. }
  apply bind_inv in E as ([] & w3 & _ & E). apply bind_inv in E as (entry & w4 & _ & E).
  apply bind_inv in E as (pid & w5 & Esp & E). apply bind_inv in E as ([] & w6 & _ & E).
  apply bind_inv in E as ([] & w7 & Ew & E). injection E as <- <-.
  split_and!; [done | by apply ready_loop_reason in Ew |].
  intros ? [= <-]. unfold spawn_daemon in Esp. destruct (locate_java w4) as [java|]; [| done].
  destruct (spawn _ w4) as [[q|e] w8] eqn:Eq; [| done]. injection Esp as <- <-. by eexists _, _, _, _, _.
Qed.

End Loops.
End LauncherFacts.
