(* ===== verification/Dispatch.v ===== *)
(** * barista-cli: running the actions of a module

    The loop that verify.rs runs for one module (in [dispatch_single_module]
    and again in [dispatch_one_module_blocking]) and shot.rs for its phase:
    one request per phase, submitted through [Respawn], until one fails.
    [Thread] cuts the same loop at the points where other modules can run in
    between; alone, it does what the loop does. *)

From S2P Require Import Prelude Pom Effective Profile Source Xml Settings Config Loader LoaderFacts Launcher LauncherFacts.
From S2P Require Import ActionGraph Request Mux MuxFacts MuxStream Respawn.

Module Dispatch.
Import Launcher Respawn.

Record MojoInvocation := mkInvocation {
  i_phase : string;
  mojo : string;
  module : path;
  i_exit_code : Z;
  i_status : string;
  i_failure_message : string;
  error_code : string;
  duration_ms : Z
}.

Record VerifyReport := mkReport {
  project_root : path;
  v_phase : string;
  planned_actions : nat;
  executed_actions : nat;
  v_failed_actions : nat;
  daemon_respawns : Z;
  v_invocations : list MojoInvocation;
  v_duration_ms : Z
}.

Definition action_status_str (status : Z) : string :=
  match status with
  | 1 => "success"
  | 2 => "failure"
  | 3 => "timeout"
  | 4 => "crashed"
  | 5 => "cancelled"
  | _ => "unknown"
  end%Z.

(** The counters of the loop. *)
Record Tally := mkTally {
  invocations : list MojoInvocation;
  executed : nat;
  failed_actions : nat;
  total_respawns : Z
}.

Definition no_tally : Tally := mkTally [] 0 0 0.

Section Loop.
Context {W : Type} {OS : Os W} {DM : Daemon W}.

(** The protobuf fields of a result message. *)
Variable decode_result : Mux.Message -> Request.ActionResult.

(** One executed action; [spent] is its time. *)
Definition tally_action (action : ActionGraph.PlannedAction) (root : path) (msg : Mux.Message) (n : Z) (spent : Z)
    (t : Tally) : Tally :=
  let res := decode_result msg in
  mkTally
    (invocations t ++
     [mkInvocation (ActionGraph.phase action) (Request.res_action_id res) root (Request.exit_code res)
        (action_status_str (Request.status res)) (Request.failure_message res)
        (default "" (Request.err_code <$> Request.error res)) (Z.min (Z.max spent 0) U64_MAX)])
    (S (executed t))
    (if (Request.exit_code res =? 0)%Z then failed_actions t else S (failed_actions t))
    (u32_sat_add (total_respawns t) n).

Variable E : Type.
Variable classify : string -> RespawnError -> E.
Variable plan : LaunchPlan.
Variable entry : JvmEntry.
Variable prepare : ActionGraph.PlannedAction -> Request.ActionRequest.
Variable root : path.

Fixpoint dispatch_actions (actions : list ActionGraph.PlannedAction) (handle : DaemonHandle) (t : Tally) (w : W)
    : option (result E (Tally * DaemonHandle) * W) :=
  match actions with
  | [] => Some (Ok (t, handle), w)
  | action :: rest =>
      if (0 <? failed_actions t)%nat then Some (Ok (t, handle), w)
      else
        match submit_with_respawn plan handle entry (prepare action) w with
        | None => None
        | Some (Err e, w1) => Some (Err (classify (ActionGraph.phase action) e), w1)
        | Some (Ok (outcome, next_handle), w1) =>
            dispatch_actions rest next_handle
              (tally_action action root (r_result outcome) (respawns outcome) (now w1 - now w) t) w1
        end
  end.

(** ** The same loop in steps *)

(** Between two actions, between a crash and the respawn, between the
    respawn and the second attempt, and at the end; [started] is the time of
    the current action. *)
Inductive Thread : Type :=
  | Next (actions : list ActionGraph.PlannedAction) (handle : DaemonHandle) (t : Tally)
  | Fallen (action : ActionGraph.PlannedAction) (rest : list ActionGraph.PlannedAction) (handle : DaemonHandle)
      (t : Tally) (started : Z)
  | Again (action : ActionGraph.PlannedAction) (rest : list ActionGraph.PlannedAction) (handle : DaemonHandle)
      (t : Tally) (started : Z)
  | Finished (r : result E (Tally * DaemonHandle)).

(** An attempt that did not give a result. *)
Definition abandon (action : ActionGraph.PlannedAction) (e : RespawnError) : Thread :=
  Finished (Err (classify (ActionGraph.phase action) e)).

Definition try_action (action : ActionGraph.PlannedAction) (rest : list ActionGraph.PlannedAction)
    (handle : DaemonHandle) (t : Tally) (attempt started : Z) (w : W) : option (Thread * W) :=
  match runtime_error with
  | Some e => Some (abandon action (Ipc ("tokio runtime build: " +:+ e)), w)
  | None =>
      match run_one_attempt (h_socket_path handle) (prepare action) w with
      | None => None
      | Some (Ok o, w1) =>
          Some (Next rest handle (tally_action action root (a_result o) attempt (now w1 - started) t), w1)
      | Some (Err ACrashed, w1) =>
          Some (if (attempt =? 0)%Z then Fallen action rest handle t started
                else abandon action PersistentCrash, w1)
      | Some (Err e, w1) => Some (abandon action (surface handle e), w1)
      end
  end.

(** One step; [None] is a call that does not return, or the end. *)
Definition thread_step (th : Thread) (w : W) : option (Thread * W) :=
  match th with
  | Finished _ => None
  | Next [] handle t => Some (Finished (Ok (t, handle)), w)
  | Next (action :: rest) handle t =>
      if (0 <? failed_actions t)%nat then Some (Finished (Ok (t, handle)), w)
      else try_action action rest handle t 0 (now w) w
  | Fallen action rest handle t started =>
      match respawn plan handle entry w with
      | None => None
      | Some (Err e, w1) => Some (abandon action (RLauncher e), w1)
      | Some (Ok handle', w1) => Some (Again action rest handle' t started, w1)
      end
  | Again action rest handle t started => try_action action rest handle t 1 started w
  end.

Definition alone (x y : Thread * W) : Prop := thread_step x.1 x.2 = Some y.

(** Without others in between, the steps do what the loop does. *)
Lemma thread_alone actions : forall handle t w r w',
  dispatch_actions actions handle t w = Some (r, w') -> rtc alone (Next actions handle t, w) (Finished r, w').
Proof.
  induction actions as [|action rest IH]; intros handle t w r w' H.
  { injection H as <- <-. by apply rtc_once. }
  cbn [dispatch_actions] in H. destruct (0 <? failed_actions t)%nat eqn:Hf.
  { injection H as <- <-. apply rtc_once. unfold alone. cbn [fst snd thread_step]. by rewrite Hf. }
  unfold submit_with_respawn in H. remember 1 as one eqn:Eone. cbn [submit_with_respawn_inner] in H.
  destruct runtime_error as [d|] eqn:Er.
  { injection H as <- <-. apply rtc_once. unfold alone. cbn [fst snd thread_step]. rewrite Hf. unfold try_action. by rewrite Er. }
  destruct (run_one_attempt _ (prepare action) w) as [[[o|e] w1]|] eqn:Ea; [| | done].
  { eapply rtc_l; [| by apply IH]. unfold alone. cbn [fst snd thread_step]. rewrite Hf. unfold try_action. by rewrite Er, Ea. }
  assert (Hstep : forall th, alone (Next (action :: rest) handle t, w) (th, w1) ->
    rtc alone (th, w1) (Finished r, w') -> rtc alone (Next (action :: rest) handle t, w) (Finished r, w')).
  { intros th H1 H2. by eapply rtc_l. }
  destruct e; try (injection H as <- <-; apply rtc_once; unfold alone; cbn [fst snd thread_step]; rewrite Hf; unfold try_action; by rewrite Er, Ea); [].
  apply (Hstep (Fallen action rest handle t (now w))).
  { unfold alone. cbn [fst snd thread_step]. rewrite Hf. unfold try_action. by rewrite Er, Ea. }
  cbn [Z.eqb] in H. destruct (respawn plan handle entry w1) as [[[h|e] w2]|] eqn:Es; [| | done].
  2: { injection H as <- <-. apply rtc_once. unfold alone. cbn [fst snd thread_step]. by rewrite Es. }
  eapply rtc_l; [unfold alone; cbn [fst snd thread_step]; by rewrite Es |].
  subst one. cbn [submit_with_respawn_inner] in H. rewrite Er in H.
  destruct (run_one_attempt (h_socket_path h) (prepare action) w2) as [[[o|e] w3]|] eqn:Ea2; [| | done].
  { eapply rtc_l; [| by apply IH]. unfold alone. cbn [fst snd thread_step]. unfold try_action. by rewrite Er, Ea2. }
  destruct e; cbn in H; injection H as <- <-; apply rtc_once; unfold alone; cbn [fst snd thread_step]; unfold try_action; by rewrite Er, Ea2.
Qed.

(** ** What a run did *)

(** The counters after the first actions of the module at [root] ran: all of
    them with exit code 0, but the last one when it failed. *)
Record counted (actions : list ActionGraph.PlannedAction) (t : Tally) : Prop := mkCounted {
  c_executed : executed t = length (invocations t);
  c_phases : i_phase <$> invocations t = take (executed t) (ActionGraph.phase <$> actions);
  c_length : executed t <= length actions;
  c_module : Forall (fun i => module i = root) (invocations t);
  c_failed : if (0 <? failed_actions t)%nat
    then failed_actions t = 1 /\ exists front last,
      invocations t = front ++ [last] /\ Forall (fun i => i_exit_code i = 0%Z) front /\ i_exit_code last <> 0%Z
    else Forall (fun i => i_exit_code i = 0%Z) (invocations t)
}.

Lemma counted_start actions : counted actions no_tally.
Proof. split; cbn; [done | done | lia | constructor | constructor]. Qed.

(** One more action. *)
Lemma counted_snoc actions action rest t msg n spent :
  counted (actions ++ action :: rest) t -> executed t = length actions -> failed_actions t = 0 ->
  counted (actions ++ action :: rest) (tally_action action root msg n spent t).
Proof.
  intros [He Hp Hl Hm Hf] Ea Hf0. rewrite Hf0 in Hf. cbn in Hf.
  split; cbn [tally_action executed invocations failed_actions].
  - rewrite length_app. cbn. lia.
  - rewrite fmap_app, Hp, fmap_app, fmap_cons, Ea. rewrite !take_app_ge by (rewrite ?length_fmap; lia).
    rewrite length_fmap. replace (length actions - length actions) with 0 by lia.
    replace (S (length actions) - length actions) with 1 by lia. cbn. by rewrite take_0, app_nil_r.
  - rewrite length_app in *. cbn in *. lia.
  - apply Forall_app. split; [done |]. by constructor.
  - rewrite Hf0. destruct (Request.exit_code (decode_result msg) =? 0)%Z eqn:Ex; cbn.
    + apply Forall_app. split; [done |]. constructor; [cbn; lia | done].
    + split; [done |]. eexists _, _. split; [done |]. split; [done |]. cbn. lia.
Qed.

(** The counters of a thread, wherever it stands. *)
Definition thread_counted (all : list ActionGraph.PlannedAction) (th : Thread) : Prop :=
  match th with
  | Next rest _ t => exists front, all = front ++ rest /\ counted all t /\ executed t = length front
  | Fallen action rest _ t _ | Again action rest _ t _ => exists front,
      all = front ++ action :: rest /\ counted all t /\ executed t = length front /\ failed_actions t = 0
  | Finished (Ok (t, _)) => counted all t /\ (failed_actions t = 0 -> executed t = length all)
  | Finished (Err _) => True
  end.

Lemma try_counted all action rest handle t attempt started w th w' front :
  all = front ++ action :: rest -> counted all t -> executed t = length front -> failed_actions t = 0 ->
  try_action action rest handle t attempt started w = Some (th, w') -> thread_counted all th.
Proof.
  intros -> Hc He Hf H. unfold try_action in H. destruct runtime_error; [by injection H as <- <- |].
  destruct (run_one_attempt _ _ w) as [[[o|e] w1]|]; [| | done].
  - injection H as <- <-. exists (front ++ [action]). rewrite <- app_assoc, length_app. cbn.
    split_and!; [done | by apply counted_snoc | lia].
  - destruct e; try by injection H as <- <-.
    destruct (attempt =? 0)%Z; injection H as <- <-; [| done]. by exists front.
Qed.

Lemma thread_keeps_count all th w th' w' :
  thread_counted all th -> thread_step th w = Some (th', w') -> thread_counted all th'.
Proof.
  intros Hc H. destruct th as [[|action rest] handle t|action rest handle t st|action rest handle t st|r];
    cbn [thread_step] in H; [| | | | done].
  - injection H as <- <-. destruct Hc as (front & -> & Hc & He). rewrite app_nil_r in Hc. split; rewrite app_nil_r; done.
  - destruct Hc as (front & Eall & Hc & He). destruct (Nat.ltb_spec 0 (failed_actions t)).
    + injection H as <- <-. split; [done | lia].
    + eapply try_counted; [exact Eall | done | done | lia | exact H].
  - destruct (respawn plan handle entry w) as [[[h|e] w1]|]; [| | done]; injection H as <- <-; done.
  - destruct Hc as (front & Eall & Hc & He & Hf). by eapply try_counted.
Qed.

Context {OL : OsLaws W} {LG : Logged W}.

(** The requests that were answered, one after the other from the handle
    [h0] and the state [w0]: how often each was submitted, its answer, and the
    handle and the state after it. *)
Inductive chain (h0 : DaemonHandle) (w0 : W) : list Request.ActionRequest -> list nat -> list AttemptOutcome ->
    DaemonHandle -> W -> Prop :=
  | chain_nil : chain h0 w0 [] [] [] h0 w0
  | chain_snoc rs ks os h w r k o h' w' :
      chain h0 w0 rs ks os h w -> delivered plan entry h r w k o h' w' ->
      chain h0 w0 (rs ++ [r]) (ks ++ [k]) (os ++ [o]) h' w'.

(** The exit code of an answer. *)
Definition exit_of (o : AttemptOutcome) : Z := Request.exit_code (decode_result (a_result o)).

(** What the first actions of a module left, each submitted as often as
    [tries] says. *)
Record ran (actions : list ActionGraph.PlannedAction) (t : Tally) (tries : list nat) (os : list AttemptOutcome)
    (h0 : DaemonHandle) (w0 : W) (h : DaemonHandle) (w : W) : Prop := mkRan {
  ran_counted : counted actions t;
  ran_length : executed t = length tries;
  ran_chain : chain h0 w0 (prepare <$> take (executed t) actions) tries os h w;
  ran_exits : i_exit_code <$> invocations t = exit_of <$> os;
  ran_sent : sent w = sent w0 ++ List.concat (zip_with replicate tries (prepare <$> take (executed t) actions));
  ran_respawns : total_respawns t = Z.min (Z.of_nat (sum_list tries - length tries)) U32_MAX
}.

Lemma ran_start actions h w : ran actions no_tally [] [] h w h w.
Proof. split; cbn; [apply counted_start | done | rewrite take_0; constructor | done | by rewrite app_nil_r | done]. Qed.

Lemma chain_tries h0 w0 rs ks os h w : chain h0 w0 rs ks os h w -> Forall (fun k => 1 <= k <= 2) ks.
Proof.
  induction 1 as [|rs ks os h w r k o h' w' _ IH Hd]; [constructor |]. apply Forall_app. split; [done |].
  constructor; [| constructor]. destruct Hd as [(-> & _)|(-> & _)]; lia.
Qed.

Lemma chain_length h0 w0 rs ks os h w : chain h0 w0 rs ks os h w -> length ks = length rs.
Proof. induction 1 as [|rs ks os h w r k o h' w' _ IH _]; [done |]. rewrite !length_app. cbn. lia. Qed.

Lemma ran_snoc actions action rest t tries os h0 w0 h w k o h' w' spent :
  ran (actions ++ action :: rest) t tries os h0 w0 h w -> executed t = length actions -> failed_actions t = 0 ->
  delivered plan entry h (prepare action) w k o h' w' -> sent w' = sent w ++ replicate k (prepare action) ->
  ran (actions ++ action :: rest) (tally_action action root (a_result o) (Z.of_nat k - 1) spent t)
    (tries ++ [k]) (os ++ [o]) h0 w0 h' w'.
Proof.
  intros [Hc Hl Hch Hx Hs Hr] Ea Hf0 Hd H2.
  assert (Hk : 1 <= k <= 2) by (destruct Hd as [(-> & _)|(-> & _)]; lia).
  assert (Hsum : length tries <= sum_list tries).
  { pose proof (chain_tries _ _ _ _ _ _ _ Hch) as Ht. clear -Ht. induction Ht as [|x tries Hx _ IH]; cbn; lia. }
  assert (Htake : prepare <$> take (S (executed t)) (actions ++ action :: rest)
    = (prepare <$> take (executed t) (actions ++ action :: rest)) ++ [prepare action]).
  { replace (S (executed t)) with (length actions + 1) by lia. rewrite Ea, take_app_add, take_app_length. cbn [take].
    by rewrite fmap_app. }
  split; cbn [tally_action executed total_respawns invocations].
  - by apply counted_snoc.
  - rewrite length_app. cbn. lia.
  - rewrite Htake. by eapply chain_snoc.
  - by rewrite !fmap_app, Hx.
  - rewrite Htake, H2, Hs, <- app_assoc. f_equal.
    rewrite zip_with_app, concat_app; [cbn; by rewrite app_nil_r |].
    rewrite length_fmap, length_take, length_app. cbn. lia.
  - rewrite Hr, length_app, sum_list_with_app. unfold u32_sat_add, U32_MAX. cbn. lia.
Qed.

Lemma dispatch_ran rest : forall actions handle t tries os h0 w0 w r w',
  ran (actions ++ rest) t tries os h0 w0 handle w -> executed t = length actions ->
  dispatch_actions rest handle t w = Some (r, w') ->
  match r with
  | Ok (t', h') => exists tries' os', ran (actions ++ rest) t' tries' os' h0 w0 h' w' /\
      (failed_actions t' = 0 -> executed t' = length (actions ++ rest))
  | Err e => exists t' tries' os' h2 w2 action e' k, ran (actions ++ rest) t' tries' os' h0 w0 h2 w2 /\
      failed_actions t' = 0 /\ (actions ++ rest) !! executed t' = Some action /\
      e = classify (ActionGraph.phase action) e' /\ given_up plan entry h2 (prepare action) w2 k e' w' /\
      sent w' = sent w2 ++ replicate k (prepare action)
  end.
Proof.
  induction rest as [|action rest IH]; intros actions handle t tries os h0 w0 w r w' Hr Ea H; cbn [dispatch_actions] in H.
  { injection H as <- <-. exists tries, os. split; [done |]. rewrite app_nil_r. lia. }
  destruct (Nat.ltb_spec 0 (failed_actions t)) as [Hf|Hf].
  { injection H as <- <-. exists tries, os. split; [done | lia]. }
  destruct (submit_with_respawn _ _ _ _ w) as [[[[oc h]|e] w2]|] eqn:Es; [| | done];
    apply submit_cases in Es as (k & Hs & Hk).
  - destruct Hk as (o & Hd & ->). cbn [r_result respawns] in H.
    replace (actions ++ action :: rest) with ((actions ++ [action]) ++ rest) in * by (by rewrite <- app_assoc).
    eapply (IH (actions ++ [action])); [| | exact H].
    + rewrite <- app_assoc in *. eapply ran_snoc; [done | done | lia | done | done].
    + cbn. rewrite length_app. cbn. lia.
  - injection H as <- <-. exists t, tries, os, handle, w, action, e, k. split_and!; try done; [lia |].
    rewrite Ea. by apply list_lookup_middle.
Qed.

End Loop.

Arguments dispatch_actions {W OS DM} decode_result {E}.
Arguments chain {W OS DM}.
End Dispatch.
