(* ===== verification/NoDaemon.v ===== *)
(** * barista-cli: a lifecycle phase with the system's Maven

    Models crates/barista-cli/src/cmd/no_daemon.rs: the search for [mvn], the
    command line, and the exit code that is passed through.  The process is a
    parameter ([Spawner] in the code). *)

From S2P Require Import Prelude Version Coords VersionSpec Pom Effective Profile Source Xml Settings Config Loader LoaderFacts.
From S2P Require Import Cas SortBy Lockfile LockfileFacts ActionGraph Request CiRepro.

Module NoDaemon.

Abbreviation path := Config.path.

Definition EXIT_MVN_NOT_FOUND : Z := 2.

(** The flags of the command line that the lifecycle commands read. *)
Record Flags := mkFlags {
  f_root : option path;
  f_file : option path;
  no_daemon : bool;
  ci : bool;
  quiet : bool;
  verbose : Z;
  no_color : bool
}.

Inductive SpawnOutcome : Type := Exited (code : Z) | Signal.

Inductive ResolveMvnError : Type := MvnNotFound (tried_maven_home : option path).

Definition resolve_mvn (var : string -> option string) (is_file : path -> bool) (which_mvn : option path)
    : result ResolveMvnError path :=
  let maven_home := var "MAVEN_HOME" in
  match home ← maven_home; let candidate := Profile.join (Profile.join home "bin") "mvn" in
        if is_file candidate then Some candidate else None with
  | Some candidate => Ok candidate
  | None => ok_or which_mvn (MvnNotFound maven_home)
  end.

Definition resolve_working_dir (flags : Flags) (is_dir : path -> bool) (current_dir : option path) : path :=
  let fallback := default "." current_dir in
  match f_root flags, f_file flags with
  | Some root, _ => root
  | None, Some file =>
      if is_dir file then file
      else match Path.parent file with Some p => p | None => fallback end
  | None, None => fallback
  end.

(** The flags that become Maven's. *)
Definition mvn_flags (flags : Flags) : list string :=
  (if quiet flags then ["-q"] else if (2 <=? verbose flags)%Z then ["-X"] else [])
  ++ (if no_color flags then ["-B"] else []).

Definition build_mvn_argv (flags : Flags) (phase : ActionGraph.MavenPhase) (args : list string) : list string :=
  mvn_flags flags ++ [ActionGraph.as_str phase] ++ args.

Definition starts_with (prefix s : string) : bool :=
  match str_strip_prefix prefix s with Some _ => true | None => false end.

(** The properties of the seed in the order of their keys, without those that
    an argument already sets. *)
Definition seed_args (args : list string) (props : gmap string string) : list string :=
  omap (fun k =>
    let prefix := "-D" +:+ k +:+ "=" in
    if existsb (starts_with prefix) args then None
    else (fun v => prefix +:+ v) <$> props !! k) (SortBy.sort_by_key id (map_to_list props).*1).

Definition build_mvn_argv_with_ci (flags : Flags) (phase : ActionGraph.MavenPhase) (args : list string)
    (seed : CiRepro.ReproducibilitySeed) : list string :=
  mvn_flags flags ++ seed_args args (CiRepro.seed_properties seed) ++ [ActionGraph.as_str phase] ++ args.

Section Dispatch.
Variable var : string -> option string.
Variable is_file is_dir : path -> bool.
Variable which_mvn current_dir : option path.
Variable git_log : string -> option (bool * string).
(** A program with its arguments, directory and extra environment; [None] is
    a failure to start it. *)
Variable run_process : path -> list string -> path -> gmap string string -> option SpawnOutcome.

(** [RealSpawner]. *)
Definition real_spawn (mvn : path) (argv : list string) (dir : path) (env : gmap string string) : SpawnOutcome :=
  default (Exited EXIT_MVN_NOT_FOUND) (run_process mvn argv dir env).

Definition dispatch_with (flags : Flags) (phase : ActionGraph.MavenPhase) (args : list string) : Z :=
  match resolve_mvn var is_file which_mvn with
  | Err _ => EXIT_MVN_NOT_FOUND
  | Ok mvn =>
      let working_dir := resolve_working_dir flags is_dir current_dir in
      let '(argv, env) :=
        if ci flags then
          let seed := CiRepro.build_seed git_log working_dir var in
          (build_mvn_argv_with_ci flags phase args seed, CiRepro.env seed)
        else (build_mvn_argv flags phase args, ∅) in
      match real_spawn mvn argv working_dir env with
      | Exited code => code
      | Signal => 1%Z
      end
  end.

End Dispatch.

(** ** Properties *)

Definition TIMESTAMP : string := "project.build.outputTimestamp".

(** Under [--ci] the command line is the plain one with the timestamp of the
    seed before the phase, unless an argument sets that property: then it is
    the plain one. *)
Theorem ci_argv_exact git_log root var flags phase args :
  let seed := CiRepro.build_seed git_log root var in
  exists iso, CiRepro.seed_properties seed !! TIMESTAMP = Some iso /\
  build_mvn_argv_with_ci flags phase args seed =
    if existsb (starts_with ("-D" +:+ TIMESTAMP +:+ "=")) args then build_mvn_argv flags phase args
    else mvn_flags flags ++ ["-D" +:+ TIMESTAMP +:+ "=" +:+ iso] ++ [ActionGraph.as_str phase] ++ args.
Proof.
  cbn zeta. unfold CiRepro.build_seed. destruct (CiRepro.resolve_source_date_epoch _ _ _) as [epoch source].
  cbn [CiRepro.seed_properties]. set (iso := CiRepro.format_iso8601_utc _). exists iso.
  split; [apply lookup_insert_eq |]. unfold build_mvn_argv_with_ci, build_mvn_argv. cbn [CiRepro.seed_properties].
  assert (E : seed_args args (<[TIMESTAMP := iso]> ∅)
    = if existsb (starts_with ("-D" +:+ TIMESTAMP +:+ "=")) args then [] else ["-D" +:+ TIMESTAMP +:+ "=" +:+ iso]).
  { unfold seed_args. rewrite insert_empty, map_to_list_singleton.
    change (SortBy.sort_by_key id [(TIMESTAMP, iso)].*1) with [TIMESTAMP]. cbn [omap list_omap].
    rewrite lookup_singleton_eq. by destruct (existsb _ args). }
  fold TIMESTAMP. rewrite E. by destruct (existsb _ args).
Qed.

End NoDaemon.
