(* ===== verification/Verify.v ===== *)
(** * barista-cli: the lifecycle commands

    Models crates/barista-cli/src/cmd/verify.rs: a lifecycle phase from the
    flags to the exit code.  The project, the configuration and the pour are
    those of [Project], [Loader] and [Pour], the modules those of [Reactor];
    the daemon is started by [Launcher] and each action is submitted through
    [Respawn].

    The state is that of the cache and the mirror ([Pull.State]) and that of
    the machine.  The modules of one level run as tasks with a thread each:
    the steps of the threads ([Dispatch.thread_step]) interleave in any order,
    and the result is a relation.  A thread may panic between two steps, and
    the task around it may be lost while its thread does not run.  The
    semaphore only holds threads back, so every schedule that it allows is
    among these. *)

From S2P Require Import Prelude Version Coords VersionSpec Pom Xml PomXml Effective Profile Source Skipper.
From S2P Require Import Oreq Walker Cas Journal Index MetadataXml Fetch CacheSource Settings Config Loader.
From S2P Require Import LoaderFacts Project M2 SortBy Lockfile LockfileFacts LockStore Pull PullFacts Pour Gc Workers.
From S2P Require Import Mux MuxFacts MuxStream ActionGraph Reactor Request CiRepro NoDaemon Launcher LauncherFacts.
From S2P Require Import Respawn Dispatch.

Module Verify.
Import Dispatch.
#[local] Existing Instance Launcher.M_bind.
#[local] Existing Instance Launcher.M_ret.

Abbreviation path := Config.path.
Abbreviation LaunchPlan := Launcher.LaunchPlan.
Abbreviation DaemonHandle := Launcher.DaemonHandle.

(** ** Errors and exit codes; a [detail] is carried as its cause *)

Inductive VerifyError : Type :=
  | VProject (e : Project.ResolveError)
  | VConfig (e : Loader.LoaderError)
  | VWorkers (e : Workers.WorkersError)
  | VWorkersRuntime (detail : string)
  | VLauncher (e : Launcher.LauncherError)
  | VPour (e : Pour.PourError)
  | DaemonConnect (phase : string) (socket : path) (source : IoError)
  | VIpc (phase detail : string)
  | DaemonError (phase code message : string)
  | DeployAuthEncrypted (server_id : string)
  | VPersistentCrash (phase : string)
  | VPrematureClose (phase : string)
  | VReactor (e : Reactor.ReactorError).

Definition AUTH_PREFIX : string := "BAR-DEPLOY-AUTH-".

Definition exit_code (e : VerifyError) : Z :=
  match e with
  | VProject _ | VConfig _ | VWorkers _ | VWorkersRuntime _ | VPour _ | VReactor _ => 2
  | DeployAuthEncrypted _ => 3
  | DaemonError _ code _ => if NoDaemon.starts_with AUTH_PREFIX code then 3 else 1
  | VLauncher _ | DaemonConnect _ _ _ | VIpc _ _ | VPersistentCrash _ | VPrematureClose _ => 1
  end.

Definition classify_respawn_error (phase : string) (e : Respawn.RespawnError) : VerifyError :=
  match e with
  | Respawn.RLauncher le => VLauncher le
  | Respawn.PersistentCrash => VPersistentCrash phase
  | Respawn.Connect socket source => DaemonConnect phase socket source
  | Respawn.Ipc detail => VIpc phase detail
  | Respawn.DaemonProtocolError code message => DaemonError phase code message
  | Respawn.PrematureClose => VPrematureClose phase
  end.

(** [run_phase] after the dispatch: whether the report is rendered, and the
    output flushed. *)
Definition phase_exit (r : result VerifyError VerifyReport) (rendered flushed : bool) : Z :=
  match r with
  | Ok report =>
      if negb rendered then 1
      else if negb flushed then 1
      else if (0 <? v_failed_actions report)%nat then
        if existsb (fun i => NoDaemon.starts_with AUTH_PREFIX (error_code i)) (v_invocations report) then 3 else 1
      else 0
  | Err e => if flushed then exit_code e else 1
  end.

(** ** Credentials *)

(** Servers without an id are left out; an encrypted password is refused. *)
Fixpoint build_credentials (servers : list Settings.Server) : result VerifyError (list Request.Credential) :=
  match servers with
  | [] => Ok []
  | server :: servers' =>
      if is_empty (Settings.sv_id server) then build_credentials servers'
      else
        secret ← match Settings.sv_password server with
                 | None => Ok None
                 | Some pw =>
                     match Settings.decrypt_password pw with
                     | Some plain => Ok (Some (Request.Password plain))
                     | None => Err (DeployAuthEncrypted (Settings.sv_id server))
                     end
                 end;
        rest ← build_credentials servers';
        Ok (Request.mkCredential (Settings.sv_id server) (default "" (Settings.sv_username server)) secret :: rest)
  end.

Definition build_deploy_credentials (config : Config.Config) : result VerifyError Request.CredentialsEnvelope :=
  Request.mkEnvelope <$> build_credentials (Settings.servers (Config.maven_settings config)).

(** ** Settings of the daemon *)

Definition DEFAULT_WORKERS_EXPR : string := "1C".
Definition DEFAULT_RUN_DIR_LEAF : string := ".barista/run".

Definition resolve_workers_from_config (var : string -> option string) (cores : option Z) : result VerifyError Z :=
  map_err VWorkers
    (Workers.resolve_workers (default DEFAULT_WORKERS_EXPR (var "BARISTA_DAEMON_WORKERS"))
       (Workers.available_parallelism_or_one cores)).

Definition resolve_socket_dir (home : option path) (config : Config.Config) : path :=
  let raw := Config.socket_dir (Config.daemon config) in
  match str_strip_prefix "~/" raw, home with
  | Some rest, Some h => Profile.join h rest
  | _, _ =>
      match home with
      | Some h => if String.eqb raw "~" || String.eqb raw "~/" then Profile.join h DEFAULT_RUN_DIR_LEAF else raw
      | None => raw
      end
  end.

(** ** Requests *)

(** A request of a lifecycle: the credentials go to the deploy action, the
    seed to every one. *)
Definition finish_request (action : ActionGraph.PlannedAction) (creds : option Request.CredentialsEnvelope)
    (seed : option CiRepro.ReproducibilitySeed) (request : Request.ActionRequest) : Request.ActionRequest :=
  let r1 := match creds with
            | Some env => if String.eqb (ActionGraph.phase action) "deploy" then Request.set_credentials env request else request
            | None => request
            end in
  match seed with Some sd => CiRepro.apply_to_request sd r1 | None => r1 end.

Definition single_request (graph : ActionGraph.ActionGraph) (project_root : path)
    (creds : option Request.CredentialsEnvelope) (seed : option CiRepro.ReproducibilitySeed)
    (action : ActionGraph.PlannedAction) : Request.ActionRequest :=
  finish_request action creds seed (Request.build_action_request graph action project_root).

Definition module_request (m : Reactor.ModuleNode) (project_root : path)
    (creds : option Request.CredentialsEnvelope) (seed : option CiRepro.ReproducibilitySeed)
    (action : ActionGraph.PlannedAction) : Request.ActionRequest :=
  finish_request action creds seed
    (Request.set_project_root (Reactor.root m) (Request.build_action_request (Reactor.action_graph m) action project_root)).

(** Everything decided before the first action. *)
Record Job := mkJob {
  j_root : path;
  j_reactor : Reactor.Reactor;
  j_creds : option Request.CredentialsEnvelope;
  j_seed : option CiRepro.ReproducibilitySeed;
  j_plan : LaunchPlan;
  j_entry : Launcher.JvmEntry;
  j_handle : DaemonHandle
}.

Section Verify.
Context `{Q : Xml.QuickXml} `{Env : Environment} `{FS : FileSystem} `{R : Loader.ConfigReader}.
Context `{PF : Project.ProjectFiles} `{MT : ModuleTree}.
Context {W : Type} {OS : Os W} {DM : Daemon W}.
Variable host : Pull.Host.
Variable decode_result : Mux.Message -> Request.ActionResult.
Variable git_log : string -> option (bool * string).
Variable cores : option Z.
Variable current_dir : option path.
(** The error of building the runtime of the reactor, if it cannot be. *)
Variable reactor_runtime : option string.
(** Fuel of the recursion over [<modules>]. *)
Variable depth : nat.

Definition St : Type := Pull.State * W.

(** *** One module *)

Definition dispatch_single_module (job : Job) (graph : ActionGraph.ActionGraph) (w : W)
    : option (result VerifyError (Tally * DaemonHandle) * W) :=
  dispatch_actions decode_result classify_respawn_error (j_plan job) (j_entry job)
    (single_request graph (j_root job) (j_creds job) (j_seed job)) (ActionGraph.module_root graph)
    (ActionGraph.actions graph) (j_handle job) no_tally w.

(** A module of several connects afresh. *)
Definition dispatch_one_module_blocking (job : Job) (m : Reactor.ModuleNode) (w : W)
    : option (result VerifyError (Tally * DaemonHandle) * W) :=
  dispatch_actions decode_result classify_respawn_error (j_plan job) (j_entry job)
    (module_request m (j_root job) (j_creds job) (j_seed job)) (Reactor.root m)
    (ActionGraph.actions (Reactor.action_graph m)) (Launcher.mkHandle (Launcher.socket_path (j_plan job)) None) no_tally w.

(** *** Several modules *)

Abbreviation Thread := (Thread VerifyError).

Definition module_thread (job : Job) (m : Reactor.ModuleNode) : Thread :=
  Next VerifyError (ActionGraph.actions (Reactor.action_graph m))
    (Launcher.mkHandle (Launcher.socket_path (j_plan job)) None) no_tally.

Definition module_step (job : Job) (m : Reactor.ModuleNode) (th : Thread) (w : W) : option (Thread * W) :=
  thread_step decode_result VerifyError classify_respawn_error (j_plan job) (j_entry job)
    (module_request m (j_root job) (j_creds job) (j_seed job)) (Reactor.root m) th w.

(** The task of a module: its thread, a thread that panicked, a task whose
    handle gives a [JoinError]. *)
Inductive Task : Type :=
  | Running (th : Thread)
  | Panicked (detail : string)
  | Lost.

(** What a task hands over: a panic of its thread is an error. *)
Definition outcome (tk : Task) : option (result VerifyError Tally) :=
  match tk with
  | Running (Finished _ r) => Some (fst <$> r)
  | Running _ => None
  | Panicked detail => Some (Err (VIpc "reactor" detail))
  | Lost => None
  end.

Definition is_lost (tk : Task) : bool := match tk with Lost => true | _ => false end.

(** [handle.await] returns. *)
Definition joined (tk : Task) : Prop := is_Some (outcome tk) \/ tk = Lost.

(** The tasks of a level, by the index of their module. *)
Definition start_level (job : Job) (level : list nat) : gmap nat Task :=
  list_to_map (omap (fun i => (fun m => (i, Running (module_thread job m))) <$> Reactor.modules (j_reactor job) !! i) level).

(** A task is lost before its thread has started, or after it ended. *)
Inductive pool_step (job : Job) : gmap nat Task * W -> gmap nat Task * W -> Prop :=
  | pool_run pool w i m th th' w' :
      pool !! i = Some (Running th) -> Reactor.modules (j_reactor job) !! i = Some m ->
      module_step job m th w = Some (th', w') ->
      pool_step job (pool, w) (<[i := Running th']> pool, w')
  | pool_panic pool w i th detail :
      pool !! i = Some (Running th) -> outcome (Running th) = None ->
      pool_step job (pool, w) (<[i := Panicked detail]> pool, w)
  | pool_lost pool w i m tk :
      pool !! i = Some tk -> Reactor.modules (j_reactor job) !! i = Some m ->
      tk = Running (module_thread job m) \/ is_Some (outcome tk) ->
      pool_step job (pool, w) (<[i := Lost]> pool, w).

Definition module_failed (r : result VerifyError Tally) : bool :=
  match r with Ok t => (0 <? failed_actions t)%nat | Err _ => true end.

Definition aborted (results : gmap nat (result VerifyError Tally)) : bool :=
  existsb (fun x => module_failed x.2) (map_to_list results).

Definition any_lost (pool : gmap nat Task) : bool := existsb (fun x => is_lost x.2) (map_to_list pool).

(** The level has run: every task is joined, and a lost one leaves no
    result. *)
Inductive level_runs (job : Job) (level : list nat) (w : W)
    : gmap nat (result VerifyError Tally) -> bool -> W -> Prop :=
  | level_ran pool w' :
      rtc (pool_step job) (start_level job level, w) (pool, w') ->
      map_Forall (fun _ tk => joined tk) pool ->
      level_runs job level w (omap outcome pool) (any_lost pool) w'.

(** The loop over the levels: it stops after one in which a module failed or
    a task was lost, which [lost] says. *)
Inductive levels_run (job : Job) : list (list nat) -> W -> gmap nat (result VerifyError Tally) -> bool -> W -> Prop :=
  | levels_done w : levels_run job [] w ∅ false w
  | levels_abort level rest w results lost w' :
      level_runs job level w results lost w' -> aborted results || lost = true ->
      levels_run job (level :: rest) w results lost w'
  | levels_next level rest w results lost w1 results' lost' w2 :
      level_runs job level w results lost w1 -> aborted results || lost = false -> levels_run job rest w1 results' lost' w2 ->
      levels_run job (level :: rest) w (results' ∪ results) lost' w2.

Definition add_tally (t u : Tally) : Tally :=
  mkTally (invocations t ++ invocations u) (executed t + executed u) (failed_actions t + failed_actions u)
    (u32_sat_add (total_respawns t) (total_respawns u)).

(** The outcomes in the order of the modules; the first error ends it. *)
Fixpoint aggregate (outcomes : list (result VerifyError Tally)) (t : Tally) : result VerifyError Tally :=
  match outcomes with
  | [] => Ok t
  | Ok u :: outcomes' => aggregate outcomes' (add_tally t u)
  | Err e :: _ => Err e
  end.

Definition dispatch_reactor_modules (job : Job) (results : gmap nat (result VerifyError Tally)) : result VerifyError Tally :=
  aggregate (omap (fun i => results !! i) (seq 0 (length (Reactor.modules (j_reactor job))))) no_tally.

(** *** The command *)

Definition pull_flags (flags : NoDaemon.Flags) : Pull.GlobalFlags :=
  Pull.mkGlobal (NoDaemon.f_root flags) (NoDaemon.f_file flags) false false.

Definition pour_args : Pour.PourArgs := Pour.mkPourArgs Pull.SCompile None false.

(** [pour], but for [clean]. *)
Definition pour_step (flags : NoDaemon.Flags) (phase : ActionGraph.MavenPhase) (s : Pull.State)
    : option (result VerifyError unit * Pull.State) :=
  match phase with
  | ActionGraph.Clean => Some (Ok tt, s)
  | _ => (fun '(r, s') => (map_err VPour ((fun _ => tt) <$> r), s')) <$> Pour.run_inner host (pull_flags flags) pour_args s
  end.

(** The credentials that a phase sends. *)
Definition phase_credentials (phase : ActionGraph.MavenPhase) (config : Config.Config)
    : result VerifyError (option Request.CredentialsEnvelope) :=
  match phase with
  | ActionGraph.Deploy => Some <$> build_deploy_credentials config
  | _ => Ok None
  end.

Definition ci_seed (flags : NoDaemon.Flags) (root : path) : option CiRepro.ReproducibilitySeed :=
  if NoDaemon.ci flags then Some (CiRepro.build_seed git_log root var_os) else None.

(** The daemon for a job. *)
Definition start_daemon (plan : LaunchPlan) (cwd : path) : Launcher.M W (Launcher.JvmEntry * DaemonHandle) :=
  entry ← Launcher.discover_jvm_entry cwd;
  handle ← Launcher.discover_or_spawn plan (mret entry);
  mret (entry, handle).

(** [dispatch_lifecycle] up to its first action; [args] are not read. *)
Definition prepare_job (flags : NoDaemon.Flags) (phase : ActionGraph.MavenPhase) (args : list string) (st : St)
    : option (result VerifyError Job * St) :=
  let '(s, w) := st in
  match Project.resolve_project_root (Project.flags (NoDaemon.f_root flags) (NoDaemon.f_file flags)) with
  | None => None
  | Some (Err e) => Some (Err (VProject e), st)
  | Some (Ok root) =>
      let dir := Project.root root in
      match Loader.load_effective_config (Pull.loader_inputs dir) with
      | None => None
      | Some (Err e) => Some (Err (VConfig e), st)
      | Some (Ok (config, _)) =>
          match pour_step flags phase s with
          | None => None
          | Some (Err e, s1) => Some (Err e, (s1, w))
          | Some (Ok _, s1) =>
              match Reactor.from_project_root depth dir phase false with
              | None => None
              | Some (Err e) => Some (Err (VReactor e), (s1, w))
              | Some (Ok reactor) =>
                  match phase_credentials phase config with
                  | Err e => Some (Err e, (s1, w))
                  | Ok creds =>
                      match resolve_workers_from_config var_os cores with
                      | Err e => Some (Err e, (s1, w))
                      | Ok n =>
                          let plan := Launcher.new_plan (resolve_socket_dir (var_os "HOME") config) n
                                        (Config.idle_shutdown_secs (Config.daemon config)) in
                          match start_daemon plan (default dir current_dir) w with
                          | None => None
                          | Some (Err e, w1) => Some (Err (VLauncher e), (s1, w1))
                          | Some (Ok (entry, handle), w1) =>
                              Some (Ok (mkJob dir reactor creds (ci_seed flags dir) plan entry handle), (s1, w1))
                          end
                      end
                  end
              end
          end
      end
  end.

Definition planned (reactor : Reactor.Reactor) : nat :=
  sum_list_with (fun m => length (ActionGraph.actions (Reactor.action_graph m))) (Reactor.modules reactor).

Definition make_report (job : Job) (phase : ActionGraph.MavenPhase) (t : Tally) (spent : Z) : VerifyReport :=
  mkReport (j_root job) (ActionGraph.as_str phase) (planned (j_reactor job)) (executed t) (failed_actions t)
    (total_respawns t) (invocations t) (Z.min (Z.max spent 0) U64_MAX).

(** The command, as a relation: [r] and the state after it are one of its
    outcomes; [lost] says whether the task of a module was lost. *)
Inductive dispatch_lifecycle (flags : NoDaemon.Flags) (phase : ActionGraph.MavenPhase) (args : list string)
    (st : St) : result VerifyError VerifyReport -> bool -> St -> Prop :=
  | lifecycle_refused e st' :
      prepare_job flags phase args st = Some (Err e, st') ->
      dispatch_lifecycle flags phase args st (Err e) false st'
  | lifecycle_single job m s w r w' :
      prepare_job flags phase args st = Some (Ok job, (s, w)) ->
      Reactor.modules (j_reactor job) = [m] ->
      dispatch_single_module job (Reactor.action_graph m) w = Some (r, w') ->
      dispatch_lifecycle flags phase args st
        ((fun x => make_report job phase x.1 (now w' - now st.2)) <$> r) false (s, w')
  | lifecycle_no_runtime job detail st' :
      prepare_job flags phase args st = Some (Ok job, st') ->
      length (Reactor.modules (j_reactor job)) <> 1 -> reactor_runtime = Some detail ->
      dispatch_lifecycle flags phase args st (Err (VWorkersRuntime detail)) false st'
  | lifecycle_modules job s w results lost w' :
      prepare_job flags phase args st = Some (Ok job, (s, w)) ->
      length (Reactor.modules (j_reactor job)) <> 1 -> reactor_runtime = None ->
      levels_run job (Reactor.topo_levels (j_reactor job)) w results lost w' ->
      dispatch_lifecycle flags phase args st
        ((fun t => make_report job phase t (now w' - now st.2)) <$> dispatch_reactor_modules job results) lost (s, w').

End Verify.
End Verify.
