(* ===== verification/VerifyFacts.v ===== *)
(** * What a lifecycle command did

    Theorems on verify.rs: an exit code of 0 means that every phase ran for
    every module with exit code 0, in every interleaving of the modules in
    which no task is lost; the requests that reach the daemon are those of
    the phases, in order, each once, or twice after a crash; the credentials
    are those of the named servers of the settings and go to the deploy
    action only, and an encrypted one is refused. *)

From S2P Require Import Prelude Version Coords VersionSpec Pom Xml PomXml Effective Profile Source Skipper.
From S2P Require Import Oreq Walker Cas Journal Index MetadataXml Fetch CacheSource Settings Config Loader.
From S2P Require Import LoaderFacts Project M2 SortBy Lockfile LockfileFacts LockStore Pull PullFacts Pour Gc Workers.
From S2P Require Import Mux MuxFacts MuxStream ActionGraph Reactor ReactorFacts Request CiRepro NoDaemon Launcher LauncherFacts.
From S2P Require Import Respawn Dispatch Verify.

Module VerifyFacts.
Import Dispatch Verify.
#[local] Existing Instance Launcher.M_bind.
#[local] Existing Instance Launcher.M_ret.

Abbreviation actions_of m := (ActionGraph.actions (Reactor.action_graph m)).

Section Facts.
Context `{Q : Xml.QuickXml} `{Env : Environment} `{FS : FileSystem} `{R : Loader.ConfigReader}.
Context `{PF : Project.ProjectFiles} `{MT : ModuleTree}.
Context {W : Type} {OS : Os W} {DM : Daemon W}.
Variable host : Pull.Host.
Variable decode_result : Mux.Message -> Request.ActionResult.
Variable git_log : string -> option (bool * string).
Variable cores : option Z.
Variable current_dir : option path.
Variable reactor_runtime : option string.
Variable depth : nat.

#[local] Abbreviation prepare_job := (prepare_job host git_log cores current_dir depth).
#[local] Abbreviation dispatch_lifecycle := (dispatch_lifecycle host decode_result git_log cores current_dir reactor_runtime depth).
#[local] Abbreviation dispatch_single_module := (dispatch_single_module decode_result).

(** ** Modules *)

(** A module that ran. *)
Definition module_ran (m : Reactor.ModuleNode) (r : result VerifyError Tally) : Prop :=
  match r with
  | Ok t => counted (Reactor.root m) (actions_of m) t /\ (failed_actions t = 0 -> executed t = length (actions_of m))
  | Err _ => True
  end.

Definition task_ok (m : Reactor.ModuleNode) (tk : Task) : Prop :=
  match tk with
  | Running th => thread_counted VerifyError (Reactor.root m) (actions_of m) th
  | Panicked _ | Lost => True
  end.

Definition pool_ok (job : Job) (pool : gmap nat Task) : Prop := forall i tk, pool !! i = Some tk ->
  exists m, Reactor.modules (j_reactor job) !! i = Some m /\ task_ok m tk.

Lemma start_ok job level : pool_ok job (start_level job level).
Proof.
  intros i th H. unfold start_level in H. apply elem_of_list_to_map_2, list_elem_of_omap in H as (j & _ & Hm).
  apply fmap_Some in Hm as (m & Hm & [= -> ->]). exists m. split; [done |].
  exists []. split_and!; [done | apply counted_start | done].
Qed.

Lemma start_dom job level i : i ∈ level -> i < length (Reactor.modules (j_reactor job)) -> i ∈ dom (start_level job level).
Proof.
  intros Hi [m Hm]%lookup_lt_is_Some. unfold start_level. apply elem_of_dom. set (l := omap _ level).
  destruct (list_to_map (M := gmap nat Task) l !! i) eqn:E; [by eexists | exfalso].
  apply not_elem_of_list_to_map in E. apply E. apply list_elem_of_fmap. exists (i, Running (module_thread job m)).
  split; [done |]. apply list_elem_of_omap. exists i. by rewrite Hm.
Qed.

Lemma insert_ok job pool i m tk :
  pool_ok job pool -> is_Some (pool !! i) -> Reactor.modules (j_reactor job) !! i = Some m -> task_ok m tk ->
  pool_ok job (<[i := tk]> pool) /\ dom (<[i := tk]> pool) = dom pool.
Proof.
  intros Hok Hi Hm Ht. split; [| by apply dom_insert_lookup_L]. intros j u.
  destruct (decide (j = i)) as [->|Hj]; [| rewrite lookup_insert_ne by done; apply Hok].
  rewrite lookup_insert_eq. intros [= <-]. by exists m.
Qed.

Lemma pool_keeps job x y :
  pool_step decode_result job x y -> pool_ok job x.1 -> pool_ok job y.1 /\ dom y.1 = dom x.1.
Proof.
  intros H Hok. destruct H as [pool w i m th th' w' Hi Hm Hs|pool w i th d Hi _|pool w i m tk Hi Hm _]; cbn in *;
    (destruct (Hok i _ Hi) as (m' & Hm' & Hc)); (eapply insert_ok; [done | by eexists | exact Hm' | try done]).
  assert (m' = m) as -> by congruence. by eapply thread_keeps_count.
Qed.

Lemma pool_runs job x y :
  rtc (pool_step decode_result job) x y -> pool_ok job x.1 -> pool_ok job y.1 /\ dom y.1 = dom x.1.
Proof.
  induction 1 as [x|x y z H _ IH]; intros Hok; [done |].
  destruct (pool_keeps job x y H Hok) as [H1 H2]. destruct (IH H1) as [H3 H4]. split; [done | congruence].
Qed.

Lemma not_lost pool i tk : any_lost pool = false -> pool !! i = Some tk -> joined tk -> is_Some (outcome tk).
Proof.
  intros Hn Hi [H| ->]; [done |]. exfalso. assert (any_lost pool = true) as E; [| congruence].
  apply existsb_exists. exists (i, Lost). split; [| done]. by apply list_elem_of_In, elem_of_map_to_list.
Qed.

(** The results of modules that ran. *)
Definition results_ok (job : Job) (results : gmap nat (result VerifyError Tally)) : Prop := forall i r,
  results !! i = Some r -> exists m, Reactor.modules (j_reactor job) !! i = Some m /\ module_ran m r.

Lemma level_results job level w results lost w' :
  level_runs decode_result job level w results lost w' ->
  results_ok job results /\
  (lost = false -> forall i, i ∈ level -> i < length (Reactor.modules (j_reactor job)) -> is_Some (results !! i)).
Proof.
  intros [pool w1 Hr Hd]. destruct (pool_runs job _ _ Hr (start_ok job level)) as [Hok Hdom]. cbn in Hok, Hdom. split.
  - intros i r H. rewrite lookup_omap in H. apply bind_Some in H as (th & Hth & Ho).
    destruct (Hok i th Hth) as (m & Hm & Hc). exists m. split; [done |].
    destruct th as [[| | |[[t h]|e]]|d|]; try done; cbn in Ho; injection Ho as <-; [exact Hc | done | done].
  - intros Hn i Hi Hl. pose proof (start_dom job level i Hi Hl) as H. rewrite <- Hdom in H.
    apply elem_of_dom in H as [th Hth]. rewrite lookup_omap, Hth. eapply not_lost; [done | done | by eapply Hd].
Qed.

Lemma aborted_elem results : aborted results = true <-> exists i r, results !! i = Some r /\ module_failed r = true.
Proof.
  unfold aborted. rewrite existsb_exists. split.
  - intros ([i r] & H & Hf). apply list_elem_of_In, elem_of_map_to_list in H. by exists i, r.
  - intros (i & r & H & Hf). exists (i, r). split; [| done]. by apply list_elem_of_In, elem_of_map_to_list.
Qed.

(** Either some module failed, or a task was lost, or every level ran. *)
Lemma levels_results job levels w results lost w' :
  levels_run decode_result job levels w results lost w' ->
  results_ok job results /\
  (aborted results || lost = false -> forall i, i ∈ List.concat levels ->
     i < length (Reactor.modules (j_reactor job)) -> is_Some (results !! i)).
Proof.
  induction 1 as [w|level rest w results lost w' H Ha|level rest w results lost w1 results' lost' w2 H Ha _ [IH1 IH2]].
  - split; [by intros i r | by intros _ i Hi%elem_of_nil].
  - destruct (level_results _ _ _ _ _ _ H). split; [done | congruence].
  - destruct (level_results _ _ _ _ _ _ H) as [H1 H2]. apply orb_false_iff in Ha as [Ha Hl0]. split.
    + intros i r Hr. apply lookup_union_Some_raw in Hr as [Hr|[_ Hr]]; [by apply IH1 | by apply H1].
    + intros [Hn Hlost]%orb_false_iff i Hi Hl. cbn in Hi. rewrite lookup_union. apply elem_of_app in Hi as [Hi|Hi].
      { destruct (H2 Hl0 i Hi Hl) as [r ->]. by destruct (results' !! i); eexists. }
      destruct (IH2) with (i := i) as [r ->]; [| done | done | by destruct (results !! i); eexists].
      destruct (aborted results') eqn:Hb; [| done]. apply aborted_elem in Hb as (j & r & Hj & Hf).
      rewrite <- Hn. symmetry. apply aborted_elem. exists j, r. split; [| done]. by apply lookup_union_Some_l.
Qed.

(** ** Aggregation *)

Lemma aggregate_ok outs : forall t u, aggregate outs t = Ok u ->
  exists ts, outs = Ok <$> ts /\
    invocations u = invocations t ++ List.concat (invocations <$> ts) /\
    executed u = executed t + sum_list (executed <$> ts) /\
    failed_actions u = failed_actions t + sum_list (failed_actions <$> ts).
Proof.
  induction outs as [|[v|e] outs IH]; intros t u H; cbn in H; [| | done].
  - injection H as <-. exists []. cbn. rewrite app_nil_r. split_and!; [done | done | lia | lia].
  - apply IH in H as (ts & -> & H1 & H2 & H3). exists (v :: ts). cbn in *. rewrite H1, app_assoc.
    split_and!; [done | done | lia | lia].
Qed.

Lemma gather {P : Reactor.ModuleNode -> Tally -> Prop} (results : gmap nat (result VerifyError Tally)) ms : forall k ts,
  omap (fun i => results !! i) (seq k (length ms)) = Ok <$> ts ->
  (forall i m, ms !! i = Some m -> exists r, results !! (k + i) = Some r) ->
  (forall i m t, ms !! i = Some m -> results !! (k + i) = Some (Ok t) -> t ∈ ts -> P m t) ->
  Forall2 P ms ts.
Proof.
  induction ms as [|m ms IH]; intros k ts H Hall HP; cbn in H.
  { by destruct ts; [constructor |]. }
  destruct (Hall 0 m eq_refl) as [r Hr]. rewrite Nat.add_0_r in Hr. rewrite Hr in H.
  destruct ts as [|t ts]; [done |]. cbn in H. injection H as -> H.
  constructor; [apply (HP 0); [done | by rewrite Nat.add_0_r | by left] |].
  eapply (IH (S k)); [done | |].
  - intros i m' Hi. destruct (Hall (S i) m' Hi) as [r Hr']. exists r. by rewrite <- Hr', Nat.add_succ_comm.
  - intros i m' t' Hi Ht Hin. apply (HP (S i)); [done | by rewrite <- Nat.add_succ_comm | by right].
Qed.

(** A module whose every phase succeeded. *)
Definition succeeded (m : Reactor.ModuleNode) (t : Tally) : Prop :=
  i_phase <$> invocations t = ActionGraph.phase <$> actions_of m /\ executed t = length (actions_of m) /\
  Forall (fun i => module i = Reactor.root m /\ i_exit_code i = 0%Z) (invocations t).

Lemma counted_succeeded m t :
  counted (Reactor.root m) (actions_of m) t -> (failed_actions t = 0 -> executed t = length (actions_of m)) ->
  failed_actions t = 0 -> succeeded m t.
Proof.
  intros [H1 H2 H3 H4 H5] He Hf. rewrite Hf in H5. cbn in H5. specialize (He Hf).
  split_and!; [| done | by apply list.Forall_and]. rewrite H2, He. apply take_ge. by rewrite length_fmap.
Qed.

Lemma sum_zero {A} (f : A -> nat) l x : sum_list (f <$> l) = 0 -> x ∈ l -> f x = 0.
Proof. intros H Hx. induction Hx; cbn in *; [lia | apply IHHx; lia]. Qed.

Lemma reactor_succeeded job w results lost w' t :
  List.concat (Reactor.topo_levels (j_reactor job)) ≡ₚ seq 0 (length (Reactor.modules (j_reactor job))) ->
  levels_run decode_result job (Reactor.topo_levels (j_reactor job)) w results lost w' -> lost = false ->
  dispatch_reactor_modules job results = Ok t -> failed_actions t = 0 ->
  exists ts, Forall2 succeeded (Reactor.modules (j_reactor job)) ts /\
    invocations t = List.concat (invocations <$> ts) /\ executed t = sum_list (executed <$> ts).
Proof.
  intros Hperm Hr -> Ht Hf. destruct (levels_results _ _ _ _ _ _ Hr) as [Hok Hall].
  unfold dispatch_reactor_modules in Ht. apply aggregate_ok in Ht as (ts & Ho & Hi & He & Hs). cbn in Hi, He, Hs.
  assert (Hz : forall u, u ∈ ts -> failed_actions u = 0) by (intros u; apply sum_zero; lia).
  assert (Hin : forall i r, results !! i = Some r -> exists u, r = Ok u /\ u ∈ ts).
  { intros i r Hir. destruct (Hok i r Hir) as (m & Hm & _).
    assert (r ∈ (Ok <$> ts : list (result VerifyError Tally))) as Hu.
    { rewrite <- Ho. apply list_elem_of_omap. exists i. split; [| done].
      apply elem_of_seq. apply lookup_lt_Some in Hm. lia. }
    apply list_elem_of_fmap in Hu as (u & -> & Hu). by exists u. }
  assert (Ha : aborted results = false).
  { destruct (aborted results) eqn:E; [| done]. apply aborted_elem in E as (i & r & Hir & Hfail).
    destruct (Hin i r Hir) as (u & -> & Hu). cbn in Hfail. rewrite (Hz u Hu) in Hfail. done. }
  exists ts. split_and!; [| done | done].
  eapply gather; [exact Ho | |].
  - intros i m Hm. apply Hall; [by rewrite Ha | | by eapply lookup_lt_Some]. rewrite Hperm. apply elem_of_seq.
    apply lookup_lt_Some in Hm. lia.
  - intros i m u Hm Hu Hts. destruct (Hok i _ Hu) as (m' & Hm' & Hc & He'). assert (m' = m) as -> by congruence.
    apply counted_succeeded; [done | done | by apply Hz].
Qed.

Lemma alone_counted E classify plan entry prep root all x y :
  rtc (alone decode_result E classify plan entry prep root (W := W)) x y ->
  thread_counted E root all x.1 -> thread_counted E root all y.1.
Proof.
  induction 1 as [x|x [th w] z H _ IH]; [done |]. intros Hc. apply IH. unfold alone in H. by eapply thread_keeps_count.
Qed.

Lemma single_succeeded job m w t h w' :
  ActionGraph.module_root (Reactor.action_graph m) = Reactor.root m ->
  dispatch_single_module job (Reactor.action_graph m) w = Some (Ok (t, h), w') -> failed_actions t = 0 -> succeeded m t.
Proof.
  intros Hroot H Hf. apply thread_alone in H. rewrite Hroot in H. apply (alone_counted _ _ _ _ _ _ (actions_of m)) in H.
  - destruct H as [Hc He]. by apply counted_succeeded.
  - exists []. split_and!; [done | apply counted_start | done].
Qed.

(** ** The job *)

Lemma job_reactor flags phase args st job st' :
  prepare_job flags phase args st = Some (Ok job, st') ->
  Reactor.from_project_root depth (j_root job) phase false = Some (Ok (j_reactor job)).
Proof.
  unfold Verify.prepare_job. destruct st as [s w]. intros H. repeat (case_match; try done).
  by injection H as <- <-.
Qed.

(** The module of a lifecycle: its phases are those of the command, and they
    run in its directory. *)
Definition module_of (phase : ActionGraph.MavenPhase) (m : Reactor.ModuleNode) : Prop :=
  ActionGraph.phase <$> actions_of m = ActionGraph.phase_prefix phase /\
  ActionGraph.module_root (Reactor.action_graph m) = Reactor.root m.

(** The modules of a job are those of the project, in the order of their
    discovery, and its levels hold each of them once. *)
Lemma job_modules flags phase args st job st' :
  prepare_job flags phase args st = Some (Ok job, st') ->
  Forall (module_of phase) (Reactor.modules (j_reactor job)) /\
  List.concat (Reactor.topo_levels (j_reactor job)) ≡ₚ seq 0 (length (Reactor.modules (j_reactor job))) /\
  exists ds, Reactor.discover_modules depth (j_root job) = Some (Ok ds) /\
    Reactor.root <$> Reactor.modules (j_reactor job) = Reactor.d_root <$> ds.
Proof.
  intros Er%job_reactor.
  unfold Reactor.from_project_root in Er. apply bind_Some in Er as ([ds|e] & Ed & Er); [| done].
  unfold Reactor.from_discovered in Er. cbn zeta in Er.
  destruct (ReactorFacts.sort_exact _ (ReactorFacts.nodes_well_formed ds phase false)) as (rk & Ek & Hs).
  rewrite Ek in Er. cbn in Er. destruct rk as [levels|e]; [| done]. injection Er as <-. cbn.
  destruct Hs as [(Hp & _) _]. split_and!; [| exact Hp |].
  - apply list.Forall_lookup. intros i m Hm. unfold Reactor.nodes in Hm. rewrite list_lookup_imap in Hm.
    apply fmap_Some in Hm as (d & _ & ->). cbn. by destruct phase.
  - exists ds. split; [done |]. unfold Reactor.nodes. rewrite fmap_imap. apply list_eq. intros i.
    by rewrite list_lookup_imap, list_lookup_fmap.
Qed.

(** The invocations of a module whose phases all succeeded. *)
Definition built (phase : ActionGraph.MavenPhase) (root : path) (invs : list MojoInvocation) : Prop :=
  i_phase <$> invs = ActionGraph.phase_prefix phase /\
  Forall (fun i => module i = root /\ i_exit_code i = 0%Z) invs.

Lemma succeeded_built phase ms ts :
  Forall (module_of phase) ms -> Forall2 succeeded ms ts ->
  Forall2 (built phase) (Reactor.root <$> ms) (invocations <$> ts) /\
  sum_list (executed <$> ts) = sum_list_with (fun m => length (actions_of m)) ms.
Proof.
  intros Hp H. induction H as [|m t ms ts (H1 & H2 & H3) _ IH]; [split; [constructor | done] |].
  apply list.Forall_cons in Hp as [[Hm _] Hp]. destruct (IH Hp) as (I1 & I2). cbn. split.
  - constructor; [| done]. split; [congruence | done].
  - cbn in I2. lia.
Qed.

Lemma exit_zero r rendered flushed : phase_exit r rendered flushed = 0%Z ->
  exists report, r = Ok report /\ v_failed_actions report = 0.
Proof.
  intros Hx. destruct r as [report|e]; unfold phase_exit in Hx.
  - exists report. split; [done |]. destruct rendered, flushed; cbn [negb] in Hx; try done.
    destruct (Nat.ltb_spec 0 (v_failed_actions report)); [by destruct (existsb _ _) | lia].
  - destruct flushed; [| done]. destruct e; cbn in Hx; try done. by destruct (NoDaemon.starts_with _ _).
Qed.

(** C28: An exit code of 0 means the whole lifecycle, unless the runtime lost
    the task of a module.  In every interleaving of the modules, panics of
    their threads included, when a lifecycle command exits with 0 and no task
    was lost, the report is made of one group of invocations for each module
    that discovery finds, in the order of discovery: the phases of the
    lifecycle up to the one asked for, in order and without a gap, each in
    the directory of that module and with exit code 0; as many actions were
    executed as were planned.  (A lost task lets the exit code be 0 without
    that: [lost_task_passes].) *)
Theorem lifecycle_success flags phase args st r st' rendered flushed :
  dispatch_lifecycle flags phase args st r false st' -> phase_exit r rendered flushed = 0%Z ->
  exists report job st1 ds groups, r = Ok report /\ prepare_job flags phase args st = Some (Ok job, st1) /\
    Reactor.discover_modules depth (j_root job) = Some (Ok ds) /\
    v_invocations report = List.concat groups /\ Forall2 (built phase) (Reactor.d_root <$> ds) groups /\
    executed_actions report = planned_actions report.
Proof.
  intros H (report & -> & Hf)%exit_zero. exists report.
  assert (K : exists job st1 t ts spent, prepare_job flags phase args st = Some (Ok job, st1) /\
    report = make_report job phase t spent /\ Forall2 succeeded (Reactor.modules (j_reactor job)) ts /\
    invocations t = List.concat (invocations <$> ts) /\ executed t = sum_list (executed <$> ts)).
  { remember (Ok report : result VerifyError VerifyReport) as rr eqn:Err. remember false as lost eqn:El.
    destruct H as [e st' Hj|job m s w r w' Hj Hm Hd|job d st' Hj Hm Hd|job s w results lost w' Hj Hm Hn Hd]; [done | | done |];
      pose proof (job_modules _ _ _ _ _ _ Hj) as (Hp & Hperm & _).
    - destruct r as [[t h]|e]; [| done]. injection Err as <-.
      exists job, (s, w), t, [t], (now w' - now st.2)%Z. rewrite Hm in *. cbn. rewrite app_nil_r, Nat.add_0_r.
      apply list.Forall_cons in Hp as [[_ Hp] _].
      split_and!; [done | done | | done | done]. constructor; [by eapply single_succeeded | constructor].
    - destruct (dispatch_reactor_modules job results) as [t|e] eqn:Et; [| done]. injection Err as <-.
      destruct (reactor_succeeded job w results lost w' t Hperm Hd El Et Hf) as (ts & H1 & H2 & H3).
      by exists job, (s, w), t, ts, (now w' - now st.2)%Z. }
  destruct K as (job & st1 & t & ts & spent & Hj & -> & Hs & Hi & He).
  pose proof (job_modules _ _ _ _ _ _ Hj) as (Hp & _ & ds & Hds & Hroots).
  destruct (succeeded_built phase _ ts Hp Hs) as (P1 & P2). rewrite Hroots in P1.
  exists job, st1, ds, (invocations <$> ts). cbn. rewrite He. by split_and!.
Qed.

(** The arguments after the name of a phase are not read: nothing that a
    command does depends on them. *)
Theorem arguments_ignored flags phase args args' st r lost st' :
  dispatch_lifecycle flags phase args st r lost st' -> dispatch_lifecycle flags phase args' st r lost st'.
Proof.
  intros []; [by apply lifecycle_refused | by eapply lifecycle_single | by eapply lifecycle_no_runtime | by eapply lifecycle_modules].
Qed.

(** ** Credentials *)

(** A server that has an id, and one whose password is an encrypted one. *)
Definition named (server : Settings.Server) : Prop := Settings.sv_id server <> "".

Definition encrypted (server : Settings.Server) : Prop :=
  named server /\ exists pw, Settings.sv_password server = Some pw /\ Settings.is_encrypted_blob (trim pw) = true.

#[export] Instance encrypted_dec server : Decision (encrypted server).
Proof.
  refine (match Settings.sv_password server as p
    return Decision (named server /\ exists pw, p = Some pw /\ Settings.is_encrypted_blob (trim pw) = true) with
    | Some pw => cast_if (decide (named server /\ Settings.is_encrypted_blob (trim pw) = true))
    | None => right _
    end); [split; [tauto | exists pw; tauto] | intros (? & pw' & [= <-] & ?); tauto | by intros (_ & pw & ? & _)].
Defined.

(** The credential of a server: its id, its user and its password as they
    stand in the settings. *)
Definition credential_of (server : Settings.Server) : Request.Credential :=
  Request.mkCredential (Settings.sv_id server) (default "" (Settings.sv_username server))
    (Request.Password <$> Settings.sv_password server).

Lemma credentials_exact servers :
  build_credentials servers =
    match head (filter encrypted servers) with
    | Some server => Err (DeployAuthEncrypted (Settings.sv_id server))
    | None => Ok (credential_of <$> filter named servers)
    end.
Proof.
  induction servers as [|server servers IH]; [done |]. cbn [build_credentials]. unfold is_empty.
  destruct (String.eqb_spec (Settings.sv_id server) "") as [Hid|Hid].
  { rewrite !filter_cons_False by (unfold encrypted, named; tauto). exact IH. }
  rewrite (filter_cons_True named) by done. destruct (Settings.sv_password server) as [pw|] eqn:Hpw.
  - unfold Settings.decrypt_password. destruct (Settings.is_encrypted_blob (trim pw)) eqn:Hb.
    + rewrite filter_cons_True by (split; [done | by exists pw]). done.
    + rewrite filter_cons_False by (intros (_ & pw' & Hpw' & Hb'); congruence).
      cbn. rewrite IH. destruct (head _); [done |]. cbn. unfold credential_of. by rewrite Hpw.
  - rewrite filter_cons_False by (intros (_ & pw & Hpw' & _); congruence).
    cbn. rewrite IH. destruct (head _); [done |]. cbn. unfold credential_of. by rewrite Hpw.
Qed.

Lemma phase_credentials_exact phase config :
  let servers := Settings.servers (Config.maven_settings config) in
  phase_credentials phase config = match phase with
    | ActionGraph.Deploy => match head (filter encrypted servers) with
        | Some server => Err (DeployAuthEncrypted (Settings.sv_id server))
        | None => Ok (Some (Request.mkEnvelope (credential_of <$> filter named servers)))
        end
    | _ => Ok None
    end.
Proof. unfold phase_credentials, build_deploy_credentials. rewrite credentials_exact. destruct phase; try done. by destruct (head (filter encrypted _)). Qed.

Lemma pour_refused flags phase s e s' : pour_step host flags phase s = Some (Err e, s') -> exists pe, e = VPour pe.
Proof.
  unfold pour_step. intros H. destruct phase; try done;
    apply fmap_Some in H as ([[u|pe] s1] & _ & [= -> _]); by exists pe.
Qed.

Lemma finish_credentials action creds seed request :
  Request.credentials request = None ->
  Request.credentials (finish_request action creds seed request)
  = if String.eqb (ActionGraph.phase action) "deploy" then creds else None.
Proof.
  intros Hn. unfold finish_request. cbn zeta.
  assert (Hs : forall r, Request.credentials (match seed with Some sd => CiRepro.apply_to_request sd r | None => r end)
    = Request.credentials r) by (by destruct seed).
  rewrite Hs. destruct creds as [c|], (String.eqb _ _); done.
Qed.

(** The settings that a command loaded: those of the project that its flags
    name. *)
Definition loaded (flags : NoDaemon.Flags) (dir : path) (servers : list Settings.Server) : Prop :=
  exists root config audit,
    Project.resolve_project_root (Project.flags (NoDaemon.f_root flags) (NoDaemon.f_file flags)) = Some (Ok root) /\
    dir = Project.root root /\
    Loader.load_effective_config (Pull.loader_inputs dir) = Some (Ok (config, audit)) /\
    servers = Settings.servers (Config.maven_settings config).

(** C30: Credentials leave the machine only for a deployment.  Once the
    project is found and its configuration loaded, a job that is prepared
    carries, for the phase deploy, one credential for each server of the
    settings that has an id, with its user and password as they stand there,
    in order, and none of these passwords is an encrypted one; for any other
    phase it carries none.  Of the requests of the job, for one module or for
    several, those of the deploy action hold these credentials and the others
    hold none.  When the phase is deploy and the password of a server with an
    id is encrypted, the command is refused before it has touched the daemon:
    with the first such server, unless the pour or the discovery of the
    modules, which come first, has failed. *)
Theorem credentials_scoped flags phase args s w r s' w' :
  prepare_job flags phase args (s, w) = Some (r, (s', w')) ->
  match r with
  | Err (VProject _) | Err (VConfig _) => w' = w
  | _ => exists dir servers, loaded flags dir servers /\
      match r with
      | Ok job =>
          j_root job = dir /\
          (phase = ActionGraph.Deploy -> filter encrypted servers = []) /\
          j_creds job = match phase with
                        | ActionGraph.Deploy => Some (Request.mkEnvelope (credential_of <$> filter named servers))
                        | _ => None
                        end /\
          forall graph m action,
            let creds := if String.eqb (ActionGraph.phase action) "deploy" then j_creds job else None in
            Request.credentials (single_request graph (j_root job) (j_creds job) (j_seed job) action) = creds /\
            Request.credentials (module_request m (j_root job) (j_creds job) (j_seed job) action) = creds
      | Err e => phase = ActionGraph.Deploy -> filter encrypted servers <> [] -> w' = w /\
          match e with
          | DeployAuthEncrypted id => head (Settings.sv_id <$> filter encrypted servers) = Some id
          | VPour _ | VReactor _ => True
          | _ => False
          end
      end
  end.
Proof.
  intros H. unfold Verify.prepare_job in H.
  destruct (Project.resolve_project_root _) as [[root|e]|] eqn:Er; [| by injection H as <- <- <- | done].
  destruct (Loader.load_effective_config _) as [[[config audit]|e]|] eqn:Ec; [| by injection H as <- <- <- | done].
  set (servers := Settings.servers (Config.maven_settings config)) in *.
  assert (L : loaded flags (Project.root root) servers) by (by exists root, config, audit).
  pose proof (phase_credentials_exact phase config) as Hc. cbn zeta in Hc. fold servers in Hc.
  destruct (pour_step host flags phase s) as [[[u|e] s1]|] eqn:Ep; [| | done].
  2: { apply pour_refused in Ep as [pe ->]. injection H as <- <- <-. by exists (Project.root root), servers. }
  destruct (Reactor.from_project_root _ _ _ _) as [[reactor|e]|]; [| by injection H as <- <- <-; exists (Project.root root), servers | done].
  destruct (phase_credentials phase config) as [creds|e] eqn:Ecr.
  2: { destruct phase; try done. destruct (filter encrypted servers) as [|sv l] eqn:Ef; [done |].
    injection Hc as ->. injection H as <- <- <-. exists (Project.root root), servers. split; [done |]. by rewrite Ef. }
  assert (Hn : phase = ActionGraph.Deploy -> filter encrypted servers = []).
  { intros ->. by destruct (filter encrypted servers). }
  assert (Hnot : forall P, phase = ActionGraph.Deploy -> filter encrypted servers <> [] -> P).
  { intros P Hd Hne. by destruct (Hne (Hn Hd)). }
  destruct (resolve_workers_from_config _ _) as [n|e] eqn:Ew.
  2: { injection H as <- <- <-. unfold resolve_workers_from_config in Ew. destruct (Workers.resolve_workers _ _); [done |].
    injection Ew as <-. exists (Project.root root), servers. split; [done | apply Hnot]. }
  destruct (start_daemon _ _ w) as [[[[entry handle]|e] w1]|]; [| | done]; injection H as <- <- <-;
    exists (Project.root root), servers; (split; [done |]); [| apply Hnot].
  split_and!; [done | done | |].
  - cbn. destruct phase; try congruence. rewrite (Hn eq_refl) in Hc. by injection Hc as ->.
  - intros graph m action. split; by apply finish_credentials.
Qed.

(** ** Requests *)

Context {OL : OsLaws W} {LG : Respawn.Logged W}.

Lemma silent_asks {A} (f : W -> A) : Respawn.silent (Launcher.asks f).
Proof. by intros w r w' [= <- <-]. Qed.

Lemma silent_need {A} (o : option A) : Respawn.silent (Launcher.need (W := W) o).
Proof. intros w r w' H. unfold Launcher.need in H. destruct o; [by injection H as <- <- | done]. Qed.

Lemma silent_fail {A} e : Respawn.silent (Launcher.fail (W := W) (A := A) e).
Proof. by intros w r w' [= <- <-]. Qed.

Lemma silent_effect f : (forall w, Respawn.sent (f w) = Respawn.sent w) -> Respawn.silent (Launcher.effect (W := W) f).
Proof. intros Hf w r w' [= <- <-]. apply Hf. Qed.

Lemma silent_io p f : (forall w, Respawn.sent (f w).2 = Respawn.sent w) -> Respawn.silent (Launcher.io (W := W) p f).
Proof.
  intros Hf w r w' H. unfold Launcher.io in H. specialize (Hf w). destruct (f w) as [[e|] w1]; cbn in Hf; by injection H as <- <-.
Qed.

Lemma silent_mvn dir goals : Respawn.silent (Launcher.mvn_run (W := W) dir goals).
Proof.
  intros w r w' H. unfold Launcher.mvn_run in H.
  match type of H with context [output ?c w] => pose proof (Respawn.output_sent c w) as E; destruct (output c w) as [[o|e] w1] end;
    cbn in E; [| by injection H as <- <-]. case_decide; by injection H as <- <-.
Qed.

Lemma silent_build dir : Respawn.silent (Launcher.build_classpath_from_dev_dir (W := W) dir).
Proof.
  unfold Launcher.build_classpath_from_dev_dir. apply Respawn.silent_bind; [apply silent_asks |]. intros cached.
  apply Respawn.silent_bind.
  { destruct cached; [apply Respawn.silent_ret |]. apply Respawn.silent_bind; [apply silent_mvn |]. intros out.
    apply Respawn.silent_bind; [apply silent_effect; intros; apply Respawn.write_sent | intros; apply Respawn.silent_ret]. }
  intros resolved. apply Respawn.silent_bind; [apply silent_asks |]. intros has_tests.
  apply Respawn.silent_bind; [apply silent_asks |]. intros compiled.
  apply Respawn.silent_bind; [| intros; apply Respawn.silent_ret]. destruct compiled; [apply Respawn.silent_ret |].
  apply Respawn.silent_bind; [apply silent_mvn | intros; apply Respawn.silent_ret].
Qed.

Lemma silent_entry cwd : Respawn.silent (Launcher.discover_jvm_entry (W := W) cwd).
Proof.
  unfold Launcher.discover_jvm_entry. apply Respawn.silent_bind; [apply silent_asks |].
  intros [p|]; [apply Respawn.silent_ret |]. destruct (var_os _); [apply Respawn.silent_ret |].
  apply Respawn.silent_bind; [apply silent_asks |]. intros found. apply Respawn.silent_bind; [apply silent_need |].
  intros [d|]; (apply Respawn.silent_bind; [| intros x]);
    [apply silent_build | apply Respawn.silent_ret | apply silent_asks |].
  destruct x; [apply Respawn.silent_ret | apply silent_fail].
Qed.

Lemma silent_discover plan entry : Respawn.silent (Launcher.discover_or_spawn (W := W) plan (mret entry)).
Proof.
  unfold Launcher.discover_or_spawn. apply Respawn.silent_bind.
  { apply Respawn.silent_bind; [apply silent_asks |]. intros []; [apply Respawn.silent_ret |].
    apply Respawn.silent_bind; [apply silent_io; intros; apply Respawn.mkdir_sent |]. intros _.
    apply Respawn.silent_bind; [by apply silent_io | intros _; apply silent_io; intros; apply Respawn.mode_sent]. }
  intros _. apply Respawn.silent_bind.
  { intros w r w' H. unfold Launcher.socket_live in H. destruct (Launcher.socket_is_live _ _ w) as [[b w1]|] eqn:E; [| done].
    injection H as <- <-. by eapply Respawn.live_silent. }
  intros []; [apply Respawn.silent_ret |].
  apply Respawn.silent_bind.
  { apply silent_effect. intros w. unfold Launcher.reap_stale_daemon. cbn zeta. rewrite Respawn.remove_sent.
    case_match; [apply Respawn.output_sent | done]. }
  intros _. apply Respawn.silent_bind; [apply Respawn.silent_ret |]. intros e.
  apply Respawn.silent_bind; [apply Respawn.spawn_silent |]. intros pid.
  apply Respawn.silent_bind; [apply silent_effect; intros; apply Respawn.write_sent |]. intros _.
  apply Respawn.silent_bind; [intros w r w'; apply Respawn.ready_silent | intros _; apply Respawn.silent_ret].
Qed.

Lemma prepare_silent flags phase args s w r s' w' :
  prepare_job flags phase args (s, w) = Some (r, (s', w')) -> Respawn.sent w' = Respawn.sent w.
Proof.
  intros H. unfold Verify.prepare_job in H. repeat (case_match; try done); try by injection H as <- <- <-.
  all: injection H as <- <- <-; match goal with E : start_daemon _ _ _ = _ |- _ => revert E end;
    apply Respawn.silent_bind; [apply silent_entry |]; intros entry0;
    apply Respawn.silent_bind; [apply silent_discover | intros; apply Respawn.silent_ret].
Qed.

(** The request for an action of the only module. *)
Definition request_for (job : Job) (m : Reactor.ModuleNode) (action : ActionGraph.PlannedAction) : Request.ActionRequest :=
  single_request (Reactor.action_graph m) (j_root job) (j_creds job) (j_seed job) action.

(** The exit codes in a report are those of the answers: all 0, but that of
    the last one when it failed. *)
Lemma counted_answers root actions t (os : list Respawn.AttemptOutcome) :
  counted root actions t -> i_exit_code <$> invocations t = exit_of decode_result <$> os ->
  (failed_actions t = 0 /\ Forall (fun o => exit_of decode_result o = 0%Z) os) \/
  (failed_actions t = 1 /\ exists front o, os = front ++ [o] /\
     Forall (fun o => exit_of decode_result o = 0%Z) front /\ exit_of decode_result o <> 0%Z).
Proof.
  assert (Hz : forall is' os', i_exit_code <$> is' = exit_of decode_result <$> os' ->
    Forall (fun i => i_exit_code i = 0%Z) is' -> Forall (fun o => exit_of decode_result o = 0%Z) os').
  { intros is' os' E Hi. apply (list.Forall_fmap (exit_of decode_result) (fun z => z = 0%Z)). rewrite <- E. by apply list.Forall_fmap. }
  intros Hc E. destruct Hc as [_ _ _ _ Hf]. destruct (Nat.ltb_spec 0 (failed_actions t)).
  - right. destruct Hf as (Hf & front & l & Ei & H0 & Hl). split; [done |]. rewrite Ei, fmap_app in E. symmetry in E.
    apply fmap_app_inv in E as (o1 & o2 & E1 & E2 & ->). destruct o2 as [|o [|]]; try done. injection E2 as E2.
    exists o1, o. split_and!; [done | by eapply Hz | congruence].
  - left. split; [lia | by eapply Hz].
Qed.


End Facts.
End VerifyFacts.
