(* ===== verification/Shot.v ===== *)
(** * barista-cli: shot

    Models crates/barista-cli/src/cmd/shot.rs: one phase on a warm daemon.
    When the lockfile, the POM and the daemon are those of the last
    successful shot, as a file of the user's cache records, the pour is
    skipped.  That file is TOML (a parameter with its round-trip law); the
    clock and the modification times are parameters too. *)

From S2P Require Import Prelude Version Coords VersionSpec Pom Xml PomXml Effective Profile Source Skipper.
From S2P Require Import Oreq Walker Cas Journal Index MetadataXml Fetch CacheSource Settings Config Loader.
From S2P Require Import LoaderFacts Project M2 SortBy Lockfile LockfileFacts LockStore Pull PullFacts Pour Gc Workers.
From S2P Require Import Mux MuxFacts MuxStream ActionGraph Reactor ReactorFacts Request CiRepro NoDaemon Launcher.
From S2P Require Import LauncherFacts Respawn Dispatch Verify VerifyFacts.

Module Shot.
Import Dispatch.
#[local] Existing Instance Launcher.M_bind.
#[local] Existing Instance Launcher.M_ret.

Abbreviation path := Config.path.

Definition LAST_SHOT_LEAF : string := "last-shot.toml".
Definition CACHE_SCHEMA_VERSION : Z := 1.
Definition USER_CACHE_DIR_LEAF : string := ".barista/cache".
Definition I64_MAX : Z := 9223372036854775807.

Record LastShotCache := mkCache {
  version : Z;
  lockfile_signature : string;
  c_pom_mtime_ns : Z;
  daemon_pid : Z;
  last_shot_unix : Z
}.

Inductive CacheWriteError : Type :=
  | MissingLockfile
  | MissingPom
  | MissingDaemonPid
  | CacheIo (e : IoError)
  | Serialize (e : string).

Inductive ShotError : Type :=
  | SProject (e : Project.ResolveError)
  | SConfig (e : Loader.LoaderError)
  | SGraph (e : ActionGraph.ShotGraphError)
  | SWorkers (e : Workers.WorkersError)
  | SLauncher (e : Launcher.LauncherError)
  | SPour (e : Pour.PourError)
  | SDaemonConnect (phase : string) (socket : path) (source : IoError)
  | SIpc (phase detail : string)
  | SDaemonError (phase code message : string)
  | SPersistentCrash (phase : string)
  | SPrematureClose (phase : string).

Definition exit_code (e : ShotError) : Z :=
  match e with
  | SProject _ | SConfig _ | SGraph _ | SWorkers _ | SPour _ => 2
  | _ => 1
  end.

Definition classify_respawn_error (phase : string) (e : Respawn.RespawnError) : ShotError :=
  match e with
  | Respawn.RLauncher le => SLauncher le
  | Respawn.PersistentCrash => SPersistentCrash phase
  | Respawn.Connect socket source => SDaemonConnect phase socket source
  | Respawn.Ipc detail => SIpc phase detail
  | Respawn.DaemonProtocolError code message => SDaemonError phase code message
  | Respawn.PrematureClose => SPrematureClose phase
  end.

Definition split_expr (args : list string) : option (string * list string) :=
  match args with [] => None | first :: rest => Some (first, rest) end.

(** TOML of the record. *)
Record ShotToml := mkShotToml {
  shot_from_str : string -> option LastShotCache;
  shot_to_string : LastShotCache -> result string string
}.

Definition shot_toml_law (t : ShotToml) : Prop := forall c s, shot_to_string t c = Ok s -> shot_from_str t s = Some c.

(** [s.trim().parse::<u32>().ok()]. *)
Definition parse_pid (s : string) : option Z := parse_uint U32_MAX (trim s).

Section Shot.
Context `{D : Cas.Digest} `{Q : Xml.QuickXml} `{Env : Environment} `{FS : FileSystem} `{R : Loader.ConfigReader}.
Context `{PF : Project.ProjectFiles}.
Context {W : Type} {OS : Os W} {DM : Daemon W}.
Variable host : Pull.Host.
Variable toml : ShotToml.
Variable decode_result : Mux.Message -> Request.ActionResult.
Variable git_log : string -> option (bool * string).
Variable cores : option Z.
Variable current_dir : option path.
Variable temp_dir : path.
(** The modification time of a file in nanoseconds from the epoch, and the
    system clock in seconds. *)
Variable modified_ns : path -> W -> option Z.
Variable unix_now : W -> Z.

(** ** The record of the last shot *)

Definition cache_root : path :=
  match var_os "HOME" with
  | Some home => Profile.join home USER_CACHE_DIR_LEAF
  | None => Profile.join temp_dir "barista-cache"
  end.

Definition project_root_key (project_root : path) (w : W) : string :=
  Cas.to_hex (Cas.sha256 (Cas.byte_of <$> list_ascii_of_string (default project_root (canonicalize project_root w)))).

Definition last_shot_cache_path (project_root : path) (w : W) : path :=
  Profile.join (Profile.join cache_root (project_root_key project_root w)) LAST_SHOT_LEAF.

Definition load_cache (p : path) (w : W) : option LastShotCache := s ← read_to_string p w; shot_from_str toml s.

Definition read_lockfile_signature (p : path) (s : Pull.State) : option string :=
  match LockStore.read (Pull.toml host) (Pull.lock_io host) p (Pull.texts s) with
  | Ok lf => Some (Lockfile.project_signature (Lockfile.meta lf))
  | Err _ => None
  end.

(** Times outside the range of [i64] are cut to its symmetric bounds. *)
Definition pom_mtime_ns (p : path) (w : W) : option Z :=
  (fun t => if (0 <=? t)%Z then Z.min t I64_MAX else - Z.min (- t) I64_MAX)%Z <$> modified_ns p w.

Definition read_pid (p : path) (w : W) : option Z := s ← read_to_string p w; parse_pid s.

Definition is_warm_path (project_root pom_path cache_path socket_path : path) (s : Pull.State) (w : W)
    : option (bool * W) :=
  match load_cache cache_path w with
  | None => Some (false, w)
  | Some cache =>
      if negb (version cache =? CACHE_SCHEMA_VERSION)%Z then Some (false, w)
      else if negb (bool_decide (read_lockfile_signature (Profile.join project_root "barista.lock") s
                                 = Some (lockfile_signature cache))) then Some (false, w)
      else if negb (bool_decide (pom_mtime_ns pom_path w = Some (c_pom_mtime_ns cache))) then Some (false, w)
      else
        match Launcher.socket_is_live socket_path 250 w with
        | None => None
        | Some (false, w1) => Some (false, w1)
        | Some (true, w1) =>
            let pid_path := match Path.parent socket_path with
                            | Some d => Profile.join d Launcher.PID_LEAF
                            | None => Launcher.PID_LEAF
                            end in
            Some (bool_decide (read_pid pid_path w1 = Some (daemon_pid cache)), w1)
        end
  end.

Definition update_last_shot_cache (project_root pom_path socket_dir : path) (s : Pull.State) (w : W)
    : result CacheWriteError unit * W :=
  match read_lockfile_signature (Profile.join project_root "barista.lock") s with
  | None => (Err MissingLockfile, w)
  | Some signature =>
      match pom_mtime_ns pom_path w with
      | None => (Err MissingPom, w)
      | Some mtime =>
          match read_pid (Profile.join socket_dir Launcher.PID_LEAF) w with
          | None => (Err MissingDaemonPid, w)
          | Some pid =>
              let cache := mkCache CACHE_SCHEMA_VERSION signature mtime pid
                             (if (unix_now w <=? I64_MAX)%Z then Z.max (unix_now w) 0 else 0)%Z in
              let cache_path := last_shot_cache_path project_root w in
              let '(made, w1) := match Path.parent cache_path with
                                 | Some parent => create_dir_all parent w
                                 | None => (None, w)
                                 end in
              match made with
              | Some e => (Err (CacheIo e), w1)
              | None =>
                  match shot_to_string toml cache with
                  | Err e => (Err (Serialize e), w1)
                  | Ok body =>
                      match write_file cache_path body w1 with
                      | (Some e, w2) => (Err (CacheIo e), w2)
                      | (None, w2) => (Ok tt, w2)
                      end
                  end
              end
          end
      end
  end.

(** ** The command *)

(** The pour, unless the path is warm. *)
Definition pour_unless (warm : bool) (flags : NoDaemon.Flags) (s : Pull.State)
    : option (result ShotError unit * Pull.State) :=
  if warm then Some (Ok tt, s)
  else (fun '(r, s') => (map_err SPour ((fun _ => tt) <$> r), s'))
         <$> Pour.run_inner host (Verify.pull_flags flags) Verify.pour_args s.

Definition shot_request (graph : ActionGraph.ActionGraph) (root : path) (seed : option CiRepro.ReproducibilitySeed)
    (action : ActionGraph.PlannedAction) : Request.ActionRequest :=
  Verify.finish_request action None seed (Request.build_action_request graph action root).

(** After the configuration is known. *)
Definition shot_in (flags : NoDaemon.Flags) (root : path) (config : Config.Config) (expr : string)
    (st : Pull.State * W) : option (result ShotError VerifyReport * (Pull.State * W)) :=
  let '(s, w) := st in
  match ActionGraph.shot_graph root expr with
  | Err e => Some (Err (SGraph e), st)
  | Ok graph =>
      match Workers.resolve_workers (default Verify.DEFAULT_WORKERS_EXPR (var_os "BARISTA_DAEMON_WORKERS"))
              (Workers.available_parallelism_or_one cores) with
      | Err e => Some (Err (SWorkers e), st)
      | Ok n =>
          let plan := Launcher.new_plan (Verify.resolve_socket_dir (var_os "HOME") config) n
                        (Config.idle_shutdown_secs (Config.daemon config)) in
          match is_warm_path root (ActionGraph.pom_path graph) (last_shot_cache_path root w)
                  (Launcher.socket_path plan) s w with
          | None => None
          | Some (warm, w1) =>
              match pour_unless warm flags s with
              | None => None
              | Some (Err e, s1) => Some (Err e, (s1, w1))
              | Some (Ok _, s1) =>
                  match Verify.start_daemon plan (default root current_dir) w1 with
                  | None => None
                  | Some (Err e, w2) => Some (Err (SLauncher e), (s1, w2))
                  | Some (Ok (entry, handle), w2) =>
                      match dispatch_actions decode_result classify_respawn_error plan entry
                              (shot_request graph root (Verify.ci_seed git_log flags root)) (ActionGraph.module_root graph)
                              (ActionGraph.actions graph) handle no_tally w2 with
                      | None => None
                      | Some (Err e, w3) => Some (Err e, (s1, w3))
                      | Some (Ok (t, _), w3) =>
                          let w4 := if (failed_actions t =? 0)%nat
                            then (update_last_shot_cache root (ActionGraph.pom_path graph) (Launcher.socket_dir plan) s1 w3).2
                            else w3 in
                          Some (Ok (mkReport root ("shot:" +:+ expr) (length (ActionGraph.actions graph)) (executed t)
                                      (failed_actions t) (total_respawns t) (invocations t)
                                      (Z.min (Z.max (now w4 - now w) 0) U64_MAX)), (s1, w4))
                      end
                  end
              end
          end
      end
  end.

(** [run_inner]; the forwarded arguments are not read. *)
Definition run_inner (flags : NoDaemon.Flags) (expr : string) (forwarded : list string) (st : Pull.State * W)
    : option (result ShotError VerifyReport * (Pull.State * W)) :=
  match Project.resolve_project_root (Project.flags (NoDaemon.f_root flags) (NoDaemon.f_file flags)) with
  | None => None
  | Some (Err e) => Some (Err (SProject e), st)
  | Some (Ok root) =>
      match Loader.load_effective_config (Pull.loader_inputs (Project.root root)) with
      | None => None
      | Some (Err e) => Some (Err (SConfig e), st)
      | Some (Ok (config, _)) => shot_in flags (Project.root root) config expr st
      end
  end.

(** [run] after the dispatch. *)
Definition shot_exit (r : result ShotError VerifyReport) (rendered flushed : bool) : Z :=
  match r with
  | Ok report => if negb rendered || negb flushed then 1 else if (0 <? v_failed_actions report)%nat then 1 else 0
  | Err e => if flushed then exit_code e else 1
  end.

(** ** Warm paths *)

(** What a shot looks at. *)
Record Seen := mkSeen { seen_signature : option string; seen_mtime : option Z; seen_pid : option Z }.

Definition sees (project_root pom_path socket_dir : path) (s : Pull.State) (w : W) : Seen :=
  mkSeen (read_lockfile_signature (Profile.join project_root "barista.lock") s) (pom_mtime_ns pom_path w)
    (read_pid (Profile.join socket_dir Launcher.PID_LEAF) w).

(** The record that an update leaves holds what it saw. *)
Lemma update_records root pom_path dir s w w' :
  update_last_shot_cache root pom_path dir s w = (Ok tt, w') ->
  exists cache body w1, version cache = CACHE_SCHEMA_VERSION /\
    sees root pom_path dir s w
      = mkSeen (Some (lockfile_signature cache)) (Some (c_pom_mtime_ns cache)) (Some (daemon_pid cache)) /\
    shot_to_string toml cache = Ok body /\ write_file (last_shot_cache_path root w) body w1 = (None, w').
Proof.
  unfold update_last_shot_cache, sees. intros H.
  destruct (read_lockfile_signature _ s) as [sig|]; [| done].
  destruct (pom_mtime_ns pom_path w) as [mtime|]; [| done].
  destruct (read_pid _ w) as [pid|]; [| done]. cbv zeta in H. set (cache := mkCache _ sig mtime pid _) in H.
  destruct (match Path.parent (last_shot_cache_path root w) with Some parent => create_dir_all parent w | None => (None, w) end)
    as [[e|] w1]; [done |].
  destruct (shot_to_string toml cache) as [body|] eqn:Eb; [| done].
  destruct (write_file _ body w1) as [[e|] w2] eqn:Ew; [done |]. injection H as <-.
  by exists cache, body, w1.
Qed.

(** A shot after a successful one is warm, and only then.  Let a shot
    have recorded its success, and let the record still be on disk.  If the
    lockfile's signature, the time of the POM and the daemon's process are
    what that shot saw and the daemon accepts a connection, then the next
    shot takes the warm path; if one of the three has changed, or nothing
    accepts the connection, it does not. *)
Theorem warm_exact root pom_path dir s w w1 s' w2 :
  shot_toml_law toml -> dir <> "" -> Path.parent (Profile.join dir Launcher.SOCKET_LEAF) = Some dir ->
  update_last_shot_cache root pom_path dir s w = (Ok tt, w1) ->
  (forall body w0, write_file (last_shot_cache_path root w) body w0 = (None, w1) ->
     read_to_string (last_shot_cache_path root w) w2 = Some body) ->
  forall live w3, Launcher.socket_is_live (Profile.join dir Launcher.SOCKET_LEAF) 250 w2 = Some (live, w3) ->
  read_pid (Profile.join dir Launcher.PID_LEAF) w3 = read_pid (Profile.join dir Launcher.PID_LEAF) w2 ->
  exists b w4, is_warm_path root pom_path (last_shot_cache_path root w) (Profile.join dir Launcher.SOCKET_LEAF) s' w2
    = Some (b, w4) /\ (b = true <-> sees root pom_path dir s' w2 = sees root pom_path dir s w /\ live = true).
Proof.
  intros Ht Hd Hp Hu Hr live w3 Hl Hpid.
  apply update_records in Hu as (cache & body & w0 & Hv & -> & Hb & Hw). apply Hr in Hw.
  unfold is_warm_path, load_cache. rewrite Hw. cbn [mbind option_bind]. rewrite (Ht _ _ Hb), Hv, Z.eqb_refl, Hl, Hp.
  cbn [negb]. unfold sees.
  case_bool_decide as H1; cbn [negb]; [| eexists _, _; split; [done |]; split; [done | intros [[= ] _]; congruence]].
  case_bool_decide as H2; cbn [negb]; [| eexists _, _; split; [done |]; split; [done | intros [[= ] _]; congruence]].
  destruct live; [| eexists _, _; split; [done |]; split; [done | by intros []]].
  rewrite Hpid. eexists _, _. split; [done |]. rewrite bool_decide_eq_true, H1, H2. split; [by intros -> |]. by intros [[= ] _].
Qed.

End Shot.
End Shot.
