(* ===== verification/DaemonRuns.v ===== *)
(** * A daemon on a machine, run

    A machine with processes, sockets and files on which the commands of
    verify.rs and shot.rs run, for a project of one module and one of two: the
    hypotheses of the theorems hold of it, and it shows where the retry after
    a crash departs from its documentation, and that a lost task passes for
    success. *)

From S2P Require Import Prelude Version Coords VersionSpec Pom Xml PomXml Effective Profile Source Skipper.
From S2P Require Import Oreq Walker WalkerFacts WalkerGraph Cas Journal Index IndexFacts MetadataXml Fetch CacheSource.
From S2P Require Import CacheSourceFacts Gc Settings Config Loader LoaderFacts Project M2 SortBy Lockfile LockfileFacts.
From S2P Require Import LockStore Pull PullFacts Pour PullRuns Workers Mux MuxFacts MuxStream MuxRuns ActionGraph Reactor.
From stdpp Require Import pretty.
From S2P Require Import ReactorFacts Request CiRepro NoDaemon Launcher LauncherFacts Respawn Dispatch Verify VerifyFacts Shot.

Module DaemonRuns.
Import Dispatch.
#[local] Existing Instance Launcher.M_bind.
#[local] Existing Instance Launcher.M_ret.

(** ** The machine *)

(** How a session goes: its events, and whether the daemon dies of it. *)
Record Answer := mkAnswer { inputs : list NextEvent; dies : bool }.

Record Machine := mkMachine {
  clock : Z;
  files : gmap string string;
  sockets : gmap string Z;
  dead : gset Z;
  next_pid : Z;
  answers : list Answer;
  log : list Request.ActionRequest
}.

Definition tick (d : Z) (w : Machine) : Machine :=
  mkMachine (clock w + d) (files w) (sockets w) (dead w) (next_pid w) (answers w) (log w).
Definition set_files f (w : Machine) : Machine :=
  mkMachine (clock w) f (sockets w) (dead w) (next_pid w) (answers w) (log w).
Definition set_sockets s (w : Machine) : Machine :=
  mkMachine (clock w) (files w) s (dead w) (next_pid w) (answers w) (log w).
Definition kill (pid : Z) (w : Machine) : Machine :=
  mkMachine (clock w) (files w) (sockets w) ({[pid]} ∪ dead w) (next_pid w) (answers w) (log w).

Fixpoint after_flag (flag : string) (l : list string) : option string :=
  match l with
  | [] => None
  | x :: l' => if String.eqb x flag then head l' else after_flag flag l'
  end.

(** A new process binds the socket that its arguments name. *)
Definition start_process (c : Command) (w : Machine) : Machine :=
  mkMachine (clock w) (files w)
    (match after_flag "--socket" (args c) with Some p => <[p := next_pid w]> (sockets w) | None => sockets w end)
    (dead w) (next_pid w + 1) (answers w) (log w).

Definition listening (p : string) (w : Machine) : option IoError :=
  match sockets w !! p with
  | None => Some (mkIo NotFound "no such socket")
  | Some pid => if bool_decide (pid ∈ dead w) then Some (mkIo ConnectionRefused "refused") else None
  end.

Definition vars (k : string) : option string :=
  if String.eqb k "BARISTA_BARBACK_JAR" then Some "/b.jar"
  else if String.eqb k "HOME" then Some "/h"
  else if String.eqb k "BARISTA_DAEMON_WORKERS" then Some "2"
  else None.

#[export] Instance machine_os : Os Machine := {|
  now := clock;
  sleep := tick;
  exists_at p w := bool_decide (p ∈ dom (sockets w)) || String.eqb p "/h/.barista/run";
  is_file_at p w := String.eqb p "/b.jar" || bool_decide (p ∈ dom (files w));
  is_dir_at _ _ := false;
  Launcher.read_to_string p w := files w !! p;
  write_file p t w := (None, set_files (<[p := t]> (files w)) w);
  remove_file p w := set_sockets (delete p (sockets w)) w;
  create_dir_all _ w := (None, w);
  metadata _ _ := None;
  set_mode _ _ w := (None, w);
  connect p w := (listening p w, w);
  spawn c w := (Ok (next_pid w), start_process c w);
  output c w := (Ok (mkOutput (Some 0%Z) "" ""), w);
  try_wait pid w := Ok (if bool_decide (pid ∈ dead w) then Some "exit status: 137" else None);
  wait pid w := if bool_decide (pid ∈ dead w) then Some w else None;
  stderr_chunks _ _ := [];
  var_os := vars;
  which_java := Some "/usr/bin/java";
  current_exe := None;
  canonicalize p _ := Some p
|}.

#[export] Instance machine_laws : OsLaws Machine.
Proof. split; intros; cbn; lia. Qed.

Definition take_answer (request : Request.ActionRequest) (pid : Z) (w : Machine) : Session * Machine :=
  match answers w with
  | [] => (Submitted [NoEvent], mkMachine (clock w) (files w) (sockets w) (dead w) (next_pid w) [] (log w ++ [request]))
  | a :: rest =>
      (Submitted (inputs a),
       mkMachine (clock w) (files w) (sockets w) (if dies a then {[pid]} ∪ dead w else dead w) (next_pid w) rest
         (log w ++ [request]))
  end.

#[export] Instance machine_daemon : Daemon Machine := {|
  session p request w :=
    match sockets w !! p with
    | Some pid => take_answer request pid w
    | None => (ConnectFailed (mkIo NotFound "no such socket"), w)
    end;
  runtime_error := None
|}.

#[export] Instance machine_logged : Respawn.Logged Machine.
Proof.
  refine {| Respawn.sent := log |}; try done.
  - intros p r w. cbn. destruct (sockets w !! p) as [pid|]; [| by rewrite app_nil_r]. unfold take_answer. by destruct (answers w).
  - intros pid w w'. cbn. case_bool_decide; [by intros [= <-] | done].
Defined.

(** ** A project *)

Module Project1.

#[export] Instance env : Environment := fun v => if String.eqb v "HOME" then Some "/h" else None.
#[export] Instance has_settings : FileSystem := fun p => String.eqb p "/h/.m2/settings.xml".

(** The settings: a server with an id, and one without. *)
Definition server (l : list (string * string)) : Xml.Node :=
  Xml.Elem "server" [] ((fun '(name, text) => Xml.Elem name [] [Xml.Content (Xml.Text text)]) <$> l).
Definition settings_with (password : string) : list Xml.Node :=
  [Xml.Elem "settings" [] [Xml.Elem "servers" []
     [server [("id", "releases"); ("username", "ann"); ("password", password)]; server [("password", "{x}")]]]].

#[export] Instance xml : Xml.QuickXml := {|
  Xml.tokens doc := if String.eqb doc "plain" then Xml.events (settings_with "secret")
                    else if String.eqb doc "encrypted" then Xml.events (settings_with "{jSMOWnoPFgsHVpMvz5VrIt5kRbzGpI8u}")
                    else [];
  Xml.decode := Ok;
  Xml.unescape := Ok
|}.
#[export] Instance reader : Loader.ConfigReader := {|
  Loader.read_to_string p := if String.eqb p "/h/.m2/settings.xml" then Ok "plain" else Err "not found";
  Loader.toml_partial _ := Err "syntax";
  Loader.toml_project _ := Err "syntax";
  Loader.current_dir := Some "/p"
|}.
#[export] Instance project_files : Project.ProjectFiles :=
  Project.files_of {["/p/pom.xml" := "<project/>"]} (fun p => String.eqb p "/p").
#[export] Instance tree : ModuleTree := fun p => if String.eqb p "/p" then Ok PullRuns.raw else Err "no pom".

End Project1.
Import Project1.

Definition flags : NoDaemon.Flags := NoDaemon.mkFlags (Some "/p") None false false false 0 false.

(** The state after a pull: the store holds the artifact of the lockfile. *)
Definition pulled : Pull.State :=
  Pull.mkState (Pull.world PullRuns.final) ∅ {["/p/barista.lock" := "lock"]} ∅ [].

Definition done_msg : Mux.Message := Mux.mkMessage "id" "done".
Definition lost_msg : Mux.StreamEvent := Mux.crash_error Mux.UnexpectedEof "id".

Definition answer_done : Answer := mkAnswer [Received (Mux.Progress done_msg); Received (Mux.Result done_msg)] false.
Definition answer_crash : Answer := mkAnswer [Received lost_msg] true.
(** The connection fails, and the daemon lives. *)
Definition answer_cut : Answer := mkAnswer [Received lost_msg] false.

Definition decode (m : Mux.Message) : Request.ActionResult := Request.mkResult (Mux.action_id m) 1 0 "" None.

Definition machine (l : list Answer) : Machine := mkMachine 0 ∅ ∅ ∅ 1 l [].

Definition prepared (phase : ActionGraph.MavenPhase) (l : list Answer) :=
  Verify.prepare_job PullRuns.host (fun _ => None) (Some 4%Z) None 5 flags phase [] (pulled, machine l).

Example prepared_ok :
  match prepared ActionGraph.Compile [] with
  | Some (Ok job, (_, w)) => length (Reactor.modules (Verify.j_reactor job)) = 1 /\
      Verify.j_handle job = Launcher.mkHandle "/h/.barista/run/barback.sock" (Some 1%Z) /\ log w = []
  | _ => False
  end.
Proof. vm_compute. done. Qed.

Definition no_job : Verify.Job :=
  Verify.mkJob "" (Reactor.mkReactor [] []) None None (Launcher.new_plan "" 0 0) (Launcher.Jar "") (Launcher.mkHandle "" None).

Definition is_prepared {A B} (o : option (result A Verify.Job * B)) : bool :=
  match o with Some (Ok _, _) => true | _ => false end.

Lemma is_prepared_ok {A B} (o : option (result A Verify.Job * (B * Machine))) (b : B) w :
  is_prepared o = true ->
  o = Some (Ok (match o with Some (Ok job, _) => job | _ => no_job end),
            (match o with Some (_, st) => st.1 | None => b end, match o with Some (_, st) => st.2 | None => w end)).
Proof. by destruct o as [[[job|e] [s' w']]|]. Qed.

(** *** A compilation *)

Definition compile_answers : list Answer := [answer_done; answer_done].
Definition compile_machine : Machine := machine compile_answers.
Definition compile_prep :=
  Verify.prepare_job PullRuns.host (fun _ => None) (Some 4%Z) None 5 flags ActionGraph.Compile [] (pulled, compile_machine).
Definition compile_job : Verify.Job := match compile_prep with Some (Ok job, _) => job | _ => no_job end.
Definition compile_state : Pull.State := match compile_prep with Some (_, st) => st.1 | None => pulled end.
Definition compile_world : Machine := match compile_prep with Some (_, st) => st.2 | None => machine [] end.

Lemma compile_prepared : compile_prep = Some (Ok compile_job, (compile_state, compile_world)).
Proof. apply (is_prepared_ok compile_prep pulled (machine [])). vm_compute. reflexivity. Qed.

Definition the_module (job : Verify.Job) : Reactor.ModuleNode :=
  match Reactor.modules (Verify.j_reactor job) with
  | m :: _ => m
  | [] => Reactor.mkNode (Reactor.mkId "" "") "" (ActionGraph.mkGraph "" "" []) []
  end.

Lemma compile_module : Reactor.modules (Verify.j_reactor compile_job) = [the_module compile_job].
Proof. vm_compute. reflexivity. Qed.

Definition compile_run :=
  Verify.dispatch_single_module decode compile_job (Reactor.action_graph (the_module compile_job)) compile_world.

Definition compile_tally : Tally := match compile_run with Some (Ok (t, _), _) => t | _ => no_tally end.
Definition compile_handle : Launcher.DaemonHandle :=
  match compile_run with Some (Ok (_, h), _) => h | _ => Launcher.mkHandle "" None end.
Definition compile_end : Machine := match compile_run with Some (_, w) => w | None => machine [] end.

Definition is_run {E A} (o : option (result E (Tally * A) * Machine)) : bool :=
  match o with Some (Ok _, _) => true | _ => false end.

Lemma is_run_ok {E A} (o : option (result E (Tally * A) * Machine)) (a : A) w :
  is_run o = true ->
  o = Some (Ok (match o with Some (Ok (t, _), _) => t | _ => no_tally end,
                match o with Some (Ok (_, h), _) => h | _ => a end), match o with Some (_, w') => w' | None => w end).
Proof. by destruct o as [[[[t h]|e] w']|]. Qed.

Lemma compile_ran : compile_run = Some (Ok (compile_tally, compile_handle), compile_end).
Proof. apply (is_run_ok compile_run (Launcher.mkHandle "" None) (machine [])). vm_compute. reflexivity. Qed.

Lemma same_job {E A B} (o : option (result E A * B)) x y b c :
  o = Some (Ok x, b) -> o = Some (Ok y, c) -> y = x.
Proof. by intros -> [= -> _]. Qed.

Lemma same_ok {E A} (x y : A) : (Ok x : result E A) = Ok y -> y = x.
Proof. by intros [= ->]. Qed.


(** *** A deployment *)

Definition deploy_prep :=
  Verify.prepare_job PullRuns.host (fun _ => None) (Some 4%Z) None 5 flags ActionGraph.Deploy [] (pulled, compile_machine).
Definition deploy_job : Verify.Job := match deploy_prep with Some (Ok job, _) => job | _ => no_job end.
Definition deploy_state : Pull.State := match deploy_prep with Some (_, st) => st.1 | None => pulled end.
Definition deploy_world : Machine := match deploy_prep with Some (_, st) => st.2 | None => machine [] end.

Lemma deploy_prepared : deploy_prep = Some (Ok deploy_job, (deploy_state, deploy_world)).
Proof. apply (is_prepared_ok deploy_prep pulled (machine [])). vm_compute. reflexivity. Qed.

Definition deploy_request : Request.ActionRequest :=
  Verify.single_request (Reactor.action_graph (the_module deploy_job)) (Verify.j_root deploy_job)
    (Verify.j_creds deploy_job) (Verify.j_seed deploy_job) (ActionGraph.mkAction "deploy" false).

Definition ann : Request.Credential := Request.mkCredential "releases" "ann" (Some (Request.Password "secret")).

Lemma credentials_scoped_witness :
  Request.credentials deploy_request = Some (Request.mkEnvelope [ann]) /\
  exists servers, VerifyFacts.loaded flags "/p" servers /\
    VerifyFacts.credential_of <$> filter VerifyFacts.named servers = [ann] /\ length servers = 2.
Proof.
  pose proof (VerifyFacts.credentials_scoped PullRuns.host (fun _ => None) (Some 4%Z) None 5 flags ActionGraph.Deploy []
    pulled compile_machine (Ok deploy_job) deploy_state deploy_world deploy_prepared)
    as (dir & servers & HL & Hd & _ & Hc & Hreq).
  assert (Ed : Verify.j_root deploy_job = "/p") by (vm_compute; reflexivity).
  assert (Ec : Verify.j_creds deploy_job = Some (Request.mkEnvelope [ann])) by (vm_compute; reflexivity).
  split.
  - destruct (Hreq (Reactor.action_graph (the_module deploy_job)) (the_module deploy_job) (ActionGraph.mkAction "deploy" false))
      as [H _]. unfold deploy_request. rewrite H. exact Ec.
  - exists servers. rewrite <- Ed, Hd. split; [exact HL |]. rewrite Ec in Hc. injection Hc as Hc. split; [exact (eq_sym Hc) |].
    destruct HL as (root & config & audit & E1 & -> & E2 & ->). rewrite <- Hd, Ed in E2.
    match type of E2 with ?x = _ => assert (match x with Some (Ok (c, _)) => length (Settings.servers (Config.maven_settings c)) | _ => 0 end = 2)
      as K by (vm_compute; reflexivity) end.
    rewrite E2 in K. exact K.
Defined.

(** With an encrypted password the command is refused. *)
Example encrypted_refused :
  match @Verify.prepare_job _ _ _ {| Loader.read_to_string p := Ok "encrypted"; Loader.toml_partial _ := Err "syntax";
      Loader.toml_project _ := Err "syntax"; Loader.current_dir := Some "/p" |} _ _ _ _
    PullRuns.host (fun _ => None) (Some 4%Z) None 5 flags ActionGraph.Deploy [] (pulled, compile_machine) with
  | Some (Err (Verify.DeployAuthEncrypted id), _) => id = "releases"
  | _ => False
  end.
Proof. vm_compute. reflexivity. Qed.

(** *** A project of two modules *)

(** The project at [/p] depends on its module at [/p/a], which is built
    first. *)
Definition two_modules : ModuleTree := fun p =>
  if String.eqb p "/p" then
    Ok (Pom.mkPom "4.0.0" None (Some "ex") "app" (Some "1") "jar" None None None None [] None
          [WalkerGraph.ex_dep "a" "1"] ["a"] None [] [] [])
  else if String.eqb p "/p/a" then Ok (WalkerGraph.ex_pom "a" "1" [])
  else Err "no pom".

Definition two_machine : Machine := machine (replicate 4 answer_done).
Definition two_prep := Verify.prepare_job (MT := two_modules)
  PullRuns.host (fun _ => None) (Some 4%Z) None 5 flags ActionGraph.Compile [] (pulled, two_machine).
Definition two_job : Verify.Job := match two_prep with Some (Ok job, _) => job | _ => no_job end.
Definition two_state : Pull.State := match two_prep with Some (_, st) => st.1 | None => pulled end.
Definition two_world : Machine := match two_prep with Some (_, st) => st.2 | None => machine [] end.

Lemma two_prepared : two_prep = Some (Ok two_job, (two_state, two_world)).
Proof. apply (is_prepared_ok two_prep pulled (machine [])). vm_compute. reflexivity. Qed.

Lemma two_levels :
  Reactor.topo_levels (Verify.j_reactor two_job) = [[1]; [0]] /\
  Reactor.root <$> Reactor.modules (Verify.j_reactor two_job) = ["/p"; "/p/a"] /\
  Verify.planned (Verify.j_reactor two_job) = 4.
Proof. vm_compute. done. Qed.

Lemma two_count : length (Reactor.modules (Verify.j_reactor two_job)) <> 1.
Proof. vm_compute. discriminate. Qed.

Definition module_at (i : nat) : Reactor.ModuleNode :=
  default (the_module two_job) (Reactor.modules (Verify.j_reactor two_job) !! i).

Lemma two_lookup i : (i < 2)%nat -> Reactor.modules (Verify.j_reactor two_job) !! i = Some (module_at i).
Proof. intros H. destruct i as [|[|i]]; [vm_compute; reflexivity | vm_compute; reflexivity | lia]. Qed.

Lemma start_one i : (i < 2)%nat ->
  Verify.start_level two_job [i] = {[i := Verify.Running (Verify.module_thread two_job (module_at i))]}.
Proof. intros H. unfold Verify.start_level. cbn [omap list_omap]. by rewrite (two_lookup i H). Qed.

Definition one (i : nat) (tk : Verify.Task) : gmap nat Verify.Task := {[i := tk]}.

Lemma replace_one {P : gmap nat Verify.Task * Machine -> Prop} i tk tk' w :
  P (<[i := tk']> (one i tk), w) -> P (one i tk', w).
Proof. unfold one. by rewrite insert_singleton, decide_True. Qed.

(** A module that runs alone in its level. *)
Fixpoint run_module (n i : nat) (th : Thread Verify.VerifyError) (w : Machine) : option (Thread Verify.VerifyError * Machine) :=
  match n with
  | O => Some (th, w)
  | S n' => '(th', w') ← Verify.module_step decode two_job (module_at i) th w; run_module n' i th' w'
  end.

Lemma run_module_pool n i : (i < 2)%nat -> forall th w th' w', run_module n i th w = Some (th', w') ->
  rtc (Verify.pool_step decode two_job) (one i (Verify.Running th), w) (one i (Verify.Running th'), w').
Proof.
  intros Hi. induction n as [|n IH]; intros th w th' w' H; cbn [run_module] in H; [by injection H as <- <- |].
  apply bind_Some in H as ([th1 w1] & Hs & H). eapply rtc_l; [| by apply IH].
  apply (replace_one _ (Verify.Running th)).
  eapply Verify.pool_run; [apply lookup_singleton_eq | by apply two_lookup | exact Hs].
Qed.

(** The module at [i] built from [w]: its thread and the machine after it. *)
Definition ran_module (i : nat) (w : Machine) : option (Thread Verify.VerifyError * Machine) :=
  run_module 3 i (Verify.module_thread two_job (module_at i)) w.

Definition result_of (o : option (Thread Verify.VerifyError * Machine)) : Tally :=
  match o with Some (Finished _ (Ok (t, _)), _) => t | _ => no_tally end.
Definition machine_of (o : option (Thread Verify.VerifyError * Machine)) : Machine :=
  match o with Some (_, w) => w | None => machine [] end.
Definition finished (o : option (Thread Verify.VerifyError * Machine)) : bool :=
  match o with Some (Finished _ (Ok (t, _)), _) => (failed_actions t =? 0)%nat | _ => false end.

Lemma finished_ok o : finished o = true ->
  exists h, o = Some (Finished _ (Ok (result_of o, h)), machine_of o) /\ failed_actions (result_of o) = 0.
Proof.
  destruct o as [[[| | |[[t h]|e]] w]|]; try discriminate. cbn. intros Hf%Nat.eqb_eq. by exists h.
Qed.

Lemma level_of_one i w : (i < 2)%nat -> finished (ran_module i w) = true ->
  Verify.level_runs decode two_job [i] w {[i := Ok (result_of (ran_module i w))]} false (machine_of (ran_module i w)) /\
  Verify.aborted {[i := Ok (result_of (ran_module i w))]} || false = false.
Proof.
  intros Hi (h & E & Hf)%finished_ok. revert E Hf. generalize (result_of (ran_module i w)) (machine_of (ran_module i w)).
  intros t w' E Hf. split.
  - set (tk := Verify.Running (Finished Verify.VerifyError (Ok (t, h)))).
    assert (H : Verify.level_runs decode two_job [i] w (omap Verify.outcome (one i tk)) (Verify.any_lost (one i tk)) w').
    { apply Verify.level_ran; [rewrite start_one by exact Hi; by apply (run_module_pool 3) |].
      intros j x Hj. unfold one in Hj. apply lookup_singleton_Some in Hj as [_ <-]. left. by eexists. }
    unfold one, Verify.any_lost in H. rewrite map_to_list_singleton in H.
    rewrite (omap_singleton_Some _ _ _ (Ok t)) in H by reflexivity. exact H.
  - unfold Verify.aborted. rewrite map_to_list_singleton. cbn. by rewrite Hf.
Qed.

(** Both modules are built. *)
Definition two_mid : Machine := machine_of (ran_module 1 two_world).
Definition two_end : Machine := machine_of (ran_module 0 two_mid).
Definition two_results : gmap nat (result Verify.VerifyError Tally) :=
  (∅ ∪ {[0 := Ok (result_of (ran_module 0 two_mid))]}) ∪ {[1 := Ok (result_of (ran_module 1 two_world))]}.

Lemma two_built : Verify.levels_run decode two_job [[1]; [0]] two_world two_results false two_end.
Proof.
  destruct (level_of_one 1 two_world) as [H1 A1]; [lia | vm_compute; reflexivity |].
  destruct (level_of_one 0 two_mid) as [H0 A0]; [lia | vm_compute; reflexivity |].
  eapply Verify.levels_next; [exact H1 | exact A1 |]. eapply Verify.levels_next; [exact H0 | exact A0 | apply Verify.levels_done].
Qed.

Definition two_tally : Tally :=
  match Verify.dispatch_reactor_modules two_job two_results with Ok t => t | Err _ => no_tally end.

Definition two_report : VerifyReport :=
  Verify.make_report two_job ActionGraph.Compile two_tally (now two_end - now two_machine).

Lemma ok_or {E A} (r : result E A) (a : A) (f : A -> bool) :
  match r with Ok x => f x | Err _ => false end = true -> r = Ok (match r with Ok x => x | Err _ => a end).
Proof. by destruct r. Qed.

Lemma two_aggregated : Verify.dispatch_reactor_modules two_job two_results = Ok two_tally.
Proof. apply (ok_or _ no_tally (fun _ => true)). vm_compute. reflexivity. Qed.

Lemma two_lifecycle :
  Verify.dispatch_lifecycle (MT := two_modules) PullRuns.host decode (fun _ => None) (Some 4%Z) None None 5 flags
    ActionGraph.Compile [] (pulled, two_machine) (Ok two_report) false (two_state, two_end).
Proof.
  pose proof (Verify.lifecycle_modules (MT := two_modules) PullRuns.host decode (fun _ => None) (Some 4%Z) None None 5 flags
    ActionGraph.Compile [] (pulled, two_machine) two_job two_state two_world two_results false two_end
    two_prepared two_count eq_refl) as H.
  rewrite (proj1 two_levels), two_aggregated in H. exact (H two_built).
Qed.

Lemma two_exit : Verify.phase_exit (Ok two_report) true true = 0%Z.
Proof. vm_compute. reflexivity. Qed.

Lemma two_discovered :
  match Reactor.discover_modules (T := two_modules) 5 (Verify.j_root two_job) with
  | Some (Ok ds) => Reactor.d_root <$> ds = ["/p"; "/p/a"]
  | _ => False
  end.
Proof. vm_compute. reflexivity. Qed.

Lemma two_groups {A B} (P : A -> B -> Prop) x y l : Forall2 P [x; y] l -> exists a b, l = [a; b] /\ P x a /\ P y b.
Proof.
  intros H. apply Forall2_cons_inv_l in H as (a & l1 & Ha & H & ->). apply Forall2_cons_inv_l in H as (b & l2 & Hb & H & ->).
  apply Forall2_nil_inv_l in H as ->. by exists a, b.
Qed.

Lemma lifecycle_success_witness :
  exists top below, v_invocations two_report = List.concat [top; below] /\
    VerifyFacts.built ActionGraph.Compile "/p" top /\ VerifyFacts.built ActionGraph.Compile "/p/a" below /\
    ActionGraph.phase_prefix ActionGraph.Compile = ["process-resources"; "compile"].
Proof.
  pose proof (VerifyFacts.lifecycle_success (MT := two_modules) PullRuns.host decode (fun _ => None) (Some 4%Z) None None 5 flags
    ActionGraph.Compile [] (pulled, two_machine) (Ok two_report) (two_state, two_end) true true
    two_lifecycle two_exit) as (report & job & st1 & ds & groups & E & Hj & Hds & Hi & Hb & _).
  apply (same_job _ _ _ _ _ two_prepared) in Hj. rewrite Hj in Hds. pose proof two_discovered as K. rewrite Hds in K.
  apply same_ok in E. rewrite K in Hb. rewrite <- E.
  apply two_groups in Hb as (top & below & Hg & H1 & H2). rewrite Hg in Hi. exists top, below.
  split_and!; [exact Hi | exact H1 | exact H2 | reflexivity].
Defined.

(** The task of the first level is lost before its thread starts. *)
Lemma two_lost : Verify.levels_run decode two_job [[1]; [0]] two_world ∅ true two_world.
Proof.
  apply Verify.levels_abort; [| done].
  assert (H : Verify.level_runs decode two_job [1] two_world (omap Verify.outcome {[1 := Verify.Lost]})
    (Verify.any_lost {[1 := Verify.Lost]}) two_world).
  { apply Verify.level_ran.
    - rewrite start_one by lia. apply rtc_once, (replace_one 1 (Verify.Running (Verify.module_thread two_job (module_at 1)))).
      eapply Verify.pool_lost; [apply lookup_singleton_eq | apply two_lookup; lia | by left].
    - intros i tk Hi. apply lookup_singleton_Some in Hi as [_ <-]. by right. }
  exact H.
Qed.

(** A lost task is not a failure: nothing of the project was built, and the
    command exits with 0. *)
Theorem lost_task_passes :
  exists report st',
    Verify.dispatch_lifecycle (MT := two_modules) PullRuns.host decode (fun _ => None) (Some 4%Z) None None 5 flags
      ActionGraph.Compile [] (pulled, two_machine) (Ok report) true st' /\
    Verify.phase_exit (Ok report) true true = 0%Z /\ executed_actions report = 0 /\ planned_actions report = 4.
Proof.
  pose proof (Verify.lifecycle_modules (MT := two_modules) PullRuns.host decode (fun _ => None) (Some 4%Z) None None 5 flags
    ActionGraph.Compile [] (pulled, two_machine) two_job two_state two_world ∅ true two_world
    two_prepared two_count eq_refl) as H.
  rewrite (proj1 two_levels) in H. specialize (H two_lost).
  assert (Verify.dispatch_reactor_modules two_job ∅ = Ok no_tally) as E by (vm_compute; reflexivity). rewrite E in H.
  eexists _, _. split; [exact H |]. cbn [Verify.make_report executed_actions planned_actions].
  rewrite (proj2 (proj2 two_levels)). split; [reflexivity | split; reflexivity].
Qed.

(** *** An attempt over a connection *)


(** *** A shot *)

#[local] Instance shot_digest : Cas.Digest := LockfileFacts.toy_digest.

#[local] Instance LastShotCache_eq_dec : EqDecision Shot.LastShotCache.
Proof. solve_decision. Defined.

Definition shot_signature : string := default "" (Shot.read_lockfile_signature PullRuns.host "/p/barista.lock" pulled).

Definition shot_record : Shot.LastShotCache := Shot.mkCache 1 shot_signature 5 1 0.
Definition shot_toml : Shot.ShotToml :=
  Shot.mkShotToml (fun s => if String.eqb s "record" then Some shot_record else None)
    (fun c => if decide (c = shot_record) then Ok "record" else Err "unsupported").

Lemma shot_toml_ok : Shot.shot_toml_law shot_toml.
Proof. intros c s. cbn. case_decide; [| done]. by intros [= <-]; subst. Qed.

Lemma pair_eta {A B} (x : A * B) a : x.1 = a -> x = (a, x.2).
Proof. destruct x. by intros <-. Qed.

(** A daemon is up, and a shot has succeeded. *)
Definition shot_world : Machine :=
  mkMachine 0 {["/h/.barista/run/barback.pid" := "1"]} {["/h/.barista/run/barback.sock" := 1%Z]} ∅ 2 [] [].

Definition shot_update :=
  Shot.update_last_shot_cache PullRuns.host shot_toml "/tmp" (fun _ _ => Some 5%Z) (fun _ => 0%Z)
    "/p" "/p/pom.xml" "/h/.barista/run" pulled shot_world.
Definition shot_after : Machine := shot_update.2.

Lemma shot_updated : shot_update = (Ok tt, shot_after).
Proof. apply (pair_eta shot_update (Ok tt)). vm_compute. reflexivity. Qed.

Definition shot_file : Config.path := Shot.last_shot_cache_path "/tmp" "/p" shot_world.

Lemma machine_written p body w w' : write_file p body w = (None, w') -> read_to_string p w' = Some body.
Proof. intros [= <-]. cbn. apply lookup_insert_eq. Qed.

Lemma shot_live : Launcher.socket_is_live "/h/.barista/run/barback.sock" 250 shot_after = Some (true, shot_after).
Proof. vm_compute. reflexivity. Qed.

Lemma shot_sees :
  Shot.sees PullRuns.host (fun _ _ => Some 5%Z) "/p" "/p/pom.xml" "/h/.barista/run" pulled shot_after
  = Shot.sees PullRuns.host (fun _ _ => Some 5%Z) "/p" "/p/pom.xml" "/h/.barista/run" pulled shot_world.
Proof. vm_compute. reflexivity. Qed.

Lemma warm_exact_witness :
  exists b w, Shot.is_warm_path PullRuns.host shot_toml (fun _ _ => Some 5%Z) "/p" "/p/pom.xml" shot_file
      "/h/.barista/run/barback.sock" pulled shot_after = Some (b, w) /\ b = true.
Proof.
  pose proof (Shot.warm_exact PullRuns.host shot_toml "/tmp" (fun _ _ => Some 5%Z) (fun _ => 0%Z)
    "/p" "/p/pom.xml" "/h/.barista/run" pulled shot_world shot_after pulled shot_after
    shot_toml_ok (fun H => ltac:(discriminate H)) eq_refl shot_updated (fun body w => machine_written shot_file body w shot_after) true shot_after
    shot_live eq_refl) as (b & w & H & Hb).
  exists b, w. split; [exact H |]. apply Hb. split; [exact shot_sees | reflexivity].
Defined.

(** *** Where the retry departs from its documentation *)

Definition plan : Launcher.LaunchPlan := Launcher.new_plan "/h/.barista/run" 2 60.
Definition entry : Launcher.JvmEntry := Launcher.Jar "/b.jar".
Definition start : Launcher.M Machine Launcher.DaemonHandle := Launcher.discover_or_spawn plan (mret entry).

Definition a_request (name : string) : Request.ActionRequest :=
  Request.build_action_request (ActionGraph.mkGraph "/p" "/p/pom.xml" []) (ActionGraph.mkAction name true) "/p".

Definition submit (name : string) (h : Launcher.DaemonHandle) (w : Machine) :=
  Respawn.submit_with_respawn plan h entry (a_request name) w.

Lemma discover_or_spawn_exact_witness :
  exists r w, start (machine []) = Some (r, w).
Proof.
  destruct (LauncherFacts.discover_or_spawn_exact plan (mret entry) (machine []) ltac:(discriminate)
    (LauncherFacts.returns_ret entry)) as (r & w & H & _).
  exists r, w. exact H.
Defined.

(** After a start and a submission. *)
Definition submitted {A} (name : string) (l : list Answer)
    (f : option (result Respawn.RespawnError (Respawn.RespawnOutcome * Launcher.DaemonHandle) * Machine) -> A) : option A :=
  match start (machine l) with
  | Some (Ok h, w) => Some (f (submit name h w))
  | _ => None
  end.

(** The deploy action of a lifecycle is planned as one that is not to be
    retried, and a crash has it submitted a second time. *)
Theorem deploy_submitted_twice :
  match prepared ActionGraph.Deploy (replicate 10 answer_done ++ [answer_crash; answer_done]) with
  | Some (Ok job, (_, w)) =>
      match Verify.dispatch_single_module decode job (Reactor.action_graph (the_module job)) w with
      | Some (Ok _, w') =>
          last (ActionGraph.actions (Reactor.action_graph (the_module job))) = Some (ActionGraph.mkAction "deploy" false) /\
          length (filter (fun r => Request.mojo_coords r = "deploy") (log w')) = 2
      | _ => False
      end
  | _ => False
  end.
Proof. vm_compute. done. Qed.

(** After a respawn the PID file names the daemon that died. *)
Theorem respawn_keeps_pid_file :
  submitted "compile" [answer_crash; answer_done]
    (fun o => match o with
              | Some (Ok (_, h), w) => (Launcher.child h, files w !! "/h/.barista/run/barback.pid")
              | _ => (None, None)
              end)
  = Some (Some 2%Z, Some "1").
Proof. vm_compute. reflexivity. Qed.

(** A connection that fails while the daemon it is to lives: the launcher
    waits for the daemon to end. *)
Theorem respawn_waits_forever :
  submitted "compile" [answer_cut] (fun o => match o with None => true | _ => false end) = Some true.
Proof. vm_compute. reflexivity. Qed.

(** Two modules lose the daemon, and each starts another: the second takes
    the socket of the first, whose daemon lives on without one. *)
Definition two_crashes : option (gset Z * option Z) :=
  match start (machine [answer_crash; answer_crash]) with
  | Some (Ok _, w0) =>
      let step := thread_step decode Verify.VerifyError Verify.classify_respawn_error plan entry
        (fun a => a_request (ActionGraph.phase a)) "/p" in
      let th := Next Verify.VerifyError [ActionGraph.mkAction "compile" true]
        (Launcher.mkHandle (Launcher.socket_path plan) None) no_tally in
      '(a1, w1) ← step th w0;
      '(b1, w2) ← step th w1;
      '(a2, w3) ← step a1 w2;
      '(b2, w4) ← step b1 w3;
      Some (dead w4, sockets w4 !! Launcher.socket_path plan)
  | _ => None
  end.

Theorem two_daemons : two_crashes = Some ({[1%Z]}, Some 3%Z).
Proof. vm_compute. reflexivity. Qed.

End DaemonRuns.
