(* ===== verification/RoasteryStore.v ===== *)
(** * roastery: the content-addressed store

    Models roastery/src/storage/mod.rs, storage/fs.rs and the storage errors
    of error.rs.  The files below [<root>/cas] are a map from directory to
    file to content; a file appears there by one rename.  Each call of the
    file system is a [Turn]: other requests may have changed the files since
    the last one, and the call may fail.  SHA-256 is [Cas.Digest]. *)

From S2P Require Import Prelude Version Coords Cas Journal Index Pom Source Xml PomXml MetadataXml Fetch CacheSource.

Module RoasteryStore.
Import Cas.

Abbreviation Digest := ContentHash.

Definition HEX_LEN : nat := 64.
Definition LIST_CAP : nat := Z.to_nat 10000.

Inductive IoKind : Type := NotFound | AlreadyExists | OtherKind.
Record IoError := mkIo { io_kind : IoKind; io_text : string }.

Inductive BadDigest : Type :=
  | HexChars (n : nat)
  | NotLowercaseHex
  | PrefixTooLong (n : nat)
  | PrefixNotHex
  | HeaderNotAscii.

Inductive StorageError : Type :=
  | SIo (e : IoError)
  | DigestMismatch (expected actual : Digest)
  | InvalidDigest (reason : BadDigest)
  | NotImplemented (backend : string)
  | SOther (context : string).

(** [Digest::from_hex]. *)
Definition from_hex (s : string) : result StorageError Digest :=
  if negb (String.length s =? HEX_LEN)%nat then Err (InvalidDigest (HexChars (String.length s)))
  else if negb (str_forallb CacheSource.is_lower_hex s) then Err (InvalidDigest NotLowercaseHex)
  else match Cas.from_hex s with Ok h => Ok h | Err _ => Err (InvalidDigest NotLowercaseHex) end.

Record Stat := mkStat { size : Z; st_digest : Digest }.

(** ** The state *)

Abbreviation Files := (gmap string (gmap string Bytes)).

(** What happens at a call: [others] may run, and the call may fail. *)
Record Turn := mkTurn { others : Files -> Files; fault : option IoError }.

Record World := mkWorld { files : Files; staged : nat; script : list Turn }.

Definition set_files (f : Files) (w : World) : World := mkWorld f (staged w) (script w).
Definition set_staged (n : nat) (w : World) : World := mkWorld (files w) n (script w).

Definition M (A : Type) : Type := World -> result StorageError A * World.

#[export] Instance M_ret : MRet M := fun A a w => (Ok a, w).
#[export] Instance M_bind : MBind M := fun A B k m w =>
  match m w with
  | (Ok a, w') => k a w'
  | (Err e, w') => (Err e, w')
  end.

Definition raise {A} (e : StorageError) : M A := fun w => (Err e, w).

(** A call of the file system: its failure, if any. *)
Definition turn : M (option IoError) := fun w =>
  match script w with
  | [] => (Ok None, w)
  | t :: rest => (Ok (fault t), mkWorld (others t (files w)) (staged w) rest)
  end.

(** A call whose failure is passed on. *)
Definition call : M unit :=
  e ← turn;
  match e with Some e => raise (SIo e) | None => mret tt end.

Definition see {A} (f : Files -> A) : M A := fun w => (Ok (f (files w)), w).
Definition change (f : Files -> Files) : M unit := fun w => (Ok tt, set_files (f (files w)) w).

(** [path_for]: directory and file below [cas]. *)
Definition path_for (d : Digest) : string * string :=
  let hex := to_hex d in (str_take 2 hex, str_drop 2 hex).

Definition file_at (d : Digest) (f : Files) : option Bytes := f !! (path_for d).1 ≫= (!!) (path_for d).2.

Definition persist_at (d : Digest) (bytes : Bytes) (f : Files) : Files :=
  <[(path_for d).1 := <[(path_for d).2 := bytes]> (default ∅ (f !! (path_for d).1))]> f.

Definition remove_at (d : Digest) (f : Files) : Files := alter (delete (path_for d).2) (path_for d).1 f.

Definition length_of (b : Bytes) : Z := Z.of_nat (length b).

(** A failing call or a missing file: [None] when it is not there. *)
Definition probe {A} (f : Bytes -> A) (d : Digest) : M (option A) :=
  e ← turn;
  match e with
  | Some err => match io_kind err with NotFound => mret None | _ => raise (SIo err) end
  | None => found ← see (file_at d); mret (f <$> found)
  end.

(** ** Operations *)

Definition stat (d : Digest) : M (option Stat) := probe (fun b => mkStat (length_of b) d) d.

(** The open file keeps its content. *)
Definition get (d : Digest) : M (option Bytes) := probe id d.

(** [fs::metadata(..).await.is_ok()]. *)
Definition present (d : Digest) : M bool :=
  e ← turn;
  match e with Some _ => mret false | None => see (fun f => bool_decide (is_Some (file_at d f))) end.

(** What a reader yields: chunks, or an error. *)
Abbreviation CasReader := (list (result IoError Bytes)).

(** Reading to the end; each chunk is a turn (it is read and written). *)
Fixpoint copy (acc : Bytes) (source : CasReader) : M Bytes :=
  match source with
  | [] => mret acc
  | Err e :: _ => raise (SIo e)
  | Ok chunk :: rest => call;; copy (acc ++ chunk) rest
  end.

(** The staging file goes when its handle does. *)
Definition discard {A} (m : M A) : M A := fun w =>
  let '(r, w') := m w in (r, set_staged (pred (staged w')) w').

Definition effect (f : World -> World) : M unit := fun w => (Ok tt, f w).

Definition stage : M unit := call;; effect (fun w => set_staged (S (staged w)) w).

Definition persist `{Cas.Digest} (d : Digest) (bytes : Bytes) : M Stat :=
  e ← turn;
  match e with
  | None => change (persist_at d bytes);; mret (mkStat (length_of bytes) d)
  | Some err =>
      let ok := mret (mkStat (length_of bytes) d) in
      match io_kind err with
      | AlreadyExists => ok
      | _ => there ← present d;
             if (there : bool) then ok else raise (SIo err)
      end
  end.

(** The blob is there: the source is read to its end and dropped. *)
Definition drain_existing (expected : Digest) (source : CasReader) : M Stat :=
  copy [] source;;
  e ← turn;
  match e with
  | Some err => raise (SIo err)
  | None =>
      found ← see (file_at expected);
      match found with
      | Some b => mret (mkStat (length_of b) expected)
      | None => raise (SIo (mkIo NotFound "no such file"))
      end
  end.

(** A new blob: staged, hashed, compared, renamed.  (The two tasks for
    blocking calls do not panic.) *)
Definition write_new `{Cas.Digest} (expected : Digest) (source : CasReader) : M Stat :=
  call;;
  stage;;
  discard
    (call;;
     bytes ← copy [] source;
     call;;
     if bool_decide (sha256 bytes = expected) then persist expected bytes
     else raise (DigestMismatch expected (sha256 bytes))).

Definition put `{Cas.Digest} (expected : Digest) (source : CasReader) : M Stat :=
  there ← present expected;
  if (there : bool) then drain_existing expected source else write_new expected source.

Definition delete (d : Digest) : M bool :=
  e ← turn;
  match e with
  | Some err => match io_kind err with NotFound => mret false | _ => raise (SIo err) end
  | None =>
      found ← see (file_at d);
      match found with
      | Some _ => change (remove_at d);; mret true
      | None => mret false
      end
  end.

(** *** Listing *)

Definition hex_name (n : nat) (s : string) : bool := (String.length s =? n)%nat && str_forallb CacheSource.is_lower_hex s.

Definition has_prefix (p s : string) : bool := bool_decide (is_Some (str_strip_prefix p s)).

(** The filter on a directory. *)
Definition dir_matches (prefix : option string) (dir : string) : bool :=
  match prefix with
  | None => true
  | Some p =>
      if (2 <=? String.length p)%nat then has_prefix (str_take 2 p) dir
      else if (String.length p =? 1)%nat then has_prefix p dir
      else true
  end.

(** The files of a directory, and whether the cap is reached. *)
Fixpoint list_files (prefix : option string) (dir : string) (names : list string) (out : list Digest)
    : result StorageError (list Digest * bool) :=
  match names with
  | [] => Ok (out, false)
  | rest :: names' =>
      if negb (String.length rest =? HEX_LEN - 2)%nat then list_files prefix dir names' out
      else
        let hex := dir +:+ rest in
        if match prefix with Some p => negb (has_prefix p hex) | None => false end
        then list_files prefix dir names' out
        else
          d ← from_hex hex;
          if (LIST_CAP <=? length out + 1)%nat then Ok (out ++ [d], true)
          else list_files prefix dir names' (out ++ [d])
  end.

Fixpoint list_dirs (prefix : option string) (dirs : list (string * list string)) (out : list Digest)
    : result StorageError (list Digest) :=
  match dirs with
  | [] => Ok out
  | (dir, names) :: dirs' =>
      if negb (hex_name 2 dir) || negb (dir_matches prefix dir) then list_dirs prefix dirs' out
      else
        '(out', full) ← list_files prefix dir names out;
        if (full : bool) then Ok out' else list_dirs prefix dirs' out'
  end.

Definition check_prefix (prefix : option string) : result StorageError unit :=
  match prefix with
  | None => Ok tt
  | Some p =>
      if (HEX_LEN <? String.length p)%nat then Err (InvalidDigest (PrefixTooLong (String.length p)))
      else if negb (str_forallb CacheSource.is_lower_hex p) then Err (InvalidDigest PrefixNotHex)
      else Ok tt
  end.

(** Directory entries in some order; of the calls that read them, the first
    may fail. *)
Definition entries (f : Files) : list (string * list string) :=
  (fun x => (x.1, (map_to_list x.2).*1)) <$> map_to_list f.

Definition list_digests (prefix : option string) : M (list Digest) := fun w =>
  match check_prefix prefix with
  | Err e => (Err e, w)
  | Ok _ =>
      match turn w with
      | (Ok (Some err), w1) => match io_kind err with NotFound => (Ok [], w1) | _ => (Err (SIo err), w1) end
      | (_, w1) => (list_dirs prefix (entries (files w1)) [], w1)
      end
  end.

(** ** Errors over HTTP *)

Record ErrorBody := mkBody { eb_code : string; eb_expected : option string; eb_actual : option string }.

Definition body (code : string) : ErrorBody := mkBody code None None.
Definition digest_mismatch (expected actual : string) : ErrorBody := mkBody "BAR-CAS-001" (Some expected) (Some actual).

Definition to_http (e : StorageError) : Z * ErrorBody :=
  match e with
  | DigestMismatch expected actual => (400%Z, digest_mismatch (to_hex expected) (to_hex actual))
  | InvalidDigest _ => (400%Z, body "BAR-CAS-002")
  | NotImplemented _ => (501%Z, body "BAR-CAS-003")
  | SIo _ | SOther _ => (500%Z, body "BAR-CAS-099")
  end.

(** ** Integrity *)

Section Integrity.
Context `{Dig : Cas.Digest}.

(** Every file hashes to its name. *)
Definition intact (f : Files) : Prop := forall d b, hash_wf d -> file_at d f = Some b -> sha256 b = d.

(** Nothing was lost. *)
Definition grows (f g : Files) : Prop := forall d, hash_wf d -> is_Some (file_at d f) -> is_Some (file_at d g).

(** What other requests do between two calls; a rename replaces its target,
    so it does not fail because of it. *)
Record turn_ok (t : Turn) : Prop := mkTurnOk {
  others_intact f : intact f -> intact (others t f);
  others_grow f : intact f -> grows f (others t f);
  fault_posix e : fault t = Some e -> io_kind e <> AlreadyExists
}.

Definition ok (w : World) : Prop := intact (files w) /\ Forall turn_ok (script w).

Lemma grows_refl f : grows f f.
Proof. by intros d. Qed.

Lemma grows_trans f g h : grows f g -> grows g h -> grows f h.
Proof. intros H1 H2 d Hd H. by apply H2, H1. Qed.

(** The paths of two digests differ. *)
Lemma path_inj d e : hash_wf d -> hash_wf e -> path_for d = path_for e -> d = e.
Proof.
  intros Hd He H.
  assert (E : to_hex d = to_hex e).
  { assert (K : forall d, (path_for d).1 +:+ (path_for d).2 = to_hex d).
    { intros x. unfold path_for. cbn [fst snd]. by destruct (to_hex x) as [|a [|b s]]. }
    by rewrite <- (K d), <- (K e), H. }
  destruct Cas.hex_roundtrip as [R _]. pose proof (R d Hd) as A. rewrite E, (R e He) in A. congruence.
Qed.

Lemma file_persist d b f : file_at d (persist_at d b f) = Some b.
Proof. unfold file_at, persist_at. rewrite lookup_insert_eq. cbn. apply lookup_insert_eq. Qed.

Lemma file_persist_ne d e b f : hash_wf d -> hash_wf e -> d <> e -> file_at e (persist_at d b f) = file_at e f.
Proof.
  intros Hd He Hne. unfold file_at, persist_at.
  assert (Hp : path_for d <> path_for e) by (by intros ?%path_inj).
  destruct (path_for d) as [p r], (path_for e) as [q s]; cbn in *. destruct (decide (p = q)) as [->|].
  - rewrite lookup_insert_eq. cbn. rewrite lookup_insert_ne by (intros ->; by apply Hp). by destruct (f !! q).
  - by rewrite lookup_insert_ne.
Qed.

Lemma persist_intact b f : hash_wf (sha256 b) -> intact f ->
  intact (persist_at (sha256 b) b f) /\ grows f (persist_at (sha256 b) b f).
Proof.
  intros Hb HI. split.
  - intros d c Hd. destruct (decide (sha256 b = d)) as [<-|]; [rewrite file_persist; by intros [= ->] |].
    rewrite file_persist_ne by done. by apply HI.
  - intros d Hd. destruct (decide (sha256 b = d)) as [<-|]; [rewrite file_persist; by eexists |].
    by rewrite file_persist_ne.
Qed.

(** What a call guarantees: on a good state it leaves a good state that has
    lost nothing, and its result satisfies [Q] there. *)
Definition spec {A} (m : M A) (Q : A -> Files -> Prop) (E : StorageError -> Prop) : Prop := forall w, ok w ->
  ok (m w).2 /\ grows (files w) (files (m w).2) /\
  match (m w).1 with Ok a => Q a (files (m w).2) | Err e => E e end.

Lemma spec_ret {A} (a : A) (Q : A -> Files -> Prop) E : (forall f, intact f -> Q a f) -> spec (mret a) Q E.
Proof. intros H w [Hi Hs]. split; [done |]. split; [apply grows_refl | by apply H]. Qed.

Lemma spec_raise {A} e (Q : A -> Files -> Prop) (E : StorageError -> Prop) : E e -> spec (raise e) Q E.
Proof. intros H w Hw. split; [done |]. split; [apply grows_refl | done]. Qed.

(** What holds of the files and is kept when they grow may be used later. *)
Lemma spec_bind {A B} (m : M A) (k : A -> M B) P (Q : B -> Files -> Prop) E :
  spec m P E -> (forall a, (forall w, ok w -> P a (files w) ->
    ok (k a w).2 /\ grows (files w) (files (k a w).2) /\
    match (k a w).1 with Ok b => Q b (files (k a w).2) | Err e => E e end)) ->
  spec (m ≫= k) Q E.
Proof.
  intros Hm Hk w Hw. destruct (Hm w Hw) as (H1 & H2 & H3). unfold mbind, M_bind.
  destruct (m w) as [[a|e] w1]; cbn in *; [| done]. destruct (Hk a w1 H1 H3) as (K1 & K2 & K3).
  split; [done |]. split; [by eapply grows_trans | done].
Qed.

Lemma spec_then {A B} (m : M A) (k : A -> M B) (Q : B -> Files -> Prop) E :
  spec m (fun _ _ => True) E -> (forall a, spec (k a) Q E) -> spec (m ≫= k) Q E.
Proof. intros Hm Hk. eapply spec_bind; [exact Hm |]. intros a w Hw _. by apply Hk. Qed.

Lemma spec_weaken {A} (m : M A) (P Q : A -> Files -> Prop) E F :
  spec m P E -> (forall a f, intact f -> P a f -> Q a f) -> (forall e, E e -> F e) -> spec m Q F.
Proof.
  intros Hm HQ HF w Hw. destruct (Hm w Hw) as (H1 & H2 & H3). split; [done |]. split; [done |].
  destruct ((m w).1); [apply HQ; [apply H1 | done] | by apply HF].
Qed.

Lemma spec_turn E : spec turn (fun e _ => forall err, e = Some err -> io_kind err <> AlreadyExists) E.
Proof.
  intros w [Hi Hs]. unfold turn. destruct (script w) as [|t rest] eqn:Es; cbn.
  - rewrite <- Es in Hs. split; [done |]. split; [apply grows_refl | done].
  - apply list.Forall_cons in Hs as [Ht Hs]. split; [split; [by apply others_intact | done] |].
    split; [by apply others_grow | by apply fault_posix].
Qed.

Lemma spec_see {A} (f : Files -> A) (Q : A -> Files -> Prop) E : (forall g, intact g -> Q (f g) g) -> spec (see f) Q E.
Proof. intros H w [Hi Hs]. split; [done |]. split; [apply grows_refl | by apply H]. Qed.

(** Only I/O errors. *)
Definition is_io (e : StorageError) : Prop := match e with SIo _ => True | _ => False end.

Lemma spec_call : spec call (fun _ _ => True) is_io.
Proof.
  eapply spec_bind; [apply spec_turn |]. intros [e|] w Hw _; [by apply (spec_raise _ (fun _ _ => True)) |].
  by apply (spec_ret tt (fun _ _ => True)).
Qed.

Lemma spec_probe {A} (f : Bytes -> A) d :
  spec (probe f d) (fun o g => forall a, o = Some a -> exists b, a = f b /\ (hash_wf d -> file_at d g = Some b /\ sha256 b = d)) is_io.
Proof.
  eapply spec_bind; [apply spec_turn |]. intros [e|] w Hw _.
  - destruct (io_kind e).
    + by apply (spec_ret None (fun o g => forall a, o = Some a -> _)).
    + by apply (spec_raise (SIo e) (fun o g => forall a, o = Some a -> _)).
    + by apply (spec_raise (SIo e) (fun o g => forall a, o = Some a -> _)).
  - unfold see, mret, M_ret, mbind, M_bind. cbn. split; [done |]. split; [apply grows_refl |].
    intros a Ha. apply fmap_Some in Ha as (b & Hb & ->). exists b. split; [done |]. intros Hd. split; [done |].
    by apply (proj1 Hw).
Qed.

Lemma spec_present d : spec (present d) (fun b g => b = true -> is_Some (file_at d g)) is_io.
Proof.
  eapply spec_bind; [apply spec_turn |]. intros [e|] w Hw _.
  - by apply (spec_ret false (fun b g => b = true -> is_Some (file_at d g))).
  - apply (spec_see _ (fun b g => b = true -> is_Some (file_at d g))); [| done]. intros g _. by rewrite bool_decide_eq_true.
Qed.

(** The bytes of a reader, when none of its chunks is an error. *)
Fixpoint read_all (source : CasReader) : option Bytes :=
  match source with
  | [] => Some []
  | Err _ :: _ => None
  | Ok chunk :: rest => app chunk <$> read_all rest
  end.

Lemma spec_copy source : forall acc,
  spec (copy acc source) (fun b _ => app acc <$> read_all source = Some b) is_io.
Proof.
  induction source as [|[chunk|e] source IH]; intros acc; cbn [copy read_all].
  - apply spec_ret. intros f _. cbn. by rewrite app_nil_r.
  - eapply spec_then; [apply spec_call |]. intros _. eapply spec_weaken; [apply IH | | done].
    intros b f _ <-. destruct (read_all source); cbn; [by rewrite app_assoc | done].
  - by apply spec_raise.
Qed.

Lemma spec_effect f (Q : unit -> Files -> Prop) E :
  (forall w, files (f w) = files w /\ script (f w) = script w) -> (forall g, Q tt g) -> spec (effect f) Q E.
Proof.
  intros Hf HQ w [Hi Hs]. destruct (Hf w) as [H1 H2]. unfold ok, effect. cbn. rewrite H1, H2.
  split; [done |]. split; [apply grows_refl | done].
Qed.

Lemma spec_discard {A} (m : M A) (Q : A -> Files -> Prop) E : spec m Q E -> spec (discard m) Q E.
Proof. intros Hm w Hw. destruct (Hm w Hw) as (H1 & H2 & H3). unfold discard. by destruct (m w) as [r w1]. Qed.

Lemma spec_persist bytes : hash_wf (sha256 bytes) ->
  spec (persist (sha256 bytes) bytes)
    (fun st g => st = mkStat (length_of bytes) (sha256 bytes) /\ is_Some (file_at (sha256 bytes) g)) is_io.
Proof.
  intros Hb. eapply spec_bind; [apply spec_turn |]. intros [err|] w Hw Hk.
  - specialize (Hk err eq_refl).
    assert (S : spec (there ← present (sha256 bytes); if there : bool then mret (mkStat (length_of bytes) (sha256 bytes)) else raise (SIo err))
      (fun st g => st = mkStat (length_of bytes) (sha256 bytes) /\ is_Some (file_at (sha256 bytes) g)) is_io).
    { eapply spec_bind; [apply spec_present |]. intros [|] w1 H1 Hp.
      - unfold mret, M_ret. cbn. split; [done |]. split; [apply grows_refl |]. split; [done | by apply Hp].
      - by apply (spec_raise (SIo err) (fun st g => st = mkStat (length_of bytes) (sha256 bytes) /\ is_Some (file_at (sha256 bytes) g))). }
    destruct (io_kind err); [by apply S | done | by apply S].
  - destruct Hw as [Hi Hs]. destruct (persist_intact bytes (files w) Hb Hi) as [P1 P2].
    unfold mbind, M_bind, change, mret, M_ret. cbn. split; [by split |]. split; [done |].
    split; [done |]. rewrite file_persist. by eexists.
Qed.

Lemma spec_pure {A B} (m : M A) (k : A -> M B) (P : A -> Prop) (Q : B -> Files -> Prop) E :
  spec m (fun a _ => P a) E -> (forall a, P a -> spec (k a) Q E) -> spec (m ≫= k) Q E.
Proof. intros Hm Hk. eapply spec_bind; [exact Hm |]. intros a w Hw Ha. by apply Hk. Qed.

Lemma spec_errors {A} (m : M A) (Q : A -> Files -> Prop) (E F : StorageError -> Prop) :
  spec m Q E -> (forall e, E e -> F e) -> spec m Q F.
Proof. intros Hm HF. eapply spec_weaken; [exact Hm | done | exact HF]. Qed.

Lemma spec_drop {A} (m : M A) (Q : A -> Files -> Prop) E : spec m Q E -> spec m (fun _ _ => True) E.
Proof. intros Hm. by eapply spec_weaken. Qed.

(** A stored blob. *)
Definition stored (d : Digest) (g : Files) : Prop := exists b, file_at d g = Some b.

(** What may go wrong with a put: I/O, or a content that does not hash to
    the digest. *)
Definition put_error (d : Digest) (source : CasReader) (e : StorageError) : Prop :=
  is_io e \/ exists b, read_all source = Some b /\ e = DigestMismatch d (sha256 b) /\ sha256 b <> d.

Lemma spec_drain d source :
  spec (drain_existing d source) (fun st g => st_digest st = d /\ is_Some (read_all source) /\ stored d g) is_io.
Proof.
  apply (spec_pure _ _ (fun b => is_Some (read_all source))).
  { eapply spec_weaken; [apply spec_copy | | done]. intros b f _ H. by destruct (read_all source); eexists. }
  intros _ Hr. eapply spec_then; [eapply spec_drop, spec_turn |]. intros [err|]; [by apply spec_raise |].
  eapply spec_bind; [apply (spec_see (file_at d) (fun o g => o = file_at d g)); done |].
  intros [b|] w Hw Hb; [| by apply (spec_raise _ (fun st g => st_digest st = d /\ _))].
  unfold mret, M_ret. cbn. split; [done |]. split; [apply grows_refl |]. split_and!; [done | done | by exists b].
Qed.

Lemma spec_write_new d source : hash_wf d ->
  spec (write_new d source) (fun st g => st_digest st = d /\ is_Some (read_all source) /\ stored d g) (put_error d source).
Proof.
  intros Hd. assert (HE : forall e, is_io e -> put_error d source e) by (by left).
  assert (Hc : spec call (fun _ _ => True) (put_error d source)) by (eapply spec_errors; [apply spec_call | exact HE]).
  eapply spec_then; [exact Hc |]. intros _.
  eapply spec_then; [eapply spec_then; [exact Hc | intros _; by apply spec_effect] |]. intros _. apply spec_discard.
  eapply spec_then; [exact Hc |]. intros _. apply (spec_pure _ _ (fun b => read_all source = Some b)).
  { eapply spec_weaken; [apply spec_copy | | exact HE]. intros b f _ H. by destruct (read_all source). }
  intros bytes Hr. eapply spec_then; [exact Hc |]. intros _. case_bool_decide as Hh.
  - subst d. eapply spec_weaken; [by apply spec_persist | | exact HE].
    intros st f _ (-> & [b Hf]). split_and!; [done | by eexists | by exists b].
  - apply spec_raise. right. by exists bytes.
Qed.

(** Putting a blob: success means that the store holds a blob of the
    digest. *)
Lemma spec_put d source : hash_wf d ->
  spec (put d source) (fun st g => st_digest st = d /\ is_Some (read_all source) /\ stored d g) (put_error d source).
Proof.
  intros Hd. eapply spec_then; [eapply spec_errors; [eapply spec_drop, spec_present | by left] |].
  intros [|]; [eapply spec_errors; [apply spec_drain | by left] | by apply spec_write_new].
Qed.

End Integrity.
End RoasteryStore.
