(* ===== verification/RoasteryAuth.v ===== *)
(** * roastery: who may use the server

    Models roastery/src/config.rs, auth/bearer.rs, auth/layer.rs,
    proto/reapi/auth.rs, the loading of the CA of auth/mtls.rs, and from
    server.rs how they are put together: the choice of the listener, the
    rustls configuration and the capture of the client's certificates.  The
    files of the operator, addresses, URLs, PEM files, the parts of a
    certificate and the TLS handshake of rustls are parameters. *)

From S2P Require Import Prelude Version Coords VersionSpec Pom Xml PomXml Effective Profile Source Skipper.
From S2P Require Import Oreq Walker Cas Journal Index MetadataXml Fetch CacheSource Settings Config Loader.
From S2P Require Import LoaderFacts Project M2 SortBy Lockfile LockStore Pull RoasteryStore.

(** The machine of the server: std's addresses and files, the url crate, and
    certificates. *)
Class ServerHost := {
  Addr : Type;
  parse_addr : string -> option Addr;
  is_loopback : Addr -> bool;
  parse_url : string -> option string;
  create_dir : string -> option string;
  path_exists : string -> bool;
  read_file : string -> result string string;
  subject_from_cert : Cas.Bytes -> string
}.

(** rustls and rustls-pemfile: the certificates and the key of a PEM file, the
    roots of a verifier of client certificates, and a completed handshake. *)
Class Rustls := {
  read_bytes : string -> result string Cas.Bytes;
  pem_certs : Cas.Bytes -> result string (list Cas.Bytes);
  pem_private_key : Cas.Bytes -> result string (option Cas.Bytes);
  Verifier : Type;
  add_root : Cas.Bytes -> option string;
  build_verifier : list Cas.Bytes -> result string Verifier;
  with_single_cert : list Cas.Bytes -> Cas.Bytes -> option string;
  (* [handshake v chain]: with the verifier [v] of client certificates, if
     any, a client that presents [chain] completes the handshake. *)
  handshake : option Verifier -> list Cas.Bytes -> bool
}.

(** [WebPkiClientVerifier], as built without [allow_unauthenticated], turns
    away a client that presents no certificate. *)
Class RustlsLaws `{RU : Rustls} : Prop := {
  anonymous_refused : forall v, handshake (Some v) [] = false
}.

Module RoasteryAuth.
Import Cas.

Section Auth.
Context `{Dig : Cas.Digest} `{SH : ServerHost} `{RU : Rustls}.

(** ** Configuration *)

(** A value of the environment: its bytes, and whether they are UTF-8. *)
Record OsString := mkOs { raw : string; utf8 : bool }.

Definition to_str (o : option OsString) : option string := v ← o; if utf8 v then Some (raw v) else None.

Definition DEFAULT_BIND : string := "127.0.0.1:7878".
Definition DEFAULT_STORAGE_DIR : string := "./.roastery-data".
Definition DEFAULT_UPSTREAM_TIMEOUT_SECS : Z := 30.

Inductive StorageBackend : Type :=
  | Filesystem (root : string)
  | S3 (bucket region : string)
  | Gcs (bucket project : string).

Record TlsConfig := mkTls { cert_path : string; key_path : string }.

Record UpstreamConfig := mkUpstream { fetch_missing : bool; repos : list string; timeout_secs : Z }.

(** [bearer] is the tokens file, [mtls] the certificate authority. *)
Record AuthConfig := mkAuth { bearer : option string; mtls : option string }.

Definition any_configured (a : AuthConfig) : bool :=
  bool_decide (is_Some (bearer a)) || bool_decide (is_Some (mtls a)).

Record ServerConfig := mkConfig {
  bind : Addr;
  storage_dir : string;
  storage : StorageBackend;
  tls : option TlsConfig;
  auth : AuthConfig;
  upstream : UpstreamConfig
}.

Inductive ConfigError : Type :=
  | InvalidBind (s : string)
  | TlsPair
  | MissingSetting (backend setting : string)
  | UnknownBackend (s : string)
  | InvalidFlag (s : string)
  | InvalidRepo (s : string)
  | InvalidTimeout (s : string)
  | ZeroTimeout
  | CannotCreate (dir e : string)
  | NoSuchFile (reason path : string)
  | MtlsWithoutTls
  | OpenBind
  | NoUpstreamRepos
  | CannotRead (path e : string)
  | NoTokens (path : string)
  | BadCa (path e : string)
  | NoCa (path : string)
  | MissingTls
  | BadCert (path e : string)
  | NoCert (path : string)
  | BadKey (path e : string)
  | NoKey (path : string)
  | BadTls (e : string).

Definition parse_bind (o : option OsString) : result ConfigError Addr :=
  let s := default DEFAULT_BIND (to_str o) in ok_or (parse_addr s) (InvalidBind s).

Definition parse_storage_dir (o : option OsString) : string := default DEFAULT_STORAGE_DIR (raw <$> o).

Definition parse_tls (cert key : option OsString) : result ConfigError (option TlsConfig) :=
  match cert, key with
  | None, None => Ok None
  | Some c, Some k => Ok (Some (mkTls (raw c) (raw k)))
  | _, _ => Err TlsPair
  end.

Definition parse_storage_backend (backend bucket region project : option OsString) (dir : string)
    : result ConfigError StorageBackend :=
  let kind := to_ascii_lowercase (default "fs" (to_str backend)) in
  if String.eqb kind "" || String.eqb kind "fs" || String.eqb kind "filesystem" then Ok (Filesystem dir)
  else if String.eqb kind "s3" then
    b ← ok_or (to_str bucket) (MissingSetting "s3" "ROASTERY_STORAGE_BUCKET");
    r ← ok_or (to_str region) (MissingSetting "s3" "ROASTERY_STORAGE_REGION");
    Ok (S3 b r)
  else if String.eqb kind "gcs" then
    b ← ok_or (to_str bucket) (MissingSetting "gcs" "ROASTERY_STORAGE_BUCKET");
    p ← ok_or (to_str project) (MissingSetting "gcs" "ROASTERY_STORAGE_PROJECT");
    Ok (Gcs b p)
  else Err (UnknownBackend kind).

Definition parse_auth (tokens ca : option OsString) : AuthConfig := mkAuth (raw <$> tokens) (raw <$> ca).

Definition parse_bool_flag (s : string) : result ConfigError bool :=
  let t := to_ascii_lowercase (trim s) in
  if bool_decide (t ∈ ["true"; "1"; "yes"; "on"]) then Ok true
  else if bool_decide (t ∈ ["false"; "0"; "no"; "off"; ""]) then Ok false
  else Err (InvalidFlag t).

Fixpoint parse_repos (entries : list string) : result ConfigError (list string) :=
  match entries with
  | [] => Ok []
  | e :: rest =>
      let t := trim e in
      if is_empty t then parse_repos rest
      else url ← ok_or (parse_url t) (InvalidRepo t); us ← parse_repos rest; Ok (url :: us)
  end.

Definition parse_upstream (fetch repos timeout : option OsString) : result ConfigError UpstreamConfig :=
  fm ← match to_str fetch with None => Ok false | Some s => parse_bool_flag s end;
  rs ← match to_str repos with None => Ok [] | Some s => parse_repos (str_split "," s) end;
  t ← match to_str timeout with
      | None => Ok DEFAULT_UPSTREAM_TIMEOUT_SECS
      | Some s => ok_or (parse_uint U32_MAX s) (InvalidTimeout s)
      end;
  if (t =? 0)%Z then Err ZeroTimeout else Ok (mkUpstream fm rs t).

Definition from_env (var : string -> option OsString) : result ConfigError ServerConfig :=
  b ← parse_bind (var "ROASTERY_BIND");
  let dir := parse_storage_dir (var "ROASTERY_STORAGE_DIR") in
  st ← parse_storage_backend (var "ROASTERY_STORAGE_BACKEND") (var "ROASTERY_STORAGE_BUCKET")
         (var "ROASTERY_STORAGE_REGION") (var "ROASTERY_STORAGE_PROJECT") dir;
  t ← parse_tls (var "ROASTERY_TLS_CERT") (var "ROASTERY_TLS_KEY");
  let a := parse_auth (var "ROASTERY_BEARER_TOKENS_FILE") (var "ROASTERY_MTLS_CA_CERT") in
  u ← parse_upstream (var "ROASTERY_UPSTREAM_FETCH_MISSING") (var "ROASTERY_UPSTREAM_REPOS")
        (var "ROASTERY_UPSTREAM_TIMEOUT_SECS");
  Ok (mkConfig b dir st t a u).

Definition check (b : bool) (e : ConfigError) : result ConfigError unit := if b then Ok tt else Err e.

Definition validate_tls (t : option TlsConfig) : result ConfigError unit :=
  match t with
  | None => Ok tt
  | Some t =>
      check (path_exists (cert_path t)) (NoSuchFile "TLS cert file does not exist" (cert_path t));;
      check (path_exists (key_path t)) (NoSuchFile "TLS key file does not exist" (key_path t))
  end.

Definition validate_auth (c : ServerConfig) : result ConfigError unit :=
  match bearer (auth c) with
  | None => Ok tt
  | Some f => check (path_exists f) (NoSuchFile "bearer tokens file does not exist" f)
  end;;
  match mtls (auth c) with
  | None => Ok tt
  | Some ca =>
      check (path_exists ca) (NoSuchFile "mTLS CA cert file does not exist" ca);;
      check (bool_decide (is_Some (tls c))) MtlsWithoutTls
  end.

Definition validate (c : ServerConfig) : result ConfigError unit :=
  match create_dir (storage_dir c) with Some e => Err (CannotCreate (storage_dir c) e) | None => Ok tt end;;
  validate_tls (tls c);;
  validate_auth c;;
  check (is_loopback (bind c) || any_configured (auth c)) OpenBind;;
  check (negb (fetch_missing (upstream c)) || negb (bool_decide (repos (upstream c) = []))) NoUpstreamRepos.

(** ** Bearer tokens *)

Record Entry := mkEntry { e_label : string; e_hash : ContentHash }.

Definition sha256_str (s : string) : ContentHash := sha256 (byte_of <$> list_ascii_of_string s).

Definition hex_prefix (h : ContentHash) (chars : nat) : string := str_take chars (to_hex h).

(** A line of the tokens file. *)
Definition parse_line (line : string) : option Entry :=
  let line := trim line in
  if is_empty line || bool_decide (is_Some (str_strip_prefix "#" line)) then None
  else
    let '(label, secret) :=
      match str_split_once ":" line with
      | Some (l, s) => (trim l, trim s)
      | None => (hex_prefix (sha256_str line) 8, line)
      end in
    if is_empty secret then None else Some (mkEntry label (sha256_str secret)).

(** [str::lines]: a final line feed ends the last line, and a carriage return
    before a line feed is dropped (which the trim does as well). *)
Definition parse_tokens (text : string) : list Entry := omap parse_line (str_split "010" text).

Definition load_tokens (path : string) : result ConfigError (list Entry) :=
  match read_file path with
  | Err e => Err (CannotRead path e)
  | Ok text =>
      let entries := parse_tokens text in
      if bool_decide (entries = []) then Err (NoTokens path) else Ok entries
  end.

Definition parse_bearer_header (header : string) : option string :=
  '(scheme, rest) ← str_split_once " " (Pull.trim_start header);
  if negb (eq_ignore_ascii_case scheme "Bearer") then None
  else let token := trim rest in if is_empty token then None else Some token.

(** [verify]: malformed, or the label of the entry that matches. *)
Definition verify (entries : list Entry) (header : string) : option (option string) :=
  token ← parse_bearer_header header;
  Some (e_label <$> find (fun e => bool_decide (e_hash e = sha256_str token)) entries).

(** ** HTTP *)

Inductive Principal : Type :=
  | Anonymous
  | PBearer (token_id : string)
  | PMtls (subject : string).

Inductive Outcome : Type :=
  | Allow (p : Principal)
  | Deny (log_reason : string).

(** What the layer reads of a request: the header, which may not be ASCII,
    and the certificates of its connection, if there is TLS. *)
Record AuthRequest := mkAuthRequest {
  authorization : option (option string);
  chain : option (list Cas.Bytes)
}.

Definition bearer_outcome (entries : list Entry) (r : AuthRequest) : result string string :=
  match authorization r with
  | Some (Some s) =>
      match verify entries s with
      | Some (Some token_id) => Ok token_id
      | Some None => Err "bearer: unknown token"
      | None => Err "bearer: malformed Authorization header"
      end
  | Some None => Err "bearer: non-ASCII Authorization header"
  | None => Err "bearer: no Authorization header"
  end.

Definition mtls_outcome (r : AuthRequest) : Outcome :=
  match chain r with
  | Some (leaf :: _) => Allow (PMtls (subject_from_cert leaf))
  | Some [] => Deny "mtls: client cert chain extension was empty"
  | None => Deny "mtls: no client cert chain on request"
  end.

Definition decide_request (tokens : option (list Entry)) (with_mtls : bool) (r : AuthRequest) : Outcome :=
  match tokens, with_mtls with
  | None, false => Allow Anonymous
  | None, true => mtls_outcome r
  | Some entries, _ =>
      match bearer_outcome entries r with
      | Ok token_id => Allow (PBearer token_id)
      | Err reason => if with_mtls then mtls_outcome r else Deny reason
      end
  end.

(** ** gRPC *)

(** The interceptor of the data services. *)
Definition reapi_call (tokens : option (list Entry)) (with_mtls : bool) (authorization : option (option string)) : bool :=
  match tokens, with_mtls with
  | None, false => true
  | Some entries, _ =>
      if match authorization with
         | Some (Some header) => match verify entries header with Some (Some _) => true | _ => false end
         | _ => false
         end then true
      else with_mtls
  | None, true => with_mtls
  end.

(** ** The server *)

(** The verifiers that both protocols share. *)
Record Auth := mkAuthLayer { tokens : option (list Entry); with_mtls : bool }.

(** [MtlsVerifier::load_ca]. *)
Fixpoint add_roots (path : string) (certs : list Bytes) : result ConfigError unit :=
  match certs with
  | [] => Ok tt
  | cert :: certs =>
      match add_root cert with
      | Some e => Err (BadCa path e)
      | None => add_roots path certs
      end
  end.

Definition load_ca (path : string) : result ConfigError Verifier :=
  pem ← map_err (BadCa path) (read_bytes path);
  certs ← map_err (BadCa path) (pem_certs pem);
  match certs with
  | [] => Err (NoCa path)
  | _ => add_roots path certs;; map_err (BadCa path) (build_verifier certs)
  end.

Definition build_auth (c : ServerConfig) : result ConfigError Auth :=
  t ← match bearer (auth c) with
      | Some f => Some <$> load_tokens f
      | None => Ok None
      end;
  m ← match mtls (auth c) with
      | Some ca => _ ← load_ca ca; Ok true
      | None => Ok false
      end;
  Ok (mkAuthLayer t m).

(** The rustls configuration of the listener; [None] for the verifier is
    [with_no_client_auth]. *)
Record TlsServer := mkTlsServer {
  cert_chain : list Bytes;
  server_key : Bytes;
  client_verifier : option Verifier;
  alpn_protocols : list string
}.

Definition build_rustls_server_config (c : ServerConfig) : result ConfigError TlsServer :=
  t ← ok_or (tls c) MissingTls;
  cert_pem ← map_err (BadCert (cert_path t)) (read_bytes (cert_path t));
  key_pem ← map_err (BadKey (key_path t)) (read_bytes (key_path t));
  chain ← map_err (BadCert (cert_path t)) (pem_certs cert_pem);
  if bool_decide (chain = []) then Err (NoCert (cert_path t))
  else
    found ← map_err (BadKey (key_path t)) (pem_private_key key_pem);
    key ← ok_or found (NoKey (key_path t));
    verifier ← match mtls (auth c) with
               | Some ca => Some <$> load_ca ca
               | None => Ok None
               end;
    match with_single_cert chain key with
    | Some e => Err (BadTls e)
    | None => Ok (mkTlsServer chain key verifier ["h2"; "http/1.1"])
    end.

(** What the server listens with: [None] is plain TCP. *)
Definition listener (c : ServerConfig) : result ConfigError (option TlsServer) :=
  if bool_decide (is_Some (tls c)) then Some <$> build_rustls_server_config c else Ok None.

(** From the environment to a server that answers. *)
Definition start (var : string -> option OsString) : result ConfigError (ServerConfig * Auth * option TlsServer) :=
  c ← from_env var; validate c;; a ← build_auth c; l ← listener c; Ok (c, a, l).

(** The chain that the acceptor attaches to the requests of a connection whose
    client presented [offered]; without a verifier rustls asks for none. *)
Definition captured (t : TlsServer) (offered : list Bytes) : list Bytes :=
  match client_verifier t with Some _ => offered | None => [] end.

(** The connections a server accepts, by the chain on their requests. *)
Definition accepted (l : option TlsServer) (ch : option (list Bytes)) : Prop :=
  match l with
  | None => ch = None
  | Some t => exists offered, handshake (client_verifier t) offered = true /\ ch = Some (captured t offered)
  end.

Definition allowed (o : Outcome) : bool := match o with Allow _ => true | Deny _ => false end.

Lemma started_ok var c a l : start var = Ok (c, a, l) ->
  validate c = Ok tt /\ build_auth c = Ok a /\ listener c = Ok l.
Proof.
  unfold start. intros (c' & _ & E)%bind_ok_inv. apply bind_ok_inv in E as ([] & Hv & E).
  apply bind_ok_inv in E as (a' & Ha & E). by apply bind_ok_inv in E as (l' & Hl & [= <- <- <-]).
Qed.

(** A configured CA puts a verifier into the listener. *)
Lemma listener_verifies c l : listener c = Ok l -> is_Some (tls c) -> is_Some (mtls (auth c)) ->
  exists ca t v, mtls (auth c) = Some ca /\ load_ca ca = Ok v /\ l = Some t /\ client_verifier t = Some v.
Proof.
  unfold listener. intros E Ht [ca Hm]. rewrite bool_decide_eq_true_2 in E by done.
  destruct (build_rustls_server_config c) as [t|] eqn:Hb; [| done]. injection E as <-.
  unfold build_rustls_server_config in Hb. rewrite Hm in Hb. do 4 apply bind_ok_inv in Hb as (? & _ & Hb).
  case_bool_decide; [done |]. do 2 apply bind_ok_inv in Hb as (? & _ & Hb).
  apply bind_ok_inv in Hb as (v & Hv & Hb). destruct (load_ca ca) as [v'|] eqn:Hca; [| done]. injection Hv as <-.
  destruct (with_single_cert _ _); [done |]. injection Hb as <-. by eexists ca, _, v'.
Qed.

Lemma check_inv b e u : check b e = Ok u -> b = true.
Proof. by destruct b. Qed.

Lemma validate_ok c : validate c = Ok tt ->
  (is_Some (mtls (auth c)) -> is_Some (tls c)) /\
  (is_loopback (bind c) = true \/ is_Some (bearer (auth c)) \/ is_Some (mtls (auth c))).
Proof.
  unfold validate. intros (? & _ & E)%bind_ok_inv. apply bind_ok_inv in E as (? & _ & E).
  apply bind_ok_inv in E as (? & Ha & E). apply bind_ok_inv in E as (? & Ho & _). apply check_inv in Ho. split.
  - intros [ca Hm]. unfold validate_auth in Ha. apply bind_ok_inv in Ha as (? & _ & Ha). rewrite Hm in Ha.
    apply bind_ok_inv in Ha as (? & _ & Ha). by apply check_inv, bool_decide_eq_true in Ha.
  - unfold any_configured in Ho. apply orb_prop in Ho as [|Ho]; [by left | right].
    by apply orb_prop in Ho as [Ho|Ho]; apply bool_decide_eq_true in Ho; [left | right].
Qed.

Lemma build_ok c a : build_auth c = Ok a ->
  with_mtls a = bool_decide (is_Some (mtls (auth c))) /\
  match bearer (auth c) with
  | Some f => exists text, read_file f = Ok text /\ tokens a = Some (parse_tokens text) /\ parse_tokens text <> []
  | None => tokens a = None
  end.
Proof.
  unfold build_auth. intros (t & Ht & E)%bind_ok_inv. apply bind_ok_inv in E as (m & Hm & [= <-]). cbn. split.
  - destruct (mtls (auth c)) as [ca|]; [destruct (load_ca ca); [| done] |]; injection Hm as <-; done.
  - destruct (bearer (auth c)) as [f|]; [| by injection Ht as <-].
    unfold load_tokens in Ht. destruct (read_file f) as [text|e] eqn:Ef; [| done]. cbn in Ht.
    case_bool_decide as Hn; [done |]. injection Ht as <-. by exists text.
Qed.

Context `{RL : @RustlsLaws RU}.

Lemma accepted_leaf c a l ch : validate c = Ok tt -> build_auth c = Ok a -> listener c = Ok l ->
  accepted l ch -> with_mtls a = true -> exists leaf rest, ch = Some (leaf :: rest).
Proof.
  intros Hv Hb Hl Ha Hm. destruct (build_ok c a Hb) as [E _]. rewrite E in Hm. apply bool_decide_eq_true in Hm.
  destruct (listener_verifies c l Hl (proj1 (validate_ok c Hv) Hm) Hm) as (ca & t & v & _ & _ & -> & Ht).
  destruct Ha as (offered & Hh & ->). unfold captured. rewrite Ht in *.
  destruct offered as [|leaf rest]; [by rewrite anonymous_refused in Hh | by exists leaf, rest].
Qed.

(** The secret of a token. *)
Definition knows (entries : list Entry) (r : AuthRequest) (label : string) : Prop :=
  exists header token e, authorization r = Some (Some header) /\ parse_bearer_header header = Some token /\
    e ∈ entries /\ e_hash e = sha256_str token /\ e_label e = label.

Lemma bearer_knows entries r label : bearer_outcome entries r = Ok label -> knows entries r label.
Proof.
  unfold bearer_outcome. destruct (authorization r) as [[header|]|] eqn:Er; [| done | done]. unfold verify.
  destruct (parse_bearer_header header) as [token|] eqn:Ep; [| done]. cbn.
  destruct (find _ entries) as [e|] eqn:Ef; [| done]. intros [= <-]. apply find_some in Ef as [Hin Hh].
  exists header, token, e. rewrite bool_decide_eq_true in Hh. split_and!; try done. by apply list_elem_of_In.
Qed.

(** C27. A server that can be reached from outside is closed.  Let a server
    have started from its environment, with the listener it builds, and let a
    request arrive over a connection that this listener accepted.  Over HTTP
    and over gRPC the request is admitted in the same cases.  When the server
    does not listen on a loopback address, an admitted request has the secret
    of one of the tokens in the operator's file, or came over a connection
    whose client presented a certificate, which the verifier built from the
    configured CA demanded; it is never anonymous.  Assumed of rustls: a
    handshake with that verifier does not complete without a certificate. *)
Theorem auth_closed var c a l r :
  start var = Ok (c, a, l) -> accepted l (chain r) ->
  reapi_call (tokens a) (with_mtls a) (authorization r) = allowed (decide_request (tokens a) (with_mtls a) r) /\
  forall p, is_loopback (bind c) = false -> decide_request (tokens a) (with_mtls a) r = Allow p ->
    match p with
    | Anonymous => False
    | PBearer label => exists file text, bearer (auth c) = Some file /\ read_file file = Ok text /\ knows (parse_tokens text) r label
    | PMtls subject => exists ca t v leaf rest, mtls (auth c) = Some ca /\ load_ca ca = Ok v
        /\ l = Some t /\ client_verifier t = Some v /\ handshake (Some v) (leaf :: rest) = true
        /\ chain r = Some (leaf :: rest) /\ subject = subject_from_cert leaf
    end.
Proof.
  intros (Hv & Hb & Hli)%started_ok Ha. pose proof (accepted_leaf c a l (chain r) Hv Hb Hli Ha) as Hl.
  destruct (build_ok c a Hb) as [Em Et]. split.
  - unfold reapi_call, decide_request, bearer_outcome.
    assert (Hm : with_mtls a = true -> allowed (mtls_outcome r) = true).
    { intros (leaf & rest & E)%Hl. unfold mtls_outcome. by rewrite E. }
    destruct (tokens a) as [entries|].
    + destruct (authorization r) as [[header|]|]; [destruct (verify entries header) as [[|]|] | |];
        try done; destruct (with_mtls a); try done; by rewrite Hm.
    + destruct (with_mtls a); [by rewrite Hm | done].
  - intros p Hloop Hp. destruct (validate_ok c Hv) as [_ [Hc|Hc]]; [congruence |].
    assert (Hmt : decide_request (tokens a) (with_mtls a) r = Allow p -> with_mtls a = true -> mtls_outcome r = Allow p ->
      exists ca t v leaf rest, mtls (auth c) = Some ca /\ load_ca ca = Ok v
        /\ l = Some t /\ client_verifier t = Some v /\ handshake (Some v) (leaf :: rest) = true
        /\ chain r = Some (leaf :: rest) /\ p = PMtls (subject_from_cert leaf)).
    { intros _ Hm Ho. destruct (Hl Hm) as (leaf & rest & E). rewrite Em in Hm. apply bool_decide_eq_true in Hm.
      destruct (listener_verifies c l Hli (proj1 (validate_ok c Hv) Hm) Hm) as (ca & t & v & E1 & E2 & -> & E3).
      exists ca, t, v, leaf, rest. destruct Ha as (offered & Hh & Ho'). unfold captured in Ho'. rewrite E3 in Hh, Ho'.
      rewrite E in Ho'. injection Ho' as <-. split_and!; try done. unfold mtls_outcome in Ho. rewrite E in Ho. congruence. }
    specialize (Hmt Hp). unfold decide_request in Hp. destruct (tokens a) as [entries|] eqn:Ht.
    + destruct (bearer_outcome entries r) as [label|reason] eqn:Eb.
      * injection Hp as <-. destruct (bearer (auth c)) as [file|]; [| done].
        destruct Et as (text & Hf & [= ->] & _). exists file, text. split_and!; [done | done | by apply bearer_knows].
      * destruct (with_mtls a); [| done]. destruct (Hmt eq_refl Hp) as (ca & t & v & leaf & rest & H1 & H2 & H3 & H4 & H5 & H6 & ->). by exists ca, t, v, leaf, rest.
    + destruct (with_mtls a) eqn:Hm.
      * destruct (Hmt eq_refl Hp) as (ca & t & v & leaf & rest & H1 & H2 & H3 & H4 & H5 & H6 & ->). by exists ca, t, v, leaf, rest.
      * exfalso. destruct Hc as [[f Hc]|Hc]; [rewrite Hc in Et; by destruct Et as (? & _ & ? & _) |].
        rewrite bool_decide_eq_true_2 in Em by done. done.
Qed.

(** With both mechanisms configured, a token does not suffice: no connection
    without a certificate is accepted, and with one every request is
    admitted, whatever its token. *)
Theorem token_not_enough var c a l :
  start var = Ok (c, a, l) -> is_Some (bearer (auth c)) -> is_Some (mtls (auth c)) ->
  (forall ch, accepted l ch -> exists leaf rest, ch = Some (leaf :: rest)) /\
  forall r, accepted l (chain r) -> allowed (decide_request (tokens a) (with_mtls a) r) = true.
Proof.
  intros (Hv & Hb & Hl)%started_ok _ Hm. destruct (build_ok c a Hb) as [Em _].
  rewrite bool_decide_eq_true_2 in Em by done.
  split; [intros ch Ha; by eapply accepted_leaf |]. intros r Ha.
  destruct (accepted_leaf c a l _ Hv Hb Hl Ha Em) as (leaf & rest & E).
  unfold decide_request. rewrite Em. unfold mtls_outcome. rewrite E.
  destruct (tokens a); [| done]. by destruct (bearer_outcome _ r).
Qed.

End Auth.
End RoasteryAuth.
