(* ===== verification/RoasteryHttp.v ===== *)
(** * roastery: the HTTP protocol

    Models roastery/src/proto/barista.rs and upstream/coords.rs, fetch.rs and
    error.rs.  A JSON body is its value; matching of routes, header values
    and the client for upstream repositories are parameters or data.  Metrics
    and logs are left out, but for the classification of outcomes. *)

From S2P Require Import Prelude Version Coords VersionSpec Pom Xml PomXml Effective Profile Source Skipper.
From S2P Require Import Oreq Walker Cas Journal Index MetadataXml Fetch CacheSource Settings Config Loader.
From S2P Require Import LoaderFacts Project M2 SortBy Lockfile LockStore Pull RoasteryStore RoasteryAuth.

(** What an upstream repository answers; [join] is that of the url crate. *)
Inductive UpstreamReply : Type :=
  | SendFailed
  | Replied (status : Z) (body : list (result RoasteryStore.IoError Cas.Bytes)).

Class Upstream := {
  join : string -> string -> option string;
  fetch : string -> UpstreamReply
}.

Module RoasteryHttp.
Import Cas RoasteryStore.

(** ** Coordinates of an upstream artifact *)

Definition DEFAULT_TYPE : string := "jar".

Record Coords := mkCoords { group : string; artifact : string; type_ : string; classifier : option string; version : string }.

Inductive InvalidCoords : Type :=
  | HeaderEmpty
  | HasWhitespace
  | Components (n : nat)
  | SegmentEmpty (name : string)
  | IllegalCharacter (name : string).

(** A header value is ASCII. *)
Definition is_whitespace (a : ascii) : bool := ((9 <=? code a) && (code a <=? 13))%N || (code a =? 32)%N.

Definition is_allowed_segment_char (a : ascii) : bool :=
  is_ascii_digit a || is_ascii_upper a || ((97 <=? code a) && (code a <=? 122))%N
  || Ascii.eqb a "." || Ascii.eqb a "_" || Ascii.eqb a "-".

Definition validate_segment (name value : string) : result InvalidCoords unit :=
  if is_empty value then Err (SegmentEmpty name)
  else if str_forallb is_allowed_segment_char value then Ok tt else Err (IllegalCharacter name).

Definition split_parts (parts : list string) : result InvalidCoords Coords :=
  match parts with
  | [g; a; v] => Ok (mkCoords g a DEFAULT_TYPE None v)
  | [g; a; t; v] => Ok (mkCoords g a t None v)
  | [g; a; t; c; v] => Ok (mkCoords g a t (Some c) v)
  | _ => Err (Components (length parts))
  end.

Definition parse (s : string) : result InvalidCoords Coords :=
  if is_empty s then Err HeaderEmpty
  else if negb (str_forallb (fun a => negb (is_whitespace a)) s) then Err HasWhitespace
  else
    c ← split_parts (str_split ":" s);
    validate_segment "group" (group c);;
    validate_segment "artifact" (artifact c);;
    validate_segment "type" (type_ c);;
    match classifier c with Some x => validate_segment "classifier" x | None => Ok tt end;;
    validate_segment "version" (version c);;
    Ok c.

Definition to_maven_path (c : Coords) : string :=
  let suffix := match classifier c with
                | Some x => artifact c +:+ "-" +:+ version c +:+ "-" +:+ x +:+ "." +:+ type_ c
                | None => artifact c +:+ "-" +:+ version c +:+ "." +:+ type_ c
                end in
  str_map (fun a => if Ascii.eqb a "." then "/"%char else a) (group c) +:+ "/" +:+ artifact c +:+ "/" +:+ version c +:+ "/" +:+ suffix.

(** ** Fetching from upstream *)

Inductive AttemptOutcome : Type := AHit (s : Stat) | AMiss | AMismatch | AError.

(** A call whose error is a value. *)
Definition attempt {A} (m : M A) : M (result StorageError A) := fun w => let '(r, w') := m w in (Ok r, w').

Definition is_success (status : Z) : bool := ((200 <=? status) && (status <? 300))%Z.

Section Server.
Context `{Dig : Cas.Digest} `{Up : Upstream}.

Definition try_one (repo path : string) (d : Digest) : M AttemptOutcome :=
  match join repo path with
  | None => mret AError
  | Some url =>
      match fetch url with
      | SendFailed => mret AError
      | Replied status reply =>
          if negb (is_success status) then mret AMiss
          else
            r ← attempt (put d reply);
            mret match r with
                 | Ok st => AHit st
                 | Err (DigestMismatch _ _) => AMismatch
                 | Err _ => AError
                 end
      end
  end.

(** [None] when every repository failed. *)
Fixpoint try_repos (repos : list string) (path : string) (d : Digest) : M (option Stat) :=
  match repos with
  | [] => mret None
  | repo :: rest =>
      o ← try_one repo path d;
      match o with
      | AHit st => mret (Some st)
      | _ => try_repos rest path d
      end
  end.

(** [try_fetch]; no repository at all is an error, which the handler takes
    for a miss. *)
Definition try_fetch (repos : list string) (d : Digest) (c : Coords) : M (option Stat) :=
  match repos with [] => mret None | _ => try_repos repos (to_maven_path c) d end.

(** ** Responses *)

Inductive Payload : Type :=
  | NoBody
  | Blob (b : Bytes)
  | JsonError (e : ErrorBody)
  | JsonMissing (missing : list string)
  | JsonHealth
  | JsonCapabilities (max_batch_missing : Z) (backend : string).

Record Response := mkResponse {
  status : Z;
  content_length : option Z;
  barista_digest : option string;
  payload : Payload
}.

Definition json_error (code : Z) (e : ErrorBody) : Response := mkResponse code None None (JsonError e).

Definition MAX_BATCH_MISSING : Z := 1000.

Definition with_cas_headers (n : Z) (d : Digest) (p : Payload) : Response :=
  mkResponse 200 (Some n) (Some ("sha256:" +:+ to_hex d)) p.

Definition not_found (d : Digest) : Response := json_error 404 (body "BAR-CAS-404").
Definition invalid_coords_response : Response := json_error 400 (body "BAR-CACHE-008").

(** A header: absent, not ASCII, or its text. *)
Abbreviation Header := (option (option string)).

(** ** Handlers *)

Definition serve_from_local (d : Digest) (st : Stat) : M Response :=
  found ← get d;
  match found with
  | Some b => mret (with_cas_headers (size st) d (Blob b))
  | None => mret (not_found d)
  end.

Definition of_result {A} (r : result StorageError A) : M A := fun w => (r, w).

(** A local miss. *)
Definition fetch_upstream (upstream : option (list string)) (coords : Header) (d : Digest) : M Response :=
  match upstream, coords with
  | Some repos, Some None => mret invalid_coords_response
  | Some repos, Some (Some h) =>
      match parse (trim h) with
      | Err _ => mret invalid_coords_response
      | Ok c =>
          fetched ← try_fetch repos d c;
          match fetched with
          | Some _ =>
              st ← stat d;
              match st with Some st => serve_from_local d st | None => mret (not_found d) end
          | None => mret (not_found d)
          end
      end
  | _, _ => mret (not_found d)
  end.

Definition cas_get_inner (upstream : option (list string)) (hex : string) (coords : Header) : M Response :=
  d ← of_result (from_hex hex);
  st ← stat d;
  match st with
  | Some st => serve_from_local d st
  | None => fetch_upstream upstream coords d
  end.

Definition cas_head_inner (hex : string) : M Response :=
  d ← of_result (from_hex hex);
  st ← stat d;
  match st with
  | Some st => mret (with_cas_headers (size st) d NoBody)
  | None => mret (not_found d)
  end.

(** The digest that a header asserts, with or without its prefix. *)
Definition strip_sha256 (s : string) : string := default s (str_strip_prefix "sha256:" s).

Definition header_digest (content_sha256 : Header) : result StorageError (option Digest) :=
  match content_sha256 with
  | None => Ok None
  | Some None => Err (InvalidDigest HeaderNotAscii)
  | Some (Some h) => Some <$> from_hex (strip_sha256 (trim h))
  end.

Definition created (d : Digest) : Response := mkResponse 201 (Some 0%Z) (Some ("sha256:" +:+ to_hex d)) NoBody.

Definition cas_put_inner (hex : string) (content_sha256 : Header) (upload : CasReader) : M Response :=
  d ← of_result (from_hex hex);
  asserted ← of_result (header_digest content_sha256);
  match asserted with
  | Some h =>
      if bool_decide (h = d) then st ← put d upload; mret (created (st_digest st))
      else mret (json_error 400 (digest_mismatch (to_hex d) (to_hex h)))
  | None => st ← put d upload; mret (created (st_digest st))
  end.

Definition parse_digest_loose (s : string) : result StorageError Digest := from_hex (strip_sha256 (trim s)).

Fixpoint parse_all (l : list string) : result StorageError (list Digest) :=
  match l with
  | [] => Ok []
  | s :: l' => d ← parse_digest_loose s; ds ← parse_all l'; Ok (d :: ds)
  end.

Fixpoint absent (ds : list Digest) : M (list string) :=
  match ds with
  | [] => mret []
  | d :: ds' =>
      st ← stat d;
      rest ← absent ds';
      mret (match st with Some _ => rest | None => ("sha256:" +:+ to_hex d) :: rest end)
  end.

Definition cas_missing (digests : list string) : M Response :=
  if (MAX_BATCH_MISSING <? Z.of_nat (length digests))%Z then mret (json_error 413 (body "BAR-CAS-004"))
  else
    ds ← of_result (parse_all digests);
    missing ← absent ds;
    mret (mkResponse 200 None None (JsonMissing missing)).

Definition backend_name (b : RoasteryAuth.StorageBackend) : string :=
  match b with
  | RoasteryAuth.Filesystem _ => "filesystem"
  | RoasteryAuth.S3 _ _ => "s3"
  | RoasteryAuth.Gcs _ _ => "gcs"
  end.

(** ** The server *)

(** A request, after its route is matched. *)
Inductive Call : Type :=
  | GetBlob (hex : string) (coords : Header)
  | HeadBlob (hex : string)
  | PutBlob (hex : string) (content_sha256 : Header) (upload : CasReader)
  | PostMissing (digests : list string)
  | GetHealth
  | GetCapabilities.

Record AppState := mkApp {
  upstream : option (list string);
  backend : RoasteryAuth.StorageBackend;
  guard_of : RoasteryAuth.Auth
}.

(** [build_upstream]: only where the operator asked for it. *)
Definition build_upstream `{SH : ServerHost} (c : RoasteryAuth.ServerConfig) : option (list string) :=
  let u := RoasteryAuth.upstream c in
  if negb (RoasteryAuth.fetch_missing u) || bool_decide (RoasteryAuth.repos u = []) then None
  else Some (RoasteryAuth.repos u).

(** The state of [run]. *)
Definition app_state `{SH : ServerHost} (c : RoasteryAuth.ServerConfig) (a : RoasteryAuth.Auth) : AppState :=
  mkApp (build_upstream c) (RoasteryAuth.storage c) a.

(** [into_response]. *)
Definition respond (m : M Response) : World -> Response * World := fun w =>
  match m w with
  | (Ok r, w') => (r, w')
  | (Err e, w') => let '(code, b) := to_http e in (json_error code b, w')
  end.

Definition unauthorized_response : Response := json_error 401 (body "BAR-AUTH-001").

Definition is_public (c : Call) : bool := match c with GetHealth | GetCapabilities => true | _ => false end.

Definition handle (app : AppState) (c : Call) : World -> Response * World :=
  match c with
  | GetBlob hex coords => respond (cas_get_inner (upstream app) hex coords)
  | HeadBlob hex => respond (cas_head_inner hex)
  | PutBlob hex header upload => respond (cas_put_inner hex header upload)
  | PostMissing digests => respond (cas_missing digests)
  | GetHealth => fun w => (mkResponse 200 None None JsonHealth, w)
  | GetCapabilities => fun w => (mkResponse 200 None None (JsonCapabilities MAX_BATCH_MISSING (backend_name (backend app))), w)
  end.

(** The authentication layer is in front of the protected routes. *)
Definition serve `{SH : ServerHost} (app : AppState) (auth : RoasteryAuth.AuthRequest) (c : Call) (w : World) : Response * World :=
  if is_public c then handle app c w
  else
    match RoasteryAuth.decide_request (RoasteryAuth.tokens (guard_of app)) (RoasteryAuth.with_mtls (guard_of app)) auth with
    | RoasteryAuth.Allow _ => handle app c w
    | RoasteryAuth.Deny _ => (unauthorized_response, w)
    end.

(** How a request is counted. *)
Inductive CasResult : Type := CHit | CMiss | CError.

Definition classify_get_or_head (r : result StorageError Response) : CasResult :=
  match r with
  | Err _ => CError
  | Ok resp => if (status resp =? 404)%Z then CMiss else CHit
  end.

Definition classify_put (r : result StorageError Response) : CasResult :=
  match r with
  | Err _ => CError
  | Ok resp => if is_success (status resp) then CHit else CError
  end.

End Server.

(** Coordinates can name a host: a group that begins with two dots gives a
    path that begins with two slashes, which resolves to another server than
    the repository. *)
Theorem coords_name_a_host :
  exists c, parse "..2130706433:a:1" = Ok c /\ to_maven_path c = "//2130706433/a/1/a-1.jar".
Proof. eexists. split; reflexivity. Qed.

End RoasteryHttp.
