(* ===== verification/RoasteryGrpc.v ===== *)
(** * roastery: the remote execution protocol

    Models roastery/src/proto/reapi.rs and reapi/resource.rs: the services
    for blobs of the Bazel remote execution protocol, over the same store.
    Messages are their fields; a stream of messages is a list, in which an
    error of the transport may occur.  A response that is cut off while it is
    streamed is left out. *)

From S2P Require Import Prelude Version Coords VersionSpec Pom Xml PomXml Effective Profile Source Skipper.
From S2P Require Import Oreq Walker Cas Journal Index MetadataXml Fetch CacheSource Settings Config Loader.
From S2P Require Import LoaderFacts Project M2 SortBy Lockfile LockStore Pull RoasteryStore RoasteryAuth RoasteryHttp.

Module RoasteryGrpc.
Import Cas RoasteryStore.

Inductive Code : Type := InvalidArgument | NotFoundCode | Internal | Unimplemented | Unauthenticated | TransportFailed.

Record ReapiDigest := mkReapi { hash : string; size_bytes : Z }.

Definition I64_MAX : Z := 9223372036854775807.
Definition MAX_BATCH_TOTAL_SIZE_BYTES : Z := 4 * 1024 * 1024.
Definition BYTESTREAM_CHUNK_SIZE : nat := Z.to_nat (64 * 1024).

Definition storage_to_status (e : StorageError) : Code :=
  match e with
  | InvalidDigest _ | DigestMismatch _ _ => InvalidArgument
  | _ => Internal
  end.

(** ** Resource names *)

Record ReadResource := mkRead { r_instance : string; r_digest : Digest; r_size : Z }.
Record WriteResource := mkWrite { w_instance : string; uuid : string; w_digest : Digest; w_size : Z }.

Fixpoint position (s : string) (l : list string) : option nat :=
  match l with
  | [] => None
  | x :: l' => if String.eqb x s then Some 0 else S <$> position s l'
  end.

Definition contains_str (s : string) (l : list string) : bool := bool_decide (is_Some (position s l)).

Definition grpc {A} (r : result StorageError A) : result Code A := map_err storage_to_status r.

Definition parse_size (s : string) : result Code Z := ok_or (parse_uint U64_MAX s) InvalidArgument.

Definition parse_read_resource (name : string) : result Code ReadResource :=
  let segments := str_split "/" name in
  if contains_str "compressed-blobs" segments then Err Unimplemented
  else
    idx ← ok_or (position "blobs" segments) InvalidArgument;
    h ← ok_or (segments !! (idx + 1)) InvalidArgument;
    s ← ok_or (segments !! (idx + 2)) InvalidArgument;
    d ← grpc (from_hex h);
    n ← parse_size s;
    Ok (mkRead (str_join "/" (take idx segments)) d n).

Definition parse_write_resource (name : string) : result Code WriteResource :=
  let segments := str_split "/" name in
  if contains_str "compressed-blobs" segments then Err Unimplemented
  else
    up ← ok_or (position "uploads" segments) InvalidArgument;
    u ← ok_or (segments !! (up + 1)) InvalidArgument;
    if negb (bool_decide (segments !! (up + 2) = Some "blobs")) then Err InvalidArgument
    else
      h ← ok_or (segments !! (up + 3)) InvalidArgument;
      s ← ok_or (segments !! (up + 4)) InvalidArgument;
      d ← grpc (from_hex h);
      n ← parse_size s;
      Ok (mkWrite (str_join "/" (take up segments)) u d n).

Section Grpc.
Context `{Dig : Cas.Digest}.

(** A call, whose status is a value. *)
Definition G (A : Type) : Type := World -> result Code A * World.

#[local] Instance G_ret : MRet G := fun A a w => (Ok a, w).
#[local] Instance G_bind : MBind G := fun A B k m w =>
  match m w with
  | (Ok a, w') => k a w'
  | (Err e, w') => (Err e, w')
  end.

Definition status_of {A} (m : M A) : G A := fun w => let '(r, w') := m w in (grpc r, w').
Definition code {A} (r : result Code A) : G A := fun w => (r, w).
Definition attempted {A} (m : M A) : G (result StorageError A) := fun w => let '(r, w') := m w in (Ok r, w').

(** ** ContentAddressableStorage *)

Fixpoint missing_of (ds : list ReapiDigest) : G (list ReapiDigest) :=
  match ds with
  | [] => mret []
  | rd :: rest =>
      d ← code (grpc (from_hex (hash rd)));
      st ← status_of (stat d);
      missing ← missing_of rest;
      mret (match st with Some _ => missing | None => rd :: missing end)
  end.

Definition find_missing_blobs (ds : list ReapiDigest) : G (list ReapiDigest) :=
  if (RoasteryHttp.MAX_BATCH_MISSING <? Z.of_nat (length ds))%Z then code (Err InvalidArgument) else missing_of ds.

(** The status of one blob; [None] is success. *)
Definition put_one (claimed : ReapiDigest) (data : Bytes) : G (option Code) :=
  if (I64_MAX <? length_of data)%Z then mret (Some InvalidArgument)
  else if negb (size_bytes claimed =? length_of data)%Z then mret (Some InvalidArgument)
  else
    match from_hex (hash claimed) with
    | Err _ => mret (Some InvalidArgument)
    | Ok d =>
        r ← attempted (put d [Ok data]);
        mret match r with
             | Ok _ => None
             | Err e => Some (storage_to_status e)
             end
    end.

Fixpoint put_each (entries : list (option ReapiDigest * Bytes)) : G (list (ReapiDigest * option Code)) :=
  match entries with
  | [] => mret []
  | (claimed, data) :: rest =>
      let claimed := default (mkReapi "" 0) claimed in
      st ← put_one claimed data;
      responses ← put_each rest;
      mret ((claimed, st) :: responses)
  end.

Definition batch_update_blobs (entries : list (option ReapiDigest * Bytes)) : G (list (ReapiDigest * option Code)) :=
  if (MAX_BATCH_TOTAL_SIZE_BYTES <? foldr Z.add 0 (map (fun e => length_of e.2) entries))%Z
  then code (Err InvalidArgument)
  else put_each entries.

(** Opening the file and reading it are two calls. *)
Definition read_one (rd : ReapiDigest) : G (ReapiDigest * Bytes * option Code) :=
  match from_hex (hash rd) with
  | Err _ => mret (rd, [], Some InvalidArgument)
  | Ok d =>
      r ← attempted (get d);
      match r with
      | Ok (Some b) =>
          e ← attempted call;
          mret match e with Ok _ => (rd, b, None) | Err _ => (rd, [], Some Internal) end
      | Ok None => mret (rd, [], Some NotFoundCode)
      | Err _ => mret (rd, [], Some Internal)
      end
  end.

Fixpoint batch_read_blobs (ds : list ReapiDigest) : G (list (ReapiDigest * Bytes * option Code)) :=
  match ds with
  | [] => mret []
  | rd :: rest => r ← read_one rd; rs ← batch_read_blobs rest; mret (r :: rs)
  end.

(** ** ByteStream *)

(** The chunks of a blob; one unit of fuel for each byte. *)
Fixpoint chunks (fuel : nat) (b : Bytes) : list Bytes :=
  match fuel, b with
  | O, _ | _, [] => []
  | S fuel', _ => take BYTESTREAM_CHUNK_SIZE b :: chunks fuel' (drop BYTESTREAM_CHUNK_SIZE b)
  end.

Definition read (resource_name : string) (read_offset : Z) : G (list Bytes) :=
  r ← code (parse_read_resource resource_name);
  if negb (read_offset =? 0)%Z then code (Err Unimplemented)
  else
    found ← status_of (get (r_digest r));
    match found with
    | Some b => mret (chunks (length b) b)
    | None => code (Err NotFoundCode)
    end.

Record WriteRequest := mkWriteRequest {
  resource_name : string;
  write_offset : Z;
  data : Bytes;
  finish_write : bool
}.

(** The messages of a stream: an element that is not a message is a failure of
    the transport. *)
Abbreviation Messages := (list (option WriteRequest)).

(** After the first message: the bytes so far, and how the stream ended. *)
Fixpoint receive (acc : Bytes) (finished : bool) (l : Messages) : Bytes * result Code unit :=
  match l with
  | [] => (acc, Ok tt)
  | None :: _ => (acc, Err TransportFailed)
  | Some m :: rest =>
      if negb (write_offset m =? length_of acc)%Z then (acc, Err InvalidArgument)
      else if finished && negb (bool_decide (data m = [])) then (acc, Err InvalidArgument)
      else receive (acc ++ data m) (finished || finish_write m) rest
  end.

(** The upload to the store reads from a pipe: it sees what was received,
    and the end of the pipe also when the stream fails. *)
Definition write (l : Messages) : G Z :=
  match l with
  | [] => code (Err InvalidArgument)
  | None :: _ => code (Err TransportFailed)
  | Some m :: rest =>
      r ← code (parse_write_resource (resource_name m));
      if negb (write_offset m =? 0)%Z then code (Err InvalidArgument)
      else
        let '(bytes, ended) := receive (data m) (finish_write m) rest in
        stored ← attempted (put (w_digest r) [Ok bytes]);
        match ended with
        | Err c => code (Err c)
        | Ok _ =>
            match stored with
            | Ok _ => mret (length_of bytes)
            | Err e => code (Err (storage_to_status e))
            end
        end
  end.

(** ** The server *)

Inductive Rpc : Type :=
  | FindMissingBlobs (ds : list ReapiDigest)
  | BatchUpdateBlobs (entries : list (option ReapiDigest * Bytes))
  | BatchReadBlobs (ds : list ReapiDigest)
  | Read (resource_name : string) (read_offset : Z)
  | Write (messages : Messages)
  | NotSupported.

Inductive Reply : Type :=
  | Missing (ds : list ReapiDigest)
  | Updated (l : list (ReapiDigest * option Code))
  | Blobs (l : list (ReapiDigest * Bytes * option Code))
  | Chunks (l : list Bytes)
  | Committed (n : Z).

(** [GetTree], [SplitBlob], [SpliceBlob] and [QueryWriteStatus] are not
    supported. *)
Definition handle (c : Rpc) : G Reply :=
  match c with
  | FindMissingBlobs ds => ds ← find_missing_blobs ds; mret (Missing ds)
  | BatchUpdateBlobs l => l ← batch_update_blobs l; mret (Updated l)
  | BatchReadBlobs ds => l ← batch_read_blobs ds; mret (Blobs l)
  | Read name offset => l ← read name offset; mret (Chunks l)
  | Write messages => n ← write messages; mret (Committed n)
  | NotSupported => code (Err Unimplemented)
  end.

Definition serve (auth : RoasteryAuth.Auth) (authorization : option (option string)) (c : Rpc) : G Reply :=
  if RoasteryAuth.reapi_call (RoasteryAuth.tokens auth) (RoasteryAuth.with_mtls auth) authorization then handle c
  else code (Err Unauthenticated).

End Grpc.
End RoasteryGrpc.
