(* ===== verification/RoasteryClient.v ===== *)
(** * barista-roastery-client: the client of the remote cache

    Models crates/barista-roastery-client/src/client.rs, error.rs and
    digest.rs.  The HTTP client underneath is the class [Exchange], which
    takes a request to a response in some state of the world; header values,
    URLs and TLS are its concern.  A server of [RoasteryHttp] is one
    instance. *)

From S2P Require Import Prelude Version Coords VersionSpec Pom Xml PomXml Effective Profile Source Skipper.
From S2P Require Import Oreq Walker Cas Journal Index MetadataXml Fetch CacheSource Settings Config Loader.
From S2P Require Import LoaderFacts Project M2 SortBy Lockfile LockStore Pull RoasteryStore RoasteryAuth RoasteryHttp.

(** Why a request did not get a response. *)
Inductive SendError : Type :=
  | TimedOut
  | ConnectFailed (text : string)
  | OtherFailure.

Class Exchange (W : Type) := {
  header_value : string -> bool;
  endpoint : string -> bool;
  send : RoasteryAuth.AuthRequest -> RoasteryHttp.Call -> W -> result SendError RoasteryHttp.Response * W;
  client_chain : option (list Cas.Bytes)
}.

Module RoasteryClient.
Import Cas RoasteryStore RoasteryHttp.

Inductive ClientError : Type :=
  | ConfigError
  | Network
  | Timeout
  | Tls
  | AuthFailed (code : string)
  | ServerRejected (status : Z) (code : string) (expected actual : option Digest)
  | NotFoundError
  | BadResponse
  | BadDigestError.

(** [from_reqwest]. *)
Definition from_reqwest (e : SendError) : ClientError :=
  match e with
  | TimedOut => Timeout
  | ConnectFailed text =>
      let s := to_ascii_lowercase text in
      if existsb (fun word => bool_decide (is_Some (Pull.str_find word s)))
           ["certificate"; "tls"; "handshake"; "invalidcertificate"; "invalid certificate"]
      then Tls else Network
  | OtherFailure => Network
  end.

(** ** Configuration *)

Inductive AuthConfig : Type := NoAuth | BearerToken (token : string) | ClientCertificate.
Inductive TlsChoice : Type := SystemRoots | CustomCa | PlainHttp.

Record ClientConfig := mkClientConfig { scheme : string; auth : AuthConfig; tls : TlsChoice; max_batch_missing : Z }.

Definition DEFAULT_MAX_BATCH : Z := 1000.

Definition validate (c : ClientConfig) : result ClientError unit :=
  if String.eqb (scheme c) "https" then
    match tls c with PlainHttp => Err ConfigError | _ => Ok tt end
  else if String.eqb (scheme c) "http" then Ok tt
  else Err ConfigError.

Record BlobStat := mkBlobStat { b_size : Z; b_digest : Digest }.

(** The digest of a text, with or without its prefix. *)
Definition prefixed_digest (s : string) : option Digest := CacheSource.digest_from_hex (strip_sha256 s).

Definition parse_blob_stat (r : Response) (expected : Digest) : result ClientError BlobStat :=
  n ← ok_or (content_length r) BadResponse;
  if negb ((0 <=? n) && (n <=? U64_MAX))%Z then Err BadResponse
  else
    h ← ok_or (barista_digest r) BadResponse;
    d ← ok_or (prefixed_digest (trim h)) BadResponse;
    if bool_decide (d = expected) then Ok (mkBlobStat n expected) else Err BadResponse.

(** [check_status]. *)
Definition check_status (r : Response) : result ClientError Response :=
  if is_success (status r) then Ok r
  else
    let parsed := match payload r with JsonError e => Some e | _ => None end in
    if (status r =? 401)%Z then Err (AuthFailed (default "BAR-AUTH-001" (eb_code <$> parsed)))
    else
      Err match parsed with
          | Some e => ServerRejected (status r) (eb_code e) (eb_expected e ≫= prefixed_digest) (eb_actual e ≫= prefixed_digest)
          | None => ServerRejected (status r) "BAR-UNKNOWN" None None
          end.

Section Client.
Context {W : Type} `{Ex : Exchange W}.
Variable config : ClientConfig.

Definition C (A : Type) : Type := W -> result ClientError A * W.

#[local] Instance C_ret : MRet C := fun A a w => (Ok a, w).
#[local] Instance C_bind : MBind C := fun A B k m w =>
  match m w with
  | (Ok a, w') => k a w'
  | (Err e, w') => (Err e, w')
  end.

Definition lift {A} (r : result ClientError A) : C A := fun w => (r, w).

(** [request] and [send]: the token goes with the protected routes. *)
Definition bearer_header (with_auth : bool) : result ClientError (option (option string)) :=
  match with_auth, auth config with
  | true, BearerToken token =>
      let value := "Bearer " +:+ token in
      if header_value value then Ok (Some (Some value)) else Err ConfigError
  | _, _ => Ok None
  end.

Definition exchange (h : option (option string)) (c : Call) : C Response := fun w =>
  match send (RoasteryAuth.mkAuthRequest h client_chain) c w with
  | (Ok r, w') => (Ok r, w')
  | (Err e, w') => (Err (from_reqwest e), w')
  end.

Definition request (path : string) (with_auth : bool) (c : Call) : C Response :=
  lift (if endpoint path then Ok tt else Err ConfigError);;
  h ← lift (bearer_header with_auth);
  exchange h c.

Definition cas_url (d : Digest) : string := "v1/cas/sha256/" +:+ to_hex d.

(** The body of a blob that the payload holds. *)
Definition blob_of (p : Payload) : Bytes := match p with Blob b => b | _ => [] end.

Definition get_blob_inner (d : Digest) (coords : option string) : C (BlobStat * Bytes) :=
  lift (match coords with Some c => if header_value c then Ok tt else Err ConfigError | None => Ok tt end);;
  r ← request (cas_url d) true (GetBlob (to_hex d) (Some <$> coords));
  if (status r =? 404)%Z then lift (Err NotFoundError)
  else
    r ← lift (check_status r);
    st ← lift (parse_blob_stat r d);
    mret (st, blob_of (payload r)).

Definition get_blob (d : Digest) : C (BlobStat * Bytes) := get_blob_inner d None.
Definition get_blob_with_coords (d : Digest) (coords : string) : C (BlobStat * Bytes) := get_blob_inner d (Some coords).

Definition stat_blob (d : Digest) : C (option BlobStat) :=
  r ← request (cas_url d) true (HeadBlob (to_hex d));
  if (status r =? 404)%Z then mret None
  else r ← lift (check_status r); st ← lift (parse_blob_stat r d); mret (Some st).

(** The upload fails where its source does. *)
Definition put_blob (d : Digest) (upload : CasReader) : C unit :=
  r ← request (cas_url d) true (PutBlob (to_hex d) None upload);
  r ← lift (check_status r);
  if negb (status r =? 201)%Z && negb (is_success (status r)) then lift (Err BadResponse) else mret tt.

Fixpoint parse_missing (l : list string) : result ClientError (list Digest) :=
  match l with
  | [] => Ok []
  | s :: l' => d ← ok_or (prefixed_digest (trim s)) BadResponse; ds ← parse_missing l'; Ok (d :: ds)
  end.

Definition missing_chunk (chunk : list Digest) : C (list Digest) :=
  r ← request "v1/cas/missing" true (PostMissing ((fun d => "sha256:" +:+ to_hex d) <$> chunk));
  r ← lift (check_status r);
  match payload r with
  | JsonMissing l => lift (parse_missing l)
  | _ => lift (Err BadResponse)
  end.

(** [digests.chunks(cap)]; one unit of fuel for each digest. *)
Fixpoint missing_loop (fuel : nat) (cap : nat) (ds : list Digest) : C (list Digest) :=
  match fuel, ds with
  | O, _ | _, [] => mret []
  | S fuel', _ =>
      found ← missing_chunk (take cap ds);
      rest ← missing_loop fuel' cap (drop cap ds);
      mret (found ++ rest)
  end.

Definition missing (ds : list Digest) : C (list Digest) :=
  missing_loop (length ds) (Z.to_nat (Z.max (max_batch_missing config) 1)) ds.

Definition health : C Response := r ← request "v1/health" false GetHealth; lift (check_status r).
Definition capabilities : C Response := r ← request "v1/capabilities" false GetCapabilities; lift (check_status r).

(** The client as the cache uses it. *)
Definition cache_error (e : ClientError) : CacheSource.ClientError :=
  match e with
  | NotFoundError => CacheSource.ClientNotFound
  | AuthFailed code => CacheSource.ClientAuth code ""
  | ServerRejected _ code _ _ => CacheSource.ServerRejected code ""
  | Network => CacheSource.ClientNetwork
  | Timeout => CacheSource.ClientTimeout
  | Tls => CacheSource.ClientTls
  | _ => CacheSource.ClientOther
  end.

Definition cache_client (w : W) : CacheSource.RoasteryClient :=
  CacheSource.mkClient
    (fun d coords => map_err cache_error ((fun x => (b_size x.1, Some x.2)) <$> (get_blob_with_coords d coords w).1))
    (fun d bytes _ => map_err cache_error (put_blob d [Ok bytes] w).1).

End Client.

(** ** A server at the other end *)

Section Network.
Context `{Dig : Cas.Digest} `{Up : Upstream} `{SH : ServerHost}.

(** The network delivers; the certificates are those of the connection. *)
Definition to_server (app : AppState) (ch : option (list Cas.Bytes)) : Exchange World := {|
  header_value _ := true;
  endpoint _ := true;
  send a c w := let '(r, w') := serve app a c w in (Ok r, w');
  client_chain := ch
|}.

End Network.
End RoasteryClient.
