(* ===== verification/RoasteryFacts.v ===== *)
(** * What the remote cache guarantees

    Theorems on the server of [RoasteryHttp] and [RoasteryGrpc] and on its
    client: the store keeps its integrity under every sequence of requests
    of both protocols and under interference between the calls of each; what
    was uploaded with one is served by the other; the batch query of the
    client is exact. *)

From S2P Require Import Prelude Version Coords VersionSpec Pom Xml PomXml Effective Profile Source Skipper.
From S2P Require Import Oreq Walker Cas Journal Index MetadataXml Fetch CacheSource Settings Config Loader.
From S2P Require Import LoaderFacts Project M2 SortBy Lockfile LockfileFacts LockStore Pull RoasteryStore RoasteryAuth.
From S2P Require Import RoasteryHttp RoasteryGrpc RoasteryClient.

Module RoasteryFacts.
Import Cas RoasteryStore.

(** ** Digests *)

Lemma from_hex_wf s d : RoasteryStore.from_hex s = Ok d -> hash_wf d.
Proof.
  unfold RoasteryStore.from_hex. destruct (negb _); [done |]. destruct (negb _); [done |].
  destruct (Cas.from_hex s) as [h|] eqn:E; [| done]. intros [= <-]. by destruct Cas.hex_roundtrip as (_ & H & _); apply (H s).
Qed.

Lemma encode_lower l : Forall byte l -> str_forallb CacheSource.is_lower_hex (encode_hex l) = true.
Proof.
  induction 1 as [|b l Hb _ IH]; [done |]. cbn [encode_hex str_forallb]. rewrite IH, andb_true_r.
  revert b Hb. apply all_bytes. vm_compute. done.
Qed.

Lemma to_hex_length d : hash_wf d -> String.length (to_hex d) = 64.
Proof. intros [H _]. unfold to_hex. rewrite encode_length, H. done. Qed.

Lemma server_digest d : hash_wf d -> RoasteryStore.from_hex (to_hex d) = Ok d.
Proof.
  intros Hd. unfold RoasteryStore.from_hex. rewrite to_hex_length by done. cbn [Nat.eqb HEX_LEN negb].
  unfold to_hex at 1. rewrite encode_lower by apply Hd. cbn. by rewrite (proj1 Cas.hex_roundtrip d Hd).
Qed.

Lemma client_digest d : hash_wf d -> CacheSource.digest_from_hex (to_hex d) = Some d.
Proof.
  intros Hd. unfold CacheSource.digest_from_hex. rewrite to_hex_length by done.
  unfold to_hex at 1. rewrite encode_lower by apply Hd. cbn. by rewrite (proj1 Cas.hex_roundtrip d Hd).
Qed.

(** ** The HTTP handlers *)

Section Server.
Context `{Dig : Cas.Digest} `{Up : Upstream} `{SH : ServerHost}.

Import RoasteryHttp.

(** What a response says about the store. *)
Definition answer_ok (c : Call) (r : Response) (f : Files) : Prop :=
  match c with
  | GetBlob hex _ => status r = 200%Z -> exists d b,
      RoasteryStore.from_hex hex = Ok d /\ payload r = Blob b /\ sha256 b = d /\ stored d f /\
      barista_digest r = Some ("sha256:" +:+ to_hex d)
  | HeadBlob hex => status r = 200%Z -> exists d, RoasteryStore.from_hex hex = Ok d /\ stored d f
  | PutBlob hex _ upload => status r = 201%Z -> exists d,
      RoasteryStore.from_hex hex = Ok d /\ is_Some (read_all upload) /\ stored d f
  | _ => True
  end.

Lemma spec_attempt {A} (m : M A) (Q : A -> Files -> Prop) E F :
  spec m Q E -> spec (attempt m) (fun _ _ => True) F.
Proof. intros Hm w Hw. destruct (Hm w Hw) as (H1 & H2 & _). unfold attempt. by destruct (m w) as [r w1]. Qed.

Lemma spec_of_result {A} (r : result StorageError A) : spec (of_result r) (fun a _ => r = Ok a) (fun e => r = Err e).
Proof. intros w Hw. split; [done |]. split; [apply grows_refl |]. cbn. by destruct r. Qed.

Lemma spec_any {A} (m : M A) (Q : A -> Files -> Prop) E : spec m Q E -> spec m Q (fun _ => True).
Proof. intros Hm. by eapply spec_errors. Qed.

Lemma spec_try_one repo path d : hash_wf d -> spec (try_one repo path d) (fun _ _ => True) (fun _ => True).
Proof.
  intros Hd. unfold try_one. destruct (join repo path) as [url|]; [| by apply spec_ret].
  destruct (fetch url) as [|code reply]; [by apply spec_ret |]. destruct (negb _); [by apply spec_ret |].
  eapply spec_then; [eapply spec_attempt, spec_put; done |]. intros r. by apply spec_ret.
Qed.

Lemma spec_try_repos repos path d : hash_wf d -> spec (try_repos repos path d) (fun _ _ => True) (fun _ => True).
Proof.
  intros Hd. induction repos as [|repo repos IH]; cbn [try_repos]; [by apply spec_ret |].
  eapply spec_then; [by apply spec_try_one |]. intros []; [by apply spec_ret | done..].
Qed.

(** A blob that is served hashes to its digest. *)
Definition serves (d : Digest) (r : Response) (f : Files) : Prop :=
  status r = 200%Z -> exists b, payload r = Blob b /\ sha256 b = d /\ stored d f /\
    barista_digest r = Some ("sha256:" +:+ to_hex d).

Lemma spec_serve d st : hash_wf d -> spec (serve_from_local d st) (serves d) is_io.
Proof.
  intros Hd. eapply spec_bind; [apply spec_probe |]. intros [b|] w Hw Hb.
  - destruct (Hb b eq_refl) as (b' & E & Hf). destruct (Hf Hd) as [H1 H2]. cbn in E. subst b'.
    unfold mret, M_ret. cbn. split; [done |]. split; [apply grows_refl |]. intros _. exists b.
    split_and!; [done | done | by exists b | done].
  - unfold mret, M_ret. cbn. split; [done |]. split; [apply grows_refl | done].
Qed.

Lemma spec_stat d : spec (stat d) (fun _ _ => True) is_io.
Proof. eapply spec_drop, spec_probe. Qed.

Lemma spec_upstream up coords d : hash_wf d -> spec (fetch_upstream up coords d) (serves d) (fun _ => True).
Proof.
  intros Hd. unfold fetch_upstream.
  assert (Hn : forall r, status r <> 200%Z -> spec (mret r) (serves d) (fun _ => True)) by (intros r Hr; apply spec_ret; by intros f _ ?).
  destruct up as [repos|]; [| by apply Hn]. destruct coords as [[h|]|]; [| by apply Hn..].
  destruct (parse (trim h)) as [c|]; [| by apply Hn].
  eapply spec_then.
  { unfold try_fetch. destruct repos; [by apply spec_ret | by apply spec_try_repos]. }
  intros [x|]; [| by apply Hn]. eapply spec_then; [eapply spec_any, spec_stat |].
  intros [st|]; [eapply spec_any; by apply spec_serve | by apply Hn].
Qed.

Lemma spec_get up hex coords :
  spec (cas_get_inner up hex coords) (answer_ok (GetBlob hex coords)) (fun _ => True).
Proof.
  apply (spec_pure _ _ (fun d => RoasteryStore.from_hex hex = Ok d)); [eapply spec_any, spec_of_result |].
  intros d Hd. assert (Hw : hash_wf d) by (by eapply from_hex_wf).
  apply (spec_weaken _ (serves d) _ (fun _ => True)); [| | done].
  - eapply spec_then; [eapply spec_any, spec_stat |]. intros [st|]; [eapply spec_any; by apply spec_serve | by apply spec_upstream].
  - intros r f _ Hr H. destruct (Hr H) as (b & H1 & H2 & H3 & H4). by exists d, b.
Qed.

Lemma spec_head hex : spec (cas_head_inner hex) (answer_ok (HeadBlob hex)) (fun _ => True).
Proof.
  apply (spec_pure _ _ (fun d => RoasteryStore.from_hex hex = Ok d)); [eapply spec_any, spec_of_result |].
  intros d Hd. assert (Hw : hash_wf d) by (by eapply from_hex_wf).
  eapply spec_bind; [eapply spec_any, spec_probe |]. intros [st|] w Ho Hs.
  - destruct (Hs st eq_refl) as (b & _ & Hf). unfold mret, M_ret. cbn. split; [done |]. split; [apply grows_refl |].
    intros _. exists d. split; [done |]. exists b. by apply Hf.
  - unfold mret, M_ret. cbn. split; [done |]. split; [apply grows_refl | done].
Qed.

Lemma spec_upload d hex header upload : RoasteryStore.from_hex hex = Ok d ->
  spec (st ← put d upload; mret (created (st_digest st))) (answer_ok (PutBlob hex header upload)) (fun _ => True).
Proof.
  intros Hd. eapply spec_bind; [eapply spec_any, spec_put; by eapply from_hex_wf |].
  intros st w Ho (H1 & H2 & H3). unfold mret, M_ret. cbn. split; [done |]. split; [apply grows_refl |].
  intros _. by exists d.
Qed.

Lemma spec_cas_put hex header upload :
  spec (cas_put_inner hex header upload) (answer_ok (PutBlob hex header upload)) (fun _ => True).
Proof.
  apply (spec_pure _ _ (fun d => RoasteryStore.from_hex hex = Ok d)); [eapply spec_any, spec_of_result |]. intros d Hd.
  eapply spec_then; [eapply spec_any, spec_drop, spec_of_result |]. intros [h|]; [| by apply spec_upload].
  case_bool_decide; [by apply spec_upload | by apply spec_ret].
Qed.

Lemma spec_absent ds : spec (absent ds) (fun _ _ => True) (fun _ => True).
Proof.
  induction ds as [|d ds IH]; cbn [absent]; [by apply spec_ret |].
  eapply spec_then; [eapply spec_any, spec_stat |]. intros st. eapply spec_then; [exact IH |]. intros rest. by apply spec_ret.
Qed.

Lemma spec_missing ds : spec (cas_missing ds) (answer_ok (PostMissing ds)) (fun _ => True).
Proof.
  unfold cas_missing. destruct (_ <? _)%Z; [by apply spec_ret |].
  eapply spec_then; [eapply spec_any, spec_drop, spec_of_result |]. intros l.
  eapply spec_then; [apply spec_absent |]. intros x. by apply spec_ret.
Qed.

Lemma respond_ok c m w : spec m (answer_ok c) (fun _ => True) -> ok w ->
  ok (respond m w).2 /\ grows (files w) (files (respond m w).2) /\ answer_ok c (respond m w).1 (files (respond m w).2).
Proof.
  intros Hm Hw. destruct (Hm w Hw) as (H1 & H2 & H3). unfold respond. destruct (m w) as [[r|e] w1]; cbn in *; [done |].
  destruct (to_http e) as [code b] eqn:E. cbn. split_and!; [done | done |].
  assert (code <> 200%Z /\ code <> 201%Z) as [N1 N2] by (destruct e; injection E as <- _; done).
  destruct c; cbn; try done; by intros ?.
Qed.

Lemma handle_ok app c w : ok w ->
  ok (handle app c w).2 /\ grows (files w) (files (handle app c w).2) /\ answer_ok c (handle app c w).1 (files (handle app c w).2).
Proof.
  intros Hw. destruct c; cbn [handle].
  - by apply respond_ok; [apply spec_get |].
  - by apply respond_ok; [apply spec_head |].
  - by apply respond_ok; [apply spec_cas_put |].
  - by apply respond_ok; [apply spec_missing |].
  - cbn. split_and!; [done | apply grows_refl | done].
  - cbn. split_and!; [done | apply grows_refl | done].
Qed.

Lemma serve_ok app auth c w : ok w ->
  ok (serve app auth c w).2 /\ grows (files w) (files (serve app auth c w).2) /\
  answer_ok c (serve app auth c w).1 (files (serve app auth c w).2).
Proof.
  intros Hw. unfold serve. destruct (is_public c); [by apply handle_ok |].
  destruct (RoasteryAuth.decide_request _ _ auth); [by apply handle_ok |]. cbn.
  split_and!; [done | apply grows_refl |]. by destruct c.
Qed.

(** ** The gRPC handlers *)

Import RoasteryGrpc.
#[local] Existing Instance G_ret.
#[local] Existing Instance G_bind.

Definition gspec {A} (m : G A) (Q : A -> Files -> Prop) : Prop := forall w, ok w ->
  ok (m w).2 /\ grows (files w) (files (m w).2) /\ match (m w).1 with Ok a => Q a (files (m w).2) | Err _ => True end.

Lemma gspec_ret {A} (a : A) (Q : A -> Files -> Prop) : (forall f, intact f -> Q a f) -> gspec (mret a) Q.
Proof. intros H w Hw. split; [done |]. split; [apply grows_refl | apply H, Hw]. Qed.

Lemma gspec_code {A} (r : result Code A) : gspec (code r) (fun a _ => r = Ok a).
Proof. intros w Hw. split; [done |]. split; [apply grows_refl |]. cbn. by destruct r. Qed.

Lemma gspec_err {A} c (Q : A -> Files -> Prop) : gspec (code (Err c)) Q.
Proof. intros w Hw. split; [done |]. split; [apply grows_refl | done]. Qed.

(** What was shown of the files is kept when they grow. *)
Lemma gspec_bind {A B} (m : G A) (k : A -> G B) (P : A -> Files -> Prop) (Q : B -> Files -> Prop) :
  gspec m P -> (forall a, gspec (k a) (fun b g => forall f, P a f -> grows f g -> Q b g)) -> gspec (m ≫= k) Q.
Proof.
  intros Hm Hk w Hw. destruct (Hm w Hw) as (H1 & H2 & H3). unfold mbind, G_bind.
  destruct (m w) as [[a|e] w1]; cbn in *; [| done]. destruct (Hk a w1 H1) as (K1 & K2 & K3).
  split; [done |]. split; [by eapply grows_trans |]. destruct ((k a w1).1); [by eapply K3 | done].
Qed.

Lemma gspec_pure {A B} (m : G A) (k : A -> G B) (P : A -> Prop) (Q : B -> Files -> Prop) :
  gspec m (fun a _ => P a) -> (forall a, P a -> gspec (k a) Q) -> gspec (m ≫= k) Q.
Proof.
  intros Hm Hk w Hw. destruct (Hm w Hw) as (H1 & H2 & H3). unfold mbind, G_bind.
  destruct (m w) as [[a|e] w1]; cbn in *; [| done]. destruct (Hk a H3 w1 H1) as (K1 & K2 & K3).
  split; [done |]. split; [by eapply grows_trans | done].
Qed.

Lemma gspec_weaken {A} (m : G A) (P Q : A -> Files -> Prop) :
  gspec m P -> (forall a f, intact f -> P a f -> Q a f) -> gspec m Q.
Proof.
  intros Hm HQ w Hw. destruct (Hm w Hw) as (H1 & H2 & H3). split; [done |]. split; [done |].
  destruct ((m w).1); [apply HQ; [apply H1 | done] | done].
Qed.

Lemma gspec_status {A} (m : M A) (Q : A -> Files -> Prop) E : spec m Q E -> gspec (status_of m) Q.
Proof. intros Hm w Hw. destruct (Hm w Hw) as (H1 & H2 & H3). unfold status_of. by destruct (m w) as [[a|e] w1]. Qed.

Lemma gspec_attempted {A} (m : M A) (Q : A -> Files -> Prop) E :
  spec m Q E -> gspec (attempted m) (fun r f => match r with Ok a => Q a f | Err _ => True end).
Proof. intros Hm w Hw. destruct (Hm w Hw) as (H1 & H2 & H3). unfold attempted. by destruct (m w) as [[a|e] w1]. Qed.

(** A digest in its text form, stored. *)
Definition stored_hex (hex : string) (f : Files) : Prop := exists d, RoasteryStore.from_hex hex = Ok d /\ stored d f.

Lemma stored_grows d f g : hash_wf d -> grows f g -> stored d f -> stored d g.
Proof. intros Hd Hg [b Hb]. destruct (Hg d Hd) as [c Hc]; [by eexists | by exists c]. Qed.

Lemma stored_hex_grows hex f g : grows f g -> stored_hex hex f -> stored_hex hex g.
Proof. intros Hg (d & Hd & Hs). exists d. split; [done |]. eapply stored_grows; [by eapply from_hex_wf | done | done]. Qed.

Definition rpc_ok (c : Rpc) (r : Reply) (f : Files) : Prop :=
  match c, r with
  | Write (Some m :: _), Committed _ => exists res, parse_write_resource (resource_name m) = Ok res /\ stored (w_digest res) f
  | BatchUpdateBlobs entries, Updated l =>
      Forall2 (fun e x => x.1 = default (mkReapi "" 0) e.1 /\ (x.2 = None -> stored_hex (hash x.1) f)) entries l
  | BatchReadBlobs ds, Blobs l =>
      Forall2 (fun rd x => x.1.1 = rd /\ (x.2 = None -> RoasteryStore.from_hex (hash rd) = Ok (sha256 x.1.2))) ds l
  | Read name _, Chunks l => exists res, parse_read_resource name = Ok res /\ sha256 (List.concat l) = r_digest res
  | _, _ => True
  end.

Lemma write_digest_wf name res : parse_write_resource name = Ok res -> hash_wf (w_digest res).
Proof.
  unfold parse_write_resource. cbn zeta. destruct (contains_str _ _); [done |].
  intros (u & _ & E)%bind_ok_inv. apply bind_ok_inv in E as (x & _ & E). destruct (negb _); [done |].
  apply bind_ok_inv in E as (h & _ & E). apply bind_ok_inv in E as (sz & _ & E).
  apply bind_ok_inv in E as (d & Hd & E). apply bind_ok_inv in E as (n & _ & [= <-]). cbn.
  unfold grpc, map_err in Hd. destruct (RoasteryStore.from_hex h) as [d'|] eqn:Eh; [| done]. injection Hd as <-. by eapply from_hex_wf.
Qed.

Lemma read_digest_wf name res : parse_read_resource name = Ok res -> hash_wf (r_digest res).
Proof.
  unfold parse_read_resource. cbn zeta. destruct (contains_str _ _); [done |].
  intros (u & _ & E)%bind_ok_inv. apply bind_ok_inv in E as (h & _ & E). apply bind_ok_inv in E as (sz & _ & E).
  apply bind_ok_inv in E as (d & Hd & E). apply bind_ok_inv in E as (n & _ & [= <-]). cbn.
  unfold grpc, map_err in Hd. destruct (RoasteryStore.from_hex h) as [d'|] eqn:Eh; [| done]. injection Hd as <-. by eapply from_hex_wf.
Qed.

Lemma gspec_write l : gspec (write l)
  (fun _ f => match l with Some m :: _ => exists res, parse_write_resource (resource_name m) = Ok res /\ stored (w_digest res) f | _ => True end).
Proof.
  unfold write. destruct l as [|[m|] rest]; [apply gspec_err | | apply gspec_err].
  apply (gspec_pure _ _ (fun r => parse_write_resource (resource_name m) = Ok r)); [apply gspec_code |]. intros r Hr.
  destruct (negb _); [apply gspec_err |]. destruct (receive _ _ rest) as [bytes ended].
  eapply gspec_bind; [eapply gspec_attempted, spec_put; by eapply write_digest_wf |].
  intros [st|e]; destruct ended; try apply gspec_err.
  apply gspec_ret. intros g _ f (_ & _ & Hs) Hg. exists r. split; [done |].
  eapply stored_grows; [by eapply write_digest_wf | done | done].
Qed.

Lemma gspec_put_one claimed data : gspec (put_one claimed data) (fun st f => st = None -> stored_hex (hash claimed) f).
Proof.
  unfold put_one. destruct (_ <? _)%Z; [by apply gspec_ret |]. destruct (negb _); [by apply gspec_ret |].
  destruct (RoasteryStore.from_hex (hash claimed)) as [d|e] eqn:Ed; [| by apply gspec_ret].
  assert (Hd : hash_wf d) by (by eapply from_hex_wf).
  eapply gspec_bind; [by eapply gspec_attempted, spec_put |]. intros [st|e]; apply gspec_ret; [| done].
  intros g _ f (_ & _ & Hs) Hg _. exists d. split; [done |]. by eapply stored_grows.
Qed.

Lemma gspec_put_each entries : gspec (put_each entries) (fun l f =>
  Forall2 (fun e x => x.1 = default (mkReapi "" 0) e.1 /\ (x.2 = None -> stored_hex (hash x.1) f)) entries l).
Proof.
  induction entries as [|[claimed data] rest IH]; cbn [put_each]; [apply gspec_ret; by constructor |].
  eapply gspec_bind; [apply gspec_put_one |]. intros st.
  eapply gspec_bind; [exact IH |]. intros l. apply gspec_ret. intros h _ g Hl Hgh f Hf Hfh.
  constructor; [split; [done |]; intros E; eapply stored_hex_grows; [exact Hfh | by apply Hf] |].
  eapply list.Forall2_impl; [exact Hl |]. intros e x [H1 H2]. split; [done |]. intros E. eapply stored_hex_grows; [exact Hgh | by apply H2].
Qed.

Lemma gspec_read_one rd : gspec (read_one rd) (fun x _ => x.1.1 = rd /\
  (x.2 = None -> RoasteryStore.from_hex (hash rd) = Ok (sha256 x.1.2))).
Proof.
  unfold read_one. destruct (RoasteryStore.from_hex (hash rd)) as [d|e] eqn:Ed; [| by apply gspec_ret].
  eapply gspec_bind; [eapply gspec_attempted, spec_probe |]. intros [[b|]|e]; [| by apply gspec_ret..].
  eapply gspec_bind; [eapply gspec_attempted, spec_call |]. intros [u|e]; apply gspec_ret; [| done].
  intros h _ g _ Hgh f Hb _. split; [done |]. intros _. destruct (Hb b eq_refl) as (b' & E & H). cbn in E. subst b'. cbn.
  by rewrite (proj2 (H (from_hex_wf _ _ Ed))).
Qed.

Lemma gspec_batch_read ds : gspec (batch_read_blobs ds) (fun l _ =>
  Forall2 (fun rd x => x.1.1 = rd /\ (x.2 = None -> RoasteryStore.from_hex (hash rd) = Ok (sha256 x.1.2))) ds l).
Proof.
  induction ds as [|rd rest IH]; cbn [batch_read_blobs]; [apply gspec_ret; by constructor |].
  apply (gspec_pure _ _ (fun x => x.1.1 = rd /\ (x.2 = None -> RoasteryStore.from_hex (hash rd) = Ok (sha256 x.1.2))));
    [apply gspec_read_one |]. intros x Hx.
  eapply gspec_bind; [exact IH |]. intros l. apply gspec_ret. intros h _ g Hl _. by constructor.
Qed.

(** The chunks of a blob are the blob, and none is larger than the limit. *)
Lemma chunks_concat fuel : forall b, length b <= fuel ->
  List.concat (chunks fuel b) = b /\ Forall (fun c => length c <= BYTESTREAM_CHUNK_SIZE) (chunks fuel b).
Proof.
  assert (Hpos : 0 < BYTESTREAM_CHUNK_SIZE) by (unfold BYTESTREAM_CHUNK_SIZE; lia).
  induction fuel as [|fuel IH]; intros b Hb; [by destruct b; [| cbn in Hb; lia] |].
  destruct b as [|x b']; [done |]. cbn [chunks]. set (b := x :: b') in *. set (n := BYTESTREAM_CHUNK_SIZE) in *.
  destruct (IH (drop n b)) as [H1 H2]; [rewrite length_drop; lia |]. split.
  - cbn [List.concat]. by rewrite H1, take_drop.
  - constructor; [rewrite length_take; lia | done].
Qed.

Lemma gspec_read name offset : gspec (read name offset)
  (fun l _ => exists res, parse_read_resource name = Ok res /\ sha256 (List.concat l) = r_digest res).
Proof.
  apply (gspec_pure _ _ (fun r => parse_read_resource name = Ok r)); [apply gspec_code |]. intros r Hr.
  destruct (negb _); [apply gspec_err |].
  eapply gspec_bind; [eapply gspec_status, spec_probe |]. intros [b|]; [| apply gspec_err].
  apply gspec_ret. intros g _ f Hb _. exists r. split; [done |]. destruct (Hb b eq_refl) as (b' & E & H). cbn in E. subst b'.
  rewrite (proj1 (chunks_concat (length b) b (le_n _))). apply H. by eapply read_digest_wf.
Qed.

Lemma gspec_missing ds : gspec (missing_of ds) (fun _ _ => True).
Proof.
  induction ds as [|rd rest IH]; cbn [missing_of]; [by apply gspec_ret |].
  eapply gspec_bind; [apply gspec_code |]. intros d. eapply gspec_bind; [eapply gspec_status, spec_stat |]. intros st.
  eapply gspec_bind; [exact IH |]. intros l. by apply gspec_ret.
Qed.

Lemma rpc_handle_ok c : gspec (RoasteryGrpc.handle c) (rpc_ok c).
Proof.
  destruct c as [ds|entries|ds|name offset|messages|]; cbn [RoasteryGrpc.handle].
  - eapply gspec_bind; [| intros l; by apply gspec_ret].
    unfold find_missing_blobs. destruct (_ <? _)%Z; [apply gspec_err | apply gspec_missing].
  - apply (gspec_bind _ _ (fun l f => rpc_ok (BatchUpdateBlobs entries) (Updated l) f)).
    { unfold batch_update_blobs. destruct (_ <? _)%Z; [apply gspec_err | apply gspec_put_each]. }
    intros l. apply gspec_ret. intros g _ f Hl Hg. cbn in *. eapply list.Forall2_impl; [exact Hl |].
    intros e x [H1 H2]. split; [done |]. intros E. by eapply stored_hex_grows, H2.
  - apply (gspec_pure _ _ (fun l => rpc_ok (BatchReadBlobs ds) (Blobs l) ∅)); [apply gspec_batch_read |].
    intros l Hl. by apply gspec_ret.
  - apply (gspec_pure _ _ (fun l => rpc_ok (Read name offset) (Chunks l) ∅)); [apply gspec_read |].
    intros l Hl. by apply gspec_ret.
  - eapply gspec_bind; [apply gspec_write |]. intros n. apply gspec_ret. intros g _ f Hw Hg. cbn.
    destruct messages as [|[m|] rest]; [done | | done]. destruct Hw as (res & Hr & Hs). exists res. split; [done |].
    eapply stored_grows; [by eapply write_digest_wf | done | done].
  - apply gspec_err.
Qed.

Lemma rpc_serve_ok auth header c : gspec (RoasteryGrpc.serve auth header c) (rpc_ok c).
Proof. unfold RoasteryGrpc.serve. destruct (RoasteryAuth.reapi_call _ _ header); [apply rpc_handle_ok | apply gspec_err]. Qed.

(** ** Sequences of requests *)

(** One request of either protocol, with what it answered. *)
Inductive Exchanged : Type :=
  | OverHttp (auth : RoasteryAuth.AuthRequest) (c : Call) (r : Response)
  | OverGrpc (header : option (option string)) (c : Rpc) (r : result Code Reply).

Inductive served (app : AppState) : World -> Exchanged -> World -> Prop :=
  | served_http w auth c r w' :
      RoasteryHttp.serve app auth c w = (r, w') -> served app w (OverHttp auth c r) w'
  | served_grpc w header c r w' :
      RoasteryGrpc.serve (guard_of app) header c w = (r, w') -> served app w (OverGrpc header c r) w'.

Definition some_request (app : AppState) (w w' : World) : Prop := exists x, served app w x w'.

(** What an exchange says about the store. *)
Definition truthful (x : Exchanged) (f : Files) : Prop :=
  match x with
  | OverHttp _ c r => answer_ok c r f
  | OverGrpc _ c (Ok r) => rpc_ok c r f
  | OverGrpc _ _ (Err _) => True
  end.

Lemma served_ok app w x w' : ok w -> served app w x w' -> ok w' /\ grows (files w) (files w') /\ truthful x (files w').
Proof.
  intros Hw Hx. revert Hw. destruct Hx as [w auth c r w' H|w header c r w' H]; intros Hw.
  - pose proof (serve_ok app auth c w Hw) as K. rewrite H in K. done.
  - pose proof (rpc_serve_ok (guard_of app) header c w Hw) as K. rewrite H in K. cbn in K. by destruct r.
Qed.

Lemma requests_ok app w w' : ok w -> rtc (some_request app) w w' -> ok w' /\ grows (files w) (files w').
Proof.
  intros Hw H. induction H as [w|w w1 w2 [x Hx] _ IH]; [split; [done | apply grows_refl] |].
  destruct (served_ok _ _ _ _ Hw Hx) as (H1 & H2 & _). destruct (IH H1) as [H3 H4]. split; [done | by eapply grows_trans].
Qed.

(** C25. The remote cache keeps its integrity.  Start from a store in which
    every file hashes to its name, and let it serve any sequence of requests
    of both protocols; other requests may change the store between the calls
    of each in the same way, and calls of the file system may fail.  Then
    every file still hashes to its name and nothing is lost; and what the
    server answers to the next request is true: a blob that it serves hashes
    to the digest that was asked for, and when it confirms an upload the store
    holds a blob of the announced digest, that is, bytes that hash to it.
    (These need not be the bytes that were sent: an upload under a digest that
    is there already is confirmed without a look at its body, see
    [reupload_not_verified].) *)
Theorem roastery_intact app w0 w x w' :
  ok w0 -> rtc (some_request app) w0 w -> served app w x w' ->
  intact (files w') /\ grows (files w0) (files w') /\ truthful x (files w').
Proof.
  intros Hw Hr Hx. destruct (requests_ok _ _ _ Hw Hr) as [H1 H2]. destruct (served_ok _ _ _ _ H1 Hx) as (H3 & H4 & H5).
  split_and!; [apply H3 | by eapply grows_trans | done].
Qed.

(** ** An upload can be read back *)

(** The exchange confirmed an upload of [d], by one of the three ways to
    upload. *)
Inductive confirmed (d : Digest) : Exchanged -> Prop :=
  | confirmed_put auth hex header upload r :
      RoasteryStore.from_hex hex = Ok d -> status r = 201%Z -> confirmed d (OverHttp auth (PutBlob hex header upload) r)
  | confirmed_write header m rest res n :
      parse_write_resource (resource_name m) = Ok res -> w_digest res = d ->
      confirmed d (OverGrpc header (Write (Some m :: rest)) (Ok (Committed n)))
  | confirmed_batch header entries l rd :
      (rd, None) ∈ l -> RoasteryStore.from_hex (hash rd) = Ok d ->
      confirmed d (OverGrpc header (BatchUpdateBlobs entries) (Ok (Updated l))).

Lemma confirmed_stored d x f : confirmed d x -> truthful x f -> hash_wf d /\ stored d f.
Proof.
  intros Hc. destruct Hc as [auth hex header upload r Hd Hs|header m rest res n Hr <-|header entries l rd Hin Hd]; cbn; intros Ht.
  - destruct (Ht Hs) as (e & He & _ & Hst). replace e with d in * by congruence. split; [by eapply from_hex_wf | done].
  - destruct Ht as (res' & Hr' & Hst). replace res' with res in * by congruence. split; [by eapply write_digest_wf | done].
  - split; [by eapply from_hex_wf |].
    apply list_elem_of_lookup in Hin as [i Hi]. destruct (Forall2_lookup_r _ _ _ _ _ Ht Hi) as (e & _ & _ & H).
    destruct (H eq_refl) as (d' & Hd' & Hst). cbn in Hd'. by replace d' with d in * by congruence.
Qed.

(** The file system does not fail. *)
Definition faultless (w : World) : Prop := Forall (fun t => fault t = None) (script w).

Lemma turn_faultless w : ok w -> faultless w ->
  exists w', turn w = (Ok None, w') /\ ok w' /\ faultless w' /\ grows (files w) (files w').
Proof.
  intros Hw Hf. pose proof (spec_turn (fun _ => True) w Hw) as (H1 & H2 & _). revert H1 H2. unfold faultless, turn in *.
  destruct (script w) as [|t rest] eqn:Es; cbn; intros H1 H2.
  - exists w. by rewrite Es.
  - apply list.Forall_cons in Hf as [-> Hf]. eexists. split_and!; [reflexivity | exact H1 | exact Hf | exact H2].
Qed.

(** What is stored is found. *)
Lemma probe_found {A} (f : Bytes -> A) d w : ok w -> faultless w -> hash_wf d -> stored d (files w) ->
  exists b w', probe f d w = (Ok (Some (f b)), w') /\ sha256 b = d /\ ok w' /\ faultless w' /\ stored d (files w').
Proof.
  intros Hw Hf Hd Hs. destruct (turn_faultless w Hw Hf) as (w' & E & H1 & H2 & H3).
  destruct (stored_grows _ _ _ Hd H3 Hs) as [b Hb]. exists b, w'. unfold probe, mbind, M_bind. rewrite E. unfold see. cbn.
  rewrite Hb. split_and!; [done | by apply (proj1 H1) | done | done | by exists b].
Qed.

Definition admitted (app : AppState) (a : RoasteryAuth.AuthRequest) : Prop :=
  exists p, RoasteryAuth.decide_request (RoasteryAuth.tokens (guard_of app)) (RoasteryAuth.with_mtls (guard_of app)) a = RoasteryAuth.Allow p.

(** C26: What one protocol stored the other serves.  Let the server confirm an
    upload of a digest, by a PUT, by a stream of writes or in a batch, and
    let any requests of any clients follow, with others between their
    calls.  As long as the file system then does not fail, an authorized GET
    answers 200 with a blob that hashes to the digest, and a gRPC Read of any
    resource name for the digest streams a blob that hashes to it, in chunks
    of 64 KiB at most. *)
Theorem roastery_roundtrip app w0 x w1 d w :
  ok w0 -> served app w0 x w1 -> confirmed d x -> rtc (some_request app) w1 w -> faultless w ->
  (forall a coords, admitted app a -> exists n b w',
    RoasteryHttp.serve app a (GetBlob (to_hex d) coords) w = (with_cas_headers n d (Blob b), w') /\ sha256 b = d) /\
  (forall header name res,
    RoasteryAuth.reapi_call (RoasteryAuth.tokens (guard_of app)) (RoasteryAuth.with_mtls (guard_of app)) header = true ->
    parse_read_resource name = Ok res -> r_digest res = d -> exists l w',
    RoasteryGrpc.serve (guard_of app) header (Read name 0) w = (Ok (Chunks l), w') /\ sha256 (List.concat l) = d /\
    Forall (fun c => length c <= BYTESTREAM_CHUNK_SIZE) l).
Proof.
  intros H0 Hx Hc Hr Hf. destruct (served_ok _ _ _ _ H0 Hx) as (H1 & _ & Ht).
  destruct (confirmed_stored d x _ Hc Ht) as [Hd Hs]. destruct (requests_ok _ _ _ H1 Hr) as [Hw Hg].
  apply (stored_grows _ _ _ Hd Hg) in Hs. clear - Hd Hs Hw Hf. split.
  - intros a coords [p Hp]. unfold RoasteryHttp.serve. cbn [is_public RoasteryHttp.handle]. rewrite Hp. unfold respond, cas_get_inner.
    unfold of_result, mbind, M_bind. rewrite (server_digest d Hd). unfold stat.
    destruct (probe_found (fun b => mkStat (length_of b) d) d w Hw Hf Hd Hs) as (b1 & w1 & -> & _ & K1 & K2 & K3).
    unfold serve_from_local, get, mbind, M_bind.
    destruct (probe_found id d w1 K1 K2 Hd K3) as (b & w2 & -> & Hb & _). by eexists _, b, w2.
  - intros header name res Ha Hn <-. unfold RoasteryGrpc.serve. rewrite Ha. cbn [RoasteryGrpc.handle]. unfold read.
    unfold mbind, G_bind, RoasteryGrpc.code. rewrite Hn. cbn [Z.eqb negb]. unfold status_of, get.
    destruct (probe_found id (r_digest res) w Hw Hf Hd Hs) as (b & w1 & -> & Hb & _). cbn.
    destruct (chunks_concat (length b) b (le_n _)) as [C1 C2]. eexists _, w1. split_and!; [reflexivity | by rewrite C1 | done].
Qed.

End Server.

(** ** What is not checked *)

Section Unchecked.
Context `{Dig : Cas.Digest} `{Up : Upstream} `{SH : ServerHost}.

Lemma copy_quiet w source x : script w = [] -> read_all source = Some x ->
  forall acc, copy acc source w = (Ok (acc ++ x), w).
Proof.
  intros Hq. revert x. induction source as [|[c|e] source IH]; intros x Hx acc; cbn in Hx; [| | done].
  - injection Hx as <-. by rewrite app_nil_r.
  - destruct (read_all source) as [y|]; [| done]. injection Hx as <-. cbn [copy].
    unfold call, turn, mbind, M_bind. rewrite Hq. cbn. rewrite (IH y eq_refl). by rewrite app_assoc.
Qed.

(** The bytes that are uploaded for a digest that is stored are not looked
    at: any content is confirmed with a 201, and in a batch with OK. *)
Theorem reupload_not_verified w d b junk : hash_wf d -> script w = [] -> file_at d (files w) = Some b ->
  (length_of junk <= RoasteryGrpc.I64_MAX)%Z ->
  RoasteryHttp.respond (RoasteryHttp.cas_put_inner (to_hex d) None [Ok junk]) w = (RoasteryHttp.created d, w) /\
  RoasteryGrpc.put_one (RoasteryGrpc.mkReapi (to_hex d) (length_of junk)) junk w = (Ok None, w).
Proof.
  intros Hd Hq Hb Hj.
  assert (Hp : put d [Ok junk] w = (Ok (mkStat (length_of b) d), w)).
  { unfold put, present, turn, see, mbind, M_bind. rewrite Hq. rewrite bool_decide_eq_true_2 by (by eexists).
    unfold drain_existing, mbind, M_bind. rewrite (copy_quiet w [Ok junk] (junk ++ []) Hq eq_refl).
    unfold turn, see. rewrite Hq. cbn. by rewrite Hb. }
  split.
  - unfold RoasteryHttp.respond, RoasteryHttp.cas_put_inner, RoasteryHttp.of_result, mbind, M_bind.
    rewrite (server_digest d Hd). cbn [RoasteryHttp.header_digest]. by rewrite Hp.
  - unfold RoasteryGrpc.put_one. cbn [RoasteryGrpc.hash RoasteryGrpc.size_bytes].
    rewrite (proj2 (Z.ltb_ge _ _) Hj), Z.eqb_refl, (server_digest d Hd). cbn [negb].
    unfold mbind, RoasteryGrpc.G_bind, RoasteryGrpc.attempted. by rewrite Hp.
Qed.

(** A batch of reads has no limit: [n] times the same digest returns [n]
    times its blob. *)
Theorem batch_read_unlimited w d b n k : hash_wf d -> script w = [] -> file_at d (files w) = Some b ->
  RoasteryGrpc.batch_read_blobs (replicate n (RoasteryGrpc.mkReapi (to_hex d) k)) w =
  (Ok (replicate n (RoasteryGrpc.mkReapi (to_hex d) k, b, None)), w).
Proof.
  intros Hd Hq Hb. induction n as [|n IH]; [done |]. cbn [replicate RoasteryGrpc.batch_read_blobs].
  unfold RoasteryGrpc.read_one. cbn [RoasteryGrpc.hash]. rewrite (server_digest d Hd).
  unfold mbind, RoasteryGrpc.G_bind, RoasteryGrpc.attempted, get, probe, call, turn, see, mbind, M_bind.
  rewrite Hq. cbn. rewrite Hb. cbn. rewrite Hq. cbn. by rewrite IH.
Qed.

End Unchecked.

(** ** The client *)

Section Client.
Context `{Dig : Cas.Digest} `{Up : Upstream} `{SH : ServerHost}.
Variables (config : RoasteryClient.ClientConfig) (app : RoasteryHttp.AppState) (ch : option (list Bytes)).

Import RoasteryHttp RoasteryClient.
#[local] Instance server_exchange : Exchange World := to_server app ch.
#[local] Existing Instance C_ret.
#[local] Existing Instance C_bind.

Lemma lower_solid s : str_forallb CacheSource.is_lower_hex s = true -> str_forallb solid s = true.
Proof.
  induction s as [|a s IH]; [done |]. cbn. intros [Ha Hs]%andb_prop. rewrite (IH Hs), andb_true_r.
  revert Ha. by destruct a as [[] [] [] [] [] [] [] []]; vm_compute.
Qed.

Lemma solid_trimmed s : str_forallb solid s = true -> trimmed s.
Proof.
  induction s as [|a s IH]; cbn; [intros _; apply trimmed_empty |]. intros [Ha Hs]%andb_prop.
  apply (trimmed_around "" a s); [apply trimmed_empty | by apply IH | done].
Qed.

(** A digest as it is sent: trimming keeps it, and its prefix comes off. *)
Lemma sent_digest d : hash_wf d -> strip_sha256 (trim ("sha256:" +:+ to_hex d)) = to_hex d.
Proof.
  intros Hd. rewrite trim_id; [done |]. apply solid_trimmed. cbn. apply lower_solid. unfold to_hex. by apply encode_lower, Hd.
Qed.

Lemma parse_all_sent ds : Forall hash_wf ds -> parse_all ((fun d => "sha256:" +:+ to_hex d) <$> ds) = Ok ds.
Proof.
  induction 1 as [|d ds Hd _ IH]; [done |]. rewrite fmap_cons. cbn [parse_all]. unfold parse_digest_loose.
  rewrite (sent_digest d Hd), (server_digest d Hd). by rewrite IH.
Qed.

Lemma parse_missing_sent ds : Forall hash_wf ds -> parse_missing ((fun d => "sha256:" +:+ to_hex d) <$> ds) = Ok ds.
Proof.
  induction 1 as [|d ds Hd _ IH]; [done |]. rewrite fmap_cons. cbn [parse_missing]. unfold prefixed_digest.
  rewrite (sent_digest d Hd), (client_digest d Hd). by rewrite IH.
Qed.

(** Nothing else happens at the server, and the client may use it. *)
Definition quiet (w : World) : Prop := script w = [].
Definition entitled : Prop := forall h, bearer_header config true = Ok h -> admitted app (RoasteryAuth.mkAuthRequest h ch).

(** The blobs that the server does not hold. *)
Definition lacking (w : World) (ds : list Digest) : list Digest := filter (fun d => file_at d (files w) = None) ds.

Lemma absent_quiet w ds : quiet w -> absent ds w = (Ok ((fun d => "sha256:" +:+ to_hex d) <$> lacking w ds), w).
Proof.
  intros Hq. induction ds as [|d ds IH]; [done |]. cbn [absent]. unfold stat, probe, turn, see, lacking in *.
  unfold mbind, M_bind, mret, M_ret. rewrite Hq, IH, filter_cons.
  destruct (file_at d (files w)) as [b|]; cbn; [by rewrite decide_False | by rewrite decide_True].
Qed.

Lemma request_served path c w : is_public c = false -> entitled ->
  request config path true c w = (let '(r, w') := RoasteryHttp.handle app c w in (Ok r, w')).
Proof.
  intros Hc He. unfold request, lift, exchange, mbind, C_bind. cbn [endpoint server_exchange to_server].
  assert (exists h, bearer_header config true = Ok h) as [h Hh] by (unfold bearer_header; destruct (auth config); by eexists).
  rewrite Hh. destruct (He h Hh) as [p Hp]. cbn. unfold RoasteryHttp.serve. rewrite Hc, Hp.
  by destruct (RoasteryHttp.handle app c w).
Qed.

Lemma missing_chunk_exact w ds : quiet w -> entitled -> Forall hash_wf ds -> (Z.of_nat (length ds) <= MAX_BATCH_MISSING)%Z ->
  missing_chunk config ds w = (Ok (lacking w ds), w).
Proof.
  intros Hq He Hd Hn. unfold missing_chunk, mbind at 1, C_bind at 1. rewrite request_served by done.
  cbn [RoasteryHttp.handle]. unfold respond, cas_missing. rewrite length_fmap, (proj2 (Z.ltb_ge _ _) Hn).
  unfold mbind, M_bind, of_result. rewrite (parse_all_sent ds Hd), (absent_quiet w ds Hq). cbn. unfold lift.
  rewrite parse_missing_sent; [done |]. apply list.Forall_forall. intros d [_ H]%list_elem_of_filter.
  by eapply (proj1 (list.Forall_forall _ _) Hd).
Qed.

(** The client's batch query is exact and complete for any number of
    digests: against a server that it may use and that nobody changes
    meanwhile, with a batch size that the server accepts, it returns exactly
    the digests that the server does not hold, in the order they were given
    and with their repetitions, and changes nothing.  (It ends: each batch
    takes at least one digest, whatever the configured size.) *)
Theorem missing_exact w ds :
  quiet w -> entitled -> Forall hash_wf ds -> (max_batch_missing config <= MAX_BATCH_MISSING)%Z ->
  missing config ds w = (Ok (lacking w ds), w).
Proof.
  intros Hq He Hd Hn. unfold missing. set (cap := Z.to_nat _).
  assert (Hcap : 1 <= cap /\ (Z.of_nat cap <= MAX_BATCH_MISSING)%Z) by (unfold cap, MAX_BATCH_MISSING in *; lia). clearbody cap.
  assert (Hl : length ds <= length ds) by lia. revert Hl Hd. generalize (length ds) at 2 3 as fuel.
  intros fuel. revert ds. induction fuel as [|fuel IH]; intros ds Hl Hd; [by destruct ds; [| cbn in Hl; lia] |].
  destruct ds as [|d0 ds0]; [done |]. set (ds := d0 :: ds0) in *. change (missing_loop config (S fuel) cap ds w) with
    ((found ← missing_chunk config (take cap ds); rest ← missing_loop config fuel cap (drop cap ds); mret (found ++ rest)) w).
  unfold mbind, C_bind. rewrite missing_chunk_exact; [| done | done | by apply Forall_take | rewrite length_take; lia].
  rewrite IH; [| rewrite length_drop; unfold ds; cbn; cbn in Hl; lia | by apply Forall_drop].
  unfold lacking. by rewrite <- list.filter_app, take_drop.
Qed.

End Client.

End RoasteryFacts.
