(* ===== verification/RoasteryRuns.v ===== *)
(** * The remote cache on concrete runs

    A server with a file of tokens on an address that can be reached from
    outside, and what it does with an upload over gRPC while another request
    stores a blob: the theorems of [RoasteryAuth] and [RoasteryFacts] at
    these inputs. *)

From S2P Require Import Prelude Version Coords VersionSpec Pom Xml PomXml Effective Profile Source Skipper.
From S2P Require Import Oreq Walker Cas Journal Index MetadataXml Fetch CacheSource Settings Config Loader.
From S2P Require Import LoaderFacts Project M2 SortBy Lockfile LockfileFacts LockStore Pull RoasteryStore RoasteryAuth.
From S2P Require Import RoasteryHttp RoasteryGrpc RoasteryClient RoasteryFacts.

Module RoasteryRuns.
Import Cas RoasteryStore.

#[local] Instance run_digest : Cas.Digest := LockfileFacts.toy_digest.

#[local] Instance run_upstream : Upstream := {| join _ _ := None; fetch _ := SendFailed |}.

Definition token_file : string := "# operators" +:+ String "010" ("ci: s3cret" +:+ String "010" "").

#[local] Instance run_host : ServerHost := {|
  Addr := string;
  parse_addr := Some;
  is_loopback s := RoasteryStore.has_prefix "127." s;
  parse_url := Some;
  create_dir _ := None;
  path_exists _ := true;
  read_file p := if String.eqb p "tokens" then Ok token_file else Err "no such file";
  subject_from_cert _ := "client"
|}.

(** ** Who may use the server *)

Definition run_env (name : string) : option RoasteryAuth.OsString :=
  if String.eqb name "ROASTERY_BIND" then Some (RoasteryAuth.mkOs "0.0.0.0:7878" true)
  else if String.eqb name "ROASTERY_BEARER_TOKENS_FILE" then Some (RoasteryAuth.mkOs "tokens" true)
  else None.

Definition run_config : RoasteryAuth.ServerConfig :=
  RoasteryAuth.mkConfig ("0.0.0.0:7878" : Addr) "./.roastery-data" (RoasteryAuth.Filesystem "./.roastery-data") None
    (RoasteryAuth.mkAuth (Some "tokens") None) (RoasteryAuth.mkUpstream false [] 30).

Definition run_auth : RoasteryAuth.Auth := RoasteryAuth.mkAuthLayer (Some (RoasteryAuth.parse_tokens token_file)) false.

Definition run_request : RoasteryAuth.AuthRequest := RoasteryAuth.mkAuthRequest (Some (Some "Bearer s3cret")) None.

(** PEM files that hold one certificate or key, their path being ["ca"],
    ["cert"] or ["key"]; a client is asked for the certificate of the CA. *)
#[local] Instance run_rustls : Rustls := {|
  read_bytes p := Ok (byte_of <$> list_ascii_of_string p);
  pem_certs pem := Ok [pem];
  pem_private_key pem := Ok (Some pem);
  Verifier := list Bytes;
  add_root _ := None;
  build_verifier := Ok;
  with_single_cert _ _ := None;
  handshake v chain :=
    match v with
    | Some roots => match chain with leaf :: _ => bool_decide (leaf ∈ roots) | [] => false end
    | None => true
    end
|}.

#[local] Instance run_rustls_laws : RustlsLaws.
Proof. by split. Qed.

Example run_starts : RoasteryAuth.start run_env = Ok (run_config, run_auth, None).
Proof. vm_compute. reflexivity. Qed.

(** The same server with TLS and a CA for its clients. *)
Definition mtls_env (name : string) : option RoasteryAuth.OsString :=
  if String.eqb name "ROASTERY_TLS_CERT" then Some (RoasteryAuth.mkOs "cert" true)
  else if String.eqb name "ROASTERY_TLS_KEY" then Some (RoasteryAuth.mkOs "key" true)
  else if String.eqb name "ROASTERY_MTLS_CA_CERT" then Some (RoasteryAuth.mkOs "ca" true)
  else run_env name.

Definition ca_cert : Bytes := byte_of <$> list_ascii_of_string "ca".

Definition mtls_request : RoasteryAuth.AuthRequest := RoasteryAuth.mkAuthRequest None (Some [ca_cert]).

(** A client with a certificate and no token is admitted, over both protocols,
    as the subject of its certificate. *)
Lemma auth_closed_witness :
  exists c a t, RoasteryAuth.start mtls_env = Ok (c, a, Some t)
    /\ RoasteryAuth.reapi_call (RoasteryAuth.tokens a) (RoasteryAuth.with_mtls a) None = true
    /\ RoasteryAuth.decide_request (RoasteryAuth.tokens a) (RoasteryAuth.with_mtls a) mtls_request
        = RoasteryAuth.Allow (RoasteryAuth.PMtls "client")
    /\ exists v, RoasteryAuth.client_verifier t = Some v /\ handshake (Some v) [ca_cert] = true.
Proof.
  destruct (RoasteryAuth.start mtls_env) as [[[c a] l]|e] eqn:E; [| exfalso; vm_compute in E; discriminate E].
  assert (Hl : RoasteryAuth.accepted l (RoasteryAuth.chain mtls_request)).
  { vm_compute in E. injection E as _ _ <-. exists [ca_cert]. split; vm_compute; reflexivity. }
  pose proof (RoasteryAuth.auth_closed mtls_env c a l mtls_request E Hl) as [H1 H2].
  assert (Hd : RoasteryAuth.decide_request (RoasteryAuth.tokens a) (RoasteryAuth.with_mtls a) mtls_request
               = RoasteryAuth.Allow (RoasteryAuth.PMtls "client")).
  { vm_compute in E. injection E as _ <- _. vm_compute. reflexivity. }
  assert (Hb : is_loopback (RoasteryAuth.bind c) = false).
  { vm_compute in E. injection E as <- _ _. vm_compute. reflexivity. }
  destruct (H2 (RoasteryAuth.PMtls "client") Hb Hd) as (ca & t & v & leaf & rest & _ & _ & -> & Hv & Hh & Hc & _).
  exists c, a, t. split; [reflexivity |]. rewrite Hd in H1. split; [exact H1 |]. split; [exact Hd |].
  exists v. split; [exact Hv |]. injection Hc as <- <-. exact Hh.
Defined.

(** ** An upload *)

Definition app : RoasteryHttp.AppState := RoasteryHttp.app_state run_config run_auth.

Definition blob : Bytes := [104; 105]%Z.
Definition other_blob : Bytes := [1; 2; 3]%Z.

(** Between two calls another request stores a blob; one call fails. *)
Definition interference : Turn := mkTurn (persist_at (sha256 other_blob) other_blob) None.
Definition failing : Turn := mkTurn id (Some (mkIo OtherKind "disk full")).

Lemma interference_ok : turn_ok interference.
Proof.
  split; [| | done]; intros f Hf; by apply persist_intact; [apply LockfileFacts.toy_digest_wf |].
Qed.

Lemma failing_ok : turn_ok failing.
Proof. split; [done | intros f _; apply grows_refl | by intros e [= <-]]. Qed.

Definition before : World := mkWorld ∅ 0 [failing; interference].

Lemma before_ok : ok before.
Proof.
  split; [intros d b _ H; unfold file_at in H; cbn in H; by rewrite lookup_empty in H |].
  constructor; [apply failing_ok | constructor; [apply interference_ok | constructor]].
Qed.

Definition upload_name : string := "main/uploads/1f2e/blobs/" +:+ to_hex (sha256 blob) +:+ "/2".
Definition read_name : string := "main/blobs/" +:+ to_hex (sha256 blob) +:+ "/2".

Definition upload : RoasteryGrpc.Rpc :=
  RoasteryGrpc.Write [Some (RoasteryGrpc.mkWriteRequest upload_name 0 [104%Z] false);
                      Some (RoasteryGrpc.mkWriteRequest upload_name 1 [105%Z] true)].

Abbreviation bearer := (Some (Some "Bearer s3cret")).

Definition after : World := (RoasteryGrpc.serve run_auth bearer upload before).2.

Example upload_confirmed : (RoasteryGrpc.serve run_auth bearer upload before).1 = Ok (RoasteryGrpc.Committed 2).
Proof. vm_compute. reflexivity. Qed.

Lemma uploaded : RoasteryFacts.served app before (RoasteryFacts.OverGrpc bearer upload (Ok (RoasteryGrpc.Committed 2))) after.
Proof. apply RoasteryFacts.served_grpc. rewrite <- upload_confirmed. apply surjective_pairing. Qed.

Lemma roastery_intact_witness :
  intact (files after) /\ grows (files before) (files after) /\
  RoasteryFacts.truthful (RoasteryFacts.OverGrpc bearer upload (Ok (RoasteryGrpc.Committed 2))) (files after).
Proof.
  exact (RoasteryFacts.roastery_intact app before before _ after before_ok (rtc_refl _ _) uploaded).
Defined.

Definition run_resource : RoasteryGrpc.WriteResource := RoasteryGrpc.mkWrite "main" "1f2e" (sha256 blob) 2.

Lemma upload_confirms :
  RoasteryFacts.confirmed (sha256 blob) (RoasteryFacts.OverGrpc bearer upload (Ok (RoasteryGrpc.Committed 2))).
Proof. apply (RoasteryFacts.confirmed_write _ _ _ _ run_resource); [vm_compute; reflexivity | reflexivity]. Qed.

Lemma roastery_roundtrip_witness :
  (exists n b w', RoasteryHttp.serve app run_request (RoasteryHttp.GetBlob (to_hex (sha256 blob)) None) after =
    (RoasteryHttp.with_cas_headers n (sha256 blob) (RoasteryHttp.Blob b), w') /\ sha256 b = sha256 blob) /\
  exists l w', RoasteryGrpc.serve run_auth bearer (RoasteryGrpc.Read read_name 0) after = (Ok (RoasteryGrpc.Chunks l), w') /\
    sha256 (List.concat l) = sha256 blob.
Proof.
  assert (Hf : RoasteryFacts.faultless after).
  { unfold RoasteryFacts.faultless. replace (script after) with (@nil Turn); [constructor | vm_compute; reflexivity]. }
  pose proof (RoasteryFacts.roastery_roundtrip app before _ after (sha256 blob) after
    before_ok uploaded upload_confirms (rtc_refl _ _) Hf) as [H1 H2].
  split.
  - apply H1. exists (RoasteryAuth.PBearer "ci"). vm_compute. reflexivity.
  - destruct (H2 bearer read_name (RoasteryGrpc.mkRead "main" (sha256 blob) 2)) as (l & w' & A & B & _);
      [vm_compute; reflexivity | vm_compute; reflexivity | reflexivity | by exists l, w'].
Defined.

(** ** A batch query *)

Definition run_client : RoasteryClient.ClientConfig :=
  RoasteryClient.mkClientConfig "http" (RoasteryClient.BearerToken "s3cret") RoasteryClient.PlainHttp 2.

Definition asked : list ContentHash := sha256 <$> [blob; [9%Z]; other_blob; [7%Z]; [9%Z]].

Lemma missing_exact_witness :
  RoasteryClient.missing (Ex := RoasteryClient.to_server app None) run_client asked after =
  (Ok [sha256 [9%Z]; sha256 [7%Z]; sha256 [9%Z]], after).
Proof.
  transitivity (Ok (RoasteryFacts.lacking after asked) : result RoasteryClient.ClientError _, after).
  - apply (RoasteryFacts.missing_exact run_client app None after asked).
    + vm_compute. reflexivity.
    + intros h [= <-]. exists (RoasteryAuth.PBearer "ci"). vm_compute. reflexivity.
    + apply Forall_fmap, Forall_true. intros b. apply LockfileFacts.toy_digest_wf.
    + vm_compute. discriminate.
  - apply (f_equal (fun x => (Ok x, after))). vm_compute. reflexivity.
Defined.

End RoasteryRuns.
